(* ===== verification/_CoqProject ===== *)
-Q . S2P
Prelude.v
CInt.v
Errno.v
DList.v
Str.v
Pool.v
Parse.v
Filesys.v
WinFiles.v
Config.v
Strerror.v
Log.v
LogQueue.v
Console.v
LogProc.v
Module.v
Socket.v
Listen.v
Event.v
Epoll.v
Select.v
Iocp.v
Process.v
Server.v
Main.v
Boot.v
Sync.v
Util.v
