(* ===== verification/Prelude.v ===== *)
(** * Floppix: a verification library of the web server's core

    Floppix is a web server written in C: a small runtime (lists, strings, pools,
    files, sockets, threads), a configuration language, modules that declare the
    commands of that language, an asynchronous logger, and a core module that opens
    the listening sockets and puts the process in its final state.  The server stops
    there: the cycle of requests (cycle.c) is an empty loop.  This library models
    the runtime and the core as executable definitions and proves what they do, also
    where that is not what they were meant to do.

    ** The parts and their files

    - [Prelude]: the outcomes of C code, loops with fuel, lemmas on lists.
    - [CInt] (memory.h, types.h, bitmask.h): machine integers as [Z] with the
      wrap-around written out, the size macros, bit masks.
    - [Errno] (errno.h), [Strerror] (errno.c): codes and messages, on POSIX systems and on
      Windows.
    - [DList] (algo/list.c, list.h): the intrusive doubly linked list on a store of cells,
      and the macros that traverse one.
    - [Str] (util/string.c): the string functions on lists of characters that end
      where the C object ends; a read behind that end is [UB].
    - [Pool] (system/pool.c, the allocation functions of memory.c): the memory pools
      as blocks, node headers and chains at addresses.
    - [Parse] (core/parse.c): sizes, listening addresses, log levels.
    - [Filesys] (system/filesys.c): files, directories, wildcards, paths on POSIX systems;
      [WinFiles]: the same on Windows.
    - [Config] (core/command.c): scanner, directives, the dispatch to commands.
    - [Log] (core/log.c, fpx_localtime): creation of the logger, its files and lines, and
      the ring of slots as a step relation over any number of threads; [LogQueue]: the
      bounded queue the ring implements; [Console] (core/log.h, [fpx_log_console],
      [fpx_write_fd]): the macros and the recursion of the console; [LogProc]: the
      logger as a process, two copies of the logger around one mapping.
    - [Module] (core/module.c): the life cycle of modules.
    - [Socket] (system/net/socket.c, sockopt.c, sockaddr.c): the socket calls and the
      options, a Module per platform; [Listen] (core/listen.c, connection.c):
      listeners and connections.
    - [Event], [Epoll], [Select], [Iocp] (system/event): the event loops, over the
      configuration and the handlers of events that the repository only declares.  No
      other part calls them.
    - [Process] (system/process.c): credentials and the daemon, both halves.
    - [Server] (core/server.c): the core module, its handlers, context and start.
    - [Main] (core/main.c): the command line, the console and the order of the start; [Boot]: the
      program from the text of a configuration on.
    - [Sync] (system/sync/mutex.c, semaphore.c, system/thread.c): all variants.
    - [Util] (algo/array.c, system/dso.c, time.c, cpuinfo.c, signal.c).

    A definition has the name of the C function, record or macro it models; a part of
    a function that has a definition of its own (a loop body, a branch) is named for
    what it does and sits in front of the function.

    ** State and outcomes

    A C function is a function to [res]: [Ok], [UB] for undefined behaviour, [NoFuel],
    and [Abort] for a failed assertion.  Memory is modelled at the level a component
    needs: [DList] and [Pool] have addresses, stores and aliasing, since their
    correctness is about pointers; strings are lists of characters; the components
    above them take a list as the sequence of its elements, which
    [DList.list_ops_refine] justifies, and pass the state explicitly.

    ** Interfaces

    What is not in the repository is a class with one field per call, on a state
    the client leaves abstract; what a theorem needs of the calls is a record of laws, which
    states their documented behaviour, and each theorem that assumes laws has a witness
    at a concrete system.
    - [Str.PoolAlloc], [Str.PoolCleanup]: what the pool promises to its clients;
      [Pool] has the instances.  [Server.MainPools]: the clean-ups and the destruction of
      the two pools of [main], which have to be told apart because one of them is destroyed
      before the cycle (laws [Boot.pending_laws]).
    - [Filesys.Posix], [Process.ProcCalls], [Socket.Sockets] (laws [Socket.option_laws],
      [Listen.socket_laws]), [Sync.Pthreads] (laws [Sync.pthread_laws]), [Sync.Gcd.Dispatch],
      [Sync.Windows.WinCalls], [WinFiles.WinFiles] (laws [WinFiles.find_laws]),
      [Process.Windows.ConsoleCalls], [Strerror.OsStrerror],
      [Strerror.Windows.FormatMessage], [Log.LoggerEnv], [LogProc.LogProcess]: the operating
      system and the C library ([Boot.file_laws], [Boot.resource_laws],
      [Boot.serving_laws], [Boot.keeps_open]: a file that can be read, resources that can be
      had, calls that succeed, what becomes of open descriptors).
    - [Epoll.EpollCalls] (laws [Epoll.edge_laws]), [Select.SelectCalls], [Iocp.IocpCalls]
      (law [Iocp.status_law]): the calls of the event loops; [Event.EventCalls] (laws
      [Event.handler_laws]): the functions these call and the repository does not define.
    - [Module.ModuleCalls]: what calling a function of a module does; [Server] has the
      instance [server_modules], in which the functions of the core module are those of
      server.c and those of other modules come from [Server.DynLinker].

    The parts meet in [Main]: it reads the command line, creates the configuration
    ([Config.fpx_config_read] over [Filesys]), loads the core module
    ([Module]), processes the directives, which reach the handlers through the tables
    of the modules ([Server.call_handler]), and runs the init functions: the logger
    ([Log]), the listeners ([Listen] over [Socket]), the daemon and the credentials
    ([Process]).

    ** What the theorems show

    - Data structures.  [list_ops_refine]: every sequence of the operations of list.c, the
      insertions and the sort included, is one of operations on sequences, with the size
      field the code computes, which counts the nodes only without those; [mergesort_sorts],
      [searches]; what a traversal
      visits when its body changes the list ([foreach_correct]).  Pools: the invariant
      [pool_ok] holds after creation and is kept; allocations of up to 81864 bytes are
      first fit, disjoint and inside live blocks ([palloc_correct], [pallocs_disjoint]);
      larger ones ([palloc_large]); clearing and clean-ups; and where the code
      leaves its bounds ([palloc_size_limits], [pool_destroy_use_after_free]).
    - Text.  Conversions with their exact saturation ([atoi_atosz_correct]),
      comparisons, copies; sizes and addresses ([parse_size_correct],
      [addr_port_roundtrip]); paths and their UTF-16 form.
    - Files.  Writing is complete, or a call of the system has failed ([file_write_complete]); on Windows, the limits of
      paths and what listing a directory or a pattern delivers ([win_path_limits],
      [win_listing]).
    - Configuration.  The scanner equals a reference definition by lines and words
      ([config_parse_correct]); printing and scanning is the identity
      ([config_roundtrip]); argument counts, handlers and included files.
    - Logger.  The ring loses, repeats and reorders nothing ([logger_fifo]), refines a
      bounded queue ([logger_refines_queue]); while writes succeed it always has a step as
      long as there is work, if no worker logs or all calls fit the ring
      ([logger_progress]), and it waits for itself when a worker logs into a full ring
      ([logger_self_deadlock]); what reaches the files ([line_output]).  The log process
      and the program implement the same queue together ([process_refines_queue]) and do
      not wait for themselves ([process_progress]).  A message to the console ends
      exactly if one of its reports of failed writes can be written
      ([console_termination]).
    - Server.  The command line equals a reference definition
      ([parse_argv_correct]); what is written before anything is opened, also where writes
      fail, and an argument that makes it read past a buffer ([main_console]); the context of the core module stays well typed under all its
      directives ([config_well_typed]); the sockets a start opens and closes, on success and on
      error ([listener_bind_sockets], [start_listeners], [connection_sockets]); the
      order of the start ([core_init_start], [main_start]).  [main_boots] joins the parts:
      started on the text of a list of settings, the program initialises the core module on
      exactly the server the settings describe, and reaches its cycle with an open socket
      for every [listen] directive where no call fails ([main_serves]).
    - Event loops.  Connections left in the queue of an edge-triggered socket
      ([epoll_backlog]) and events given to the wrong object ([epoll_connection_marks]);
      the sets of [select], their bounds, and the order of the visits, of which the first
      that fails ends the program ([select_loop]); the outcomes of a wait for a
      packet ([iocp_outcomes]).
    - The rest: which socket options take effect ([socket_options]), the outcomes of
      creating mutexes and threads ([sync_init_outcomes]), arrays ([array_push]).

    ** Fuel

    Loops that are not structural run [while] or a [Fixpoint] on fuel.  Where the
    object bounds the loop the definition computes the fuel (the length of a string, the
    number of nodes of the heap, a constant for the two levels of [fpx_palloc]) or a theorem
    says how much is enough: more than the number of operations or elements
    for lists, more than the number of bytes for the write loop of a file, since a
    call of [write] that succeeds writes one byte at least, more than the number of visits
    for [Select.fpx_process_events].  The argument is
    [while_total], a measure that every turn of the loop makes smaller.  Reading included files
    and processing directives take their fuel from the caller: a file that includes
    itself is read without end by the code too.  In [main_boots] more fuel than there are
    directives is enough.  The turns of [fpx_select_process_events] are counted by fuel
    because its loop never ends.  The fuel of [Console.log_console] counts the writes that
    fail: one more than those in front of the first that succeeds is enough, and where there
    is none no fuel is; in [Main] it is the field [cs_fuel].

    ** Assumptions that hold throughout

    The target is LP64 with a signed 8-bit [char].  Pools are seen from one thread.  The
    semaphores and mutexes of the logger are assumed not to fail, as the code
    does by ignoring their results.  Calls of the logger made by other components are left
    out of these, except the messages of [main] to the console, whose failed writes report
    themselves.  Of the [fork] of the daemon the child is followed, of that of the logger
    both processes; their steps interleave in any order.  System calls answer as their interface
    says; they may set [errno] or not.

    ** Not modelled

    - core/event.h beyond the handlers the loops call: the structures of events are
      used nowhere.  The files of system/event are not in the build and include headers
      that do not exist; the structures and functions they name without a definition are
      parameters of the model.
    - algo/rbtree.c and system/net/send.c: empty.
    - [fpx_logger_destroy] where the logger is a process (FPX_LOGGER_IS_PROC): it names a
      variable that is not declared and does not compile.
    - The variants of time.c, dso.c, cpuinfo.c, thread.c and memory.c that are one call of
      the system; the calls that start and stop Winsock; the 32-bit [fpx_file_size].
    - The messages of the log calls outside log.c and main.c; the lines of main.c for
      Windows (Winsock, the pause at the end).
    - Code under [#if 0] in command.c and filesys.c.
    - The headers of system/os, the tests, the sample module and the build. *)

From stdpp Require Export base gmap sets list strings sorting.
From Stdlib Require Export ZArith Lia.

Create HintDb fpx.
Create Rewrite HintDb fpx.

Declare Scope fpx_scope.
Delimit Scope fpx_scope with fpx.

(** ** Outcomes of C code

    [Ok a] is a normal return; [UB] a step with undefined behaviour (a null or
    dangling pointer, an out-of-bounds access, a read of an uninitialised
    object, signed overflow); [NoFuel] says that the fuel given to a loop ran
    out before the loop did; [Abort] that the process has ended in [abort()], as it
    does when an assertion fails. *)
Inductive res (A : Type) : Type :=
  | Ok (a : A)
  | UB
  | NoFuel
  | Abort.
Arguments Ok {A} a.
Arguments UB {A}.
Arguments NoFuel {A}.
Arguments Abort {A}.

#[export] Instance res_ret : MRet res := fun A a => Ok a.
#[export] Instance res_bind : MBind res := fun A B f m =>
  match m with
  | Ok a => f a
  | UB => UB
  | NoFuel => NoFuel
  | Abort => Abort
  end.
#[export] Instance res_fmap : FMap res := fun A B f m =>
  match m with
  | Ok a => Ok (f a)
  | UB => UB
  | NoFuel => NoFuel
  | Abort => Abort
  end.

#[export] Instance res_eq_dec `{EqDecision A} : EqDecision (res A).
Proof. solve_decision. Defined.

(** [r ⇓ a]: the run ends normally with [a]. *)
Notation "r ⇓ a" := (r = Ok a) (at level 70, no associativity) : fpx_scope.

Definition of_option {A} (o : option A) : res A :=
  match o with Some a => Ok a | None => UB end.

(** [guard] in the code's sense: [UB] unless the access is allowed. *)
Definition require (b : bool) : res unit := if b then Ok tt else UB.
(** [fpx_assert]. *)
Definition fpx_assert (b : bool) : res unit := if b then Ok tt else Abort.

Lemma bind_ok {A B} (a : A) (f : A → res B) : (Ok a ≫= f) = f a.
Proof. done. Qed.

Lemma bind_inv {A B} (m : res A) (f : A → res B) b :
  (m ≫= f) = Ok b → ∃ a, m = Ok a ∧ f a = Ok b.
Proof. destruct m; simpl; [eauto | done..]. Qed.

Lemma bind_assoc {A B C} (m : res A) (f : A → res B) (g : B → res C) :
  ((m ≫= f) ≫= g) = (m ≫= (λ a, f a ≫= g)).
Proof. by destruct m. Qed.

Lemma of_option_inv {A} (o : option A) a : of_option o = Ok a ↔ o = Some a.
Proof. destruct o; split; simpl; congruence. Qed.

Lemma require_inv b u : require b = Ok u → b = true.
Proof. by destruct b. Qed.

#[export] Hint Rewrite @bind_ok @bind_assoc : fpx.

(** Decompose every [... ≫= ... = Ok _] hypothesis. *)
Ltac res_inv :=
  repeat match goal with
  | H : (_ ≫= _) = Ok _ |- _ =>
      let a := fresh "a" in let Ha := fresh "Ha" in
      apply bind_inv in H; destruct H as (a & Ha & H)
  | H : of_option _ = Ok _ |- _ => apply of_option_inv in H
  | H : require _ = Ok _ |- _ => apply require_inv in H
  | H : Ok _ = Ok _ |- _ => injection H; clear H; intros; subst
  | H : UB = Ok _ |- _ => discriminate H
  | H : NoFuel = Ok _ |- _ => discriminate H
  | H : Abort = Ok _ |- _ => discriminate H
  end.

(** ** Loops

    A C loop is a body that either continues with a new state ([inl]) or
    leaves the loop with a result ([inr]). *)
Fixpoint while {S R : Type} (fuel : nat) (body : S → res (S + R)) (s : S) : res R :=
  match fuel with
  | O => NoFuel
  | Datatypes.S fuel' =>
      body s ≫= λ r, match r with
                     | inl s' => while fuel' body s'
                     | inr x => Ok x
                     end
  end.

(** A loop whose measure decreases and whose invariant is kept never runs out
    of fuel, and ends in a state its postcondition describes. *)
Lemma while_total {S R : Type} (body : S → res (S + R)) (Inv : S → Prop)
    (Post : R → Prop) (measure : S → nat) :
  (∀ s, Inv s →
     (∃ s', body s = Ok (inl s') ∧ Inv s' ∧ measure s' < measure s) ∨
     (∃ x, body s = Ok (inr x) ∧ Post x)) →
  ∀ fuel s, Inv s → measure s < fuel → ∃ x, while fuel body s = Ok x ∧ Post x.
Proof.
  intros Hstep fuel. induction fuel as [|fuel IH]; intros s Hs Hm; [lia|].
  simpl. destruct (Hstep s Hs) as [(s' & -> & Hs' & Hlt)|(x & -> & Hx)]; simpl.
  - apply IH; [done | lia].
  - eauto.
Qed.

(** More fuel does not change a result. *)
Lemma while_mono {S R : Type} (body : S → res (S + R)) fuel fuel' s x :
  fuel ≤ fuel' → while fuel body s = Ok x → while fuel' body s = Ok x.
Proof.
  revert fuel' s. induction fuel as [|fuel IH]; intros fuel' s Hle H; [done|].
  destruct fuel' as [|fuel']; [lia|]. simpl in *.
  apply bind_inv in H as ([s'|y] & -> & H); simpl; [|done].
  apply IH; [lia | done].
Qed.

(** The first of [n] numbers with a decidable property, if there is one. *)
Lemma first_false (p : nat → bool) n :
  (∃ k, k < n ∧ p k = false ∧ ∀ i, i < k → p i = true) ∨ (∀ i, i < n → p i = true).
Proof.
  induction n as [|n [(k & Hk & Hp & Hi)|Hall]]; [right; lia|left; exists k; eauto with lia|].
  destruct (p n) eqn:E; [|left; exists n; eauto with lia].
  right. intros i Hi. destruct (decide (i = n)) as [->|]; [done|]. apply Hall. lia.
Qed.

(** ** Lists *)

(** The first element of a list, or a default: the successor pointer of the
    element in front of it. *)
Definition first {A} (l : list A) (d : option A) : option A :=
  match l with [] => d | x :: _ => Some x end.

(** The last element of a list, or a default: the predecessor pointer of the
    element behind it. *)
Definition final {A} (l : list A) (d : option A) : option A :=
  match last l with Some x => Some x | None => d end.

Lemma first_app {A} (l1 l2 : list A) d : first (l1 ++ l2) d = first l1 (first l2 d).
Proof. by destruct l1. Qed.

Lemma final_cons {A} (x : A) l d : final (x :: l) d = final l (Some x).
Proof. unfold final. rewrite last_cons. by destruct (last l). Qed.

Lemma final_snoc {A} (l : list A) x d : final (l ++ [x]) d = Some x.
Proof. unfold final. by rewrite last_snoc. Qed.

Lemma final_app {A} (l1 l2 : list A) d : final (l1 ++ l2) d = final l2 (final l1 d).
Proof.
  revert d. induction l1 as [|x l1 IH]; intros d; [done|].
  simpl. by rewrite !final_cons, IH.
Qed.

#[export] Hint Rewrite @first_app @final_app @final_cons @final_snoc : fpx.

(** Every list is empty or ends in an element. *)
Lemma list_snoc_case {A} (l : list A) : l = [] ∨ ∃ l' x, l = l' ++ [x].
Proof. induction l using rev_ind; eauto. Qed.

Lemma NoDup_snoc {A} (l : list A) x : NoDup (l ++ [x]) → x ∉ l.
Proof. intros (_ & H & _)%NoDup_app Hx. by apply (H x Hx), list_elem_of_singleton. Qed.
