(* ===== verification/CInt.v ===== *)
(** * Machine integers and bit macros

    The integer types of an LP64 target as [Z] with their wrap-around written
    out: [size_t] and [uintptr_t] are 64 bits wide, [int] 32, [ssize_t] 64
    (two's complement), [char] is signed.  Models the macros of
    [include/floppix/system/memory.h], [types.h] and [util/bitmask.h]. *)

From S2P Require Import Prelude.
Open Scope Z_scope.

Definition FPX_INT_T_MAX : Z := 2147483647.
Definition FPX_SSIZE_T_MAX : Z := 9223372036854775807.
Definition FPX_SIZE_T_MAX : Z := 18446744073709551615.

(** Conversion to an unsigned type: reduction modulo its range. *)
Definition u64 (z : Z) : Z := z mod 2 ^ 64.
Definition u32 (z : Z) : Z := z mod 2 ^ 32.
Definition u16 (z : Z) : Z := z mod 2 ^ 16.
Definition u8 (z : Z) : Z := z mod 2 ^ 8.

(** Conversion to a signed type (two's complement, as every supported compiler
    defines it). *)
Definition s32 (z : Z) : Z := (z + 2 ^ 31) mod 2 ^ 32 - 2 ^ 31.
Definition s64 (z : Z) : Z := (z + 2 ^ 63) mod 2 ^ 64 - 2 ^ 63.
Definition s8 (z : Z) : Z := (z + 2 ^ 7) mod 2 ^ 8 - 2 ^ 7.

(** Signed arithmetic: overflow is undefined behaviour. *)
Definition int_result (z : Z) : res Z :=
  if (- 2 ^ 31 <=? z) && (z <? 2 ^ 31) then Ok z else UB.
Definition ssize_result (z : Z) : res Z :=
  if (- 2 ^ 63 <=? z) && (z <? 2 ^ 63) then Ok z else UB.

Lemma u64_small z : 0 ≤ z < 2 ^ 64 → u64 z = z.
Proof. apply Z.mod_small. Qed.
Lemma u64_range z : 0 ≤ u64 z < 2 ^ 64.
Proof. apply Z.mod_pos_bound. lia. Qed.
Lemma u64_add_l a b : u64 (u64 a + b) = u64 (a + b).
Proof. apply Zplus_mod_idemp_l. Qed.
Lemma u64_sub_l a b : u64 (u64 a - b) = u64 (a - b).
Proof. apply Zminus_mod_idemp_l. Qed.
Lemma u32_small z : 0 ≤ z < 2 ^ 32 → u32 z = z.
Proof. apply Z.mod_small. Qed.
Lemma u32_range z : 0 ≤ u32 z < 2 ^ 32.
Proof. apply Z.mod_pos_bound. lia. Qed.
Lemma s32_small z : - 2 ^ 31 ≤ z < 2 ^ 31 → s32 z = z.
Proof. intros H. unfold s32. rewrite Z.mod_small; lia. Qed.
Lemma s32_range z : - 2 ^ 31 ≤ s32 z < 2 ^ 31.
Proof. unfold s32. pose proof (Z.mod_pos_bound (z + 2 ^ 31) (2 ^ 32)). lia. Qed.
Lemma s64_small z : - 2 ^ 63 ≤ z < 2 ^ 63 → s64 z = z.
Proof. intros H. unfold s64. rewrite Z.mod_small; lia. Qed.

(** A signed difference taken through unsigned arithmetic is the difference,
    as long as it fits. *)
Lemma s32_u32 z : s32 (u32 z) = s32 z.
Proof.
  unfold s32, u32. f_equal. by rewrite Zplus_mod_idemp_l.
Qed.
Lemma u32_sub a b : u32 (u32 a - u32 b) = u32 (a - b).
Proof. unfold u32. symmetry. apply Zminus_mod. Qed.

Lemma int_result_ok z : - 2 ^ 31 ≤ z < 2 ^ 31 → int_result z = Ok z.
Proof.
  intros [H1 H2]. unfold int_result.
  by rewrite (proj2 (Z.leb_le _ _)), (proj2 (Z.ltb_lt _ _)).
Qed.
Lemma ssize_result_ok z : - 2 ^ 63 ≤ z < 2 ^ 63 → ssize_result z = Ok z.
Proof.
  intros [H1 H2]. unfold ssize_result.
  by rewrite (proj2 (Z.leb_le _ _)), (proj2 (Z.ltb_lt _ _)).
Qed.

#[export] Hint Resolve u64_range u32_range s32_range : fpx.
#[export] Hint Rewrite u64_add_l u64_sub_l s32_u32 u32_sub : fpx.

(** ** [fpx_align], [fpx_align_default] (memory.h) *)
Definition FPX_ALIGN_SIZE : Z := 8.

Definition fpx_align (p b : Z) : Z :=
  Z.land (u64 (p + (b - 1))) (u64 (Z.lnot (b - 1))).
Definition fpx_align_default (p : Z) : Z := fpx_align p FPX_ALIGN_SIZE.

(** The mask arithmetic clears the low three bits of [p + 7]. *)
Lemma fpx_align_default_eq p :
  fpx_align_default p = u64 (p + 7) - u64 (p + 7) mod 8.
Proof.
  unfold fpx_align_default, fpx_align, FPX_ALIGN_SIZE. change (8 - 1) with 7.
  pose proof (u64_range (p + 7)) as Hr. set (x := u64 (p + 7)) in *.
  replace (u64 (Z.lnot 7)) with (Z.shiftl (Z.ones 61) 3) by reflexivity.
  replace (x - x mod 8) with (Z.shiftl (Z.shiftr x 3) 3).
  2: { rewrite Z.shiftl_mul_pow2, Z.shiftr_div_pow2 by lia.
       change (2 ^ 3) with 8. pose proof (Z.div_mod x 8). lia. }
  apply Z.bits_inj'. intros n Hn. rewrite Z.land_spec.
  destruct (Z_lt_le_dec n 3).
  - rewrite !Z.shiftl_spec_low by lia. apply andb_false_r.
  - rewrite !Z.shiftl_spec, Z.shiftr_spec by lia.
    replace (n - 3 + 3) with n by lia.
    destruct (Z_lt_le_dec n 64).
    + rewrite Z.ones_spec_low by lia. apply andb_true_r.
    + rewrite Z.ones_spec_high by lia. rewrite andb_false_r.
      symmetry. rewrite <- (Z.mod_small x (2 ^ 64)) by lia.
      apply Z.mod_pow2_bits_high. lia.
Qed.

Lemma fpx_align_default_spec p :
  0 ≤ p ≤ 2 ^ 64 - 8 →
  p ≤ fpx_align_default p < p + 8 ∧ fpx_align_default p mod 8 = 0.
Proof.
  intros H. rewrite fpx_align_default_eq.
  rewrite u64_small by lia.
  split; [pose proof (Z.mod_pos_bound (p + 7) 8); lia|].
  rewrite Zminus_mod, Zmod_mod, Z.sub_diag. done.
Qed.

(** Beyond that the addition wraps, and the result is zero. *)
Lemma fpx_align_default_wrap p :
  2 ^ 64 - 8 < p < 2 ^ 64 → fpx_align_default p = 0.
Proof.
  intros H. rewrite fpx_align_default_eq.
  replace (u64 (p + 7)) with (p + 7 - 2 ^ 64).
  - rewrite Z.mod_small by lia. lia.
  - unfold u64. apply (Zmod_unique _ _ 1); lia.
Qed.

(** ** Bit masks (bitmask.h) *)
Definition fpx_bit_set (x bit : Z) : Z := Z.lor x bit.
Definition fpx_bit_unset (x bit : Z) : Z := Z.land x (u32 (Z.lnot bit)).
Definition fpx_bit_is_set (x bit : Z) : bool := negb (Z.land x bit =? 0).
