(* ===== verification/Errno.v ===== *)
(** * Error codes: [include/floppix/system/errno.h]

    [fpx_err_t] is an [int]: [0] for success, small negative values for the
    server's own conditions, [1 .. 19999] for the operating system's [errno],
    and a domain of 100 codes from 20000 on per subsystem. *)

From S2P Require Import Prelude CInt.
Open Scope Z_scope.

Abbreviation fpx_err_t := Z (only parsing).

Definition FPX_OK : fpx_err_t := 0.
Definition FPX_FAILED : fpx_err_t := -1.
Definition FPX_BUSY : fpx_err_t := -2.
Definition FPX_DONE : fpx_err_t := -3.
Definition FPX_ABORT : fpx_err_t := -4.
Definition FPX_DECLINED : fpx_err_t := -5.
Definition FPX_NOT_FOUND : fpx_err_t := -6.

Definition FPX_ERROR_DOMAIN_BASE : Z := 20000.
Definition FPX_ERRSPACE_SIZE : Z := 100.
Definition FPX_ERROR_DOMAIN (domain : Z) : Z :=
  FPX_ERROR_DOMAIN_BASE + domain * FPX_ERRSPACE_SIZE.

Definition FPX_ERR_CONFIG : fpx_err_t := FPX_ERROR_DOMAIN 1.
Definition FPX_ERR_CONFIG_SYNTAX : fpx_err_t := FPX_ERR_CONFIG + 1.
Definition FPX_ERR_FILESYS : fpx_err_t := FPX_ERROR_DOMAIN 2.
Definition FPX_ERR_FILESYS_ABS_PATH : fpx_err_t := FPX_ERR_FILESYS + 1.
Definition FPX_ERR_FILESYS_LONG_PATH : fpx_err_t := FPX_ERR_FILESYS + 2.
Definition FPX_ERR_SSL : fpx_err_t := FPX_ERROR_DOMAIN 3.
Definition FPX_ERR_SSL_INIT : fpx_err_t := FPX_ERR_SSL + 1.
