(* ===== verification/DList.v ===== *)
(** * The intrusive doubly linked list: [src/src/algo/list.c], [include/floppix/algo/list.h]

    Nodes live in a store of [next]/[prev] cells; a list header is the
    [fpx_list_t] struct.  The operations are the pointer updates of the C code,
    with [UB] for a null or dangling pointer; [links] relates a header and a
    store to the sequence of nodes they represent. *)

From S2P Require Import Prelude CInt Errno.
Open Scope Z_scope.

Abbreviation loc := positive.

Record fpx_list_node_t := Node { n_next : option loc; n_prev : option loc }.
Record fpx_list_t := List { l_head : option loc; l_tail : option loc; l_size : Z }.

Abbreviation store := (gmap loc fpx_list_node_t).

#[export] Instance node_eq_dec : EqDecision fpx_list_node_t.
Proof. solve_decision. Defined.
#[export] Instance list_t_eq_dec : EqDecision fpx_list_t.
Proof. solve_decision. Defined.

(** ** Memory accesses *)

Definition load (m : store) (x : loc) : res fpx_list_node_t := of_option (m !! x).
Definition deref (p : option loc) : res loc := of_option p.

(** [x->next = v] and [x->prev = v]. *)
Definition set_next (m : store) (x : loc) (v : option loc) : res store :=
  n ← load m x; Ok (<[x := Node v (n_prev n)]> m).
Definition set_prev (m : store) (x : loc) (v : option loc) : res store :=
  n ← load m x; Ok (<[x := Node (n_next n) v]> m).

(** ** The operations of list.c *)

Definition fpx_list_init (l : fpx_list_t) : fpx_list_t := List None None 0.
Definition fpx_list_clear (l : fpx_list_t) : fpx_list_t := List None None 0.

(** The accessors of list.h (macros, or inline functions in a debug build). *)
Definition fpx_list_head (l : fpx_list_t) : option loc := l_head l.
Definition fpx_list_tail (l : fpx_list_t) : option loc := l_tail l.
Definition fpx_list_size (l : fpx_list_t) : Z := l_size l.
Definition fpx_list_next (m : store) (x : loc) : res (option loc) :=
  n ← load m x; Ok (n_next n).
Definition fpx_list_prev (m : store) (x : loc) : res (option loc) :=
  n ← load m x; Ok (n_prev n).

Definition fpx_list_push_front (l : fpx_list_t) (m : store) (node : loc)
    : res (fpx_list_t * store) :=
  m ← set_prev m node None;
  '(tl, m) ← match l_head l with
             | None => m ← set_next m node None; Ok (Some node, m)
             | Some h => m ← set_prev m h (Some node);
                         m ← set_next m node (l_head l); Ok (l_tail l, m)
             end;
  Ok (List (Some node) tl (u64 (l_size l + 1)), m).

Definition fpx_list_push_back (l : fpx_list_t) (m : store) (node : loc)
    : res (fpx_list_t * store) :=
  m ← set_next m node None;
  '(hd, m) ← match l_tail l with
             | None => m ← set_prev m node None; Ok (Some node, m)
             | Some t => m ← set_next m t (Some node);
                         m ← set_prev m node (l_tail l); Ok (l_head l, m)
             end;
  Ok (List hd (Some node) (u64 (l_size l + 1)), m).

Definition fpx_list_remove (l : fpx_list_t) (m : store) (node : loc)
    : res (fpx_list_t * store) :=
  n ← load m node;
  m ← match n_next n with None => Ok m | Some s => set_prev m s (n_prev n) end;
  n ← load m node;
  m ← match n_prev n with None => Ok m | Some p => set_next m p (n_next n) end;
  n ← load m node;
  Ok (List (if decide (l_head l = Some node) then n_next n else l_head l)
           (if decide (l_tail l = Some node) then n_prev n else l_tail l)
           (u64 (l_size l - 1)), m).

(** [while (temp1) { if (compar(temp1)) return temp1; temp1 = temp1->next; }] *)
Definition find_step (next : store → loc → res (option loc)) (m : store)
    (compar : loc → bool) (temp : option loc) : res (option loc + option loc) :=
  match temp with
  | None => Ok (inr None)
  | Some x => if compar x then Ok (inr (Some x))
              else n ← next m x; Ok (inl n)
  end.

Definition fpx_list_find (fuel : nat) (l : fpx_list_t) (m : store)
    (compar : loc → bool) : res (option loc) :=
  while fuel (find_step fpx_list_next m compar) (l_head l).

Definition fpx_list_insert_before (l : fpx_list_t) (m : store)
    (before_node node : loc) : res (fpx_list_t * store) :=
  b ← load m before_node;
  match n_prev b with
  | None =>
      m ← set_prev m node None;
      m ← set_next m node (Some before_node);
      m ← set_prev m before_node (Some node);
      Ok (List (Some node) (l_tail l) (l_size l), m)
  | Some _ =>
      m ← set_next m node (Some before_node);
      b ← load m before_node;
      m ← set_prev m node (n_prev b);
      b ← load m before_node;
      p ← deref (n_prev b);
      m ← set_next m p (Some node);
      m ← set_prev m before_node (Some node);
      Ok (l, m)
  end.

Definition fpx_list_insert_after (l : fpx_list_t) (m : store)
    (after_node node : loc) : res (fpx_list_t * store) :=
  a ← load m after_node;
  match n_next a with
  | None =>
      m ← set_prev m node (Some after_node);
      m ← set_next m node None;
      m ← set_next m after_node (Some node);
      Ok (List (l_head l) (Some node) (l_size l), m)
  | Some _ =>
      m ← set_prev m node (Some after_node);
      a ← load m after_node;
      m ← set_next m node (n_next a);
      a ← load m after_node;
      s ← deref (n_next a);
      m ← set_prev m s (Some node);
      m ← set_next m after_node (Some node);
      Ok (l, m)
  end.

Definition fpx_list_remove_first (fuel : nat) (l : fpx_list_t) (m : store)
    (compar : loc → bool) : res (Z * fpx_list_t * store) :=
  r ← while fuel (find_step fpx_list_next m compar) (l_head l);
  match r with
  | None => Ok (FPX_FAILED, l, m)
  | Some temp => '(l, m) ← fpx_list_remove l m temp; Ok (FPX_OK, l, m)
  end.

Definition fpx_list_remove_last (fuel : nat) (l : fpx_list_t) (m : store)
    (compar : loc → bool) : res (Z * fpx_list_t * store) :=
  r ← while fuel (find_step fpx_list_prev m compar) (l_tail l);
  match r with
  | None => Ok (FPX_FAILED, l, m)
  | Some temp => '(l, m) ← fpx_list_remove l m temp; Ok (FPX_OK, l, m)
  end.

(** ** Merge sort *)

Section Mergesort.
Variable compar : loc → loc → Z.

(** [memset(list, 0, sizeof(fpx_list_node_t))]: the size of a node is two
    pointers, so the header's [head] and [tail] are cleared and [size] is not. *)
Definition memset_node_size (l : fpx_list_t) : fpx_list_t :=
  List None None (l_size l).

Fixpoint merge_both (fuel : nat) (l : fpx_list_t) (m : store)
    (left right : option loc) : res (fpx_list_t * store * option loc * option loc) :=
  match fuel with
  | O => NoFuel
  | S fuel' =>
      match left, right with
      | Some a, Some b =>
          if compar a b =? -1 then
            temp ← fpx_list_next m a;
            '(l, m) ← fpx_list_push_back l m a;
            merge_both fuel' l m temp right
          else
            temp ← fpx_list_next m b;
            '(l, m) ← fpx_list_push_back l m b;
            merge_both fuel' l m left temp
      | _, _ => Ok (l, m, left, right)
      end
  end.

Fixpoint merge_rest (fuel : nat) (l : fpx_list_t) (m : store) (p : option loc)
    : res (fpx_list_t * store) :=
  match fuel with
  | O => NoFuel
  | S fuel' =>
      match p with
      | Some a =>
          temp ← fpx_list_next m a;
          '(l, m) ← fpx_list_push_back l m a;
          merge_rest fuel' l m temp
      | None => Ok (l, m)
      end
  end.

Definition fpx_list_mergesort_merge (fuel : nat) (l : fpx_list_t) (m : store)
    (left right : option loc) : res (fpx_list_t * store) :=
  '(l, m, left, right) ← merge_both fuel (memset_node_size l) m left right;
  '(l, m) ← merge_rest fuel l m left;
  merge_rest fuel l m right.

(** [for (i = 1; i < m; ++i) node = node->next;] takes [m - 1] steps. *)
Fixpoint advance (n : nat) (m : store) (node : option loc) : res (option loc) :=
  match n with
  | O => Ok node
  | S n' => x ← deref node; p ← fpx_list_next m x; advance n' m p
  end.

Fixpoint fpx_list_mergesort (fuel : nat) (l : fpx_list_t) (m : store)
    : res (fpx_list_t * store) :=
  match fuel with
  | O => NoFuel
  | S fuel' =>
      if l_size l <? 2 then Ok (l, m) else
      let mid := l_size l / 2 in
      node ← advance (Z.to_nat (mid - 1)) m (l_head l);
      let list1 := List (l_head l) node mid in
      t1 ← deref node;
      p ← fpx_list_next m t1;
      let list2 := List p (l_tail l) (u64 (l_size l - mid)) in
      m ← set_next m t1 None;
      '(list1, m) ← fpx_list_mergesort fuel' list1 m;
      '(list2, m) ← fpx_list_mergesort fuel' list2 m;
      fpx_list_mergesort_merge fuel l m (l_head list1) (l_head list2)
  end.
End Mergesort.

(** ** The traversal macros of list.h

    The body of a traversal sees the node and may change the list, the store and a
    value of its own; the macros read [next] (or [prev]) of the node only after
    the body has run. *)
Section Foreach.
Context {A : Type}.
Variable body : loc → fpx_list_t * store * A → res (fpx_list_t * store * A).

Definition foreach_step (next : store → loc → res (option loc))
    (s : fpx_list_t * store * A * option loc)
    : res (fpx_list_t * store * A * option loc + fpx_list_t * store * A) :=
  let '(s, pos) := s in
  match pos with
  | None => Ok (inr s)
  | Some x => '(l, m, a) ← body x s;
              pos ← next m x;
              Ok (inl (l, m, a, pos))
  end.

Definition fpx_list_foreach (fuel : nat) (s : fpx_list_t * store * A)
    : res (fpx_list_t * store * A) :=
  while fuel (foreach_step fpx_list_next) (s, fpx_list_head s.1.1).

Definition fpx_list_foreach_reverse (fuel : nat) (s : fpx_list_t * store * A)
    : res (fpx_list_t * store * A) :=
  while fuel (foreach_step fpx_list_prev) (s, fpx_list_tail s.1.1).
End Foreach.

(** [fpx_list_cleanup]: the head is taken off the list, then given to the
    callback, until there is none.  (The macro names [list1] instead of its
    parameter, so it only expands where a list of that name is in scope.) *)
Definition cleanup_step {A} (callback : loc → store * A → res (store * A))
    (s : fpx_list_t * store * A)
    : res (fpx_list_t * store * A + fpx_list_t * store * A) :=
  let '(l, m, a) := s in
  match fpx_list_head l with
  | None => Ok (inr (l, m, a))
  | Some pos => '(l, m) ← fpx_list_remove l m pos;
                '(m, a) ← callback pos (m, a);
                Ok (inl (l, m, a))
  end.

Definition fpx_list_cleanup {A} (fuel : nat) (callback : loc → store * A → res (store * A))
    (s : fpx_list_t * store * A) : res (fpx_list_t * store * A) :=
  while fuel (cleanup_step callback) s.

(** ** What a header and a store represent *)

(** [dseg m pp l nn]: the cells of [l] are linked in order, the first one's
    [prev] is [pp] and the last one's [next] is [nn]. *)
Fixpoint dseg (m : store) (pp : option loc) (l : list loc) (nn : option loc) : Prop :=
  match l with
  | [] => True
  | x :: l' => m !! x = Some (Node (first l' nn) pp) ∧ dseg m (Some x) l' nn
  end.

(** The header [h] and the store [m] hold the sequence [l]. *)
Definition links (h : fpx_list_t) (m : store) (l : list loc) : Prop :=
  NoDup l ∧ l_head h = first l None ∧ l_tail h = final l None ∧ dseg m None l None.

(** ... and the [size] field counts it. *)
Definition dlist (h : fpx_list_t) (m : store) (l : list loc) : Prop :=
  links h m l ∧ l_size h = Z.of_nat (length l) ∧ Z.of_nat (length l) < 2 ^ 64.

(** The forward chain alone, which is all the sorting code reads. *)
Fixpoint nchain (m : store) (p : option loc) (l : list loc) : Prop :=
  match l with
  | [] => p = None
  | x :: l' => p = Some x ∧ ∃ n, m !! x = Some n ∧ nchain m (n_next n) l'
  end.

(** [m'] agrees with [m] outside [l]. *)
Definition frame (m m' : store) (l : list loc) : Prop :=
  ∀ y, y ∉ l → m' !! y = m !! y.

Lemma dseg_app m pp l1 l2 nn :
  dseg m pp (l1 ++ l2) nn ↔ dseg m pp l1 (first l2 nn) ∧ dseg m (final l1 pp) l2 nn.
Proof.
  revert pp. induction l1 as [|x l1 IH]; intros pp; simpl.
  - tauto.
  - rewrite IH, first_app, final_cons. tauto.
Qed.

Lemma dseg_frame m m' pp l nn :
  (∀ x, x ∈ l → m' !! x = m !! x) → dseg m pp l nn → dseg m' pp l nn.
Proof.
  revert pp. induction l as [|x l IH]; intros pp Hf; simpl; [done|].
  intros [Hx Hl]. split.
  - rewrite Hf by set_solver. done.
  - apply IH; [set_solver | done].
Qed.

Lemma nchain_frame m m' p l :
  (∀ x, x ∈ l → m' !! x = m !! x) → nchain m p l → nchain m' p l.
Proof.
  revert p. induction l as [|x l IH]; intros p Hf; simpl; [done|].
  intros (-> & n & Hx & Hl). split; [done|]. exists n.
  rewrite Hf by set_solver. split; [done|]. apply IH; [set_solver | done].
Qed.

Lemma dseg_nchain m pp l : dseg m pp l None → nchain m (first l None) l.
Proof.
  revert pp. induction l as [|x l IH]; intros pp; simpl; [done|].
  intros [Hx Hl]. split; [done|]. eexists; split; [done|]. simpl. eauto.
Qed.

Lemma links_nchain h m l : links h m l → nchain m (l_head h) l.
Proof. intros (_ & -> & _ & H). by eapply dseg_nchain. Qed.

Lemma dseg_lookup m pp l nn x : dseg m pp l nn → x ∈ l → is_Some (m !! x).
Proof.
  revert pp. induction l as [|y l IH]; intros pp; [set_solver|].
  intros [Hy Hl] [->|Hx]%elem_of_cons; eauto.
Qed.

(** Changing the cell of an element outside the segment, or the outer link at
    one of its ends. *)
Lemma dseg_insert_ne m pp l nn x n :
  x ∉ l → dseg m pp l nn → dseg (<[x := n]> m) pp l nn.
Proof.
  intros Hx. apply dseg_frame. intros y Hy. apply lookup_insert_ne. set_solver.
Qed.

Lemma dseg_last m pp l y nn :
  dseg m pp (l ++ [y]) nn ↔ dseg m pp l (Some y) ∧ m !! y = Some (Node nn (final l pp)).
Proof. rewrite dseg_app. simpl. tauto. Qed.

Lemma frame_insert m l x n : x ∈ l → frame m (<[x := n]> m) l.
Proof. intros Hx y Hy. apply lookup_insert_ne. set_solver. Qed.

Lemma frame_refl m l : frame m m l.
Proof. by intros y _. Qed.

Lemma frame_trans m1 m2 m3 l : frame m1 m2 l → frame m2 m3 l → frame m1 m3 l.
Proof. intros H1 H2 y Hy. by rewrite H2, H1. Qed.

Lemma frame_mono m m' l l' : l ⊆ l' → frame m m' l → frame m m' l'.
Proof. intros Hs H y Hy. apply H. set_solver. Qed.

#[export] Hint Resolve frame_insert frame_refl dseg_insert_ne : fpx.

Lemma set_next_ok m x n v : m !! x = Some n → set_next m x v = Ok (<[x := Node v (n_prev n)]> m).
Proof. intros H. unfold set_next, load. by rewrite H. Qed.
Lemma set_prev_ok m x n v : m !! x = Some n → set_prev m x v = Ok (<[x := Node (n_next n) v]> m).
Proof. intros H. unfold set_prev, load. by rewrite H. Qed.
Lemma load_ok m x n : m !! x = Some n → load m x = Ok n.
Proof. intros H. unfold load. by rewrite H. Qed.

(** Run the pointer updates on a symbolic store: every access is looked up
    through the pending insertions. *)
Ltac mem_step :=
  first [ rewrite bind_ok
        | erewrite load_ok by (simplify_map_eq; eauto)
        | erewrite set_next_ok by (simplify_map_eq; eauto)
        | erewrite set_prev_ok by (simplify_map_eq; eauto) ].
Ltac mem_run := repeat (mem_step; cbn [n_next n_prev]).

(** ** Insertion at the ends *)

Lemma push_back_links h m l x :
  links h m l → x ∉ l → is_Some (m !! x) →
  ∃ h' m', fpx_list_push_back h m x = Ok (h', m') ∧ links h' m' (l ++ [x]) ∧
    l_size h' = u64 (l_size h + 1) ∧ frame m m' (l ++ [x]).
Proof.
  intros (Hnd & Hhd & Htl & Hseg) Hx [n Hn].
  unfold fpx_list_push_back. rewrite Htl, Hhd.
  destruct (list_snoc_case l) as [->|(l' & t & ->)].
  - unfold final; simpl. mem_run. eexists _, _; split; [done|].
    split_and!; simpl; [|done|by intros y Hy; rewrite !lookup_insert_ne by set_solver].
    split_and!; simpl; [apply NoDup_singleton|done|done|].
    by simplify_map_eq.
  - rewrite final_snoc. apply dseg_last in Hseg as [Hl' Ht].
    assert (t ∉ l') as Htl' by (by eapply NoDup_snoc).
    assert (x ≠ t) by set_solver.
    mem_run. eexists _, _; split; [done|].
    split_and!; simpl; [|done|by intros y Hy; rewrite !lookup_insert_ne by set_solver].
    split_and!; simpl; [| |by rewrite final_snoc|].
    + apply NoDup_app; split_and!; [done|set_solver|apply NoDup_singleton].
    + by destruct l'.
    + rewrite !dseg_last. simplify_map_eq. rewrite final_snoc.
      split_and!; [|done|done].
      repeat apply dseg_insert_ne; set_solver.
Qed.

Lemma push_front_links h m l x :
  links h m l → x ∉ l → is_Some (m !! x) →
  ∃ h' m', fpx_list_push_front h m x = Ok (h', m') ∧ links h' m' (x :: l) ∧
    l_size h' = u64 (l_size h + 1) ∧ frame m m' (x :: l).
Proof.
  intros (Hnd & Hhd & Htl & Hseg) Hx [n Hn].
  unfold fpx_list_push_front. rewrite Htl, Hhd.
  destruct l as [|y l]; simpl.
  - mem_run. eexists _, _; split; [done|].
    split_and!; simpl; [|done|by intros z Hz; rewrite !lookup_insert_ne by set_solver].
    split_and!; simpl; [apply NoDup_singleton|done|done|]. by simplify_map_eq.
  - destruct Hseg as [Hy Hseg]. apply NoDup_cons in Hnd as [Hyl Hnd].
    assert (x ≠ y) by set_solver.
    mem_run. eexists _, _; split; [done|].
    split_and!; simpl; [|done|by intros z Hz; rewrite !lookup_insert_ne by set_solver].
    split_and!; simpl; [|done|by rewrite !final_cons|].
    + rewrite !NoDup_cons. set_solver.
    + simplify_map_eq. split_and!; [done|done|].
      repeat apply dseg_insert_ne; set_solver.
Qed.

(** ** Removal *)

(** The successor of a node that leaves, where there is one, takes over its
    predecessor. *)
Lemma relink_prev m x pp l :
  NoDup l → dseg m (Some x) l None →
  ∃ m1, match first l None with None => Ok m | Some s => set_prev m s pp end = Ok m1 ∧
    dseg m1 pp l None ∧ frame m m1 l.
Proof.
  intros Hnd Hseg. destruct l as [|s l]; simpl; [by exists m; eauto with fpx|].
  destruct Hseg as [Hs Hseg]. apply NoDup_cons in Hnd as [Hsl Hnd].
  rewrite (set_prev_ok _ _ _ _ Hs). eexists; split; [done|]. simpl.
  simplify_map_eq. split_and!; [done| |apply frame_insert; set_solver].
  by apply dseg_insert_ne.
Qed.

(** The predecessor, where there is one, takes over the successor. *)
Lemma relink_next m x nn l :
  NoDup l → dseg m None l (Some x) →
  ∃ m1, match final l None with None => Ok m | Some p => set_next m p nn end = Ok m1 ∧
    dseg m1 None l nn ∧ frame m m1 l.
Proof.
  intros Hnd Hseg. destruct (list_snoc_case l) as [->|(l' & p & ->)]; [by exists m; eauto with fpx|].
  rewrite final_snoc. apply dseg_last in Hseg as [Hseg Hp].
  assert (p ∉ l') by (by eapply NoDup_snoc).
  rewrite (set_next_ok _ _ _ _ Hp). eexists; split; [done|].
  rewrite dseg_last. simplify_map_eq.
  split_and!; [by apply dseg_insert_ne|done|apply frame_insert; set_solver].
Qed.

Lemma remove_links h m l1 x l2 :
  links h m (l1 ++ x :: l2) →
  ∃ h' m', fpx_list_remove h m x = Ok (h', m') ∧ links h' m' (l1 ++ l2) ∧
    l_size h' = u64 (l_size h - 1) ∧ frame m m' (l1 ++ l2) ∧ m' !! x = m !! x.
Proof.
  intros (Hnd & Hhd & Htl & Hseg).
  apply NoDup_app in Hnd as (Hnd1 & Hdisj & Hnd2). apply NoDup_cons in Hnd2 as [Hx2 Hnd2].
  assert (x ∉ l1) as Hx1 by set_solver.
  apply dseg_app in Hseg as [Hs1 [Hx Hs2]].
  unfold fpx_list_remove. mem_run.
  destruct (relink_prev m x (final l1 None) l2) as (m1 & -> & Hs2' & Hf1); [done..|].
  rewrite bind_ok, (load_ok m1 x (Node (first l2 None) (final l1 None))), bind_ok
    by (by rewrite Hf1).
  cbn [n_prev n_next].
  assert (dseg m1 None l1 (Some x)) as Hs1'.
  { eapply dseg_frame, Hs1. intros y Hy. apply Hf1. set_solver. }
  destruct (relink_next m1 x (first l2 None) l1) as (m2 & -> & Hs1'' & Hf2); [done..|].
  rewrite bind_ok.
  assert (m2 !! x = m !! x) as Hmx by (rewrite Hf2, Hf1; done).
  rewrite (load_ok m2 x (Node (first l2 None) (final l1 None))), bind_ok
    by (by rewrite Hmx).
  eexists _, _; split; [done|]. cbn [n_prev n_next l_head l_tail l_size].
  split_and!; [|done| |done].
  - split_and!; simpl.
    + apply NoDup_app; set_solver.
    + rewrite Hhd, !first_app. simpl.
      destruct l1 as [|y l1]; simpl; [by rewrite decide_True by done|].
      rewrite decide_False; [done|]. set_solver.
    + rewrite Htl, !final_app. simpl. rewrite final_cons.
      destruct (list_snoc_case l2) as [->|(l2' & y & ->)].
      * by rewrite decide_True.
      * rewrite !final_snoc, decide_False; [done|]. set_solver.
    + rewrite dseg_app. split; [done|].
      eapply dseg_frame, Hs2'. intros y Hy. apply Hf2. set_solver.
  - intros y Hy. rewrite Hf2, Hf1 by set_solver. done.
Qed.

(** ** Insertion next to an element: the links are right, the size is not
    touched. *)

Lemma insert_before_links h m l1 b l2 x :
  links h m (l1 ++ b :: l2) → x ∉ l1 ++ b :: l2 → is_Some (m !! x) →
  ∃ h' m', fpx_list_insert_before h m b x = Ok (h', m') ∧
    links h' m' (l1 ++ x :: b :: l2) ∧ l_size h' = l_size h ∧
    frame m m' (x :: l1 ++ b :: l2).
Proof.
  intros (Hnd & Hhd & Htl & Hseg) Hx [n Hn].
  assert (NoDup (l1 ++ x :: b :: l2)) as Hnd'.
  { rewrite <- Permutation_middle. by apply NoDup_cons. }
  apply NoDup_app in Hnd as (Hnd1 & Hdisj & Hnd2). apply NoDup_cons in Hnd2 as [Hb2 Hnd2].
  apply dseg_app in Hseg as [Hs1 [Hb Hs2]].
  assert (x ≠ b) by set_solver.
  unfold fpx_list_insert_before. mem_run.
  destruct (list_snoc_case l1) as [->|(l1' & p & ->)].
  - unfold final; simpl. mem_run. eexists _, _; split; [done|].
    split_and!; simpl; [|done|by intros y Hy; rewrite !lookup_insert_ne by set_solver].
    split_and!; simpl; [done|done|by rewrite Htl|].
    simplify_map_eq. split_and!; [done|done|].
    repeat apply dseg_insert_ne; set_solver.
  - rewrite final_snoc. apply dseg_last in Hs1 as [Hs1 Hp].
    assert (p ≠ x) by set_solver. assert (p ≠ b) by set_solver.
    assert (p ∉ l1') by (by eapply NoDup_snoc).
    mem_run. cbn [deref of_option]. mem_run.
    eexists _, _; split; [done|].
    split_and!; simpl; [|done|by intros y Hy; rewrite !lookup_insert_ne by set_solver].
    split_and!; simpl; [done| | |].
    + rewrite Hhd, !first_app. done.
    + by rewrite Htl, !final_app, !final_cons.
    + rewrite dseg_app, dseg_last, final_snoc. simpl. simplify_map_eq.
      split_and!; try done; repeat apply dseg_insert_ne; set_solver.
Qed.

Lemma insert_after_links h m l1 a l2 x :
  links h m (l1 ++ a :: l2) → x ∉ l1 ++ a :: l2 → is_Some (m !! x) →
  ∃ h' m', fpx_list_insert_after h m a x = Ok (h', m') ∧
    links h' m' (l1 ++ a :: x :: l2) ∧ l_size h' = l_size h ∧
    frame m m' (x :: l1 ++ a :: l2).
Proof.
  intros (Hnd & Hhd & Htl & Hseg) Hx [n Hn].
  assert (NoDup (l1 ++ a :: x :: l2)) as Hnd'.
  { replace (l1 ++ a :: x :: l2) with ((l1 ++ [a]) ++ x :: l2) by (by rewrite <- app_assoc).
    rewrite <- Permutation_middle, <- app_assoc. by apply NoDup_cons. }
  apply NoDup_app in Hnd as (Hnd1 & Hdisj & Hnd2). apply NoDup_cons in Hnd2 as [Ha2 Hnd2].
  apply dseg_app in Hseg as [Hs1 [Ha Hs2]].
  assert (x ≠ a) by set_solver.
  unfold fpx_list_insert_after. mem_run.
  destruct l2 as [|s l2]; simpl.
  - mem_run. eexists _, _; split; [done|].
    split_and!; simpl; [|done|by intros y Hy; rewrite !lookup_insert_ne by set_solver].
    split_and!; simpl; [done|by rewrite Hhd, !first_app| |].
    + by rewrite final_app, !final_cons.
    + rewrite dseg_app. simpl. simplify_map_eq.
      split_and!; try done; repeat apply dseg_insert_ne; set_solver.
  - destruct Hs2 as [Hs Hs2]. apply NoDup_cons in Hnd2 as [Hsl Hnd2].
    assert (s ≠ x) by set_solver. assert (s ≠ a) by set_solver.
    mem_run. cbn [deref of_option]. mem_run.
    eexists _, _; split; [done|].
    split_and!; simpl; [|done|by intros y Hy; rewrite !lookup_insert_ne by set_solver].
    split_and!; simpl; [done|by rewrite Hhd, !first_app| |].
    + by rewrite Htl, !final_app, !final_cons.
    + rewrite dseg_app. simpl. simplify_map_eq.
      split_and!; try done; repeat apply dseg_insert_ne; set_solver.
Qed.

(** ** Searching *)

(** A walk along [nx] from [p] visits the elements of [l] and then ends. *)
Fixpoint walk (nx : store → loc → res (option loc)) (m : store) (p : option loc)
    (l : list loc) : Prop :=
  match l with
  | [] => p = None
  | x :: l' => p = Some x ∧ ∃ q, nx m x = Ok q ∧ walk nx m q l'
  end.

Lemma walk_next m pp l : dseg m pp l None → walk fpx_list_next m (first l None) l.
Proof.
  revert pp. induction l as [|x l IH]; intros pp; simpl; [done|].
  intros [Hx Hl]. split; [done|]. exists (first l None).
  unfold fpx_list_next. rewrite (load_ok _ _ _ Hx). eauto.
Qed.

Lemma walk_prev m l nn :
  dseg m None l nn → walk fpx_list_prev m (final l None) (reverse l).
Proof.
  revert nn. induction l as [|x l IH] using rev_ind; intros nn H; [done|].
  apply dseg_last in H as [Hl Hx]. rewrite reverse_app, final_snoc. simpl.
  split; [done|]. exists (final l None).
  unfold fpx_list_prev. rewrite (load_ok _ _ _ Hx). eauto.
Qed.

Lemma find_walk nx m compar p l fuel :
  walk nx m p l → (length l < fuel)%nat →
  while fuel (find_step nx m compar) p = Ok (List.find compar l).
Proof.
  revert p fuel. induction l as [|x l IH]; intros p [|fuel]; simpl; try lia.
  - by intros -> _.
  - intros (-> & q & Hq & Hl) Hf. simpl. destruct (compar x); [done|].
    rewrite Hq. simpl. apply IH; [done | lia].
Qed.

(** [fpx_list_remove_first] on sequences. *)
Fixpoint drop_first (compar : loc → bool) (l : list loc) : list loc :=
  match l with
  | [] => []
  | x :: l' => if compar x then l' else x :: drop_first compar l'
  end.

Lemma find_split (compar : loc → bool) l x :
  List.find compar l = Some x →
  ∃ l1 l2, l = l1 ++ x :: l2 ∧ drop_first compar l = l1 ++ l2 ∧ compar x = true ∧
    Forall (λ y, compar y = false) l1.
Proof.
  induction l as [|y l IH]; simpl; [done|].
  destruct (compar y) eqn:Hy.
  - intros [= <-]. exists [], l. split_and!; auto.
  - intros (l1 & l2 & -> & -> & Hx & Hl1)%IH. exists (y :: l1), l2. split_and!; auto.
Qed.

Lemma length_drop_first compar l x :
  List.find compar l = Some x → length l = S (length (drop_first compar l)).
Proof.
  intros (l1 & l2 & -> & -> & _)%find_split. rewrite !length_app. simpl. lia.
Qed.

(** ** Sorting *)

Section MergesortProofs.
Variable compar : loc → loc → Z.

(** The same merge on sequences: the left element goes first exactly when
    [compar] answers -1. *)
Fixpoint merge_seq (xs : list loc) : list loc → list loc :=
  fix go ys :=
    match xs, ys with
    | [], _ => ys
    | _, [] => xs
    | x :: xs', y :: ys' =>
        if compar x y =? -1 then x :: merge_seq xs' ys else y :: go ys'
    end.

Fixpoint mergesort_seq (fuel : nat) (xs : list loc) : list loc :=
  match fuel with
  | O => xs
  | S fuel' =>
      if decide (length xs < 2)%nat then xs else
      let mid := Nat.div2 (length xs) in
      merge_seq (mergesort_seq fuel' (take mid xs)) (mergesort_seq fuel' (drop mid xs))
  end.

Lemma merge_seq_nil_r xs : merge_seq xs [] = xs.
Proof. by destruct xs. Qed.

Lemma merge_seq_Permutation xs ys : merge_seq xs ys ≡ₚ xs ++ ys.
Proof.
  revert ys. induction xs as [|x xs IHx]; intros ys; [by destruct ys|].
  induction ys as [|y ys IHy]; [by rewrite app_nil_r|].
  cbn [merge_seq]. destruct (compar x y =? -1).
  - by rewrite IHx.
  - fold (merge_seq (x :: xs)). rewrite IHy. by rewrite <- Permutation_middle.
Qed.

Lemma mergesort_seq_Permutation fuel xs : mergesort_seq fuel xs ≡ₚ xs.
Proof.
  revert xs. induction fuel as [|fuel IH]; intros xs; [done|]. cbn [mergesort_seq].
  case_decide; [done|]. cbv zeta. rewrite merge_seq_Permutation, !IH. by rewrite take_drop.
Qed.

(** One element moves from the front of a chain to the back of the list under
    construction. *)
Lemma push_move h m zs a xs ys q :
  links h m zs → nchain m (Some a) (a :: xs) → nchain m q ys →
  NoDup (zs ++ (a :: xs) ++ ys) →
  ∃ p h' m', fpx_list_next m a = Ok p ∧ fpx_list_push_back h m a = Ok (h', m') ∧
    links h' m' (zs ++ [a]) ∧ nchain m' p xs ∧ nchain m' q ys ∧
    l_size h' = u64 (l_size h + 1) ∧ frame m m' (zs ++ [a]).
Proof.
  intros Hz (_ & n & Hn & Hxs) Hys Hnd.
  apply NoDup_app in Hnd as (Hndz & Hzd & Hnd). simpl in Hnd.
  apply NoDup_cons in Hnd as [Ha Hnd].
  destruct (push_back_links h m zs a) as (h' & m' & Hpush & Hl & Hs & Hf);
    [done|set_solver|eauto|].
  exists (n_next n), h', m'. unfold fpx_list_next. rewrite (load_ok _ _ _ Hn).
  split_and!; [done|done|done| | |done|done].
  - eapply nchain_frame, Hxs. intros y Hy. apply Hf. set_solver.
  - eapply nchain_frame, Hys. intros y Hy. apply Hf. set_solver.
Qed.

Lemma merge_rest_ok fuel h m zs xs p ys q :
  (length xs < fuel)%nat → links h m zs → nchain m p xs → nchain m q ys →
  NoDup (zs ++ xs ++ ys) → 0 ≤ l_size h < 2 ^ 64 →
  ∃ h' m', merge_rest fuel h m p = Ok (h', m') ∧ links h' m' (zs ++ xs) ∧
    nchain m' q ys ∧ l_size h' = u64 (l_size h + Z.of_nat (length xs)) ∧
    frame m m' (zs ++ xs).
Proof.
  revert fuel h m zs p. induction xs as [|x xs IH]; intros fuel h m zs p Hf Hz Hp Hq Hnd Hsz;
    (destruct fuel as [|fuel]; [simpl in Hf; lia|]); simpl in *.
  - rewrite Hp, app_nil_r, Z.add_0_r. exists h, m.
    split_and!; [done..|by rewrite u64_small|apply frame_refl].
  - assert (p = Some x) as -> by tauto.
    destruct (push_move h m zs x xs ys q) as (p' & h' & m' & -> & Hpush & Hz' & Hp' & Hq' & Hs & Hfr);
      [done|done|done|done|].
    rewrite bind_ok, Hpush, bind_ok.
    destruct (IH fuel h' m' (zs ++ [x]) p') as (h2 & m2 & -> & Hz2 & Hq2 & Hs2 & Hfr2);
      [lia|done|done|done|by rewrite <- app_assoc|rewrite Hs; apply u64_range|].
    exists h2, m2. rewrite <- app_assoc in Hz2, Hfr2. split_and!; [done..| |].
    + rewrite Hs2, Hs, u64_add_l. f_equal. lia.
    + eapply frame_trans; [|done]. eapply frame_mono, Hfr. set_solver.
Qed.

Lemma merge_both_ok fuel h m zs xs p ys q :
  (length xs + length ys < fuel)%nat → links h m zs → nchain m p xs → nchain m q ys →
  NoDup (zs ++ xs ++ ys) → 0 ≤ l_size h < 2 ^ 64 →
  ∃ h' m' p' q' ws xs' ys', merge_both compar fuel h m p q = Ok (h', m', p', q') ∧
    links h' m' (zs ++ ws) ∧ nchain m' p' xs' ∧ nchain m' q' ys' ∧
    (xs' = [] ∨ ys' = []) ∧ ws ++ xs' ++ ys' = merge_seq xs ys ∧
    l_size h' = u64 (l_size h + Z.of_nat (length ws)) ∧ 0 ≤ l_size h' < 2 ^ 64 ∧
    frame m m' (zs ++ ws).
Proof.
  revert h m zs xs p ys q. induction fuel as [|fuel IH];
    intros h m zs xs p ys q Hf Hz Hp Hq Hnd Hsz; [lia|].
  destruct xs as [|x xs].
  { simpl in Hp. subst p. exists h, m, None, q, [], [], ys. simpl.
    rewrite app_nil_r, Z.add_0_r, u64_small by done.
    split_and!; auto using frame_refl; try lia. by destruct ys. }
  assert (p = Some x) as -> by (simpl in Hp; tauto).
  destruct ys as [|y ys].
  { simpl in Hq. subst q. exists h, m, (Some x), None, [], (x :: xs), [].
    rewrite !app_nil_r, Z.add_0_r, u64_small by done.
    split_and!; auto using frame_refl; try done; lia. }
  assert (q = Some y) as -> by (simpl in Hq; tauto).
  cbn [merge_both]. destruct (compar x y =? -1) eqn:Hc.
  - destruct (push_move h m zs x xs (y :: ys) (Some y))
      as (p' & h' & m' & -> & Hpush & Hz' & Hp' & Hq' & Hs & Hfr); [done..|].
    rewrite bind_ok, Hpush, bind_ok.
    destruct (IH h' m' (zs ++ [x]) xs p' (y :: ys) (Some y))
      as (h2 & m2 & p2 & q2 & ws & xs' & ys' & -> & Hz2 & Hp2 & Hq2 & Hor & Heq & Hs2 & Hr2 & Hfr2);
      [simpl in *; lia|done|done|done|by rewrite <- app_assoc|rewrite Hs; apply u64_range|].
    exists h2, m2, p2, q2, (x :: ws), xs', ys'. rewrite <- app_assoc in Hz2, Hfr2.
    split_and!; try done; try lia.
    + cbn [merge_seq]. rewrite Hc. simpl. by f_equal.
    + rewrite Hs2, Hs, u64_add_l. f_equal. simpl. lia.
    + eapply frame_trans; [|done]. eapply frame_mono, Hfr. set_solver.
  - destruct (push_move h m zs y ys (x :: xs) (Some x))
      as (p' & h' & m' & -> & Hpush & Hz' & Hp' & Hq' & Hs & Hfr); [done..| |].
    { rewrite (Permutation_app_comm (y :: ys)). done. }
    rewrite bind_ok, Hpush, bind_ok.
    destruct (IH h' m' (zs ++ [y]) (x :: xs) (Some x) ys p')
      as (h2 & m2 & p2 & q2 & ws & xs' & ys' & -> & Hz2 & Hp2 & Hq2 & Hor & Heq & Hs2 & Hr2 & Hfr2);
      [simpl in *; lia|done|done|done| |rewrite Hs; apply u64_range|].
    { rewrite <- app_assoc. simpl. rewrite (Permutation_middle (x :: xs) ys y). done. }
    exists h2, m2, p2, q2, (y :: ws), xs', ys'. rewrite <- app_assoc in Hz2, Hfr2.
    split_and!; try done; try lia.
    + cbn [merge_seq]. rewrite Hc. fold (merge_seq (x :: xs)). simpl. by f_equal.
    + rewrite Hs2, Hs, u64_add_l. f_equal. simpl. lia.
    + eapply frame_trans; [|done]. eapply frame_mono, Hfr. set_solver.
Qed.

Lemma merge_ok fuel h m xs p ys q :
  (length xs + length ys < fuel)%nat → nchain m p xs → nchain m q ys →
  NoDup (xs ++ ys) → 0 ≤ l_size h < 2 ^ 64 →
  ∃ h' m', fpx_list_mergesort_merge compar fuel h m p q = Ok (h', m') ∧
    links h' m' (merge_seq xs ys) ∧
    l_size h' = u64 (l_size h + Z.of_nat (length (xs ++ ys))) ∧ frame m m' (xs ++ ys).
Proof.
  intros Hf Hp Hq Hnd Hsz. unfold fpx_list_mergesort_merge.
  destruct (merge_both_ok fuel (memset_node_size h) m [] xs p ys q)
    as (h1 & m1 & p1 & q1 & ws & xs1 & ys1 & -> & Hz & Hp1 & Hq1 & Hor & Heq & Hs1 & Hr1 & Hfr1);
    [done|split_and!; try done; apply NoDup_nil_2|done..|].
  rewrite bind_ok. simpl in Hz, Hs1, Hfr1.
  assert (length ws + length xs1 + length ys1 = length xs + length ys)%nat as Hlen.
  { apply (f_equal length) in Heq. rewrite !length_app, merge_seq_Permutation, length_app in Heq. lia. }
  assert (NoDup (ws ++ xs1 ++ ys1)) as Hnd1 by (rewrite Heq, merge_seq_Permutation; done).
  destruct (merge_rest_ok fuel h1 m1 ws xs1 p1 ys1 q1)
    as (h2 & m2 & -> & Hz2 & Hq2 & Hs2 & Hfr2); [lia|done..|].
  rewrite bind_ok.
  destruct (merge_rest_ok fuel h2 m2 (ws ++ xs1) ys1 q1 [] None)
    as (h3 & m3 & -> & Hz3 & _ & Hs3 & Hfr3);
    [lia|done..|by rewrite app_nil_r, <- app_assoc|rewrite Hs2; apply u64_range|].
  exists h3, m3. rewrite <- app_assoc, Heq in Hz3. split_and!; [done|done| |].
  - rewrite Hs3, Hs2, u64_add_l, Hs1, <- Z.add_assoc, u64_add_l, length_app. f_equal. lia.
  - assert (∀ y, y ∈ ws ++ xs1 ++ ys1 ↔ y ∈ xs ++ ys) as Hin.
    { intros y. by rewrite Heq, merge_seq_Permutation. }
    intros y Hy. rewrite <- Hin in Hy. rewrite Hfr3, Hfr2, Hfr1; set_solver.
Qed.

Lemma advance_ok m p l1 x l2 :
  nchain m p (l1 ++ x :: l2) → advance (length l1) m p = Ok (Some x).
Proof.
  revert p. induction l1 as [|y l1 IH]; intros p; simpl.
  - by intros [-> _].
  - intros (-> & n & Hn & Hc). simpl. unfold fpx_list_next.
    rewrite (load_ok _ _ _ Hn). simpl. eauto.
Qed.

Lemma nchain_app m p l1 x l2 :
  nchain m p (l1 ++ x :: l2) → nchain m (Some x) (x :: l2).
Proof.
  revert p. induction l1 as [|y l1 IH]; intros p; simpl.
  - intros [-> H]. by split.
  - intros (-> & n & Hn & Hc). eapply IH, Hc.
Qed.

(** Cutting a chain after [x]. *)
Lemma nchain_cut m p l1 x l2 v :
  nchain m p (l1 ++ x :: l2) → NoDup (l1 ++ x :: l2) →
  nchain (<[x := Node None v]> m) p (l1 ++ [x]).
Proof.
  revert p. induction l1 as [|y l1 IH]; intros p; simpl.
  - intros [-> _] _. split; [done|]. eexists. by rewrite lookup_insert_eq.
  - intros (-> & n & Hn & Hc) [Hy Hnd]%NoDup_cons. split; [done|]. exists n.
    rewrite lookup_insert_ne by set_solver. eauto.
Qed.

(** The split point of a list of at least two elements. *)
Lemma split_at {A} (l : list A) n :
  (0 < n < length l)%nat →
  ∃ l1 x y l2, l = l1 ++ x :: y :: l2 ∧ length l1 = (n - 1)%nat ∧
    take n l = l1 ++ [x] ∧ drop n l = y :: l2.
Proof.
  intros Hn. destruct (list_snoc_case (take n l)) as [H|(l1 & x & H)].
  { apply (f_equal length) in H. rewrite length_take in H. simpl in H. lia. }
  destruct (drop n l) as [|y l2] eqn:Hd.
  { apply (f_equal length) in Hd. rewrite length_drop in Hd. simpl in Hd. lia. }
  exists l1, x, y, l2. rewrite <- (take_drop n l) at 1. rewrite H, Hd, <- app_assoc.
  split_and!; [done| |done|done].
  apply (f_equal length) in H. rewrite length_take, length_app in H. simpl in H. lia.
Qed.

(** The size the header ends up with: the merge adds every element to the
    count that was already there. *)
Definition mergesort_size (n sz : Z) : Z := if n <? 2 then sz else u64 (sz + n).

(** The list is cut in two behind its first half, of [mid] nodes. *)
Lemma cut_ok m p xs mid :
  (0 < mid < length xs)%nat → nchain m p xs → NoDup xs →
  ∃ l1 x l2 n, xs = (l1 ++ [x]) ++ l2 ∧ l1 ++ [x] = take mid xs ∧ l2 = drop mid xs ∧
    advance (mid - 1) m p = Ok (Some x) ∧ fpx_list_next m x = Ok (n_next n) ∧
    let m' := <[x := Node None (n_prev n)]> m in
    set_next m x None = Ok m' ∧ nchain m' p (l1 ++ [x]) ∧ nchain m' (n_next n) l2 ∧
    frame m m' (l1 ++ [x]).
Proof.
  intros Hmid Hc Hnd. destruct (split_at xs mid Hmid) as (l1 & x & y & l2 & -> & Hl1 & Htk & Hdr).
  destruct (nchain_app _ _ _ _ _ Hc) as (_ & n & Hn & Hc2).
  exists l1, x, (y :: l2), n. rewrite Htk, Hdr, <- app_assoc. split_and!; [done..| | |]; cbv zeta.
  - replace (mid - 1)%nat with (length l1) by lia. by rewrite (advance_ok _ _ _ _ _ Hc).
  - unfold fpx_list_next. by rewrite (load_ok _ _ _ Hn), bind_ok.
  - split_and!; [by rewrite (set_next_ok _ _ _ _ Hn)|by eapply nchain_cut| |].
    + eapply nchain_frame, Hc2. intros z Hz. apply lookup_insert_ne.
      apply NoDup_app in Hnd as (_ & _ & [Hx _]%NoDup_cons). set_solver.
    + apply frame_insert. set_solver.
Qed.

Lemma half_ok n : (2 ≤ n)%nat → (0 < Nat.div2 n < n)%nat ∧ Z.of_nat n / 2 = Z.of_nat (Nat.div2 n).
Proof.
  intros Hn. rewrite Nat.div2_div, Nat2Z.inj_div. split; [|done].
  pose proof (Nat.div_mod_eq n 2). pose proof (Nat.mod_upper_bound n 2). lia.
Qed.

Lemma mergesort_ok fuel h m xs :
  (length xs < fuel)%nat → nchain m (l_head h) xs → l_size h = Z.of_nat (length xs) →
  NoDup xs → Z.of_nat (length xs) < 2 ^ 64 →
  ∃ h' m', fpx_list_mergesort compar fuel h m = Ok (h', m') ∧
    nchain m' (l_head h') (mergesort_seq fuel xs) ∧
    (2 ≤ length xs → links h' m' (mergesort_seq fuel xs))%nat ∧
    l_size h' = mergesort_size (Z.of_nat (length xs)) (l_size h) ∧ frame m m' xs.
Proof.
  unfold mergesort_size.
  revert h m xs. induction fuel as [|fuel IH]; intros h m xs Hf Hc Hsz Hnd Hlt; [lia|].
  cbn [fpx_list_mergesort mergesort_seq]. rewrite Hsz.
  destruct (Z.ltb_spec (Z.of_nat (length xs)) 2).
  { rewrite decide_True by lia. exists h, m. split_and!; [done..|lia|done|apply frame_refl]. }
  rewrite decide_False by lia. cbv zeta.
  destruct (half_ok (length xs) ltac:(lia)) as [Hmid ->]. set (mid := Nat.div2 (length xs)) in *.
  destruct (cut_ok m (l_head h) xs mid Hmid Hc Hnd)
    as (l1 & x & l2 & n & Hxs & Htk & Hdr & Hadv & Hnext & Hset & Hc1 & Hc2 & Hfr1).
  set (m1 := <[x := Node None (n_prev n)]> m) in *.
  rewrite <- Htk, <- Hdr. rewrite Hxs in Hnd.
  assert (length (l1 ++ [x]) = mid ∧ length l2 = (length xs - mid)%nat) as [Hlen1 Hlen2]
    by (rewrite Htk, Hdr, length_take, length_drop; lia).
  replace (Z.to_nat (Z.of_nat mid - 1)) with (mid - 1)%nat by lia.
  rewrite Hadv, bind_ok. cbn [deref of_option]. rewrite bind_ok, Hnext, bind_ok, Hset, bind_ok.
  pose proof (proj1 (NoDup_app _ _) Hnd) as (Hnd1 & Hdj & Hnd2).
  destruct (IH (List (l_head h) (Some x) (Z.of_nat mid)) m1 (l1 ++ [x]))
    as (h2 & m2 & -> & Hc1' & _ & _ & Hfr2); [lia|done|by rewrite Hlen1|done|lia|].
  rewrite bind_ok.
  assert (u64 (Z.of_nat (length xs) - Z.of_nat mid) = Z.of_nat (length l2)) as ->
    by (rewrite u64_small; lia).
  assert (nchain m2 (n_next n) l2) as Hc2'
    by (eapply nchain_frame, Hc2; intros z Hz; apply Hfr2; set_solver).
  destruct (IH (List (n_next n) (l_tail h) (Z.of_nat (length l2))) m2 l2)
    as (h3 & m3 & -> & Hc2'' & _ & _ & Hfr3); [lia|done|done|done|lia|].
  rewrite bind_ok.
  assert (nchain m3 (l_head h2) (mergesort_seq fuel (l1 ++ [x]))) as Hc1''.
  { eapply nchain_frame, Hc1'. intros z Hz. rewrite mergesort_seq_Permutation in Hz.
    apply Hfr3. set_solver. }
  assert (length (mergesort_seq fuel (l1 ++ [x])) + length (mergesort_seq fuel l2)
          = length xs)%nat as Hlen.
  { rewrite !mergesort_seq_Permutation. lia. }
  destruct (merge_ok (S fuel) h m3 (mergesort_seq fuel (l1 ++ [x])) (l_head h2)
      (mergesort_seq fuel l2) (l_head h3))
    as (h4 & m4 & -> & Hz4 & Hs4 & Hfr4);
    [lia|done|done|by rewrite !mergesort_seq_Permutation|lia|].
  exists h4, m4. split_and!; [done|by apply links_nchain|done| |].
  - rewrite Hs4, Hsz, length_app, Hlen. done.
  - intros z Hz. rewrite Hxs in Hz. rewrite Hfr4 by (rewrite !mergesort_seq_Permutation; set_solver).
    by rewrite Hfr3, Hfr2, Hfr1 by set_solver.
Qed.
End MergesortProofs.

(** ** Sortedness *)

Section MergesortSorted.
Variable compar : loc → loc → Z.
(** [compar a b = -1] says [a] belongs before [b], and never both ways. *)
Hypothesis compar_asym : ∀ a b, compar a b = -1 → compar b a ≠ -1.

(** [b] may follow [a]: [compar] does not want [b] before [a]. *)
Definition in_order (a b : loc) : Prop := compar b a ≠ -1.

Lemma merge_seq_HdRel z xs ys :
  HdRel in_order z xs → HdRel in_order z ys → HdRel in_order z (merge_seq compar xs ys).
Proof.
  intros Hx Hy. destruct xs as [|x xs]; [by destruct ys|]. destruct ys as [|y ys]; [done|].
  cbn [merge_seq]. destruct (compar x y =? -1); constructor.
  - by inversion Hx.
  - by inversion Hy.
Qed.

Lemma merge_seq_Sorted xs ys :
  Sorted in_order xs → Sorted in_order ys → Sorted in_order (merge_seq compar xs ys).
Proof.
  revert ys. induction xs as [|x xs IHx]; intros ys Hx Hy; [by destruct ys|].
  induction ys as [|y ys IHy]; [done|].
  inversion Hx as [|?? Hxs Hxh]; inversion Hy as [|?? Hys Hyh]; subst.
  cbn [merge_seq]. destruct (Z.eqb_spec (compar x y) (-1)) as [Hc|Hc].
  - constructor; [by apply IHx|]. apply merge_seq_HdRel; [done|].
    constructor. by apply compar_asym.
  - change (Sorted in_order (y :: merge_seq compar (x :: xs) ys)). constructor; [by apply IHy|].
    apply merge_seq_HdRel; [|done]. by constructor.
Qed.

Lemma mergesort_seq_Sorted fuel xs :
  (length xs < fuel)%nat → Sorted in_order (mergesort_seq compar fuel xs).
Proof.
  revert xs. induction fuel as [|fuel IH]; intros xs Hf; [lia|]. cbn [mergesort_seq].
  case_decide as Hlt; cbv zeta.
  - destruct xs as [|x [|y xs]]; simpl in Hlt; [constructor|repeat constructor|lia].
  - assert (0 < Nat.div2 (length xs) < length xs)%nat.
    { rewrite Nat.div2_div. pose proof (Nat.div_mod_eq (length xs) 2).
      pose proof (Nat.mod_upper_bound (length xs) 2). lia. }
    apply merge_seq_Sorted; apply IH; rewrite ?length_take, ?length_drop; lia.
Qed.
End MergesortSorted.

(** ** Sequences of operations *)

(** A client program over one list, with its nodes named by location. *)
Inductive op : Type :=
  | PushFront (x : loc)
  | PushBack (x : loc)
  | InsertBefore (y x : loc)
  | InsertAfter (y x : loc)
  | Remove (x : loc)
  | RemoveFirst (compar : loc → bool)
  | RemoveLast (compar : loc → bool)
  | Mergesort (compar : loc → loc → Z)
  | Clear.

Definition run_op (fuel : nat) (s : fpx_list_t * store) (o : op) : res (fpx_list_t * store) :=
  let '(h, m) := s in
  match o with
  | PushFront x => fpx_list_push_front h m x
  | PushBack x => fpx_list_push_back h m x
  | InsertBefore y x => fpx_list_insert_before h m y x
  | InsertAfter y x => fpx_list_insert_after h m y x
  | Remove x => fpx_list_remove h m x
  | RemoveFirst c => '(_, h, m) ← fpx_list_remove_first fuel h m c; Ok (h, m)
  | RemoveLast c => '(_, h, m) ← fpx_list_remove_last fuel h m c; Ok (h, m)
  | Mergesort c => fpx_list_mergesort c fuel h m
  | Clear => Ok (fpx_list_clear h, m)
  end.

Fixpoint run_ops (fuel : nat) (s : fpx_list_t * store) (os : list op)
    : res (fpx_list_t * store) :=
  match os with
  | [] => Ok s
  | o :: os' => s ← run_op fuel s o; run_ops fuel s os'
  end.

(** [x] next to [y]. *)
Fixpoint insert_next (before : bool) (y x : loc) (l : list loc) : list loc :=
  match l with
  | [] => []
  | z :: l => if decide (z = y) then (if before then x :: z :: l else z :: x :: l)
              else z :: insert_next before y x l
  end.

(** The size when the node searched for, if there is one, has been taken off. *)
Definition less_one (found : option loc) (n : Z) : Z :=
  match found with Some _ => u64 (n - 1) | None => n end.

(** What the same program does to a sequence and to the number in the size field;
    [None] where it breaks the contract: a node linked twice, a node that is not there,
    a sort of a list whose size field does not count its nodes. *)
Definition abs_op (s : list loc * Z) (o : op) : option (list loc * Z) :=
  let '(l, n) := s in
  match o with
  | PushFront x => if decide (x ∈ l) then None else Some (x :: l, u64 (n + 1))
  | PushBack x => if decide (x ∈ l) then None else Some (l ++ [x], u64 (n + 1))
  | InsertBefore y x => if decide (y ∈ l ∧ x ∉ l) then Some (insert_next true y x l, n) else None
  | InsertAfter y x => if decide (y ∈ l ∧ x ∉ l) then Some (insert_next false y x l, n) else None
  | Remove x => if decide (x ∈ l) then Some (drop_first (λ y, bool_decide (y = x)) l, u64 (n - 1)) else None
  | RemoveFirst c => Some (drop_first c l, less_one (List.find c l) n)
  | RemoveLast c => Some (reverse (drop_first c (reverse l)), less_one (List.find c (reverse l)) n)
  | Mergesort c =>
      if decide (n = Z.of_nat (length l))
      then Some (mergesort_seq c (S (length l)) l, if n <? 2 then n else u64 (n + n)) else None
  | Clear => Some ([], 0)
  end.

Fixpoint abs_ops (s : list loc * Z) (os : list op) : option (list loc * Z) :=
  match os with
  | [] => Some s
  | o :: os' => s ← abs_op s o; abs_ops s os'
  end.

(** The nodes a program links are allocated. *)
Definition op_alloc (m : store) (o : op) : Prop :=
  match o with
  | PushFront x | PushBack x | InsertBefore _ x | InsertAfter _ x => is_Some (m !! x)
  | _ => True
  end.
(** The operations that keep the size field exact. *)
Definition counts (o : op) : bool :=
  match o with InsertBefore _ _ | InsertAfter _ _ | Mergesort _ => false | _ => true end.

(** No operation frees a node. *)
Definition keeps (m m' : store) : Prop := ∀ y, is_Some (m !! y) → is_Some (m' !! y).

Lemma keeps_refl m : keeps m m.
Proof. by intros y. Qed.
Lemma keeps_trans m1 m2 m3 : keeps m1 m2 → keeps m2 m3 → keeps m1 m3.
Proof. intros H1 H2 y Hy. by apply H2, H1. Qed.

Lemma frame_keeps h m m' l l' : links h m' l → frame m m' l' → l' ≡ₚ l → keeps m m'.
Proof.
  intros (_ & _ & _ & Hs) Hf Hp y Hy. destruct (decide (y ∈ l)).
  - by eapply dseg_lookup.
  - by rewrite Hf by (by rewrite Hp).
Qed.

Lemma remove_keeps h m l1 x l2 :
  links h m (l1 ++ x :: l2) →
  ∃ h' m', fpx_list_remove h m x = Ok (h', m') ∧ links h' m' (l1 ++ l2) ∧
    l_size h' = u64 (l_size h - 1) ∧ keeps m m'.
Proof.
  intros Hl. destruct (remove_links _ _ _ _ _ Hl) as (h' & m' & -> & Hl' & Hs' & Hf & Hx).
  exists h', m'. split_and!; [done..|]. intros y Hy. destruct (decide (y = x)) as [->|]; [by rewrite Hx|].
  destruct Hl' as (_ & _ & _ & Hseg). destruct (decide (y ∈ l1 ++ l2)).
  - by eapply dseg_lookup.
  - by rewrite Hf.
Qed.

Lemma find_remove_ok h m l1 x l2 :
  dlist h m (l1 ++ x :: l2) →
  ∃ h' m', fpx_list_remove h m x = Ok (h', m') ∧ dlist h' m' (l1 ++ l2) ∧ keeps m m'.
Proof.
  intros (Hl & Hs & Hb). destruct (remove_keeps _ _ _ _ _ Hl) as (h' & m' & -> & Hl' & Hs' & Hk).
  exists h', m'. rewrite length_app in Hs, Hb. simpl in Hs, Hb.
  split_and!; [done|split_and!; [done|rewrite Hs', Hs, u64_small, length_app; lia|
    rewrite length_app; lia]|done].
Qed.

(** [fpx_list_find] and the two searches of the removals. *)
Lemma find_first_ok h m l compar fuel :
  links h m l → (length l < fuel)%nat →
  while fuel (find_step fpx_list_next m compar) (l_head h) = Ok (List.find compar l).
Proof.
  intros (_ & -> & _ & Hs) Hf. apply find_walk; [|done]. by eapply walk_next.
Qed.

Lemma find_last_ok h m l compar fuel :
  links h m l → (length l < fuel)%nat →
  while fuel (find_step fpx_list_prev m compar) (l_tail h) = Ok (List.find compar (reverse l)).
Proof.
  intros (_ & _ & -> & Hs) Hf. apply find_walk; [|by rewrite length_reverse].
  by eapply walk_prev.
Qed.

Lemma drop_first_none c l : List.find c l = None → drop_first c l = l.
Proof.
  induction l as [|x l IH]; simpl; [done|]. destruct (c x); [done|]. intros. by rewrite IH.
Qed.

Lemma drop_first_length c l :
  length l = (length (drop_first c l) + match List.find c l with Some _ => 1 | None => 0 end)%nat.
Proof.
  destruct (List.find c l) eqn:E; [apply length_drop_first in E; lia|by rewrite drop_first_none].
Qed.

Lemma find_elem (x : loc) (l : list loc) : x ∈ l → List.find (λ y, bool_decide (y = x)) l = Some x.
Proof.
  induction l as [|y l IH]; [set_solver|]. intros [->|Hx]%elem_of_cons; simpl.
  - by rewrite bool_decide_true.
  - case_bool_decide; [by subst|]. auto.
Qed.

(** The removals report whether a node was found. *)
Definition found_err (found : option loc) : fpx_err_t :=
  match found with Some _ => FPX_OK | None => FPX_FAILED end.

Lemma remove_first_ok h m l c fuel :
  links h m l → (length l < fuel)%nat →
  ∃ h' m', fpx_list_remove_first fuel h m c = Ok (found_err (List.find c l), h', m') ∧
    links h' m' (drop_first c l) ∧ l_size h' = less_one (List.find c l) (l_size h) ∧ keeps m m'.
Proof.
  intros Hl Hf. unfold fpx_list_remove_first. rewrite (find_first_ok h m l), bind_ok by done.
  destruct (List.find c l) as [x|] eqn:Hx.
  - destruct (find_split _ _ _ Hx) as (l1 & l2 & -> & -> & _).
    destruct (remove_keeps _ _ _ _ _ Hl) as (h' & m' & -> & ?). rewrite !bind_ok. eauto.
  - rewrite drop_first_none by done. exists h, m. eauto using keeps_refl.
Qed.

Lemma remove_last_ok h m l c fuel :
  links h m l → (length l < fuel)%nat →
  ∃ h' m', fpx_list_remove_last fuel h m c = Ok (found_err (List.find c (reverse l)), h', m') ∧
    links h' m' (reverse (drop_first c (reverse l))) ∧
    l_size h' = less_one (List.find c (reverse l)) (l_size h) ∧ keeps m m'.
Proof.
  intros Hl Hf. unfold fpx_list_remove_last. rewrite (find_last_ok h m l), bind_ok by done.
  destruct (List.find c (reverse l)) as [x|] eqn:Hx.
  - destruct (find_split _ _ _ Hx) as (l1 & l2 & Hrev & Hdrop & _). rewrite Hdrop, reverse_app.
    apply (f_equal reverse) in Hrev. rewrite reverse_involutive, reverse_app, reverse_cons, <- app_assoc in Hrev.
    rewrite Hrev in Hl. destruct (remove_keeps _ _ _ _ _ Hl) as (h' & m' & -> & ?). rewrite !bind_ok. eauto.
  - rewrite drop_first_none, reverse_involutive by done. exists h, m. eauto using keeps_refl.
Qed.

Lemma insert_next_split before y x l :
  y ∈ l → ∃ l1 l2, l = l1 ++ y :: l2 ∧
    insert_next before y x l = l1 ++ if before then x :: y :: l2 else y :: x :: l2.
Proof.
  induction l as [|z l IH]; [set_solver|]. intros Hy. cbn [insert_next]. case_decide as Hz.
  - subst z. exists [], l. by destruct before.
  - destruct IH as (l1 & l2 & -> & ->); [set_solver|]. by exists (z :: l1), l2.
Qed.

Lemma insert_next_ok (before : bool) h m l y x :
  links h m l → y ∈ l → x ∉ l → is_Some (m !! x) →
  ∃ h' m', (if before then fpx_list_insert_before h m y x else fpx_list_insert_after h m y x) = Ok (h', m') ∧
    links h' m' (insert_next before y x l) ∧ l_size h' = l_size h ∧ keeps m m'.
Proof.
  intros Hl Hy Hx Hm. destruct (insert_next_split before y x l Hy) as (l1 & l2 & -> & ->). destruct before.
  - destruct (insert_before_links h m l1 y l2 x) as (h' & m' & -> & Hl' & Hs & Hf); [done..|].
    exists h', m'. split_and!; [done..|]. eapply frame_keeps; [exact Hl'|exact Hf|]. apply Permutation_middle.
  - destruct (insert_after_links h m l1 y l2 x) as (h' & m' & -> & Hl' & Hs & Hf); [done..|].
    exists h', m'. split_and!; [done..|]. eapply frame_keeps; [exact Hl'|exact Hf|].
    rewrite (Permutation_middle l1 (y :: l2) x). apply Permutation_app_head, Permutation_swap.
Qed.

(** The fuel does not matter once there is enough of it. *)
Lemma mergesort_seq_fuel c f1 : ∀ f2 xs, (length xs < f1)%nat → (length xs < f2)%nat →
  mergesort_seq c f1 xs = mergesort_seq c f2 xs.
Proof.
  induction f1 as [|f1 IH]; intros [|f2] xs H1 H2; [lia..|]. cbn [mergesort_seq].
  case_decide as Hlt; [done|]. cbv zeta. destruct (half_ok (length xs) ltac:(lia)) as [Hmid _].
  f_equal; apply IH; rewrite ?length_take, ?length_drop; lia.
Qed.

Lemma mergesort_step c fuel h m l :
  links h m l → l_size h = Z.of_nat (length l) → (length l < fuel)%nat → Z.of_nat (length l) < 2 ^ 64 →
  ∃ h' m', fpx_list_mergesort c fuel h m = Ok (h', m') ∧ links h' m' (mergesort_seq c (S (length l)) l) ∧
    l_size h' = (if l_size h <? 2 then l_size h else u64 (l_size h + l_size h)) ∧ keeps m m'.
Proof.
  intros Hl Hs Hf Hb. rewrite (mergesort_seq_fuel c _ fuel) by lia.
  destruct (mergesort_ok c fuel h m l) as (h' & m' & Hrun & _ & Hl' & Hs' & Hfr);
    [done|by apply links_nchain|done|by apply Hl|done|].
  destruct (decide (2 ≤ length l)%nat) as [H2|H2].
  - exists h', m'. split_and!; [done|by apply Hl'|by rewrite Hs', Hs|].
    eapply frame_keeps; [by apply Hl'|done|]. by rewrite mergesort_seq_Permutation.
  - destruct fuel as [|fuel]; [lia|]. cbn [fpx_list_mergesort mergesort_seq].
    rewrite decide_True, Hs, (proj2 (Z.ltb_lt _ _)) by lia. exists h, m. eauto using keeps_refl.
Qed.

(** ** Refinement *)

(** The header and the store represent the sequence and the size. *)
Definition represents (h : fpx_list_t) (m : store) (s : list loc * Z) : Prop :=
  links h m s.1 ∧ l_size h = s.2.

Lemma run_op_refines fuel h m s o s' :
  represents h m s → op_alloc m o → abs_op s o = Some s' →
  (length s.1 < fuel)%nat → Z.of_nat (length s.1) < 2 ^ 64 →
  ∃ h' m', run_op fuel (h, m) o = Ok (h', m') ∧ represents h' m' s' ∧ keeps m m'.
Proof.
  destruct s as [l n]. intros [Hl Hs] Ha Habs Hf Hb. cbn [fst snd] in *. unfold represents.
  destruct o as [x|x|y x|y x|x|c|c|c|]; cbn [abs_op run_op op_alloc] in *; try case_decide as Hd; simplify_eq; cbn [fst snd].
  - destruct (push_front_links h m l x) as (h' & m' & -> & Hl' & Hs' & Hfr); [done..|].
    exists h', m'. eauto using frame_keeps.
  - destruct (push_back_links h m l x) as (h' & m' & -> & Hl' & Hs' & Hfr); [done..|].
    exists h', m'. eauto using frame_keeps.
  - destruct (insert_next_ok true h m l y x) as (h' & m' & -> & ? & ? & ?); naive_solver.
  - destruct (insert_next_ok false h m l y x) as (h' & m' & -> & ? & ? & ?); naive_solver.
  - destruct (find_split _ _ _ (find_elem x l Hd)) as (l1 & l2 & -> & -> & _).
    destruct (remove_keeps _ _ _ _ _ Hl) as (h' & m' & -> & ?). naive_solver.
  - destruct (remove_first_ok h m l c fuel) as (h' & m' & -> & ?); [done..|]. rewrite bind_ok. naive_solver.
  - destruct (remove_last_ok h m l c fuel) as (h' & m' & -> & ?); [done..|]. rewrite bind_ok. naive_solver.
  - destruct (mergesort_step c fuel h m l) as (h' & m' & -> & ?); [done..|]. naive_solver.
  - exists (fpx_list_clear h), m. split_and!; [done| |done|by intros y]. split_and!; try done. apply NoDup_nil_2.
Qed.

(** An operation adds at most one node; and one that counts keeps the size exact. *)
Lemma abs_op_length s o s' : abs_op s o = Some s' → (length s'.1 ≤ S (length s.1))%nat.
Proof.
  destruct s as [l n]. intros Ho. destruct o as [x|x|y x|y x|x|c|c|c|]; cbn [abs_op] in Ho; try case_decide as Hd; simplify_eq; cbn [fst].
  - simpl. lia.
  - rewrite length_app. simpl. lia.
  - destruct (insert_next_split true y x l) as (l1 & l2 & -> & ->); [tauto|]. rewrite !length_app. simpl. lia.
  - destruct (insert_next_split false y x l) as (l1 & l2 & -> & ->); [tauto|]. rewrite !length_app. simpl. lia.
  - pose proof (drop_first_length (λ y, bool_decide (y = x)) l). lia.
  - pose proof (drop_first_length c l). lia.
  - rewrite length_reverse, <- (length_reverse l). pose proof (drop_first_length c (reverse l)). lia.
  - rewrite mergesort_seq_Permutation. lia.
  - simpl. lia.
Qed.

Lemma abs_op_counts s o s' : abs_op s o = Some s' → counts o = true →
  s.2 = Z.of_nat (length s.1) → Z.of_nat (length s'.1) < 2 ^ 64 → Z.of_nat (length s.1) < 2 ^ 64 →
  s'.2 = Z.of_nat (length s'.1).
Proof.
  destruct s as [l n]. intros Ho Hc Hn Hb Hb'. cbn [fst snd] in *. subst n.
  destruct o as [x|x|y x|y x|x|c|c|c|]; try discriminate Hc; cbn [abs_op] in Ho; try case_decide as Hd; simplify_eq; cbn [fst snd] in *.
  - simpl in *. rewrite u64_small; lia.
  - rewrite length_app in *. simpl in *. rewrite u64_small; lia.
  - pose proof (drop_first_length (λ y, bool_decide (y = x)) l) as Hd'. rewrite find_elem in Hd' by done.
    rewrite u64_small; lia.
  - pose proof (drop_first_length c l) as Hd'. unfold less_one. destruct (List.find c l); [rewrite u64_small|]; lia.
  - rewrite length_reverse in *. pose proof (drop_first_length c (reverse l)) as Hd'. rewrite length_reverse in Hd'.
    unfold less_one. destruct (List.find c (reverse l)); [rewrite u64_small|]; lia.
  - done.
Qed.

Lemma run_ops_from fuel h m s os s' :
  represents h m s → Forall (op_alloc m) os → abs_ops s os = Some s' →
  (length s.1 + length os < fuel)%nat → Z.of_nat (length s.1 + length os) < 2 ^ 64 →
  ∃ h' m', run_ops fuel (h, m) os = Ok (h', m') ∧ represents h' m' s' ∧
    (Forall (λ o, counts o = true) os → s.2 = Z.of_nat (length s.1) → s'.2 = Z.of_nat (length s'.1)).
Proof.
  revert h m s. induction os as [|o os IH]; intros h m s Hd Ha Habs Hf Hb;
    cbn [run_ops abs_ops length] in *; [simplify_eq; eauto 6|].
  apply bind_Some in Habs as (s1 & Ho & Habs). apply Forall_cons in Ha as [Hao Ha].
  pose proof (abs_op_length _ _ _ Ho) as Hlen.
  destruct (run_op_refines fuel h m s o s1) as (h1 & m1 & -> & Hd1 & Hk); [done..|lia|lia|].
  rewrite bind_ok. destruct (IH h1 m1 s1) as (h' & m' & -> & Hd' & Hc); [done| |done|lia|lia|].
  { eapply Forall_impl; [done|]. intros []; simpl; auto. }
  exists h', m'. split_and!; [done..|]. intros [Hco Hcos]%Forall_cons Hn. apply Hc; [done|].
  apply (abs_op_counts _ _ _ Ho); [done|done|lia..].
Qed.

(** ** Properties *)

(** C1: Any sequence of the operations of list.c that a client may issue on a fresh
    list (each node linked is allocated and not yet in the list, each node removed or
    inserted next to is in it, a list is sorted only while its size field counts its
    nodes) runs without an invalid pointer access.  It leaves the header and the links
    in both directions representing exactly the sequence the same operations build
    abstractly, and the size field at the number they compute: an insertion next to a
    node leaves it alone, a sort of two or more nodes doubles it.  It is the number of
    nodes after any sequence of pushes, removals and clears. *)
Theorem list_ops_refine fuel h0 m os l' n' :
  Forall (op_alloc m) os → abs_ops ([], 0) os = Some (l', n') →
  (length os < fuel)%nat → Z.of_nat (length os) < 2 ^ 64 →
  ∃ h' m', run_ops fuel (fpx_list_init h0, m) os = Ok (h', m') ∧
    links h' m' l' ∧ fpx_list_size h' = n' ∧
    (Forall (λ o, counts o = true) os → n' = Z.of_nat (length l')).
Proof.
  intros Ha Habs Hf Hb.
  destruct (run_ops_from fuel (fpx_list_init h0) m ([], 0) os (l', n')) as (h' & m' & -> & [Hl Hs] & Hc); [|done..|].
  - split; [|done]. split_and!; try done. apply NoDup_nil_2.
  - exists h', m'. split_and!; [done..|]. intros Hall. by apply Hc.
Qed.

(** A store of four unlinked nodes, and the three-node list 3, 1, 2 in it. *)
Definition ex_free : store :=
  list_to_map ((λ x, (x, Node None None)) <$> [1; 2; 3; 4]%positive).
Definition ex_store : store :=
  <[1%positive := Node (Some 2%positive) (Some 3%positive)]>
  (<[2%positive := Node None (Some 1%positive)]>
  (<[3%positive := Node (Some 1%positive) None]> ex_free)).
Definition ex_list : fpx_list_t := List (Some 3%positive) (Some 2%positive) 3.
(** Orders nodes by location. *)
Definition ex_compar (a b : loc) : Z :=
  match (a ?= b)%positive with Lt => -1 | Eq => 0 | Gt => 1 end.

Lemma ex_dlist : dlist ex_list ex_store [3; 1; 2]%positive.
Proof.
  split; [|done].
  split; [apply (bool_decide_unpack _); vm_compute; exact I|].
  repeat split; vm_compute; reflexivity.
Qed.

Lemma ex_compar_asym a b : ex_compar a b = -1 → ex_compar b a ≠ -1.
Proof. unfold ex_compar. rewrite (Pos.compare_antisym a b). by destruct (a ?= b)%positive. Qed.

(** All nine operations. *)
Lemma list_ops_refine_witness :
  ∃ h' m', run_ops 12 (fpx_list_init ex_list, ex_free)
     [PushBack 2; PushFront 1; PushBack 3; Mergesort (λ a b, ex_compar b a); InsertBefore 3 4;
      RemoveFirst (λ x, bool_decide (x = 2)); RemoveLast (λ _, true); InsertAfter 4 2; Remove 3]%positive = Ok (h', m') ∧
    links h' m' [4; 2]%positive ∧ fpx_list_size h' = 3 ∧
  ∃ h2 m2, run_ops 3 (fpx_list_init ex_list, ex_free) [PushBack 2; Clear]%positive = Ok (h2, m2) ∧ fpx_list_size h2 = 0.
Proof.
  destruct (list_ops_refine 12 ex_list ex_free
    [PushBack 2; PushFront 1; PushBack 3; Mergesort (λ a b, ex_compar b a); InsertBefore 3 4;
     RemoveFirst (λ x, bool_decide (x = 2)); RemoveLast (λ _, true); InsertAfter 4 2; Remove 3]%positive [4; 2]%positive 3)
    as (h' & m' & Hr & Hl & Hs & _).
  - repeat constructor; vm_compute; eauto.
  - vm_compute. reflexivity.
  - simpl. lia.
  - simpl. lia.
  - exists h', m'. split_and!; [done..|].
    destruct (list_ops_refine 3 ex_list ex_free [PushBack 2; Clear]%positive [] 0) as (h2 & m2 & Hr2 & _ & Hs2 & Hc);
      [repeat constructor; vm_compute; eauto|vm_compute; reflexivity|simpl; lia|simpl; lia|].
    by exists h2, m2.
Defined.

(** C22: Merge sort on a well-formed list ends, touches only the list's own
    nodes, and relinks them (both directions, head and tail) into a
    permutation of the original sequence in which no element should come
    before its predecessor. *)
Theorem mergesort_sorts compar fuel h m xs :
  dlist h m xs → (length xs < fuel)%nat →
  (∀ a b, compar a b = -1 → compar b a ≠ -1) →
  ∃ h' m' ys, fpx_list_mergesort compar fuel h m = Ok (h', m') ∧ links h' m' ys ∧
    ys ≡ₚ xs ∧ Sorted (in_order compar) ys ∧ frame m m' xs.
Proof.
  intros (Hl & Hs & Hb) Hf Hc.
  destruct (mergesort_ok compar fuel h m xs) as (h' & m' & Hrun & _ & Hl' & _ & Hfr);
    [done|by apply links_nchain|done|by apply Hl|done|].
  exists h', m', (mergesort_seq compar fuel xs).
  split; [done|]. split; [|eauto using mergesort_seq_Permutation, mergesort_seq_Sorted].
  destruct (decide (2 ≤ length xs)%nat) as [H2|H2]; [by apply Hl'|].
  destruct fuel as [|fuel]; [lia|]. cbn [fpx_list_mergesort mergesort_seq] in *.
  rewrite decide_True by lia. rewrite Hs, (proj2 (Z.ltb_lt _ _)) in Hrun by lia.
  by simplify_eq.
Qed.

Lemma mergesort_sorts_witness :
  ∃ h' m' ys, fpx_list_mergesort ex_compar 4 ex_list ex_store = Ok (h', m') ∧
    links h' m' ys ∧ ys ≡ₚ [3; 1; 2]%positive ∧ Sorted (in_order ex_compar) ys ∧
    frame ex_store m' [3; 1; 2]%positive.
Proof. apply mergesort_sorts; [exact ex_dlist|simpl; lia|exact ex_compar_asym]. Defined.

(** Sorting a list of two or more elements corrupts its size: the merge
    clears only the header's two pointers before it pushes every element again,
    so the size field ends up twice the number of elements. *)
Theorem mergesort_doubles_size compar fuel h m xs h' m' :
  dlist h m xs → (length xs < fuel)%nat → (2 ≤ length xs)%nat →
  fpx_list_mergesort compar fuel h m = Ok (h', m') →
  fpx_list_size h' = u64 (2 * Z.of_nat (length xs)) ∧ ∀ ys, ys ≡ₚ xs → ¬ dlist h' m' ys.
Proof.
  intros (Hl & Hs & Hb) Hf H2 Hrun.
  destruct (mergesort_ok compar fuel h m xs) as (h1 & m1 & Hrun1 & _ & _ & Hsz & _);
    [done|by apply links_nchain|done|by apply Hl|done|].
  rewrite Hrun in Hrun1. simplify_eq.
  unfold mergesort_size in Hsz. rewrite (proj2 (Z.ltb_ge _ _)) in Hsz by lia.
  assert (l_size h1 = u64 (2 * Z.of_nat (length xs))) as Hu by (rewrite Hsz; f_equal; lia).
  split; [exact Hu|]. intros ys Hp (_ & Hys & _). rewrite Hp, Hu in Hys.
  unfold u64 in Hys.
  pose proof (Z.div_mod (2 * Z.of_nat (length xs)) (2 ^ 64) ltac:(lia)). nia.
Qed.

Lemma mergesort_doubles_size_witness :
  ∃ h' m', fpx_list_size h' = 6 ∧ ∀ ys, ys ≡ₚ [3; 1; 2]%positive → ¬ dlist h' m' ys.
Proof.
  eexists _, _.
  exact (mergesort_doubles_size ex_compar 4 ex_list ex_store [3; 1; 2]%positive _ _
    ex_dlist ltac:(simpl; lia) ltac:(simpl; lia) ltac:(vm_compute; reflexivity)).
Defined.

(** Inserting next to an element links the new node in place on every
    branch (before the head, after the tail, in the middle), but leaves the
    size field alone, so it no longer counts the elements. *)
Theorem insert_adjacent h m l1 y l2 x (before : bool) :
  dlist h m (l1 ++ y :: l2) → x ∉ l1 ++ y :: l2 → is_Some (m !! x) →
  let l' := if before then l1 ++ x :: y :: l2 else l1 ++ y :: x :: l2 in
  ∃ h' m', (if before then fpx_list_insert_before h m y x
            else fpx_list_insert_after h m y x) = Ok (h', m') ∧
    links h' m' l' ∧ fpx_list_size h' = Z.of_nat (length l') - 1.
Proof.
  intros (Hl & Hs & Hb) Hx Hm l'. rewrite length_app in Hs. simpl in Hs.
  assert (Z.of_nat (length l') - 1 = l_size h) as Hlen.
  { unfold l'. destruct before; rewrite length_app; simpl; lia. }
  unfold l', fpx_list_size in *. destruct before.
  - destruct (insert_before_links h m l1 y l2 x) as (h' & m' & -> & Hl' & Hs' & _); [done..|].
    exists h', m'. split; [done|]. split; [done|]. lia.
  - destruct (insert_after_links h m l1 y l2 x) as (h' & m' & -> & Hl' & Hs' & _); [done..|].
    exists h', m'. split; [done|]. split; [done|]. lia.
Qed.

Lemma insert_adjacent_witness :
  ∃ h' m', fpx_list_insert_before ex_list ex_store 1 4 = Ok (h', m') ∧
    links h' m' [3; 4; 1; 2]%positive ∧ fpx_list_size h' = 3.
Proof.
  exact (insert_adjacent ex_list ex_store [3]%positive 1 [2]%positive 4 true ex_dlist
    ltac:(apply (bool_decide_unpack _); vm_compute; exact I)
    ltac:(vm_compute; eauto)).
Defined.

(** The three searches return the right element: [fpx_list_find] and
    [fpx_list_remove_first] the first node the predicate accepts from the head,
    [fpx_list_remove_last] the first from the tail; with no such node the
    removals report [FPX_FAILED] and change nothing, otherwise exactly that node
    leaves the list. *)
Theorem searches h m l compar fuel :
  dlist h m l → (length l < fuel)%nat →
  fpx_list_find fuel h m compar = Ok (List.find compar l) ∧
  (∃ h' m', fpx_list_remove_first fuel h m compar =
     Ok (match List.find compar l with Some _ => FPX_OK | None => FPX_FAILED end, h', m') ∧
     dlist h' m' (drop_first compar l)) ∧
  (∃ h' m', fpx_list_remove_last fuel h m compar =
     Ok (match List.find compar (reverse l) with Some _ => FPX_OK | None => FPX_FAILED end,
         h', m') ∧
     dlist h' m' (reverse (drop_first compar (reverse l)))).
Proof.
  intros (Hl & Hs & Hb) Hf. pose proof (drop_first_length compar l) as H1.
  pose proof (drop_first_length compar (reverse l)) as H2. rewrite length_reverse in H2. split_and!.
  - by apply find_first_ok.
  - destruct (remove_first_ok h m l compar fuel) as (h' & m' & -> & Hl' & Hs' & _); [done..|].
    exists h', m'. split; [done|]. split_and!; [done| |lia]. rewrite Hs', Hs. unfold less_one.
    destruct (List.find compar l); [rewrite u64_small|]; lia.
  - destruct (remove_last_ok h m l compar fuel) as (h' & m' & -> & Hl' & Hs' & _); [done..|].
    exists h', m'. split; [done|]. rewrite <- (length_reverse (drop_first _ _)) in H2.
    split_and!; [done| |lia]. rewrite Hs', Hs. unfold less_one.
    destruct (List.find compar (reverse l)); [rewrite u64_small|]; lia.
Qed.

Lemma searches_witness :
  fpx_list_find 4 ex_list ex_store (λ x, bool_decide (x = 1)%positive) = Ok (Some 1%positive).
Proof.
  exact (proj1 (searches ex_list ex_store [3; 1; 2]%positive
    (λ x, bool_decide (x = 1)%positive) 4 ex_dlist ltac:(simpl; lia))).
Defined.

(** ** Traversals

    [Inv todo s] describes the state in front of the nodes still to visit. *)
Lemma foreach_inv {A} body next (Inv : list loc → fpx_list_t * store * A → Prop) :
  (∀ x t s, Inv (x :: t) s → ∃ l m a, body x s = Ok (l, m, a) ∧ Inv t (l, m, a) ∧
     next m x = Ok (first t None)) →
  ∀ t s fuel, Inv t s → (length t < fuel)%nat →
  ∃ s', while fuel (foreach_step body next) (s, first t None) = Ok s' ∧ Inv [] s'.
Proof.
  intros Hstep t. induction t as [|x t IH]; intros s [|fuel] Hs Hf; simpl in Hf; try lia.
  - eauto.
  - destruct (Hstep _ _ _ Hs) as (l & m & a & Hb & Hi & Hn). simpl.
    rewrite Hb. simpl. rewrite Hn. simpl. apply IH; [done|lia].
Qed.

(** A body that leaves the list and the store alone. *)
Definition reads {A} (f : loc → A → A) (x : loc) (s : fpx_list_t * store * A)
    : res (fpx_list_t * store * A) :=
  let '(l, m, a) := s in Ok (l, m, f x a).

(** A body that takes the node it is at off the list. *)
Definition takes_off {A} (f : loc → A → A) (x : loc) (s : fpx_list_t * store * A)
    : res (fpx_list_t * store * A) :=
  let '(l, m, a) := s in '(l, m) ← fpx_list_remove l m x; Ok (l, m, f x a).

(** A callback that frees the node it is given. *)
Definition frees {A} (f : loc → A → A) (x : loc) (s : store * A) : res (store * A) :=
  let '(m, a) := s in _ ← load m x; Ok (delete x m, f x a).

(** ... and a body that takes it off and frees it. *)
Definition takes_off_frees {A} (f : loc → A → A) (x : loc) (s : fpx_list_t * store * A)
    : res (fpx_list_t * store * A) :=
  let '(l, m, a) := s in
  '(l, m) ← fpx_list_remove l m x; '(m, a) ← frees f x (m, a); Ok (l, m, a).

Lemma final_reverse (l : list loc) d : final (reverse l) d = first l d.
Proof. destruct l as [|x l]; [done|]. by rewrite reverse_cons, final_snoc. Qed.

Lemma dlist_delete h m l x : x ∉ l → dlist h m l → dlist h (delete x m) l.
Proof.
  intros Hx ((Hnd & Hh & Ht & Hseg) & Hsz). split; [|done]. split_and!; try done.
  eapply dseg_frame, Hseg. intros y Hy. apply lookup_delete_ne. set_solver.
Qed.

Lemma walk_first next m p l : walk next m p l → p = first l None.
Proof. destruct l; simpl; [done|]. by intros [-> _]. Qed.

Lemma foreach_reads {A} next (f : loc → A → A) h m xs a fuel :
  walk next m (first xs None) xs → (length xs < fuel)%nat →
  while fuel (foreach_step (reads f) next) (h, m, a, first xs None) =
    Ok (h, m, foldl (flip f) a xs).
Proof.
  intros Hw Hf.
  destruct (foreach_inv (reads f) next (λ t s, s.1 = (h, m) ∧ walk next m (first t None) t ∧
    foldl (flip f) s.2 t = foldl (flip f) a xs)) with (t := xs) (s := (h, m, a)) (fuel := fuel)
    as ([[h' m'] a'] & -> & Hs); [|done..|].
  - intros x t [[h' m'] a'] (Hs & (_ & q & Hq & Ht) & He). simpl in *. simplify_eq.
    pose proof (walk_first _ _ _ _ Ht). subst q. eauto 8.
  - simpl in Hs. destruct Hs as (? & _ & <-). by simplify_eq.
Qed.

Lemma remove_end_links {h m x l} (front : bool) :
  dlist h m (if front then x :: l else l ++ [x]) →
  ∃ h' m', fpx_list_remove h m x = Ok (h', m') ∧ dlist h' m' l ∧ frame m m' l ∧
    m' !! x = m !! x ∧ m !! x = Some (if front then Node (first l None) None
                                      else Node None (final l None)).
Proof.
  intros Hd. assert (∃ l1 l2, l1 ++ x :: l2 = (if front then x :: l else l ++ [x]) ∧
    l = l1 ++ l2) as (l1 & l2 & Hl & ->).
  { destruct front; [by exists [], l|exists l, []; by rewrite app_nil_r]. }
  rewrite <- Hl in Hd. destruct (find_remove_ok _ _ _ _ _ Hd) as (h' & m' & Hr & Hd' & _).
  destruct Hd as (Hlk & _). destruct (remove_links _ _ _ _ _ Hlk) as (h2 & m2 & Hr2 & _ & _ & Hf & Hx).
  rewrite Hr in Hr2. simplify_eq. exists h2, m2. split_and!; try done.
  destruct Hlk as (_ & _ & _ & Hseg). rewrite Hl in Hseg. destruct front.
  - by destruct Hseg.
  - apply dseg_last in Hseg as [_ Hx2]. done.
Qed.

Lemma foreach_takes_off {A} (front : bool) (f : loc → A → A) h m xs a fuel :
  dlist h m (if front then xs else reverse xs) → (length xs < fuel)%nat →
  ∃ h' m', while fuel (foreach_step (takes_off f) (if front then fpx_list_next else fpx_list_prev))
      (h, m, a, first xs None) = Ok (h', m', foldl (flip f) a xs) ∧ dlist h' m' [].
Proof.
  intros Hd Hf.
  destruct (foreach_inv (takes_off f) (if front then fpx_list_next else fpx_list_prev)
    (λ t s, dlist s.1.1 s.1.2 (if front then t else reverse t) ∧
    foldl (flip f) s.2 t = foldl (flip f) a xs)) with (t := xs) (s := (h, m, a)) (fuel := fuel)
    as ([[h' m'] a'] & -> & Hs); [|done..|].
  - intros x t [[h' m'] a'] (Hd' & He). simpl in *.
    assert (dlist h' m' (if front then x :: (if front then t else reverse t)
                         else (if front then t else reverse t) ++ [x])) as Hd2.
    { destruct front; [done|by rewrite <- reverse_cons]. }
    destruct (remove_end_links front Hd2) as (h2 & m2 & Hr & Hd3 & _ & Hx & Hn).
    exists h2, m2, (f x a'). simpl. rewrite Hr. simpl. split_and!; try done.
    destruct front; unfold fpx_list_next, fpx_list_prev, load; rewrite Hx, Hn; simpl;
      [done|]. by rewrite final_reverse.
  - simpl in Hs. exists h', m'. destruct Hs as (? & <-). split; [done|]. by destruct front.
Qed.

Lemma cleanup_frees {A} (f : loc → A → A) xs : ∀ h m a fuel,
  dlist h m xs → (length xs < fuel)%nat →
  ∃ h' m', fpx_list_cleanup fuel (frees f) (h, m, a) = Ok (h', m', foldl (flip f) a xs) ∧
    dlist h' m' [] ∧ (∀ x, x ∈ xs → m' !! x = None) ∧ frame m m' xs.
Proof.
  induction xs as [|x xs IH]; intros h m a [|fuel] Hd Hf; simpl in Hf; try lia;
    pose proof Hd as ((Hnd & Hh & _) & _); unfold fpx_list_cleanup; simpl;
    unfold fpx_list_head at 1; rewrite Hh; simpl.
  - exists h, m. split_and!; [done|done|set_solver|done].
  - destruct (remove_end_links true Hd) as (h' & m' & -> & Hd' & Hfr & Hx & Hn). simpl.
    unfold load. rewrite Hx, Hn. simpl. apply NoDup_cons in Hnd as [Hxs _].
    destruct (IH h' (delete x m') (f x a) fuel) as (h2 & m2 & Hr & Hd2 & Hnone & Hf2); [|lia|].
    { by apply dlist_delete. }
    unfold fpx_list_cleanup in Hr. rewrite Hr. exists h2, m2. split_and!; [done|done| |].
    + intros y [->|Hy]%elem_of_cons; [|by apply Hnone].
      rewrite Hf2 by done. apply lookup_delete_eq.
    + intros y Hy. rewrite Hf2 by set_solver. rewrite lookup_delete_ne by set_solver.
      apply Hfr. set_solver.
Qed.

Lemma foreach_freed {A} (f : loc → A → A) h m xs x a fuel :
  dlist h m (x :: xs) → (0 < fuel)%nat →
  fpx_list_foreach (takes_off_frees f) fuel (h, m, a) = UB.
Proof.
  intros Hd Hf. destruct fuel as [|fuel]; [lia|]. unfold fpx_list_foreach. simpl.
  pose proof Hd as ((_ & Hh & _) & _). unfold fpx_list_head. rewrite Hh. simpl.
  destruct (remove_end_links true Hd) as (h' & m' & -> & _ & _ & Hx & Hn). simpl.
  unfold load. rewrite Hx, Hn. simpl. unfold fpx_list_next, load.
  by rewrite lookup_delete_eq.
Qed.

(** C31: Traversing a list.  A body that leaves the list alone visits exactly
    its nodes, each once, from the head to the tail ([fpx_list_foreach]) or back
    ([fpx_list_foreach_reverse]).  A body that takes the node it is at off the list
    does so too, and empties the list, because a removed node keeps its links; one
    that also frees the node makes the macro read freed memory.  [fpx_list_cleanup]
    is the loop for that: every node is given to the callback in order, the list is
    empty at the end, the nodes are freed and no other one is touched. *)
Theorem foreach_correct {A} (f : loc → A → A) h m xs a fuel :
  dlist h m xs → (length xs < fuel)%nat →
  let visit l := foldl (flip f) a l in
  fpx_list_foreach (reads f) fuel (h, m, a) = Ok (h, m, visit xs) ∧
  fpx_list_foreach_reverse (reads f) fuel (h, m, a) = Ok (h, m, visit (reverse xs)) ∧
  (∃ h' m', fpx_list_foreach (takes_off f) fuel (h, m, a) = Ok (h', m', visit xs) ∧
     dlist h' m' []) ∧
  (∃ h' m', fpx_list_foreach_reverse (takes_off f) fuel (h, m, a) =
     Ok (h', m', visit (reverse xs)) ∧ dlist h' m' []) ∧
  (xs ≠ [] → fpx_list_foreach (takes_off_frees f) fuel (h, m, a) = UB) ∧
  (∃ h' m', fpx_list_cleanup fuel (frees f) (h, m, a) = Ok (h', m', visit xs) ∧
     dlist h' m' [] ∧ (∀ x, x ∈ xs → m' !! x = None) ∧ frame m m' xs).
Proof.
  intros Hd Hf visit. pose proof Hd as ((_ & Hh & Ht & Hseg) & _).
  assert (fpx_list_tail h = first (reverse xs) None) as Ht'
    by (unfold fpx_list_tail; by rewrite Ht, <- (reverse_involutive xs), final_reverse,
          reverse_involutive).
  assert (length (reverse xs) < fuel)%nat as Hf' by (by rewrite length_reverse).
  unfold fpx_list_foreach, fpx_list_foreach_reverse. cbn [fst snd].
  rewrite Ht'. unfold fpx_list_head. rewrite Hh. split_and!.
  - apply foreach_reads; [by eapply walk_next|done].
  - apply foreach_reads; [|done]. rewrite <- Ht'. unfold fpx_list_tail. rewrite Ht.
    by eapply walk_prev.
  - by apply (foreach_takes_off true).
  - apply (foreach_takes_off false); [by rewrite reverse_involutive|done].
  - intros Hne. destruct xs as [|x xs]; [done|].
    rewrite <- (foreach_freed f h m xs x a fuel Hd ltac:(lia)). unfold fpx_list_foreach. cbn [fst snd].
    unfold fpx_list_head. by rewrite Hh.
  - by apply cleanup_frees.
Qed.

Lemma foreach_correct_witness :
  fpx_list_foreach (reads cons) 4 (ex_list, ex_store, []) = Ok (ex_list, ex_store, [2; 1; 3]%positive).
Proof.
  exact (proj1 (foreach_correct cons ex_list ex_store [3; 1; 2]%positive [] 4 ex_dlist
    ltac:(simpl; lia))).
Defined.
