(* ===== verification/Str.v ===== *)
(** * Strings: [src/src/util/string.c], [include/floppix/util/string.h]

    A [char] is a signed 8-bit value, kept as a [Z] in [-128 .. 127].  A
    [const char *] argument is the list of characters from the pointer to the end
    of its object: reading past that list is [UB].  A string is stored as its
    characters followed by [0] ([cstr]).  The functions that copy strings into a
    pool take the pool through the interface [PoolAlloc], which Pool.v
    implements. *)

From S2P Require Import Prelude CInt.
Open Scope Z_scope.

Abbreviation chars := (list Z) (only parsing).

(** Character constants and macros of string.h. *)
Definition FPX_NULL : Z := 0.
Definition FPX_TAB : Z := 9.
Definition FPX_LF : Z := 10.
Definition FPX_CR : Z := 13.
Definition FPX_SPACE : Z := 32.

Definition fpx_isdigit (c : Z) : bool := (48 <=? c) && (c <=? 57).
Definition fpx_isalpha (c : Z) : bool :=
  ((65 <=? c) && (c <=? 90)) || ((97 <=? c) && (c <=? 122)).
Definition fpx_isascii (c : Z) : bool := (0 <=? s8 c) && (u8 c <=? 127).
Definition fpx_tolower (c : Z) : Z := s8 (if (65 <=? c) && (c <=? 90) then Z.lor c 32 else c).
Definition fpx_toupper (c : Z) : Z :=
  s8 (if (97 <=? c) && (c <=? 122) then Z.land c (Z.lnot 32) else c).

(** A string as the code reads it. *)
Definition cstr (s : chars) : chars := s ++ [0].

(** The characters of a text literal. *)
Definition chars_of (s : string) : chars :=
  (λ a, Z.of_nat (Ascii.nat_of_ascii a)) <$> String.list_ascii_of_string s.

(** [str[i]] *)
Definition rd (str : chars) (i : Z) : res Z :=
  if i <? 0 then UB else of_option (str !! Z.to_nat i).

(** ** Numbers *)

(** The loop shared by [fpx_atoi] and [fpx_atosz], which differ in the type of
    [value] only: [vmax] is its maximum and [chk] its range check. *)
Fixpoint ato_loop (vmax : Z) (chk : Z → res Z) (n : nat) (str : chars) (i value : Z)
    : res Z :=
  match n with
  | O => Ok value
  | S n' =>
      let cutoff := vmax / 10 in
      let cutlim := vmax mod 10 in
      c ← rd str i;
      if (c <? 48) || (57 <? c) then Ok (-1) else
      let temp := c - 48 in
      if (cutoff <=? value) && ((cutoff <? value) || (cutlim <? temp)) then Ok (-1) else
      v10 ← chk (value * 10);
      value ← chk (v10 + temp);
      ato_loop vmax chk n' str (i + 1) value
  end.

Definition fpx_atoi (str : chars) (n : Z) : res Z :=
  if n =? 0 then Ok (-1) else
  ato_loop FPX_INT_T_MAX int_result (Z.to_nat n) str 0 0.

Definition fpx_atosz (str : chars) (n : Z) : res Z :=
  if n =? 0 then Ok (-1) else
  ato_loop FPX_SSIZE_T_MAX ssize_result (Z.to_nat n) str 0 0.

(** ** Lengths *)

Fixpoint strlen_loop (str : chars) (i : Z) : res Z :=
  match str with
  | [] => UB
  | c :: str' => if c =? 0 then Ok i else strlen_loop str' (u64 (i + 1))
  end.
Definition fpx_strlen (str : chars) : res Z := strlen_loop str 0.

Fixpoint strnlen_loop (k : nat) (str : chars) (i n : Z) : res Z :=
  match k with
  | O => Ok n
  | S k' => c ← rd str i; if c =? 0 then Ok i else strnlen_loop k' str (i + 1) n
  end.
Definition fpx_strnlen (str : chars) (n : Z) : res Z := strnlen_loop (Z.to_nat n) str 0 n.

(** ** Comparison *)

(** [(uint) *str], folded to lower case. *)
Definition case_fold (c : Z) : Z :=
  let c1 := u32 c in if (65 <=? c1) && (c1 <=? 90) then Z.lor c1 32 else c1.

Fixpoint fpx_strcasecmp (str1 str2 : chars) : res Z :=
  match str1, str2 with
  | a :: str1', b :: str2' =>
      let c1 := case_fold a in
      let c2 := case_fold b in
      if c1 =? c2 then
        if negb (c1 =? 0) then fpx_strcasecmp str1' str2' else Ok 0
      else Ok (s32 (u32 (c1 - c2)))
  | _, _ => UB
  end.

Fixpoint strncasecmp_loop (n : nat) (str1 str2 : chars) : res Z :=
  match n with
  | O => Ok 0
  | S n' =>
      match str1, str2 with
      | a :: str1', b :: str2' =>
          let c1 := case_fold a in
          let c2 := case_fold b in
          if c1 =? c2 then
            if negb (c1 =? 0) then strncasecmp_loop n' str1' str2' else Ok 0
          else Ok (s32 (u32 (c1 - c2)))
      | _, _ => UB
      end
  end.
Definition fpx_strncasecmp (str1 str2 : chars) (n : Z) : res Z :=
  strncasecmp_loop (Z.to_nat n) str1 str2.

(** [strcmp], of the C library: the comparison is of unsigned characters. *)
Fixpoint strcmp (s1 s2 : chars) : res Z :=
  match s1, s2 with
  | a :: s1', b :: s2' =>
      if u8 a =? u8 b then (if a =? 0 then Ok 0 else strcmp s1' s2') else Ok (u8 a - u8 b)
  | _, _ => UB
  end.
Definition fpx_strcmp : chars → chars → res Z := strcmp.

(** ** Search: the result is the offset of the character, [None] for [NULL] *)

(** [for (i = 0; i < len; ++i)]; [k] counts the iterations left. *)
Fixpoint strchr_loop (k : nat) (str : chars) (i c : Z) : res (option Z) :=
  match k with
  | O => Ok None
  | S k' => x ← rd str i; if x =? c then Ok (Some i) else strchr_loop k' str (i + 1) c
  end.
Definition fpx_strchr (str : chars) (c : Z) : res (option Z) :=
  len ← fpx_strlen str; strchr_loop (Z.to_nat len) str 0 c.

(** [for (i = len; i >= 0; i--)] with a signed [i]. *)
Fixpoint strrchr_loop (k : nat) (str : chars) (i c : Z) : res (option Z) :=
  match k with
  | O => Ok None
  | S k' =>
      if i <? 0 then Ok None else
      x ← rd str i; if x =? c then Ok (Some i) else strrchr_loop k' str (i - 1) c
  end.
Definition fpx_strrchr (str : chars) (c : Z) : res (option Z) :=
  len ← fpx_strlen str; strrchr_loop (S (Z.to_nat len)) str (s64 len) c.

(** ** Copies into a pool *)

(** What the string functions need of a pool: [palloc p n] is [fpx_palloc],
    [None] when it returns [NULL], otherwise the address of a block of at least
    [n] bytes. *)
Class PoolAlloc (P : Type) : Type := palloc : P → Z → res (option Z * P).

(** What the clients that register clean-ups need besides: [pcleanup_add p data h]
    is [fpx_pool_cleanup_add], for the handler with number [h]. *)
Class PoolCleanup (P : Type) : Type := pcleanup_add : P → Z → Z → res P.

Section Copies.
Context {P : Type} `{PoolAlloc P}.

(** The bytes [memmove] copies out of [src]. *)
Definition read_bytes (src : chars) (n : Z) : res chars :=
  if Z.of_nat (length src) <? n then UB else Ok (take (Z.to_nat n) src).

(** The result is the address of the new block and its contents. *)
Definition fpx_pstrdup (pool : P) (str : chars) : res (option (Z * chars) * P) :=
  l ← fpx_strlen str;
  let len := u64 (l + 1) in
  '(mem, pool) ← palloc pool len;
  match mem with
  | None => Ok (None, pool)
  | Some a => s ← read_bytes str len; Ok (Some (a, s), pool)
  end.

Definition fpx_pstrndup (pool : P) (str : chars) (n : Z) : res (option (Z * chars) * P) :=
  '(mem, pool) ← palloc pool (u64 (n + 1));
  match mem with
  | None => Ok (None, pool)
  | Some a => s ← read_bytes str n; Ok (Some (a, s ++ [0]), pool)
  end.

Fixpoint strcat_length (args : list chars) (len : Z) : res Z :=
  match args with
  | [] => Ok len
  | argv :: args' => l ← fpx_strlen argv; strcat_length args' (u64 (len + l))
  end.
Fixpoint strcat_copy (args : list chars) : res chars :=
  match args with
  | [] => Ok []
  | argv :: args' => l ← fpx_strlen argv; s ← read_bytes argv l;
                     rest ← strcat_copy args'; Ok (s ++ rest)
  end.
(** [fpx_pstrcat1(pool, args..., NULL)] *)
Definition fpx_pstrcat1 (pool : P) (args : list chars) : res (option (Z * chars) * P) :=
  len ← strcat_length args 0;
  '(mem, pool) ← palloc pool (u64 (len + 1));
  match mem with
  | None => Ok (None, pool)
  | Some a => s ← strcat_copy args; Ok (Some (a, s ++ [0]), pool)
  end.
End Copies.

(** ** Reference notions *)

(** Characters of a C string: none is the terminator, all are [char] values. *)
Definition text (s : chars) : Prop := Forall (λ c, c ≠ 0 ∧ -128 ≤ c < 128) s.

(** The value of a digit sequence read after [v]. *)
Fixpoint dec_acc (s : chars) (v : Z) : Z :=
  match s with [] => v | c :: s' => dec_acc s' (v * 10 + (c - 48)) end.

(** The number a text denotes, if it is a non-empty run of digits. *)
Definition decimal (s : chars) : option Z :=
  match s with
  | [] => None
  | _ => if forallb fpx_isdigit s then Some (dec_acc s 0) else None
  end.

(** The decimal representation of a number. *)
Fixpoint digits (fuel : nat) (v : Z) (acc : chars) : chars :=
  match fuel with
  | O => acc
  | S fuel' => if v <? 10 then (48 + v) :: acc
               else digits fuel' (v / 10) ((48 + v mod 10) :: acc)
  end.
Definition print_dec (v : Z) : chars := digits (S (Z.to_nat (Z.log2 v))) v [].

(** Lower-case ASCII letters, everything else unchanged. *)
Definition lower (c : Z) : Z := if (65 <=? c) && (c <=? 90) then c + 32 else c.

(** The first difference of two texts up to letter case. *)
Fixpoint case_diff (s1 s2 : chars) : Z :=
  match s1, s2 with
  | [], [] => 0
  | [], b :: _ => - lower b
  | a :: _, [] => lower a
  | a :: s1', b :: s2' => if lower a =? lower b then case_diff s1' s2' else lower a - lower b
  end.

(** Index of the first character [f] accepts. *)
Fixpoint index_of (f : Z → bool) (s : chars) : option Z :=
  match s with
  | [] => None
  | c :: s' => if f c then Some 0 else Z.succ <$> index_of f s'
  end.

(** ** Lemmas *)

Lemma text_cons c s : text (c :: s) ↔ (c ≠ 0 ∧ -128 ≤ c < 128) ∧ text s.
Proof. unfold text. by rewrite Forall_cons. Qed.

Lemma rd_lookup str i c : 0 ≤ i → str !! Z.to_nat i = Some c → rd str i = Ok c.
Proof. intros Hi H. unfold rd. rewrite (proj2 (Z.ltb_ge _ _)) by done. by rewrite H. Qed.

Lemma rd_app_r s c s' : rd (s ++ c :: s') (Z.of_nat (length s)) = Ok c.
Proof. apply rd_lookup; [lia|]. rewrite Nat2Z.id. by apply list_lookup_middle. Qed.

Lemma rd_last s c rest : rd (s ++ c :: rest) (Z.of_nat (length (s ++ [c])) - 1) = Ok c.
Proof. rewrite length_app. simpl. replace (Z.of_nat (length s + 1) - 1) with (Z.of_nat (length s)) by lia. apply rd_app_r. Qed.

Lemma read_bytes_app s s' : read_bytes (s ++ s') (Z.of_nat (length s)) = Ok s.
Proof.
  unfold read_bytes. rewrite length_app, (proj2 (Z.ltb_ge _ _)) by lia.
  by rewrite Nat2Z.id, take_app_length.
Qed.

Lemma strlen_loop_app s s' i :
  text s → 0 ≤ i → i + Z.of_nat (length s) < 2 ^ 64 →
  strlen_loop (s ++ 0 :: s') i = Ok (i + Z.of_nat (length s)).
Proof.
  revert i. induction s as [|c s IH]; intros i Ht Hi Hb; simpl in *.
  - by rewrite Z.add_0_r.
  - apply text_cons in Ht as [[Hc _] Ht]. rewrite (proj2 (Z.eqb_neq _ _)) by done.
    rewrite u64_small by lia. rewrite IH by (try done; lia). f_equal. lia.
Qed.

Lemma strlen_app s s' :
  text s → Z.of_nat (length s) < 2 ^ 64 →
  fpx_strlen (s ++ 0 :: s') = Ok (Z.of_nat (length s)).
Proof. intros. unfold fpx_strlen. rewrite strlen_loop_app; [done|done|lia|lia]. Qed.

Lemma strlen_cstr s :
  text s → Z.of_nat (length s) < 2 ^ 64 → fpx_strlen (cstr s) = Ok (Z.of_nat (length s)).
Proof. apply strlen_app. Qed.

Lemma isdigit_range c : fpx_isdigit c = true ↔ 48 ≤ c ≤ 57.
Proof. unfold fpx_isdigit. lia. Qed.

Lemma dec_acc_mono s v : forallb fpx_isdigit s = true → 0 ≤ v → v ≤ dec_acc s v.
Proof.
  revert v. induction s as [|c s IH]; intros v Hd Hv; simpl in *; [lia|].
  apply andb_true_iff in Hd as [Hc Hd]. apply isdigit_range in Hc.
  specialize (IH (v * 10 + (c - 48)) Hd). lia.
Qed.

Section Ato.
Variables (vmax : Z) (chk : Z → res Z).
Hypothesis vmax_pos : 9 ≤ vmax.
Hypothesis chk_ok : ∀ z, 0 ≤ z ≤ vmax → chk z = Ok z.

(** What the loop answers for the digits [s] left, [value] read so far. *)
Definition ato_spec (s : chars) (value : Z) : Z :=
  if forallb fpx_isdigit s && (dec_acc s value <=? vmax) then dec_acc s value else -1.

Lemma ato_loop_ok n str i value :
  0 ≤ i → (Z.to_nat i + n ≤ length str)%nat → 0 ≤ value ≤ vmax →
  ato_loop vmax chk n str i value = Ok (ato_spec (take n (drop (Z.to_nat i) str)) value).
Proof.
  revert i value. induction n as [|n IH]; intros i value Hi Hl Hv.
  { unfold ato_spec. simpl. by rewrite (proj2 (Z.leb_le _ _)) by lia. }
  destruct (lookup_lt_is_Some_2 str (Z.to_nat i)) as [c Hc]; [lia|].
  cbn [ato_loop]. rewrite (rd_lookup _ _ _ Hi Hc), bind_ok.
  rewrite (drop_S _ _ _ Hc), firstn_cons.
  unfold ato_spec in *. cbn [forallb dec_acc].
  destruct ((c <? 48) || (57 <? c)) eqn:Hd; [by replace (fpx_isdigit c) with false by (unfold fpx_isdigit; lia)|].
  replace (fpx_isdigit c) with true by (unfold fpx_isdigit; lia). simpl andb.
  pose proof (Z.div_mod vmax 10 ltac:(lia)) as Hdm.
  pose proof (Z.mod_pos_bound vmax 10 ltac:(lia)) as Hmod.
  set (s := take n (drop (S (Z.to_nat i)) str)) in *.
  destruct ((vmax / 10 <=? value) && ((vmax / 10 <? value) || (vmax mod 10 <? c - 48))) eqn:Hcut.
  - destruct (forallb fpx_isdigit s) eqn:Hs; [|done]. simpl.
    pose proof (dec_acc_mono s (value * 10 + (c - 48)) Hs).
    by rewrite (proj2 (Z.leb_gt _ _)) by lia.
  - rewrite chk_ok, bind_ok, chk_ok, bind_ok by lia.
    rewrite IH by lia. by replace (Z.to_nat (i + 1)) with (S (Z.to_nat i)) by lia.
Qed.

Lemma ato_ok str n :
  0 < n ≤ Z.of_nat (length str) →
  ato_loop vmax chk (Z.to_nat n) str 0 0 =
    Ok (match decimal (take (Z.to_nat n) str) with
        | Some v => if v <=? vmax then v else -1
        | None => -1
        end).
Proof.
  intros Hn. rewrite ato_loop_ok by lia. change (drop (Z.to_nat 0) str) with str. f_equal. unfold ato_spec, decimal.
  destruct (take (Z.to_nat n) str) as [|c s] eqn:Ht.
  { apply (f_equal length) in Ht. rewrite length_take in Ht. simpl in Ht. lia. }
  by destruct (forallb fpx_isdigit (c :: s)).
Qed.
End Ato.

Lemma digits_ok fuel v acc :
  0 ≤ v < 2 ^ Z.of_nat fuel → forallb fpx_isdigit acc = true →
  forallb fpx_isdigit (digits fuel v acc) = true ∧
  (0 < fuel → digits fuel v acc ≠ [])%nat ∧
  (0 < fuel → dec_acc (digits fuel v acc) 0 = dec_acc acc v)%nat.
Proof.
  revert v acc. induction fuel as [|fuel IH]; intros v acc Hv Ha; [split_and!; [done|lia|lia]|].
  cbn [digits]. pose proof (Z.div_mod v 10 ltac:(lia)) as Hdm.
  pose proof (Z.mod_pos_bound v 10 ltac:(lia)) as Hmod.
  destruct (Z.ltb_spec v 10) as [Hlt|Hge].
  - split_and!; [|done|].
    + simpl. rewrite Ha, andb_true_r. unfold fpx_isdigit. lia.
    + intros _. simpl. f_equal. lia.
  - rewrite Nat2Z.inj_succ, Z.pow_succ_r in Hv by lia.
    destruct fuel as [|fuel]; [simpl in Hv; lia|].
    destruct (IH (v / 10) ((48 + v mod 10) :: acc)) as (H1 & H2 & H3).
    { split; [apply Z.div_pos; lia|]. apply Z.div_lt_upper_bound; lia. }
    { simpl. rewrite Ha, andb_true_r. unfold fpx_isdigit. lia. }
    split_and!; [done|intros _; apply H2; lia|].
    intros _. rewrite H3 by lia. simpl. f_equal. lia.
Qed.

Lemma print_dec_fuel v : 0 ≤ v → v < 2 ^ Z.of_nat (S (Z.to_nat (Z.log2 v))).
Proof.
  intros Hv. rewrite Nat2Z.inj_succ, Z2Nat.id by apply Z.log2_nonneg.
  destruct (Z.eq_dec v 0) as [->|]; [done|]. apply Z.log2_spec. lia.
Qed.

Lemma print_dec_ok v :
  0 ≤ v → decimal (print_dec v) = Some v ∧ forallb fpx_isdigit (print_dec v) = true ∧
    print_dec v ≠ [].
Proof.
  intros Hv. destruct (digits_ok (S (Z.to_nat (Z.log2 v))) v []) as (H1 & H2 & H3);
    [split; [done|by apply print_dec_fuel]|done|].
  unfold print_dec in *. split_and!; [|done|apply H2; lia]. unfold decimal.
  destruct (digits _ _ _) eqn:E; [by exfalso; apply H2; [lia|]|]. rewrite H1, H3 by lia. done.
Qed.

Lemma digits_text s : forallb fpx_isdigit s = true → text s.
Proof.
  intros H. apply Forall_forall. intros c Hc.
  apply forallb_forall with (x := c) in H; [|by apply list_elem_of_In].
  apply isdigit_range in H. lia.
Qed.

(** [c | 0x20] on an upper-case letter. *)
Lemma lor_32 c : 65 ≤ c ≤ 90 → Z.lor c 32 = c + 32.
Proof.
  intros Hc. assert (Forall (λ c, Z.lor c 32 = c + 32) (seqZ 65 26)) as H by repeat constructor.
  rewrite Forall_forall in H. apply H, elem_of_seqZ. lia.
Qed.

Lemma case_fold_u32 c : -128 ≤ c < 128 → case_fold c = u32 (lower c).
Proof.
  intros Hc. unfold case_fold, lower.
  destruct (Z_lt_le_dec c 0) as [Hneg|Hpos].
  - replace ((65 <=? c) && (c <=? 90)) with false by lia.
    assert (u32 c = c + 2 ^ 32) as E by (unfold u32; symmetry; apply (Zmod_unique _ _ (-1)); lia).
    rewrite E. by replace ((65 <=? c + 2 ^ 32) && (c + 2 ^ 32 <=? 90)) with false by lia.
  - rewrite (u32_small c) by lia.
    destruct ((65 <=? c) && (c <=? 90)) eqn:E; rewrite ?lor_32, ?u32_small by lia; lia.
Qed.

Lemma lower_range c : -128 ≤ c < 128 → -128 ≤ lower c < 128.
Proof. unfold lower. destruct ((65 <=? c) && (c <=? 90)) eqn:E; lia. Qed.

Lemma lower_zero c : lower c = 0 ↔ c = 0.
Proof. unfold lower. destruct ((65 <=? c) && (c <=? 90)) eqn:E; lia. Qed.

Lemma u32_inj a b : -128 ≤ a < 128 → -128 ≤ b < 128 → u32 a = u32 b → a = b.
Proof.
  intros Ha Hb H. unfold u32 in H.
  pose proof (Z.div_mod a (2 ^ 32) ltac:(lia)). pose proof (Z.div_mod b (2 ^ 32) ltac:(lia)). lia.
Qed.

(** The unsigned difference of two characters, returned as an [int]. *)
Lemma case_fold_diff a b :
  -128 ≤ a < 128 → -128 ≤ b < 128 →
  s32 (u32 (case_fold a - case_fold b)) = lower a - lower b.
Proof.
  intros Ha Hb. rewrite !case_fold_u32, u32_sub, s32_u32 by done.
  pose proof (lower_range a Ha). pose proof (lower_range b Hb). apply s32_small. lia.
Qed.

Lemma case_fold_eqb a b :
  -128 ≤ a < 128 → -128 ≤ b < 128 → (case_fold a =? case_fold b) = (lower a =? lower b).
Proof.
  intros Ha Hb. rewrite !case_fold_u32 by done.
  destruct (Z.eqb_spec (lower a) (lower b)) as [->|Hne]; [by rewrite Z.eqb_refl|].
  apply Z.eqb_neq. intros H. apply Hne. apply u32_inj; auto using lower_range.
Qed.

Lemma case_fold_zero a : -128 ≤ a < 128 → (case_fold a =? 0) = (a =? 0).
Proof.
  intros Ha. change 0 with (case_fold 0) at 1. rewrite case_fold_eqb by lia.
  pose proof (lower_zero a). change (lower 0) with 0.
  destruct (Z.eqb_spec (lower a) 0), (Z.eqb_spec a 0); tauto.
Qed.

Lemma strcasecmp_diff s1 s2 :
  text s1 → text s2 → fpx_strcasecmp (cstr s1) (cstr s2) = Ok (case_diff s1 s2).
Proof.
  unfold cstr. revert s2. induction s1 as [|a s1 IH]; intros [|b s2] H1 H2;
    rewrite ?text_cons in H1; rewrite ?text_cons in H2; [done| | |];
    destruct_and?; cbn [app fpx_strcasecmp case_diff]; cbv zeta; rewrite case_fold_eqb, ?case_fold_diff, ?case_fold_zero by lia;
    change (lower 0) with 0.
  - rewrite (proj2 (Z.eqb_neq _ _)); [done|]. intros E. symmetry in E. apply (proj1 (lower_zero _)) in E. lia.
  - rewrite (proj2 (Z.eqb_neq _ _)); [f_equal; lia|]. intros E. apply (proj1 (lower_zero _)) in E. lia.
  - destruct (lower a =? lower b); [|done].
    rewrite (proj2 (Z.eqb_neq a 0)) by done. simpl. by apply IH.
Qed.

Lemma strncasecmp_diff n s1 s2 :
  text s1 → text s2 →
  strncasecmp_loop n (cstr s1) (cstr s2) = Ok (case_diff (take n s1) (take n s2)).
Proof.
  unfold cstr. revert s1 s2. induction n as [|n IH]; intros [|a s1] [|b s2] H1 H2; try done;
    rewrite ?text_cons in H1; rewrite ?text_cons in H2; destruct_and?;
    cbn [app strncasecmp_loop case_diff firstn]; cbv zeta; rewrite case_fold_eqb, ?case_fold_diff, ?case_fold_zero by lia;
    change (lower 0) with 0.
  - rewrite (proj2 (Z.eqb_neq _ _)); [done|]. intros E. symmetry in E. apply (proj1 (lower_zero _)) in E. lia.
  - rewrite (proj2 (Z.eqb_neq _ _)); [f_equal; lia|]. intros E. apply (proj1 (lower_zero _)) in E. lia.
  - destruct (lower a =? lower b); [|done].
    rewrite (proj2 (Z.eqb_neq a 0)) by done. simpl. by apply IH.
Qed.

Lemma case_diff_zero s1 s2 :
  text s1 → text s2 → case_diff s1 s2 = 0 ↔ lower <$> s1 = lower <$> s2.
Proof.
  revert s2. induction s1 as [|a s1 IH]; intros [|b s2] H1 H2;
    rewrite ?text_cons in H1; rewrite ?text_cons in H2; destruct_and?;
    cbn [case_diff]; rewrite ?fmap_cons.
  - done.
  - pose proof (lower_zero b). split; [lia|done].
  - pose proof (lower_zero a). split; [lia|done].
  - destruct (Z.eqb_spec (lower a) (lower b)) as [E|E].
    + rewrite IH by done. split; [intros E2; by rewrite E, E2|by intros [= _ ?]].
    + split; [lia|by intros [= ? _]].
Qed.

(** [strcmp] tests equality of texts. *)
Lemma u8_inj a b : -128 ≤ a < 128 → -128 ≤ b < 128 → u8 a = u8 b → a = b.
Proof.
  intros Ha Hb H. unfold u8 in H.
  pose proof (Z.div_mod a (2 ^ 8) ltac:(lia)). pose proof (Z.div_mod b (2 ^ 8) ltac:(lia)). lia.
Qed.

Lemma strcmp_eq s1 s2 :
  text s1 → text s2 → ∃ r, fpx_strcmp (cstr s1) (cstr s2) = Ok r ∧ (r = 0 ↔ s1 = s2).
Proof.
  unfold cstr, fpx_strcmp. revert s2. induction s1 as [|a s1 IH]; intros [|b s2] H1 H2;
    rewrite ?text_cons in H1; rewrite ?text_cons in H2; destruct_and?; cbn [app strcmp].
  - by exists 0.
  - destruct (Z.eqb_spec (u8 0) (u8 b)) as [E|E]; [apply u8_inj in E; lia|].
    exists (u8 0 - u8 b). split; [done|]. split; [lia|done].
  - destruct (Z.eqb_spec (u8 a) (u8 0)) as [E|E]; [apply u8_inj in E; lia|].
    exists (u8 a - u8 0). split; [done|]. split; [lia|done].
  - destruct (Z.eqb_spec (u8 a) (u8 b)) as [E|E].
    + apply u8_inj in E as ->; [|lia..]. rewrite (proj2 (Z.eqb_neq b 0)) by done.
      destruct (IH s2) as (r & Hr & Hiff); [done..|]. exists r. split; [done|].
      rewrite Hiff. split; congruence.
    + exists (u8 a - u8 b). split; [done|]. split; [lia|congruence].
Qed.

Lemma index_of_shift (f : Z → bool) s i :
  0 ≤ i → (λ j, i + j) <$> (Z.succ <$> index_of f s) = (λ j, (i + 1) + j) <$> index_of f s.
Proof. intros _. destruct (index_of f s); simpl; [f_equal; lia|done]. Qed.

Lemma strchr_loop_app pre s s' c :
  strchr_loop (length s) (pre ++ s ++ s') (Z.of_nat (length pre)) c =
    Ok ((λ j, Z.of_nat (length pre) + j) <$> index_of (λ x, x =? c) s).
Proof.
  revert pre. induction s as [|x s IH]; intros pre; [done|]. simpl.
  rewrite rd_app_r, bind_ok. destruct (x =? c); simpl; [by rewrite Z.add_0_r|].
  rewrite index_of_shift by lia.
  replace (Z.of_nat (length pre) + 1) with (Z.of_nat (length (pre ++ [x])))
    by (rewrite length_app; simpl; lia).
  replace (pre ++ x :: s ++ s') with ((pre ++ [x]) ++ s ++ s') by (by rewrite <- !app_assoc).
  apply IH.
Qed.

Lemma strchr_index s s' c :
  text s → Z.of_nat (length s) < 2 ^ 64 →
  fpx_strchr (s ++ 0 :: s') c = Ok (index_of (λ x, x =? c) s).
Proof.
  intros Ht Hb. unfold fpx_strchr. rewrite strlen_app, bind_ok, Nat2Z.id by done.
  etransitivity; [exact (strchr_loop_app [] s (0 :: s') c)|]. by destruct (index_of _ s).
Qed.

Lemma index_of_app f s1 s2 :
  index_of f (s1 ++ s2) =
    match index_of f s1 with
    | Some i => Some i
    | None => (λ j, Z.of_nat (length s1) + j) <$> index_of f s2
    end.
Proof.
  induction s1 as [|x s1 IH]; simpl; [by destruct (index_of f s2)|].
  destruct (f x); [done|]. rewrite IH. destruct (index_of f s1); simpl; [done|].
  destruct (index_of f s2); simpl; [f_equal; lia|done].
Qed.

Lemma index_of_None f s : index_of f s = None ↔ Forall (λ x, f x = false) s.
Proof.
  induction s as [|x s IH]; simpl; [by split|]. rewrite Forall_cons, <- IH.
  destruct (f x), (index_of f s); simpl; naive_solver.
Qed.

Lemma index_of_Some f s i :
  index_of f s = Some i →
  ∃ s1 x s2, s = s1 ++ x :: s2 ∧ i = Z.of_nat (length s1) ∧ f x = true ∧
    Forall (λ x, f x = false) s1.
Proof.
  revert i. induction s as [|x s IH]; simpl; intros i; [done|].
  destruct (f x) eqn:E; [intros [= <-]; by exists [], x, s|].
  destruct (index_of f s) as [j|]; [|done]. intros [= <-].
  destruct (IH j eq_refl) as (s1 & y & s2 & -> & -> & ? & ?).
  exists (x :: s1), y, s2. split_and!; [done|simpl; lia|done|by constructor].
Qed.

Lemma strrchr_loop_ok k str i c :
  i < Z.of_nat (length str) → i = Z.of_nat k - 1 →
  ∃ r, strrchr_loop k str i c = Ok r ∧
    match r with
    | Some j => 0 ≤ j ≤ i ∧ str !! Z.to_nat j = Some c ∧
                ∀ j', j < j' ≤ i → str !! Z.to_nat j' ≠ Some c
    | None => ∀ j', 0 ≤ j' ≤ i → str !! Z.to_nat j' ≠ Some c
    end.
Proof.
  revert i. induction k as [|k IH]; intros i Hi Hk; cbn [strrchr_loop].
  { exists None. split; [done|]. lia. }
  rewrite (proj2 (Z.ltb_ge _ _)) by lia.
  destruct (lookup_lt_is_Some_2 str (Z.to_nat i)) as [x Hx]; [lia|].
  rewrite (rd_lookup _ _ x), bind_ok by (try lia; done).
  destruct (Z.eqb_spec x c) as [->|Hne].
  - exists (Some i). split; [done|]. split_and!; [lia|lia|done|lia].
  - destruct (IH (i - 1)) as (r & -> & Hr); [lia|lia|]. exists r. split; [done|].
    assert (∀ j', j' = i → str !! Z.to_nat j' ≠ Some c) as Hi' by (intros ? ->; congruence).
    destruct r as [j|].
    + destruct Hr as (Hj & Hc & Hn). split_and!; [lia|lia|done|].
      intros j' Hj'. destruct (Z.eq_dec j' i); [by apply Hi'|]. apply Hn. lia.
    + intros j' Hj'. destruct (Z.eq_dec j' i); [by apply Hi'|]. apply Hr. lia.
Qed.

Lemma strnlen_loop_ok pre s s' k n :
  text s → n = Z.of_nat (length pre + k) →
  strnlen_loop k (pre ++ s ++ 0 :: s') (Z.of_nat (length pre)) n =
    Ok (Z.min n (Z.of_nat (length pre + length s))).
Proof.
  revert pre k. induction s as [|x s IH]; intros pre [|k] Ht Hn; cbn [strnlen_loop length app].
  - f_equal. lia.
  - rewrite rd_app_r, bind_ok. simpl. f_equal. lia.
  - f_equal. lia.
  - apply text_cons in Ht as [[Hx _] Ht].
    rewrite rd_app_r, bind_ok, (proj2 (Z.eqb_neq _ _)) by done.
    replace (Z.of_nat (length pre) + 1) with (Z.of_nat (length (pre ++ [x])))
      by (rewrite length_app; simpl; lia).
    replace (pre ++ x :: s ++ 0 :: s') with ((pre ++ [x]) ++ s ++ 0 :: s')
      by (by rewrite <- !app_assoc).
    rewrite IH by (try done; rewrite length_app; simpl; lia).
    f_equal. rewrite length_app. simpl. lia.
Qed.

Section CopiesProofs.
Context {P : Type} `{PoolAlloc P}.

Lemma strcat_length_ok args len :
  Forall text args → 0 ≤ len → len + Z.of_nat (length (concat args)) < 2 ^ 64 →
  strcat_length (cstr <$> args) len = Ok (len + Z.of_nat (length (concat args))).
Proof.
  revert len. induction args as [|s args IH]; intros len Ht Hl Hb; simpl in *.
  { by rewrite Z.add_0_r. }
  apply Forall_cons in Ht as [Hs Ht]. rewrite length_app in *.
  rewrite strlen_cstr, bind_ok, u64_small by (try done; lia).
  rewrite IH by (try done; lia). f_equal. lia.
Qed.

Lemma strcat_copy_ok args :
  Forall text args → Z.of_nat (length (concat args)) < 2 ^ 64 →
  strcat_copy (cstr <$> args) = Ok (concat args).
Proof.
  induction args as [|s args IH]; intros Ht Hb; [done|].
  apply Forall_cons in Ht as [Hs Ht]. cbn [concat] in Hb. rewrite length_app in Hb.
  rewrite fmap_cons. cbn [strcat_copy concat].
  rewrite strlen_cstr, bind_ok by (try done; lia).
  rewrite (read_bytes_app s [0] : read_bytes (cstr s) _ = _), bind_ok, IH by (try done; lia).
  done.
Qed.
End CopiesProofs.

(** ** Properties *)

Lemma int_chk z : 0 ≤ z ≤ FPX_INT_T_MAX → int_result z = Ok z.
Proof. unfold FPX_INT_T_MAX. intros. apply int_result_ok. lia. Qed.
Lemma ssize_chk z : 0 ≤ z ≤ FPX_SSIZE_T_MAX → ssize_result z = Ok z.
Proof. unfold FPX_SSIZE_T_MAX. intros. apply ssize_result_ok. lia. Qed.

Lemma atoi_decimal str n :
  0 < n ≤ Z.of_nat (length str) →
  fpx_atoi str n = Ok (match decimal (take (Z.to_nat n) str) with
                       | Some v => if v <=? FPX_INT_T_MAX then v else -1
                       | None => -1 end).
Proof.
  intros Hn. unfold fpx_atoi. rewrite (proj2 (Z.eqb_neq _ _)) by lia.
  apply ato_ok; [done|exact int_chk|done].
Qed.

Lemma atosz_decimal str n :
  0 < n ≤ Z.of_nat (length str) →
  fpx_atosz str n = Ok (match decimal (take (Z.to_nat n) str) with
                        | Some v => if v <=? FPX_SSIZE_T_MAX then v else -1
                        | None => -1 end).
Proof.
  intros Hn. unfold fpx_atosz. rewrite (proj2 (Z.eqb_neq _ _)) by lia.
  apply ato_ok; [done|exact ssize_chk|done].
Qed.

(** A small number has few digits. *)
Lemma digits_length fuel : ∀ v acc, (length (digits fuel v acc) ≤ fuel + length acc)%nat.
Proof.
  induction fuel as [|fuel IH]; intros v acc; cbn [digits]; [lia|].
  repeat case_match; cbn [length]; try lia; etransitivity; try apply IH; cbn [length]; lia.
Qed.
Lemma print_dec_short n : 0 ≤ n < 2 ^ 31 → Z.of_nat (length (print_dec n)) ≤ 32.
Proof.
  intros Hn. unfold print_dec. pose proof (digits_length (S (Z.to_nat (Z.log2 n))) n []) as H. cbn [length] in H.
  assert (Z.log2 n ≤ 30) by (apply Z.lt_succ_r; destruct (Z.eq_dec n 0) as [->|]; [done|]; apply Z.log2_lt_pow2; lia).
  pose proof (Z.log2_nonneg n). lia.
Qed.

Lemma print_dec_take v rest :
  take (Z.to_nat (Z.of_nat (length (print_dec v)))) (print_dec v ++ rest) = print_dec v.
Proof. by rewrite Nat2Z.id, take_app_length. Qed.

Lemma print_dec_length v : 0 ≤ v → 0 < Z.of_nat (length (print_dec v)).
Proof.
  intros Hv. destruct (print_dec_ok v Hv) as (_ & _ & Hne).
  destruct (print_dec v); [done|]. simpl. lia.
Qed.

(** C24: [fpx_atoi] and [fpx_atosz] compute the decimal value of the first [n]
    characters: no signed overflow ever happens on the way, -1 answers an empty
    input, a non-digit, or a value above the type's maximum. *)
Theorem atoi_atosz_correct str n :
  0 ≤ n ≤ Z.of_nat (length str) →
  let value (vmax : Z) :=
    match decimal (take (Z.to_nat n) str) with
    | Some v => if v <=? vmax then v else -1
    | None => -1
    end in
  fpx_atoi str n = Ok (value FPX_INT_T_MAX) ∧ fpx_atosz str n = Ok (value FPX_SSIZE_T_MAX).
Proof.
  intros Hn. cbv zeta. destruct (Z.eq_dec n 0) as [->|].
  - by rewrite take_0.
  - split; [apply atoi_decimal|apply atosz_decimal]; lia.
Qed.

Lemma atoi_atosz_correct_witness :
  fpx_atoi (chars_of "2147483648K") 10 = Ok (-1) ∧
  fpx_atosz (chars_of "2147483648K") 10 = Ok 2147483648.
Proof. exact (atoi_atosz_correct (chars_of "2147483648K") 10 ltac:(vm_compute; by split)). Defined.

(** Reading back a printed number gives the number, for every value of the
    type and whatever follows it in memory. *)
Theorem atoi_print_roundtrip v rest :
  0 ≤ v ≤ FPX_SSIZE_T_MAX →
  fpx_atosz (print_dec v ++ rest) (Z.of_nat (length (print_dec v))) = Ok v ∧
  fpx_atoi (print_dec v ++ rest) (Z.of_nat (length (print_dec v))) =
    Ok (if v <=? FPX_INT_T_MAX then v else -1).
Proof.
  intros Hv. pose proof (print_dec_length v ltac:(lia)).
  rewrite atoi_decimal, atosz_decimal, print_dec_take by (rewrite length_app; lia).
  destruct (print_dec_ok v ltac:(lia)) as (-> & _ & _).
  by rewrite (proj2 (Z.leb_le _ FPX_SSIZE_T_MAX)) by lia.
Qed.

Lemma atoi_print_roundtrip_witness :
  fpx_atosz (print_dec 65535 ++ [58]) (Z.of_nat (length (print_dec 65535))) = Ok 65535.
Proof. exact (proj1 (atoi_print_roundtrip 65535 [58] ltac:(vm_compute; by split))). Defined.

(** [fpx_strcasecmp] returns the difference of the first two characters
    that differ up to ASCII case (as signed [char] values), so zero exactly for
    strings equal up to case; [fpx_strncasecmp] does the same on the first [n]
    characters.  Neither reads past a terminator. *)
Theorem strcasecmp_correct s1 s2 n :
  text s1 → text s2 → 0 ≤ n →
  (∃ r, fpx_strcasecmp (cstr s1) (cstr s2) = Ok r ∧ r = case_diff s1 s2 ∧
        (r = 0 ↔ lower <$> s1 = lower <$> s2)) ∧
  (∃ r, fpx_strncasecmp (cstr s1) (cstr s2) n = Ok r ∧
        r = case_diff (take (Z.to_nat n) s1) (take (Z.to_nat n) s2) ∧
        (r = 0 ↔ lower <$> take (Z.to_nat n) s1 = lower <$> take (Z.to_nat n) s2)).
Proof.
  intros H1 H2 Hn. split.
  - exists (case_diff s1 s2). split; [by apply strcasecmp_diff|]. split; [done|].
    by apply case_diff_zero.
  - eexists. split; [by apply strncasecmp_diff|]. split; [done|].
    apply case_diff_zero; by apply Forall_take.
Qed.

Lemma strcasecmp_correct_witness :
  ∃ r, fpx_strcasecmp (cstr (chars_of "OFF")) (cstr (chars_of "off")) = Ok r ∧ r = 0.
Proof.
  destruct (strcasecmp_correct (chars_of "OFF") (chars_of "off") 3) as [(r & H & _ & Hz) _].
  - repeat constructor; vm_compute; congruence.
  - repeat constructor; vm_compute; congruence.
  - lia.
  - exists r. split; [exact H|]. apply Hz. reflexivity.
Defined.

(** On a string, [fpx_strlen] and [fpx_strnlen] count its characters,
    [fpx_strchr] finds the first occurrence of a character among them, and
    [fpx_strrchr] the last one, looking at the terminator too: asked for [0],
    the first answers [NULL] and the second the end of the string. *)
Theorem string_searches s rest c n :
  text s → Z.of_nat (length s) < 2 ^ 63 → 0 ≤ n →
  let str := s ++ 0 :: rest in
  let len := Z.of_nat (length s) in
  fpx_strlen str = Ok len ∧ fpx_strnlen str n = Ok (Z.min n len) ∧
  fpx_strchr str c = Ok (index_of (λ x, x =? c) s) ∧
  (∃ r, fpx_strrchr str c = Ok r ∧
     match r with
     | Some j => 0 ≤ j ≤ len ∧ str !! Z.to_nat j = Some c ∧
                 ∀ j', j < j' ≤ len → str !! Z.to_nat j' ≠ Some c
     | None => ∀ j', 0 ≤ j' ≤ len → str !! Z.to_nat j' ≠ Some c
     end) ∧
  (c = 0 → fpx_strchr str c = Ok None ∧ fpx_strrchr str c = Ok (Some len)).
Proof.
  intros Ht Hb Hn str len.
  assert (fpx_strlen str = Ok len) as Hlen by (apply strlen_app; [done|lia]).
  assert (fpx_strchr str c = Ok (index_of (λ x, x =? c) s)) as Hchr
    by (apply strchr_index; [done|lia]).
  assert (len < Z.of_nat (length str)) by (unfold str, len; rewrite length_app; simpl; lia).
  assert (fpx_strrchr str c = strrchr_loop (S (length s)) str len c) as Hr.
  { unfold fpx_strrchr. rewrite Hlen, bind_ok. unfold len. rewrite Nat2Z.id, s64_small by lia. done. }
  split_and!; [done| |done| |].
  - unfold fpx_strnlen. etransitivity; [apply (strnlen_loop_ok [] s rest (Z.to_nat n) n Ht)|].
    + simpl. lia.
    + done.
  - rewrite Hr. apply strrchr_loop_ok; [done|]. unfold len. lia.
  - intros ->. split.
    + rewrite Hchr. f_equal. apply index_of_None. eapply Forall_impl; [exact Ht|].
      intros x [Hx _]. by apply Z.eqb_neq.
    + rewrite Hr. cbn [strrchr_loop]. rewrite (proj2 (Z.ltb_ge _ _)) by lia.
      unfold len, str. by rewrite rd_app_r, bind_ok.
Qed.

Lemma string_searches_witness :
  fpx_strchr (chars_of "[::1]:80" ++ [0]) 58 = Ok (Some 1) ∧
  fpx_strchr (chars_of "[::1]:80" ++ [0]) 0 = Ok None.
Proof.
  split.
  - apply (string_searches (chars_of "[::1]:80") [] 58 5);
      [repeat constructor; vm_compute; congruence|vm_compute; reflexivity|lia].
  - apply (string_searches (chars_of "[::1]:80") [] 0 5);
      [repeat constructor; vm_compute; congruence|vm_compute; reflexivity|lia|reflexivity].
Defined.

Section CopiesProperties.
Context {P : Type} `{PoolAlloc P}.

(** What a copying function has to do: ask for a block of [size] bytes and, if
    the pool grants it, fill it. *)
Definition new_block (pool : P) (size : Z) (contents : chars) : res (option (Z * chars) * P) :=
  '(mem, pool) ← palloc pool size;
  Ok (match mem with Some a => Some (a, contents) | None => None end, pool).

(** The copying functions ask the pool for the string's length plus one
    byte, return [NULL] when the pool does, and otherwise a block that holds the
    copied characters followed by one terminator: the whole string
    ([fpx_pstrdup]), its first [n] characters ([fpx_pstrndup]), or the
    concatenation of all arguments ([fpx_pstrcat1]). *)
Theorem copies_correct (pool : P) s rest n args :
  text s → Z.of_nat (length s) < 2 ^ 64 - 1 →
  0 ≤ n ≤ Z.of_nat (length s) →
  Forall text args → Z.of_nat (length (concat args)) < 2 ^ 64 - 1 →
  fpx_pstrdup pool (s ++ 0 :: rest) = new_block pool (Z.of_nat (length s) + 1) (cstr s) ∧
  fpx_pstrndup pool (s ++ rest) n = new_block pool (n + 1) (cstr (take (Z.to_nat n) s)) ∧
  fpx_pstrcat1 pool (cstr <$> args) =
    new_block pool (Z.of_nat (length (concat args)) + 1) (cstr (concat args)).
Proof.
  intros Hs Hb Hn Ha Hba. unfold new_block. split_and!.
  - unfold fpx_pstrdup. rewrite strlen_app, bind_ok, u64_small by (try done; lia).
    destruct (palloc pool _) as [[[a|] p]| | |]; [|done..]. simpl.
    pose proof (read_bytes_app (cstr s) rest) as Hr. unfold cstr in Hr.
    rewrite <- app_assoc, length_app, Nat2Z.inj_add in Hr.
    change (Z.of_nat (length [0])) with 1 in Hr. change ([0] ++ rest) with (0 :: rest) in Hr.
    by rewrite Hr.
  - unfold fpx_pstrndup. rewrite u64_small by lia.
    destruct (palloc pool _) as [[[a|] p]| | |]; [|done..]. simpl.
    unfold read_bytes. rewrite length_app, (proj2 (Z.ltb_ge _ _)) by lia.
    simpl. rewrite take_app_le by lia. done.
  - unfold fpx_pstrcat1.
    rewrite strcat_length_ok, bind_ok, Z.add_0_l, u64_small by (try done; lia).
    destruct (palloc pool _) as [[[a|] p]| | |]; [|done..]. simpl.
    rewrite strcat_copy_ok by (try done; lia). done.
Qed.
End CopiesProperties.

Lemma copies_correct_witness :
  fpx_pstrdup (P := Z) (H := λ p n, Ok (Some p, p + n)) 4096 (chars_of "off" ++ [0])
  = Ok (Some (4096, cstr (chars_of "off")), 4100).
Proof.
  refine (proj1 (copies_correct (P := Z) (H := λ p n, Ok (Some p, p + n)) 4096
    (chars_of "off") [] 0 [] _ _ _ _ _)).
  - repeat constructor; vm_compute; congruence.
  - vm_compute. reflexivity.
  - vm_compute. by split.
  - constructor.
  - vm_compute. reflexivity.
Defined.
