(* ===== verification/Pool.v ===== *)
(** * Memory pools: [src/src/system/pool.c], [memory.c]

    A pool owns chains of memory nodes, one chain per slot; slot [i] holds nodes
    of [i + 1] pages.  A node is a block of the system allocator that starts with
    its own header; a pool's structure lives in its first node, behind the
    header, and a root pool's mutex behind that.

    The state [world] is the heap as this code sees it: the live system blocks
    with their sizes, and the structures stored inside them, each kind in a map
    by address.  Releasing a block removes everything stored in it, so that a
    later access to a structure in it is [UB].  The C library's [malloc] is the
    parameter [sys_malloc], which may look at all live blocks; [malloc_ok] states
    what the C standard promises of it.  Functions registered as clean-up handlers
    are code of the clients: the model records the calls in order ([w_trace]);
    only [fpx_free], which the pool itself registers, has its effect.

    The pool is compiled with FPX_POOL_THREAD_SAFETY (the default).  The model
    follows one thread, [w_tid]; a recursive mutex is the number of times that
    thread holds it, and an unlock of a mutex that is not held fails without
    effect, as it does for a recursive POSIX mutex. *)

From S2P Require Import Prelude CInt Errno Str.
Open Scope Z_scope.

(** Sizes on an LP64 target: six words; 20 + 7 words; [pthread_mutex_t]. *)
Definition SIZEOF_MEMNODE : Z := 48.
Definition SIZEOF_POOL : Z := 216.
Definition SIZEOF_MUTEX : Z := 40.
Definition SIZEOF_CLEANUP : Z := 24.
Definition FPX_PAGE_SIZE : Z := 4096.

Definition FPX_MIN_ORDER : Z := 1.
Definition FPX_MIN_ALLOC : Z := Z.shiftl FPX_ALIGN_SIZE FPX_MIN_ORDER.
Definition FPX_SIZEOF_MEMNODE_T_ALIGN : Z := fpx_align_default SIZEOF_MEMNODE.
Definition FPX_SIZEOF_MEMPOOL_T_ALIGN : Z := fpx_align_default SIZEOF_POOL.
Definition FPX_SIZEOF_MUTEX_T_ALIGN : Z := fpx_align_default SIZEOF_MUTEX.
Definition FPX_MAX_POOL_SLOT : Z := 20.

(** ** Data *)

Record fpx_memnode_t := Memnode {
  mn_next : option Z;
  mn_begin : Z;
  mn_first_avail : Z;
  mn_size : Z;
  mn_size_avail : Z;
  mn_dealloc_size : Z
}.

(** A clean-up handler: [fpx_free], or a function of a client. *)
Inductive fpx_cleanup_handler_t :=
  | H_free
  | H_user (id : Z).

#[export] Instance handler_eq_dec : EqDecision fpx_cleanup_handler_t.
Proof. solve_decision. Defined.

Record fpx_cleanup_node_t := Cleanup {
  cn_next : option Z;
  cn_data : Z;
  cn_handler : fpx_cleanup_handler_t
}.

Record fpx_pool_t := Pool {
  p_nodes : list (option Z);
  p_parent : option Z;
  p_brother : option Z;
  p_child : option Z;
  p_cleanups : option Z;
  p_free_cleanups : option Z;
  p_mutex : Z;
  p_owner : Z
}.

Record world := World {
  w_blocks : gmap Z Z;
  w_memnodes : gmap Z fpx_memnode_t;
  w_cleanups : gmap Z fpx_cleanup_node_t;
  w_pools : gmap Z fpx_pool_t;
  w_mutexes : gmap Z nat;
  w_tid : Z;
  w_counter : Z;
  w_trace : list (fpx_cleanup_handler_t * Z)
}.

(** *** Field updates *)
Definition set_memnodes (w : world) m : world :=
  World (w_blocks w) m (w_cleanups w) (w_pools w) (w_mutexes w) (w_tid w) (w_counter w) (w_trace w).
Definition set_cleanups (w : world) m : world :=
  World (w_blocks w) (w_memnodes w) m (w_pools w) (w_mutexes w) (w_tid w) (w_counter w) (w_trace w).
Definition set_pools (w : world) m : world :=
  World (w_blocks w) (w_memnodes w) (w_cleanups w) m (w_mutexes w) (w_tid w) (w_counter w) (w_trace w).
Definition set_mutexes (w : world) m : world :=
  World (w_blocks w) (w_memnodes w) (w_cleanups w) (w_pools w) m (w_tid w) (w_counter w) (w_trace w).
Definition set_blocks (w : world) m c : world :=
  World m (w_memnodes w) (w_cleanups w) (w_pools w) (w_mutexes w) (w_tid w) c (w_trace w).
Definition set_trace (w : world) t : world :=
  World (w_blocks w) (w_memnodes w) (w_cleanups w) (w_pools w) (w_mutexes w) (w_tid w) (w_counter w) t.

Definition mn_set_next v n :=
  Memnode v (mn_begin n) (mn_first_avail n) (mn_size n) (mn_size_avail n) (mn_dealloc_size n).
Definition mn_set_avail f s n :=
  Memnode (mn_next n) (mn_begin n) f (mn_size n) s (mn_dealloc_size n).
Definition cn_set_next v n := Cleanup v (cn_data n) (cn_handler n).
Definition p_set_nodes v p :=
  Pool v (p_parent p) (p_brother p) (p_child p) (p_cleanups p) (p_free_cleanups p) (p_mutex p) (p_owner p).
Definition p_set_parent v p :=
  Pool (p_nodes p) v (p_brother p) (p_child p) (p_cleanups p) (p_free_cleanups p) (p_mutex p) (p_owner p).
Definition p_set_brother v p :=
  Pool (p_nodes p) (p_parent p) v (p_child p) (p_cleanups p) (p_free_cleanups p) (p_mutex p) (p_owner p).
Definition p_set_child v p :=
  Pool (p_nodes p) (p_parent p) (p_brother p) v (p_cleanups p) (p_free_cleanups p) (p_mutex p) (p_owner p).
Definition p_set_cleanups v p :=
  Pool (p_nodes p) (p_parent p) (p_brother p) (p_child p) v (p_free_cleanups p) (p_mutex p) (p_owner p).
Definition p_set_free v p :=
  Pool (p_nodes p) (p_parent p) (p_brother p) (p_child p) (p_cleanups p) v (p_mutex p) (p_owner p).

(** Access to a structure through its address. *)
Definition load_memnode (w : world) (a : Z) : res fpx_memnode_t := of_option (w_memnodes w !! a).
Definition load_cleanup (w : world) (a : Z) : res fpx_cleanup_node_t := of_option (w_cleanups w !! a).
Definition load_pool (w : world) (a : Z) : res fpx_pool_t := of_option (w_pools w !! a).
Definition update_memnode (w : world) (a : Z) f : res world :=
  n ← load_memnode w a; Ok (set_memnodes w (<[a := f n]> (w_memnodes w))).
Definition update_cleanup (w : world) (a : Z) f : res world :=
  n ← load_cleanup w a; Ok (set_cleanups w (<[a := f n]> (w_cleanups w))).
Definition update_pool (w : world) (a : Z) f : res world :=
  n ← load_pool w a; Ok (set_pools w (<[a := f n]> (w_pools w))).

(** *** The pool's mutex *)
Definition lock (w : world) (mutex : Z) : res world :=
  d ← of_option (w_mutexes w !! mutex); Ok (set_mutexes w (<[mutex := S d]> (w_mutexes w))).
Definition unlock (w : world) (mutex : Z) : res world :=
  d ← of_option (w_mutexes w !! mutex); Ok (set_mutexes w (<[mutex := pred d]> (w_mutexes w))).
Definition lock_pool (w : world) (pool : Z) : res world :=
  p ← load_pool w pool; lock w (p_mutex p).
Definition unlock_pool (w : world) (pool : Z) : res world :=
  p ← load_pool w pool; unlock w (p_mutex p).

(** *** [fpx_align_allocation], [fpx_get_npages] *)
Definition fpx_align_allocation (size : Z) : Z :=
  let align_size := fpx_align_default size in
  if align_size <? size then 0 else
  if align_size <? FPX_MIN_ALLOC then FPX_MIN_ALLOC else align_size.

Definition fpx_get_npages (size : Z) : Z :=
  let total_size := u64 (size + FPX_SIZEOF_MEMNODE_T_ALIGN) in
  if total_size <? FPX_PAGE_SIZE then 1 else u64 (total_size / FPX_PAGE_SIZE + 1).

Section Pools.
(** The C library: [malloc], [errno] after it has failed, and the outcome of
    initialising a mutex. *)
Variable sys_malloc : gmap Z Z → Z → option Z.
Variable enomem : fpx_err_t.
Variable mutex_init : gmap Z nat → fpx_err_t.

(** ** System blocks (memory.c) *)
Definition fpx_malloc (w : world) (size : Z) : option Z * world :=
  match sys_malloc (w_blocks w) size with
  | None => (None, w)
  | Some mem => (Some mem, set_blocks w (<[mem := size]> (w_blocks w)) (u64 (w_counter w + size)))
  end.

(** What is left of a map of structures when [a .. a + size) goes. *)
Definition outside {A} (a size : Z) (m : gmap Z A) : gmap Z A :=
  filter (λ kv, ¬ (a ≤ kv.1 < a + size)) m.

Definition fpx_free (w : world) (mem : Z) : res world :=
  size ← of_option (w_blocks w !! mem);
  Ok (World (delete mem (w_blocks w)) (outside mem size (w_memnodes w))
        (outside mem size (w_cleanups w)) (outside mem size (w_pools w))
        (outside mem size (w_mutexes w)) (w_tid w) (w_counter w) (w_trace w)).

Definition fpx_get_memory_counter (w : world) : Z := w_counter w.

(** ** Memory nodes *)
Definition fpx_memnode_allocate (w : world) (size : Z) : option Z * world :=
  let '(mem, w) := fpx_malloc w size in
  match mem with
  | None => (None, w)
  | Some mem =>
      let begin := u64 (mem + FPX_SIZEOF_MEMNODE_T_ALIGN) in
      let sz := u64 (size - FPX_SIZEOF_MEMNODE_T_ALIGN) in
      (Some mem, set_memnodes w (<[mem := Memnode None begin begin sz sz size]> (w_memnodes w)))
  end.

Definition fpx_memnode_deallocate : world → Z → res world := fpx_free.

(** ** Clean-ups *)
Definition call_handler (w : world) (h : fpx_cleanup_handler_t) (data : Z) : res world :=
  let w := set_trace w (w_trace w ++ [(h, data)]) in
  match h with
  | H_free => fpx_free w data
  | H_user _ => Ok w
  end.

Fixpoint run_all_loop (fuel : nat) (w : world) (pool : Z) (temp1 : option Z) : res world :=
  match temp1 with
  | None => Ok w
  | Some temp2 =>
      match fuel with
      | O => NoFuel
      | S fuel =>
          n ← load_cleanup w temp2;
          w ← call_handler w (cn_handler n) (cn_data n);
          p ← load_pool w pool;
          w ← update_cleanup w temp2 (cn_set_next (p_free_cleanups p));
          w ← update_pool w pool (p_set_free (Some temp2));
          run_all_loop fuel w pool (cn_next n)
      end
  end.

(** A loop over a chain of clean-ups visits each node at most once. *)
Definition cleanup_fuel (w : world) : nat := size (w_cleanups w).
Definition memnode_fuel (w : world) : nat := size (w_memnodes w).

Definition fpx_pool_cleanup_run_all (w : world) (pool : Z) : res world :=
  p ← load_pool w pool;
  w ← run_all_loop (cleanup_fuel w) w pool (p_cleanups p);
  update_pool w pool (p_set_cleanups None).

(** ** Pools *)
Definition fpx_pool_add_child (w : world) (parent new_child : Z) : res world :=
  w ← update_pool w new_child (p_set_parent (Some parent));
  p ← load_pool w parent;
  match p_child p with
  | Some temp =>
      w ← update_pool w parent (p_set_child (Some new_child));
      update_pool w new_child (p_set_brother (Some temp))
  | None =>
      w ← update_pool w parent (p_set_child (Some new_child));
      update_pool w new_child (p_set_brother None)
  end.

(** [failed:] of [fpx_pool_create] *)
Definition create_failed (w : world) (node : option Z) (err : fpx_err_t)
    : res (fpx_err_t * option Z * world) :=
  match node with
  | Some a => w ← fpx_memnode_deallocate w a; Ok (err, None, w)
  | None => Ok (err, None, w)
  end.

(** [nodes[index] = node]: an index outside the array is [UB]. *)
Definition set_slot (nodes : list (option Z)) (index : Z) (node : option Z)
    : res (list (option Z)) :=
  _ ← require (index <? Z.of_nat (length nodes));
  Ok (<[Z.to_nat index := node]> nodes).

Definition fpx_pool_create (w : world) (size : Z) (parent : option Z)
    : res (fpx_err_t * option Z * world) :=
  let align_size := fpx_align_allocation size in
  if align_size =? 0 then create_failed w None FPX_FAILED else
  let align_size := u64 (align_size + FPX_SIZEOF_MEMPOOL_T_ALIGN) in
  let npages := fpx_get_npages align_size in
  let index := u64 (npages - 1) in
  if FPX_MAX_POOL_SLOT <? index then create_failed w None FPX_FAILED else
  let '(node, w) := fpx_memnode_allocate w (u64 (npages * FPX_PAGE_SIZE)) in
  match node with
  | None => create_failed w None enomem
  | Some node =>
      n ← load_memnode w node;
      let new_pool := mn_begin n in
      let w := set_pools w (<[new_pool :=
        Pool (replicate 20 None) None None None None None 0 0]> (w_pools w)) in
      let begin := u64 (mn_begin n + FPX_SIZEOF_MEMPOOL_T_ALIGN) in
      let sz := u64 (mn_size n - FPX_SIZEOF_MEMPOOL_T_ALIGN) in
      '(err, mutex, begin, sz, w) ←
        match parent with
        | Some parent => pp ← load_pool w parent; Ok (FPX_OK, p_mutex pp, begin, sz, w)
        | None =>
            let err := mutex_init (w_mutexes w) in
            Ok (err, begin, u64 (begin + FPX_SIZEOF_MUTEX_T_ALIGN),
                u64 (sz - FPX_SIZEOF_MUTEX_T_ALIGN),
                if err =? FPX_OK then set_mutexes w (<[begin := O]> (w_mutexes w)) else w)
        end;
      if negb (err =? FPX_OK) then create_failed w (Some node) err else
      nodes ← set_slot (replicate 20 None) index (Some node);
      let w := set_pools w (<[new_pool :=
        Pool nodes None None None None None mutex (w_tid w)]> (w_pools w)) in
      let w := set_memnodes w
        (<[node := Memnode None begin begin sz sz (mn_dealloc_size n)]> (w_memnodes w)) in
      w ← match parent with
          | Some parent => fpx_pool_add_child w parent new_pool
          | None => Ok w
          end;
      Ok (FPX_OK, Some new_pool, w)
  end.

(** *** [fpx_palloc1] *)

(** The inner loop: the first node of a chain with [need] bytes left. *)
Fixpoint find_node (fuel : nat) (w : world) (node : option Z) (need : Z) : res (option Z) :=
  match node with
  | None => Ok None
  | Some a =>
      match fuel with
      | O => NoFuel
      | S fuel =>
          n ← load_memnode w a;
          if need <=? mn_size_avail n then Ok (Some a) else find_node fuel w (mn_next n) need
      end
  end.

(** The outer loop, [k] slots from slot [i] on. *)
Fixpoint find_slot (k : nat) (w : world) (pool : Z) (i : nat) (need : Z) : res (option Z) :=
  match k with
  | O => Ok None
  | S k =>
      p ← load_pool w pool;
      head ← of_option (p_nodes p !! i);
      r ← find_node (memnode_fuel w) w head need;
      match r with
      | Some a => Ok (Some a)
      | None => find_slot k w pool (S i) need
      end
  end.

(** [mem = node->first_avail] and the two updates around it. *)
Definition take_from (w : world) (node need : Z) : res (option Z * world) :=
  n ← load_memnode w node;
  w ← update_memnode w node
        (mn_set_avail (u64 (mn_first_avail n + need)) (u64 (mn_size_avail n - need)));
  Ok (Some (mn_first_avail n), w).

(** The part of [fpx_palloc1] that works under the lock. *)
Definition palloc_slots (w : world) (pool need npages index : Z) : res (option Z * world) :=
  w ← lock_pool w pool;
  r ← find_slot (Z.to_nat (FPX_MAX_POOL_SLOT - index)) w pool (Z.to_nat index) need;
  match r with
  | Some node =>
      '(mem, w) ← take_from w node need;
      w ← unlock_pool w pool; Ok (mem, w)
  | None =>
      let '(node, w) := fpx_memnode_allocate w (u64 (npages * FPX_PAGE_SIZE)) in
      match node with
      | None => w ← unlock_pool w pool; Ok (None, w)
      | Some node =>
          p ← load_pool w pool;
          temp ← of_option (p_nodes p !! Z.to_nat index);
          nodes ← set_slot (p_nodes p) index (Some node);
          w ← update_pool w pool (p_set_nodes nodes);
          w ← update_memnode w node (mn_set_next temp);
          '(mem, w) ← take_from w node need;
          w ← unlock_pool w pool; Ok (mem, w)
      end
  end.

(** [fpx_palloc1] and [fpx_pool_cleanup_add1] call each other; each is given
    with the other as an argument, and the knot is tied with fuel below. *)
Definition palloc_body (cleanup_add : world → Z → Z → fpx_cleanup_handler_t → res world)
    (w : world) (pool size : Z) : res (option Z * world) :=
  let align_size := fpx_align_allocation size in
  if align_size =? 0 then w ← unlock_pool w pool; Ok (None, w) else
  let npages := fpx_get_npages align_size in
  let index := u64 (npages - 1) in
  if FPX_MAX_POOL_SLOT <? index then
    let '(mem, w) := fpx_malloc w align_size in
    w ← match mem with Some a => cleanup_add w pool a H_free | None => Ok w end;
    w ← unlock_pool w pool; Ok (mem, w)
  else palloc_slots w pool align_size npages index.

Definition cleanup_add_body (palloc : world → Z → Z → res (option Z * world))
    (w : world) (pool data : Z) (handler : fpx_cleanup_handler_t) : res world :=
  w ← lock_pool w pool;
  p ← load_pool w pool;
  '(node, w) ←
    match p_free_cleanups p with
    | Some node =>
        n ← load_cleanup w node;
        w ← update_pool w pool (p_set_free (cn_next n)); Ok (Some node, w)
    | None =>
        '(node, w) ← palloc w pool SIZEOF_CLEANUP;
        match node with
        | Some a => Ok (Some a, set_cleanups w (<[a := Cleanup None 0 H_free]> (w_cleanups w)))
        | None => Ok (None, w)
        end
    end;
  node ← of_option node;
  p ← load_pool w pool;
  w ← update_cleanup w node (λ _, Cleanup (p_cleanups p) data handler);
  w ← update_pool w pool (p_set_cleanups (Some node));
  unlock_pool w pool.

Fixpoint palloc_fuel (fuel : nat) (w : world) (pool size : Z) : res (option Z * world) :=
  match fuel with
  | O => NoFuel
  | S fuel => palloc_body (cleanup_add_body (palloc_fuel fuel)) w pool size
  end.

(** A large request registers a clean-up, whose node is a small request. *)
Definition fpx_palloc : world → Z → Z → res (option Z * world) := palloc_fuel 2.
Definition fpx_pool_cleanup_add : world → Z → Z → fpx_cleanup_handler_t → res world :=
  cleanup_add_body fpx_palloc.

(** The contents are zeroed; contents are not part of [world]. *)
Definition fpx_pcalloc (w : world) (pool size : Z) : res (option (Z * list Z) * world) :=
  '(mem, w) ← fpx_palloc w pool size;
  Ok (match mem with Some a => Some (a, replicate (Z.to_nat size) 0) | None => None end, w).

(** *** Running and removing one clean-up *)
Fixpoint find_cleanup (fuel : nat) (w : world) (node prev : option Z)
    (data : Z) (handler : fpx_cleanup_handler_t) : res (option Z * option Z) :=
  match node with
  | None => Ok (None, prev)
  | Some a =>
      match fuel with
      | O => NoFuel
      | S fuel =>
          n ← load_cleanup w a;
          if decide (cn_data n = data ∧ cn_handler n = handler) then Ok (Some a, prev)
          else find_cleanup fuel w (cn_next n) (Some a) data handler
      end
  end.

(** The unlinking both functions end with. *)
Definition reserve_cleanup (w : world) (pool a : Z) (prev : option Z) : res world :=
  p ← load_pool w pool;
  n ← load_cleanup w a;
  w ← (if decide (p_cleanups p = Some a) then update_pool w pool (p_set_cleanups (cn_next n))
       else pr ← of_option prev; update_cleanup w pr (cn_set_next (cn_next n)));
  p ← load_pool w pool;
  w ← update_cleanup w a (cn_set_next (p_free_cleanups p));
  w ← update_pool w pool (p_set_free (Some a));
  unlock_pool w pool.

Definition fpx_pool_cleanup_run (w : world) (pool data : Z) (handler : fpx_cleanup_handler_t)
    : res world :=
  p ← load_pool w pool;
  w ← lock_pool w pool;
  '(node, prev) ← find_cleanup (cleanup_fuel w) w (p_cleanups p) None data handler;
  match node with
  | None => Ok w
  | Some a => w ← call_handler w handler data; reserve_cleanup w pool a prev
  end.

Definition fpx_pool_cleanup_remove (w : world) (pool data : Z) (handler : fpx_cleanup_handler_t)
    : res world :=
  p ← load_pool w pool;
  w ← lock_pool w pool;
  '(node, prev) ← find_cleanup (cleanup_fuel w) w (p_cleanups p) None data handler;
  match node with
  | None => Ok w
  | Some a => reserve_cleanup w pool a prev
  end.

(** *** Sizes: the three functions share their loops *)
Fixpoint sum_chain (fuel : nat) (w : world) (f : fpx_memnode_t → Z) (node : option Z)
    (size : Z) : res Z :=
  match node with
  | None => Ok size
  | Some a =>
      match fuel with
      | O => NoFuel
      | S fuel => n ← load_memnode w a; sum_chain fuel w f (mn_next n) (u64 (size + f n))
      end
  end.
Fixpoint sum_slots (k : nat) (w : world) (pool : Z) (f : Z → fpx_memnode_t → Z) (i : nat)
    (size : Z) : res Z :=
  match k with
  | O => Ok size
  | S k =>
      p ← load_pool w pool;
      head ← of_option (p_nodes p !! i);
      size ← sum_chain (memnode_fuel w) w (f (Z.of_nat i)) head size;
      sum_slots k w pool f (S i) size
  end.
Definition fpx_pool_get_size (w : world) (pool : Z) : res Z :=
  sum_slots 20 w pool (λ _ n, mn_size n) 0 0.
Definition fpx_pool_get_free_size (w : world) (pool : Z) : res Z :=
  sum_slots 20 w pool (λ _ n, mn_size_avail n) 0 0.
Definition fpx_pool_get_total_size (w : world) (pool : Z) : res Z :=
  sum_slots 20 w pool (λ i _, u64 (FPX_PAGE_SIZE * (i + 1))) 0 0.

(** *** Clearing *)
Fixpoint reset_chain (fuel : nat) (w : world) (node : option Z) : res world :=
  match node with
  | None => Ok w
  | Some a =>
      match fuel with
      | O => NoFuel
      | S fuel =>
          n ← load_memnode w a;
          w ← update_memnode w a (mn_set_avail (mn_begin n) (mn_size n));
          reset_chain fuel w (mn_next n)
      end
  end.
Fixpoint reset_slots (k : nat) (w : world) (pool : Z) (i : nat) : res world :=
  match k with
  | O => Ok w
  | S k =>
      p ← load_pool w pool;
      head ← of_option (p_nodes p !! i);
      w ← reset_chain (memnode_fuel w) w head;
      reset_slots k w pool (S i)
  end.

(** [while (temp1)] over a pool and its brothers. *)
Fixpoint each_brother (op : world → Z → res world) (fuel : nat) (w : world) (temp1 : option Z)
    : res world :=
  match temp1 with
  | None => Ok w
  | Some temp2 =>
      match fuel with
      | O => NoFuel
      | S fuel =>
          p ← load_pool w temp2;
          w ← op w temp2;
          each_brother op fuel w (p_brother p)
      end
  end.

Fixpoint clear_fuel (fuel : nat) (w : world) (pool : Z) : res world :=
  match fuel with
  | O => NoFuel
  | S fuel =>
      p ← load_pool w pool;
      if negb (p_owner p =? w_tid w) then Ok w else
      w ← lock_pool w pool;
      w ← fpx_pool_cleanup_run_all w pool;
      p ← load_pool w pool;
      w ← each_brother (clear_fuel fuel) fuel w (p_child p);
      w ← reset_slots 20 w pool 0;
      unlock_pool w pool
  end.

(** The recursion and the loops over children visit each pool at most once. *)
Definition fpx_pool_clear (w : world) (pool : Z) : res world :=
  clear_fuel (S (size (w_pools w))) w pool.

(** *** Destroying *)
Fixpoint free_chain (fuel : nat) (w : world) (node : option Z) : res world :=
  match node with
  | None => Ok w
  | Some temp =>
      match fuel with
      | O => NoFuel
      | S fuel =>
          n ← load_memnode w temp;
          w ← fpx_memnode_deallocate w temp;
          free_chain fuel w (mn_next n)
      end
  end.
Fixpoint free_slots (k : nat) (w : world) (pool : Z) (i : nat) : res world :=
  match k with
  | O => Ok w
  | S k =>
      p ← load_pool w pool;
      head ← of_option (p_nodes p !! i);
      w ← free_chain (memnode_fuel w) w head;
      free_slots k w pool (S i)
  end.
Fixpoint destroy_fuel (fuel : nat) (w : world) (pool : Z) : res world :=
  match fuel with
  | O => NoFuel
  | S fuel =>
      p ← load_pool w pool;
      if negb (p_owner p =? w_tid w) then Ok w else
      w ← fpx_pool_cleanup_run_all w pool;
      p ← load_pool w pool;
      w ← each_brother (destroy_fuel fuel) fuel w (p_child p);
      free_slots 20 w pool 0
  end.
Definition fpx_pool_destroy (w : world) (pool : Z) : res world :=
  destroy_fuel (S (size (w_pools w))) w pool.
End Pools.

(** A pool in its world is what the string functions allocate from. *)
Definition pool_palloc sys_malloc (wp : world * Z) (n : Z) : res (option Z * (world * Z)) :=
  '(mem, w) ← fpx_palloc sys_malloc wp.1 wp.2 n; Ok (mem, (w, wp.2)).

(** ** Abstract view *)

(** What [malloc] promises: a block in the address space, aligned for any type,
    apart from every live block. *)
Definition malloc_ok (sys_malloc : gmap Z Z → Z → option Z) : Prop :=
  ∀ bl size a, 0 ≤ size → sys_malloc bl size = Some a →
    0 < a ∧ a + size < 2 ^ 64 ∧ a mod 16 = 0 ∧ bl !! a = None ∧
    ∀ b s, bl !! b = Some s → a + size ≤ b ∨ b + s ≤ a.

(** A NULL-terminated chain of structures linked by [next]. *)
Fixpoint chain {N} (next : N → option Z) (m : gmap Z N) (p : option Z) (l : list Z) : Prop :=
  match l with
  | [] => p = None
  | a :: l' => p = Some a ∧ ∃ n, m !! a = Some n ∧ chain next m (next n) l'
  end.

(** Live blocks do not overlap. *)
Definition blocks_ok (bl : gmap Z Z) : Prop :=
  ∀ a b s t, a ≠ b → bl !! a = Some s → bl !! b = Some t → a + s ≤ b ∨ b + t ≤ a.

(** A node of slot [i] at [a]: [begin .. first_avail) is handed out,
    [first_avail .. begin + size) is free, and both lie in the node's block. *)
Record node_ok (bl : gmap Z Z) (i : nat) (a : Z) (n : fpx_memnode_t) : Prop := {
  nd_block : bl !! a = Some (mn_dealloc_size n);
  nd_pages : mn_dealloc_size n = (Z.of_nat i + 1) * FPX_PAGE_SIZE;
  nd_addr : 0 < a ∧ a + mn_dealloc_size n < 2 ^ 64;
  nd_header : a + SIZEOF_MEMNODE ≤ mn_begin n;
  nd_used : mn_begin n ≤ mn_first_avail n;
  nd_avail : 0 ≤ mn_size_avail n;
  nd_end : mn_first_avail n + mn_size_avail n = a + mn_dealloc_size n;
  nd_size : mn_begin n + mn_size n = a + mn_dealloc_size n;
  nd_align : mn_begin n mod 8 = 0 ∧ mn_first_avail n mod 8 = 0
}.

(** The slots [sl] of a pool hold the chains [ch]. *)
Record nodes_ok (bl : gmap Z Z) (m : gmap Z fpx_memnode_t) (sl : list (option Z))
    (ch : list (list Z)) : Prop := {
  ns_length : length ch = 20%nat;
  ns_chains : Forall2 (chain mn_next m) sl ch;
  ns_nodup : NoDup (concat ch);
  ns_node : ∀ i c a, ch !! i = Some c → a ∈ c → ∃ n, m !! a = Some n ∧ node_ok bl i a n
}.

(** Address [x] belongs to memory the pool has handed out. *)
Definition in_use (m : gmap Z fpx_memnode_t) (ch : list (list Z)) (x : Z) : Prop :=
  ∃ a n, a ∈ concat ch ∧ m !! a = Some n ∧ mn_begin n ≤ x < mn_first_avail n.

(** [a .. a + need) is new: it was not in use, and now is, and nothing else
    has changed in that respect. *)
Definition granted m ch m' ch' (a need : Z) : Prop :=
  (∀ x, in_use m' ch' x ↔ in_use m ch x ∨ a ≤ x < a + need) ∧
  (∀ x, a ≤ x < a + need → ¬ in_use m ch x).

(** *** Chains *)
Section Chains.
Context {N : Type} (next : N → option Z).

Lemma chain_frame m m' p l :
  (∀ a, a ∈ l → m' !! a = m !! a) → chain next m p l → chain next m' p l.
Proof.
  revert p. induction l as [|a l IH]; intros p Hf; simpl; [done|].
  intros (-> & n & Ha & Hl). split; [done|]. exists n. split.
  - rewrite Hf; [done|set_solver].
  - apply IH; [set_solver|done].
Qed.

Lemma chain_insert_ne m p l a n : a ∉ l → chain next m p l → chain next (<[a := n]> m) p l.
Proof. intros Ha. apply chain_frame. intros b Hb. apply lookup_insert_ne. set_solver. Qed.

(** An update that keeps the links. *)
Lemma chain_update m p l a n n' :
  m !! a = Some n → next n' = next n → chain next m p l → chain next (<[a := n']> m) p l.
Proof.
  intros Ha Hn. revert p. induction l as [|b l IH]; intros p; simpl; [done|].
  intros (-> & nb & Hb & Hl). split; [done|]. destruct (decide (b = a)) as [->|Hne].
  - exists n'. rewrite lookup_insert_eq. split; [done|]. rewrite Hn.
    replace n with nb by congruence. auto.
  - exists nb. rewrite lookup_insert_ne by done. auto.
Qed.

Lemma chain_lookup m p l a : chain next m p l → a ∈ l → is_Some (m !! a).
Proof.
  revert p. induction l as [|b l IH]; intros p; [set_solver|]. simpl.
  intros (-> & n & Hb & Hl) [->|Ha]%elem_of_cons; eauto.
Qed.

Lemma chain_length m p l : NoDup l → chain next m p l → (length l ≤ size m)%nat.
Proof.
  intros Hnd Hl. rewrite <- (size_dom m), <- (size_list_to_set (C := gset Z) l) by done.
  apply subseteq_size. intros a Ha%elem_of_list_to_set.
  apply elem_of_dom. by eapply chain_lookup.
Qed.
End Chains.

(** *** Lists of chains *)
Lemma elem_of_concat {A} (ll : list (list A)) x :
  x ∈ concat ll ↔ ∃ i l, ll !! i = Some l ∧ x ∈ l.
Proof.
  rewrite list_elem_of_In, in_concat. split.
  - intros (l & Hl & Hx). apply list_elem_of_In in Hl, Hx.
    apply list_elem_of_lookup in Hl as [i Hi]. eauto.
  - intros (i & l & Hi & Hx). exists l. rewrite <- !list_elem_of_In.
    split; [by eapply list_elem_of_lookup_2|done].
Qed.

Lemma concat_insert_perm {A} (ll : list (list A)) i l x :
  ll !! i = Some l → concat (<[i := x :: l]> ll) ≡ₚ x :: concat ll.
Proof.
  revert i. induction ll as [|l0 ll IH]; intros [|i] H; simplify_eq/=; [done|].
  rewrite IH by done. by rewrite Permutation_middle.
Qed.

(** *** The search *)
Definition fits (m : gmap Z fpx_memnode_t) (need a : Z) : bool :=
  match m !! a with Some n => need <=? mn_size_avail n | None => false end.

Lemma find_node_ok w fuel p l need :
  chain mn_next (w_memnodes w) p l → (length l ≤ fuel)%nat →
  find_node fuel w p need = Ok (List.find (fits (w_memnodes w) need) l).
Proof.
  revert p l. induction fuel as [|fuel IH]; intros p [|a l]; simpl;
    try (intros -> ?; done); intros (-> & n & Ha & Hl) Hf; [lia|].
  unfold load_memnode, fits at 1. rewrite Ha. simpl.
  destruct (need <=? mn_size_avail n); [done|]. apply IH; [done|lia].
Qed.

Lemma find_app {A} (f : A → bool) l1 l2 :
  List.find f (l1 ++ l2) = match List.find f l1 with Some x => Some x | None => List.find f l2 end.
Proof. induction l1 as [|x l1 IH]; simpl; [done|]. by destruct (f x). Qed.

Lemma nodes_ok_chain bl m sl ch i c :
  nodes_ok bl m sl ch → ch !! i = Some c →
  ∃ hd, sl !! i = Some hd ∧ chain mn_next m hd c ∧ (length c ≤ size m)%nat.
Proof.
  intros H Hc. destruct (Forall2_lookup_r _ _ _ _ _ (ns_chains _ _ _ _ H) Hc) as (hd & Hhd & Hch).
  exists hd. split_and!; [done..|]. eapply chain_length; [|done].
  pose proof (ns_nodup _ _ _ _ H) as Hnd. revert Hnd Hc. clear. revert i.
  induction ch as [|c0 ch IH]; intros [|i] Hnd Hc; simplify_eq/=;
    apply NoDup_app in Hnd as (? & _ & ?); eauto.
Qed.

Lemma find_slot_ok w pool p ch need k i :
  w_pools w !! pool = Some p → nodes_ok (w_blocks w) (w_memnodes w) (p_nodes p) ch →
  (i + k)%nat = 20%nat →
  find_slot k w pool i need = Ok (List.find (fits (w_memnodes w) need) (concat (drop i ch))).
Proof.
  intros Hp Hok. revert i. induction k as [|k IH]; intros i Hi.
  - rewrite drop_ge; [done|]. rewrite (ns_length _ _ _ _ Hok). lia.
  - assert (i < length ch)%nat as Hlt by (rewrite (ns_length _ _ _ _ Hok); lia).
    apply lookup_lt_is_Some_2 in Hlt as [c Hc].
    destruct (nodes_ok_chain _ _ _ _ _ _ Hok Hc) as (hd & Hhd & Hch & Hlen).
    cbn [find_slot]. unfold load_pool. rewrite Hp. simpl. rewrite Hhd. simpl.
    rewrite (find_node_ok _ _ _ c) by done. rewrite bind_ok, (drop_S ch c i Hc). simpl.
    rewrite find_app. destruct (List.find _ c); [done|]. apply IH. lia.
Qed.

(** *** Taking memory from a node *)
Lemma nodes_apart bl i j a b n n' :
  blocks_ok bl → a ≠ b → node_ok bl i a n → node_ok bl j b n' →
  mn_first_avail n + mn_size_avail n ≤ mn_begin n' ∨
  mn_first_avail n' + mn_size_avail n' ≤ mn_begin n.
Proof.
  intros Hb Hne H1 H2. destruct (Hb a b _ _ Hne (nd_block _ _ _ _ H1) (nd_block _ _ _ _ H2)).
  - left. rewrite (nd_end _ _ _ _ H1). pose proof (nd_header _ _ _ _ H2).
    unfold SIZEOF_MEMNODE in *. lia.
  - right. rewrite (nd_end _ _ _ _ H2). pose proof (nd_header _ _ _ _ H1).
    unfold SIZEOF_MEMNODE in *. lia.
Qed.

Lemma nodes_ok_elem bl m sl ch a :
  nodes_ok bl m sl ch → a ∈ concat ch → ∃ i n, m !! a = Some n ∧ node_ok bl i a n.
Proof.
  intros H (i & c & Hc & Ha)%elem_of_concat. destruct (ns_node _ _ _ _ H i c a Hc Ha) as (n & ? & ?).
  eauto.
Qed.

Lemma take_ok bl m sl ch a n need :
  blocks_ok bl → nodes_ok bl m sl ch → a ∈ concat ch → m !! a = Some n →
  0 < need ≤ mn_size_avail n → need mod 8 = 0 →
  let m' := <[a := mn_set_avail (u64 (mn_first_avail n + need)) (u64 (mn_size_avail n - need)) n]> m in
  nodes_ok bl m' sl ch ∧ granted m ch m' ch (mn_first_avail n) need.
Proof.
  intros Hb Hok Hin Ha Hneed Hmod m'.
  destruct (nodes_ok_elem _ _ _ _ _ Hok Hin) as (i & n1 & Hn1 & Hnode).
  replace n1 with n in Hnode by congruence. clear n1 Hn1.
  destruct Hnode as [Hblk Hpg Had Hhd Hus Hav Hend Hsz Hal]. unfold SIZEOF_MEMNODE in *.
  assert (m' !! a = Some (mn_set_avail (mn_first_avail n + need) (mn_size_avail n - need) n)) as Ha'.
  { unfold m'. rewrite lookup_insert_eq, !u64_small by lia. done. }
  split; [split|split].
  - apply (ns_length _ _ _ _ Hok).
  - eapply Forall2_impl; [apply (ns_chains _ _ _ _ Hok)|]. intros hd c. by apply chain_update with n.
  - apply (ns_nodup _ _ _ _ Hok).
  - intros j c b Hc Hbc. destruct (ns_node _ _ _ _ Hok j c b Hc Hbc) as (nb & Hnb & Hbok).
    destruct (decide (b = a)) as [->|Hne].
    + eexists; split; [exact Ha'|]. replace nb with n in Hbok by congruence. destruct Hbok.
      split; simpl; try done; try lia. split; [tauto|]. rewrite Zplus_mod, Hmod, (proj2 Hal). done.
    + exists nb. unfold m'. by rewrite lookup_insert_ne.
  - intros x. split.
    + intros (b & nb & Hbc & Hnb & Hx). destruct (decide (b = a)) as [->|Hne].
      * rewrite Ha' in Hnb. injection Hnb as <-. simpl in Hx.
        destruct (Z_lt_le_dec x (mn_first_avail n)); [left; exists a, n; auto with lia|right; lia].
      * left. exists b, nb. unfold m' in Hnb. rewrite lookup_insert_ne in Hnb by done. auto.
    + intros [(b & nb & Hbc & Hnb & Hx)|Hx].
      * destruct (decide (b = a)) as [->|Hne].
        -- replace nb with n in Hx by congruence. exists a. eexists. split_and!; [done|exact Ha'|..]; simpl; lia.
        -- exists b, nb. unfold m'. by rewrite lookup_insert_ne.
      * exists a. eexists. split_and!; [done|exact Ha'|..]; simpl; lia.
  - intros x Hx (b & nb & Hbc & Hnb & Hxb). destruct (decide (b = a)) as [->|Hne].
    + replace nb with n in Hxb by congruence. lia.
    + destruct (nodes_ok_elem _ _ _ _ _ Hok Hbc) as (j & nb1 & Hnb1 & Hnode).
      replace nb1 with nb in Hnode by congruence.
      assert (node_ok bl i a n) as Hna by (by split).
      pose proof (nd_avail _ _ _ _ Hnode).
      destruct (nodes_apart bl i j a b n nb Hb) as [|]; try done; lia.
Qed.

(** *** Registering a fresh node *)
Definition fresh_node (a size : Z) : fpx_memnode_t :=
  Memnode None (a + 48) (a + 48) (size - 48) (size - 48) size.

Lemma add_node_ok bl m sl ch i c hd a size :
  nodes_ok bl m sl ch → bl !! a = None → ch !! i = Some c → sl !! i = Some hd →
  size = (Z.of_nat i + 1) * FPX_PAGE_SIZE → 0 < a → a + size < 2 ^ 64 → a mod 8 = 0 →
  let m' := <[a := mn_set_next hd (fresh_node a size)]> m in
  nodes_ok (<[a := size]> bl) m' (<[i := Some a]> sl) (<[i := a :: c]> ch) ∧
  (∀ x, in_use m' (<[i := a :: c]> ch) x ↔ in_use m ch x).
Proof.
  intros Hok Hbl Hc Hhd Hsz Hpos Hmax Hal m'.
  assert (a ∉ concat ch) as Hfresh.
  { intros Hin. destruct (nodes_ok_elem _ _ _ _ _ Hok Hin) as (j & n & _ & Hn).
    by rewrite (nd_block _ _ _ _ Hn) in Hbl. }
  assert (∀ j c' b, ch !! j = Some c' → b ∈ c' → b ≠ a) as Hne.
  { intros j c' b Hj Hb ->. apply Hfresh, elem_of_concat. eauto. }
  assert (node_ok (<[a := size]> bl) i a (mn_set_next hd (fresh_node a size))) as Hnew.
  { unfold FPX_PAGE_SIZE in *. split; simpl; unfold SIZEOF_MEMNODE; try lia.
    - by rewrite lookup_insert_eq.
    - exact Hsz.
    - rewrite Zplus_mod, Hal. done. }
  split; [split|].
  - rewrite length_insert. apply (ns_length _ _ _ _ Hok).
  - apply Forall2_insert.
    + eapply Forall2_same_length_lookup_2.
      { apply (Forall2_length _ _ _ (ns_chains _ _ _ _ Hok)). }
      intros j hd' c' Hj Hj'. apply chain_insert_ne.
      * intros Hin. by apply (Hne j c' a).
      * pose proof (Forall2_lookup_lr _ _ _ _ _ _ (ns_chains _ _ _ _ Hok) Hj Hj'). done.
    + simpl. split; [done|]. eexists. unfold m'. rewrite lookup_insert_eq. split; [done|]. simpl.
      apply chain_insert_ne; [intros Hin; by apply (Hne i c a)|].
      apply (Forall2_lookup_lr _ _ _ _ _ _ (ns_chains _ _ _ _ Hok) Hhd Hc).
  - rewrite concat_insert_perm by done. apply NoDup_cons. split; [done|apply (ns_nodup _ _ _ _ Hok)].
  - intros j c' b Hj Hb.
    assert (b = a ∧ j = i ∨ b ≠ a ∧ ∃ c0, ch !! j = Some c0 ∧ b ∈ c0) as [[-> ->]|[Hba (c0 & Hj0 & Hb0)]].
    { apply list_lookup_insert_Some in Hj as [(-> & <- & _)|[Hji Hj]].
      - apply elem_of_cons in Hb as [->|Hb]; [by left|right; eauto].
      - right. eauto. }
    + exists (mn_set_next hd (fresh_node a size)). unfold m'. by rewrite lookup_insert_eq.
    + destruct (ns_node _ _ _ _ Hok j c0 b Hj0 Hb0) as (n & Hn & []).
      exists n. unfold m'. rewrite !lookup_insert_ne by done. split; [done|].
      split; try done. by rewrite lookup_insert_ne.
  - intros x. unfold in_use. setoid_rewrite concat_insert_perm; [|done]. split.
    + intros (b & n & [->|Hb]%elem_of_cons & Hn & Hx).
      * unfold m' in Hn. rewrite lookup_insert_eq in Hn. simplify_eq. simpl in Hx. lia.
      * exists b, n. unfold m' in Hn. rewrite lookup_insert_ne in Hn by (intros ->; done). auto.
    + intros (b & n & Hb & Hn & Hx). exists b, n. unfold m'.
      rewrite lookup_insert_ne by (intros ->; done). split; [|done]. set_solver.
Qed.

(** ** Requests that fit a slot *)
Lemma align_allocation_spec size :
  0 ≤ size ≤ 2 ^ 64 - 8 →
  let n := fpx_align_allocation size in
  size ≤ n ∧ 16 ≤ n ∧ n mod 8 = 0 ∧ (n < size + 8 ∨ n = 16).
Proof.
  intros H n. destruct (fpx_align_default_spec size ltac:(lia)) as [Hr Hm].
  unfold n, fpx_align_allocation. rewrite (proj2 (Z.ltb_ge _ _)) by lia.
  change FPX_MIN_ALLOC with 16. destruct (Z.ltb_spec (fpx_align_default size) 16); split_and!; try done; lia.
Qed.

Lemma align_allocation_zero size :
  2 ^ 64 - 8 < size < 2 ^ 64 → fpx_align_allocation size = 0.
Proof.
  intros H. unfold fpx_align_allocation. rewrite fpx_align_default_wrap by lia.
  by rewrite (proj2 (Z.ltb_lt _ _)) by lia.
Qed.

Lemma get_npages_spec need :
  0 ≤ need < 2 ^ 64 - 48 →
  let np := fpx_get_npages need in
  1 ≤ np ∧ (np - 1) * FPX_PAGE_SIZE ≤ need + 48 < np * FPX_PAGE_SIZE.
Proof.
  intros H np. unfold np, fpx_get_npages, FPX_PAGE_SIZE.
  change FPX_SIZEOF_MEMNODE_T_ALIGN with 48. rewrite (u64_small (need + 48)) by lia.
  destruct (Z.ltb_spec (need + 48) 4096); [lia|].
  pose proof (Z.div_mod (need + 48) 4096 ltac:(lia)).
  pose proof (Z.mod_pos_bound (need + 48) 4096 ltac:(lia)).
  assert (0 ≤ (need + 48) / 4096 < 2 ^ 62) by (split; [apply Z.div_pos|apply Z.div_lt_upper_bound]; lia).
  rewrite u64_small by lia. lia.
Qed.

Record pool_ok (w : world) (pool : Z) (p : fpx_pool_t) (ch : list (list Z)) : Prop := {
  po_pool : w_pools w !! pool = Some p;
  po_nodes : nodes_ok (w_blocks w) (w_memnodes w) (p_nodes p) ch;
  po_blocks : blocks_ok (w_blocks w);
  po_mutex : is_Some (w_mutexes w !! p_mutex p)
}.

(** Everything but the nodes of one pool is as before. *)
Record only_nodes (w w' : world) (pool : Z) (p' : fpx_pool_t) (ch' : list (list Z)) : Prop := {
  on_pools : w_pools w' = <[pool := p']> (w_pools w);
  on_cleanups : w_cleanups w' = w_cleanups w;
  on_mutexes : w_mutexes w' = w_mutexes w;
  on_tid : w_tid w' = w_tid w;
  on_trace : w_trace w' = w_trace w;
  on_blocks : w_blocks w ⊆ w_blocks w';
  on_memnodes : ∀ b, b ∉ concat ch' → w_memnodes w' !! b = w_memnodes w !! b
}.

(** The pool grants [need] bytes at [a]: aligned, inside one live block and
    behind the node's header, never handed out before. *)
Definition grants (w : world) (pool : Z) (p : fpx_pool_t) (ch : list (list Z))
    (need a : Z) (w' : world) : Prop :=
  ∃ sl' ch',
    pool_ok w' pool (p_set_nodes sl' p) ch' ∧ only_nodes w w' pool (p_set_nodes sl' p) ch' ∧
    concat ch ⊆ concat ch' ∧
    0 < a ∧ a mod 8 = 0 ∧ granted (w_memnodes w) ch (w_memnodes w') ch' a need ∧
    ∃ b s, w_blocks w' !! b = Some s ∧ b + SIZEOF_MEMNODE ≤ a ∧ a + need ≤ b + s.

Lemma lock_ok w m d : w_mutexes w !! m = Some d → lock w m = Ok (set_mutexes w (<[m := S d]> (w_mutexes w))).
Proof. intros H. unfold lock. by rewrite H. Qed.
Lemma unlock_ok w m d : w_mutexes w !! m = Some d → unlock w m = Ok (set_mutexes w (<[m := pred d]> (w_mutexes w))).
Proof. intros H. unfold unlock. by rewrite H. Qed.
Lemma load_pool_ok w a p : w_pools w !! a = Some p → load_pool w a = Ok p.
Proof. intros H. unfold load_pool. by rewrite H. Qed.
Lemma load_memnode_ok w a n : w_memnodes w !! a = Some n → load_memnode w a = Ok n.
Proof. intros H. unfold load_memnode. by rewrite H. Qed.
Lemma load_cleanup_ok w a n : w_cleanups w !! a = Some n → load_cleanup w a = Ok n.
Proof. intros H. unfold load_cleanup. by rewrite H. Qed.
Lemma update_pool_ok w a p f :
  w_pools w !! a = Some p → update_pool w a f = Ok (set_pools w (<[a := f p]> (w_pools w))).
Proof. intros H. unfold update_pool. by rewrite (load_pool_ok _ _ _ H). Qed.
Lemma update_memnode_ok w a n f :
  w_memnodes w !! a = Some n → update_memnode w a f = Ok (set_memnodes w (<[a := f n]> (w_memnodes w))).
Proof. intros H. unfold update_memnode. by rewrite (load_memnode_ok _ _ _ H). Qed.
Lemma update_cleanup_ok w a n f :
  w_cleanups w !! a = Some n → update_cleanup w a f = Ok (set_cleanups w (<[a := f n]> (w_cleanups w))).
Proof. intros H. unfold update_cleanup. by rewrite (load_cleanup_ok _ _ _ H). Qed.
Lemma lock_pool_ok w a p d :
  w_pools w !! a = Some p → w_mutexes w !! p_mutex p = Some d →
  lock_pool w a = Ok (set_mutexes w (<[p_mutex p := S d]> (w_mutexes w))).
Proof. intros H Hd. unfold lock_pool. by rewrite (load_pool_ok _ _ _ H), bind_ok, (lock_ok _ _ _ Hd). Qed.
Lemma unlock_pool_ok w a p d :
  w_pools w !! a = Some p → w_mutexes w !! p_mutex p = Some d →
  unlock_pool w a = Ok (set_mutexes w (<[p_mutex p := pred d]> (w_mutexes w))).
Proof. intros H Hd. unfold unlock_pool. by rewrite (load_pool_ok _ _ _ H), bind_ok, (unlock_ok _ _ _ Hd). Qed.

(** Run the accesses of a symbolic world: each is looked up through the
    pending updates. *)
Ltac world_look := first [eassumption | simpl; simplify_map_eq; eassumption | simpl; by simplify_map_eq].
Ltac world_step :=
  first [ rewrite bind_ok
        | erewrite load_pool_ok by world_look
        | erewrite load_memnode_ok by world_look
        | erewrite load_cleanup_ok by world_look
        | erewrite update_pool_ok by world_look
        | erewrite update_memnode_ok by world_look
        | erewrite update_cleanup_ok by world_look
        | erewrite lock_pool_ok by world_look
        | erewrite unlock_pool_ok by world_look ].
Ltac world_run := repeat (world_step; cbn beta iota zeta).

Lemma take_from_ok w a n need :
  w_memnodes w !! a = Some n →
  take_from w a need = Ok (Some (mn_first_avail n), set_memnodes w
    (<[a := mn_set_avail (u64 (mn_first_avail n + need)) (u64 (mn_size_avail n - need)) n]>
       (w_memnodes w))).
Proof. intros H. unfold take_from. by world_run. Qed.

(** Locking and unlocking again leaves the mutex as it was. *)
Lemma relock (M : gmap Z nat) k d : M !! k = Some d → <[k := d]> (<[k := S d]> M) = M.
Proof. intros H. by rewrite insert_insert_eq, insert_id. Qed.

Lemma granted_alloc_bound bl m sl ch a n need :
  nodes_ok bl m sl ch → a ∈ concat ch → m !! a = Some n → need ≤ mn_size_avail n →
  0 < mn_first_avail n ∧ mn_first_avail n mod 8 = 0 ∧
  ∃ b s, bl !! b = Some s ∧ b + SIZEOF_MEMNODE ≤ mn_first_avail n ∧ mn_first_avail n + need ≤ b + s.
Proof.
  intros Hok Hin Ha Hle. destruct (nodes_ok_elem _ _ _ _ _ Hok Hin) as (i & n' & Hn' & []).
  replace n' with n in * by congruence. unfold SIZEOF_MEMNODE in *.
  split_and!; [lia|tauto|]. exists a. eexists. split; [done|]. lia.
Qed.

Section PoolProofs.
Variable sys_malloc : gmap Z Z → Z → option Z.
Hypothesis Hmalloc : malloc_ok sys_malloc.

Lemma blocks_ok_malloc bl size a :
  0 ≤ size → blocks_ok bl → sys_malloc bl size = Some a → blocks_ok (<[a := size]> bl).
Proof using Hmalloc.
  intros Hs Hb Ha. destruct (Hmalloc _ _ _ Hs Ha) as (_ & _ & _ & _ & Hd).
  intros x y s t Hne Hx Hy. apply lookup_insert_Some in Hx, Hy.
  destruct Hx as [[<- <-]|[? Hx]], Hy as [[<- <-]|[? Hy]]; [done|..].
  - by apply Hd.
  - destruct (Hd _ _ Hx); auto.
  - by apply (Hb x y).
Qed.

Lemma memnode_allocate_ok w size :
  48 ≤ size < 2 ^ 64 →
  fpx_memnode_allocate sys_malloc w size =
  match sys_malloc (w_blocks w) size with
  | None => (None, w)
  | Some a => (Some a, set_memnodes
                 (set_blocks w (<[a := size]> (w_blocks w)) (u64 (w_counter w + size)))
                 (<[a := fresh_node a size]> (w_memnodes w)))
  end.
Proof using Hmalloc.
  intros Hs. unfold fpx_memnode_allocate, fpx_malloc.
  destruct (sys_malloc (w_blocks w) size) as [a|] eqn:Ha; [|done].
  destruct (Hmalloc _ size _ ltac:(lia) Ha) as (? & ? & _).
  change FPX_SIZEOF_MEMNODE_T_ALIGN with 48. rewrite (u64_small (a + 48)), (u64_small (size - 48)) by lia. done.
Qed.

(** The request is served by node [a]: the answer is where its free area began, and
    nothing else of the nodes and blocks changes. *)
Definition from_node (w : world) (a need r : Z) (w' : world) : Prop :=
  ∃ n, w_memnodes w !! a = Some n ∧ r = mn_first_avail n ∧ w_blocks w' = w_blocks w ∧
    w_memnodes w' = <[a := mn_set_avail (u64 (r + need)) (u64 (mn_size_avail n - need)) n]> (w_memnodes w).

(** The request is served by the block [a] of [np] pages that the system has just
    given, behind the header with which it is now the head of slot [np - 1]. *)
Definition from_block (w : world) (pool : Z) (p : fpx_pool_t) (np a need r : Z) (w' : world) : Prop :=
  let size := np * FPX_PAGE_SIZE in
  sys_malloc (w_blocks w) size = Some a ∧ r = a + 48 ∧ w_blocks w' = <[a := size]> (w_blocks w) ∧
  w_pools w' !! pool = Some (p_set_nodes (<[Z.to_nat (np - 1) := Some a]> (p_nodes p)) p) ∧
  ∃ hd, p_nodes p !! Z.to_nat (np - 1) = Some hd ∧
    w_memnodes w' = <[a := mn_set_avail (u64 (r + need)) (u64 (size - 48 - need))
                             (mn_set_next hd (fresh_node a size))]> (w_memnodes w).

(** The node found for a request serves it. *)
Lemma palloc_found_ok w pool p ch need np a :
  pool_ok w pool p ch → 16 ≤ need → need mod 8 = 0 → 1 ≤ np ≤ 20 →
  List.find (fits (w_memnodes w) need) (concat (drop (Z.to_nat (np - 1)) ch)) = Some a →
  ∃ r w', palloc_slots sys_malloc w pool need np (np - 1) = Ok (Some r, w') ∧
    grants w pool p ch need r w' ∧ from_node w a need r w'.
Proof using Hmalloc.
  intros [Hp Hok Hb [d Hd]] Hn16 Hmod Hnp Hfit.
  unfold palloc_slots. world_run.
  rewrite (find_slot_ok _ pool p ch) by
    (first [exact Hp | exact Hok | unfold FPX_MAX_POOL_SLOT; lia]).
  rewrite bind_ok. change (w_memnodes (set_mutexes w _)) with (w_memnodes w). rewrite Hfit.
  apply List.find_some in Hfit as [Hin Hfit]. apply list_elem_of_In in Hin.
  assert (a ∈ concat ch) as Hin'.
  { apply elem_of_concat in Hin as (i & c & Hc & Hac). rewrite lookup_drop in Hc.
    apply elem_of_concat. eauto. }
  unfold fits in Hfit. destruct (w_memnodes w !! a) as [n|] eqn:Ha; [|done].
  apply Z.leb_le in Hfit.
  rewrite (take_from_ok _ a n) by exact Ha. rewrite bind_ok. cbn beta iota zeta.
  world_run. eexists _, _. split; [done|]. simpl.
  destruct (take_ok _ _ _ _ a n need Hb Hok Hin' Ha ltac:(lia) Hmod) as [Hok' Hgr].
  destruct (granted_alloc_bound _ _ _ _ a n need Hok Hin' Ha Hfit) as (? & ? & ?).
  split; [|by exists n].
  exists (p_nodes p), ch. assert (p_set_nodes (p_nodes p) p = p) as Hpp by by destruct p.
  rewrite Hpp. split_and!; try done; split; simpl; try done; rewrite ?relock by done; eauto.
  - by rewrite insert_id.
  - intros b Hb'. rewrite lookup_insert_ne; [done|]. set_solver.
Qed.

(** Where no node has the room, [malloc] decides. *)
Lemma palloc_fresh_none w pool p ch need np :
  pool_ok w pool p ch → 1 ≤ np ≤ 20 →
  List.find (fits (w_memnodes w) need) (concat (drop (Z.to_nat (np - 1)) ch)) = None →
  sys_malloc (w_blocks w) (np * FPX_PAGE_SIZE) = None →
  palloc_slots sys_malloc w pool need np (np - 1) = Ok (None, w).
Proof using Hmalloc.
  intros [Hp Hok Hb [d Hd]] Hnp Hfit Ha.
  unfold palloc_slots. world_run.
  rewrite (find_slot_ok _ pool p ch) by
    (first [exact Hp | exact Hok | unfold FPX_MAX_POOL_SLOT; lia]).
  rewrite bind_ok. change (w_memnodes (set_mutexes w _)) with (w_memnodes w). rewrite Hfit.
  rewrite memnode_allocate_ok by (unfold FPX_PAGE_SIZE; rewrite u64_small by lia; lia).
  rewrite u64_small by (unfold FPX_PAGE_SIZE; lia). simpl w_blocks. rewrite Ha.
  world_run. simpl. unfold set_mutexes. simpl. rewrite relock by done. by destruct w.
Qed.

(** A multiple of 16 is one of 8. *)
Lemma mod16_mod8 a : a mod 16 = 0 → a mod 8 = 0.
Proof.
  intros Hal. rewrite (Z.div_mod a 16), Hal, Z.add_0_r by done.
  change (16 * (a / 16)) with (8 * 2 * (a / 16)). rewrite <- Z.mul_assoc, Z.mul_comm. apply Z_mod_mult.
Qed.

(** The steps of [fpx_palloc1] where no node has the room and [malloc] gives
    the block [a]: [hd] headed the slot, [d] is the depth of the lock. *)
Lemma palloc_slots_fresh w pool p ch need np a c hd d :
  w_pools w !! pool = Some p → nodes_ok (w_blocks w) (w_memnodes w) (p_nodes p) ch →
  w_mutexes w !! p_mutex p = Some d → 1 ≤ np ≤ 20 →
  ch !! Z.to_nat (np - 1) = Some c → p_nodes p !! Z.to_nat (np - 1) = Some hd →
  List.find (fits (w_memnodes w) need) (concat (drop (Z.to_nat (np - 1)) ch)) = None →
  let size := np * FPX_PAGE_SIZE in
  sys_malloc (w_blocks w) size = Some a →
  palloc_slots sys_malloc w pool need np (np - 1) = Ok (Some (a + 48),
    World (<[a := size]> (w_blocks w))
      (<[a := mn_set_avail (u64 (a + 48 + need)) (u64 (size - 48 - need))
                (mn_set_next hd (fresh_node a size))]> (w_memnodes w))
      (w_cleanups w) (<[pool := p_set_nodes (<[Z.to_nat (np - 1) := Some a]> (p_nodes p)) p]> (w_pools w))
      (w_mutexes w) (w_tid w) (u64 (w_counter w + size)) (w_trace w)).
Proof using Hmalloc.
  intros Hp Hok Hd Hnp Hc Hhd Hfit size Ha.
  assert (np - 1 < Z.of_nat (length (p_nodes p))) as Hlt.
  { rewrite (Forall2_length _ _ _ (ns_chains _ _ _ _ Hok)), (ns_length _ _ _ _ Hok). lia. }
  unfold palloc_slots. world_run.
  rewrite (find_slot_ok _ pool p ch) by
    (first [exact Hp | exact Hok | unfold FPX_MAX_POOL_SLOT; lia]).
  rewrite bind_ok. change (w_memnodes (set_mutexes w _)) with (w_memnodes w). rewrite Hfit.
  rewrite memnode_allocate_ok by (unfold FPX_PAGE_SIZE; rewrite u64_small by lia; lia).
  rewrite u64_small by (unfold FPX_PAGE_SIZE; lia). simpl w_blocks. fold size. rewrite Ha.
  cbn beta iota zeta. world_step. cbn beta iota zeta. world_step. rewrite Hhd.
  simpl of_option. rewrite bind_ok. unfold set_slot. rewrite (proj2 (Z.ltb_lt _ _) Hlt).
  simpl require. world_run. erewrite take_from_ok.
  2:{ simpl. by rewrite lookup_insert_eq. }
  rewrite bind_ok. cbn beta iota zeta. world_run. simpl. unfold set_mutexes. simpl.
  rewrite relock, !(insert_insert_eq (A := fpx_memnode_t)) by done. done.
Qed.

(** A fresh node of [np] pages becomes the head of its slot and serves the
    request. *)
Lemma palloc_fresh_ok w pool p ch need np a :
  pool_ok w pool p ch → 16 ≤ need → need mod 8 = 0 → 1 ≤ np ≤ 20 →
  need + 48 ≤ np * FPX_PAGE_SIZE →
  List.find (fits (w_memnodes w) need) (concat (drop (Z.to_nat (np - 1)) ch)) = None →
  sys_malloc (w_blocks w) (np * FPX_PAGE_SIZE) = Some a →
  ∃ r w', palloc_slots sys_malloc w pool need np (np - 1) = Ok (Some r, w') ∧
    grants w pool p ch need r w' ∧ from_block w pool p np a need r w'.
Proof using Hmalloc.
  intros [Hp Hok Hb [d Hd]] Hn16 Hmod Hnp Hroom Hfit Ha.
  set (size := np * FPX_PAGE_SIZE) in *.
  destruct (Hmalloc _ size _ ltac:(unfold size, FPX_PAGE_SIZE; lia) Ha) as (Hpos & Hend & Hal & Hbl & Hdis).
  assert (Z.to_nat (np - 1) < length ch)%nat as Hlt by (rewrite (ns_length _ _ _ _ Hok); lia).
  apply lookup_lt_is_Some_2 in Hlt as [c Hc].
  destruct (nodes_ok_chain _ _ _ _ _ _ Hok Hc) as (hd & Hhd & Hch & _).
  destruct (add_node_ok _ _ _ _ _ _ _ a size Hok Hbl Hc Hhd) as [Hok1 Huse];
    [unfold size; f_equal; lia|done|done|by apply mod16_mod8|].
  assert (a ∈ concat (<[Z.to_nat (np - 1) := a :: c]> ch)) as Hin
    by (rewrite concat_insert_perm by done; set_solver).
  pose proof (blocks_ok_malloc _ size _ ltac:(unfold size, FPX_PAGE_SIZE; lia) Hb Ha) as Hb1.
  destruct (take_ok _ _ _ _ a (mn_set_next hd (fresh_node a size)) need Hb1 Hok1 Hin) as [Hok' Hgr];
    [by rewrite lookup_insert_eq|simpl; lia|done|].
  destruct (granted_alloc_bound _ _ _ _ a (mn_set_next hd (fresh_node a size)) need Hok1 Hin)
    as (? & ? & ?); [by rewrite lookup_insert_eq|simpl; lia|].
  rewrite (insert_insert_eq (A := fpx_memnode_t)) in Hok', Hgr.
  rewrite (palloc_slots_fresh w pool p ch need np a c hd d) by done.
  eexists _, _. split; [done|]. split.
  2:{ split; [done|]. split; [done|]. split; [done|]. split; [by apply lookup_insert_eq|]. by exists hd. }
  exists (<[Z.to_nat (np - 1) := Some a]> (p_nodes p)), (<[Z.to_nat (np - 1) := a :: c]> ch).
  split_and!; try done.
  - split; simpl; rewrite ?lookup_insert_eq by done; eauto.
  - split; simpl; try done; [by apply insert_subseteq|].
    intros b Hb'. rewrite !lookup_insert_ne; [done|]. set_solver.
  - rewrite concat_insert_perm by done. set_solver.
  - destruct Hgr as [Hg1 Hg2]. split; [intros x; by etrans; [apply Hg1|rewrite Huse]|].
    intros x Hx. rewrite <- Huse. by apply Hg2.
Qed.

(** The three outcomes, where [fit] is the node that was found for the request. *)
Definition served (w : world) (pool : Z) (p : fpx_pool_t) (ch : list (list Z)) (np need : Z)
    (fit r : option Z) (w' : world) : Prop :=
  match fit, r with
  | Some b, Some r => grants w pool p ch need r w' ∧ from_node w b need r w'
  | None, Some r => grants w pool p ch need r w' ∧ ∃ b, from_block w pool p np b need r w'
  | None, None => w' = w ∧ sys_malloc (w_blocks w) (np * FPX_PAGE_SIZE) = None
  | Some _, None => False
  end.

(** A request small enough for a slot: the first node, slot by slot, that has
    the room, else a fresh node, else [NULL]. *)
Lemma palloc_slots_ok w pool p ch need :
  pool_ok w pool p ch → 16 ≤ need → need mod 8 = 0 →
  need + 48 < FPX_MAX_POOL_SLOT * FPX_PAGE_SIZE →
  let np := fpx_get_npages need in
  let fit := List.find (fits (w_memnodes w) need) (concat (drop (Z.to_nat (np - 1)) ch)) in
  ∃ r w', palloc_slots sys_malloc w pool need np (np - 1) = Ok (r, w') ∧
    served w pool p ch np need fit r w'.
Proof using Hmalloc.
  intros Hok Hn16 Hmod Hmax np fit.
  destruct (get_npages_spec need ltac:(unfold FPX_PAGE_SIZE, FPX_MAX_POOL_SLOT in *; lia)) as [Hnp Hrange].
  fold np in Hnp, Hrange.
  assert (1 ≤ np ≤ 20) as Hnp20 by (unfold FPX_PAGE_SIZE, FPX_MAX_POOL_SLOT in *; lia). clear Hnp.
  unfold served. destruct fit as [a|] eqn:Hfit; [|destruct (sys_malloc (w_blocks w) (np * FPX_PAGE_SIZE)) as [a|] eqn:Ha].
  - destruct (palloc_found_ok w pool p ch need np a) as (r & w' & -> & ? & ?); [done..|].
    exists (Some r), w'. done.
  - destruct (palloc_fresh_ok w pool p ch need np a) as (r & w' & -> & ? & ?);
      [done|done|done|done|unfold FPX_PAGE_SIZE in *; lia|done|done|].
    exists (Some r), w'. eauto.
  - rewrite (palloc_fresh_none w pool p ch) by done. by exists None, w.
Qed.

(** The largest request that fits a slot: 20 pages less the node's header. *)
Definition max_slot_request : Z := 81864.

Lemma slot_request size :
  0 ≤ size ≤ max_slot_request →
  let need := fpx_align_allocation size in
  16 ≤ need ∧ size ≤ need ∧ need mod 8 = 0 ∧ need + 48 < FPX_MAX_POOL_SLOT * FPX_PAGE_SIZE.
Proof using.
  intros H need. unfold max_slot_request in H.
  destruct (align_allocation_spec size ltac:(lia)) as (H1 & H2 & H3 & H4). fold need in H1, H2, H3, H4.
  split_and!; [done..|]. change (FPX_MAX_POOL_SLOT * FPX_PAGE_SIZE) with 81920.
  pose proof (Z.div_mod need 8 ltac:(lia)). lia.
Qed.

Lemma palloc_small fuel w pool size :
  0 ≤ size ≤ max_slot_request →
  let need := fpx_align_allocation size in
  palloc_fuel sys_malloc (S fuel) w pool size =
  palloc_slots sys_malloc w pool need (fpx_get_npages need) (fpx_get_npages need - 1).
Proof using.
  intros H need. destruct (slot_request size H) as (H1 & H2 & H3 & H4). fold need in H1, H2, H3, H4.
  change (FPX_MAX_POOL_SLOT * FPX_PAGE_SIZE) with 81920 in H4.
  destruct (get_npages_spec need ltac:(lia)) as [Hn Hr]. unfold FPX_PAGE_SIZE in Hr.
  cbn [palloc_fuel]. unfold palloc_body. fold need.
  rewrite (proj2 (Z.eqb_neq need 0)) by lia. rewrite u64_small by lia.
  rewrite (proj2 (Z.ltb_ge _ _)) by (unfold FPX_MAX_POOL_SLOT; lia). done.
Qed.

(** What [fpx_palloc] does with a request that fits a slot. *)
Definition palloc_outcome (w : world) (pool : Z) (p : fpx_pool_t) (ch : list (list Z))
    (size : Z) (r : option Z) (w' : world) : Prop :=
  let need := fpx_align_allocation size in
  let np := fpx_get_npages need in
  let fit := List.find (fits (w_memnodes w) need) (concat (drop (Z.to_nat (np - 1)) ch)) in
  served w pool p ch np need fit r w'.

(** What the outcomes have in common. *)
Lemma palloc_outcome_grants w pool p ch size r w' :
  palloc_outcome w pool p ch size r w' →
  match r with
  | Some a => grants w pool p ch (fpx_align_allocation size) a w'
  | None => w' = w ∧ sys_malloc (w_blocks w) (fpx_get_npages (fpx_align_allocation size) * FPX_PAGE_SIZE) = None
  end.
Proof using. unfold palloc_outcome, served. destruct (List.find _ _), r; tauto. Qed.

Lemma palloc_ok fuel w pool p ch size :
  pool_ok w pool p ch → 0 ≤ size ≤ max_slot_request →
  ∃ r w', palloc_fuel sys_malloc (S fuel) w pool size = Ok (r, w') ∧
          palloc_outcome w pool p ch size r w'.
Proof using Hmalloc.
  intros Hok Hs. rewrite palloc_small by done.
  destruct (slot_request size Hs) as (? & ? & ? & ?). by apply palloc_slots_ok.
Qed.

(** *** Sequences of requests *)
Fixpoint pallocs (w : world) (pool : Z) (sizes : list Z) : res (list (option Z) * world) :=
  match sizes with
  | [] => Ok ([], w)
  | s :: sizes =>
      '(r, w) ← fpx_palloc sys_malloc w pool s;
      '(rs, w) ← pallocs w pool sizes;
      Ok (r :: rs, w)
  end.

(** The address [x] belongs to the answer [r] to a request for [s] bytes. *)
Definition answered (r : option Z) (s x : Z) : Prop :=
  match r with Some a => a ≤ x < a + s | None => False end.

Lemma pallocs_ok sizes : ∀ w pool p ch,
  pool_ok w pool p ch → Forall (λ s, 0 ≤ s ≤ max_slot_request) sizes →
  ∃ rs w' sl' ch', pallocs w pool sizes = Ok (rs, w') ∧ length rs = length sizes ∧
    pool_ok w' pool (p_set_nodes sl' p) ch' ∧
    (∀ x, in_use (w_memnodes w) ch x → in_use (w_memnodes w') ch' x) ∧
    (∀ i r s x, rs !! i = Some r → sizes !! i = Some s → answered r s x →
       in_use (w_memnodes w') ch' x ∧ ¬ in_use (w_memnodes w) ch x) ∧
    (∀ i a, rs !! i = Some (Some a) → a mod 8 = 0) ∧
    (∀ i j r1 r2 s1 s2 x, (i < j)%nat → rs !! i = Some r1 → rs !! j = Some r2 →
       sizes !! i = Some s1 → sizes !! j = Some s2 →
       answered r1 s1 x → answered r2 s2 x → False).
Proof using Hmalloc.
  induction sizes as [|s sizes IH]; intros w pool p ch Hok Hs.
  - exists [], w, (p_nodes p), ch. replace (p_set_nodes (p_nodes p) p) with p by by destruct p.
    split_and!; try done; intros *; rewrite ?lookup_nil; done.
  - apply Forall_cons in Hs as [Hs Hss].
    destruct (palloc_ok 1 w pool p ch s Hok Hs) as (r & w1 & Hr & Hout).
    cbn [pallocs]. unfold fpx_palloc. rewrite Hr, bind_ok. cbn beta iota zeta.
    destruct (slot_request s Hs) as (_ & Hle & _ & _).
    assert (∃ sl1 ch1, pool_ok w1 pool (p_set_nodes sl1 p) ch1 ∧
      (∀ x, in_use (w_memnodes w) ch x → in_use (w_memnodes w1) ch1 x) ∧
      (∀ x, answered r s x → in_use (w_memnodes w1) ch1 x ∧ ¬ in_use (w_memnodes w) ch x) ∧
      (∀ a, r = Some a → a mod 8 = 0)) as (sl1 & ch1 & Hok1 & Hmono & Hnew & Hal).
    { apply palloc_outcome_grants in Hout. destruct r as [a|].
      - destruct Hout as (sl1 & ch1 & Hok1 & _ & _ & _ & Hal & [Hg1 Hg2] & _).
        exists sl1, ch1. split_and!; [done|..].
        + intros x Hx. apply Hg1. by left.
        + intros x Hx. simpl in Hx. split; [apply Hg1; right; lia|apply Hg2; lia].
        + intros a' [= <-]. done.
      - destruct Hout as [-> _]. exists (p_nodes p), ch.
        replace (p_set_nodes (p_nodes p) p) with p by by destruct p.
        split_and!; try done. }
    destruct (IH w1 pool _ ch1 Hok1 Hss) as (rs & w' & sl' & ch' & Hrs & Hlen & Hok' & Hm & Hin & Hals & Hdis).
    rewrite Hrs, bind_ok. cbn beta iota zeta. exists (r :: rs), w', sl', ch'.
    split_and!; [done|simpl; lia|done|auto|..].
    + intros [|i] r0 s0 x; simpl; intros Hr0 Hs0 Hx; simplify_eq.
      * destruct (Hnew x Hx). auto.
      * destruct (Hin i r0 s0 x Hr0 Hs0 Hx). auto.
    + intros [|i] a; simpl; intros; simplify_eq; eauto.
    + intros [|i] [|j] r1 r2 s1 s2 x Hij; simpl; intros; simplify_eq; try lia.
      * destruct (Hin j r2 s2 x); try done. destruct (Hnew x); done.
      * apply (Hdis i j r1 r2 s1 s2 x); auto with lia.
Qed.

(** *** Requests that do not fit *)
Lemma fits_small w pool p ch need a :
  pool_ok w pool p ch → 20 * FPX_PAGE_SIZE ≤ need → a ∈ concat ch → fits (w_memnodes w) need a = false.
Proof using.
  intros Hok Hn Ha. destruct Hok as [_ Hok _ _]. apply elem_of_concat in Ha as (i & c & Hc & Ha).
  destruct (ns_node _ _ _ _ Hok i c a Hc Ha) as (n & Hn' & []). unfold fits. rewrite Hn'.
  apply lookup_lt_Some in Hc. rewrite (ns_length _ _ _ _ Hok) in Hc.
  apply Z.leb_gt. unfold FPX_PAGE_SIZE, SIZEOF_MEMNODE in *. lia.
Qed.

Lemma find_none_big w pool p ch need i :
  pool_ok w pool p ch → 20 * FPX_PAGE_SIZE ≤ need →
  List.find (fits (w_memnodes w) need) (concat (drop i ch)) = None.
Proof using.
  intros Hok Hn. destruct (List.find _ _) as [a|] eqn:H; [|done].
  apply List.find_some in H as [Hin Hfit]. apply list_elem_of_In in Hin.
  rewrite (fits_small w pool p ch) in Hfit; [done..|].
  apply elem_of_concat in Hin as (j & c & Hc & Ha). rewrite lookup_drop in Hc.
  apply elem_of_concat. eauto.
Qed.
End PoolProofs.

(** ** Clean-ups *)

(** The lists [cl] of registered and [fr] of reserved clean-up nodes. *)
Record cleanups_ok (m : gmap Z fpx_cleanup_node_t) (p : fpx_pool_t) (cl fr : list Z) : Prop := {
  co_list : chain cn_next m (p_cleanups p) cl;
  co_free : chain cn_next m (p_free_cleanups p) fr;
  co_nodup : NoDup (cl ++ fr)
}.

(** The registered handlers with their arguments, latest first. *)
Fixpoint entries (m : gmap Z fpx_cleanup_node_t) (l : list Z) : list (fpx_cleanup_handler_t * Z) :=
  match l with
  | [] => []
  | a :: l => match m !! a with
              | Some n => (cn_handler n, cn_data n) :: entries m l
              | None => entries m l
              end
  end.

Lemma entries_frame m m' l : (∀ a, a ∈ l → m' !! a = m !! a) → entries m' l = entries m l.
Proof.
  intros H. induction l as [|a l IH]; [done|]. simpl.
  rewrite H by set_solver. rewrite IH by set_solver. done.
Qed.

(** Relinking a node does not change what is registered. *)
Lemma entries_relink m l a n v :
  m !! a = Some n → entries (<[a := cn_set_next v n]> m) l = entries m l.
Proof.
  intros Ha. induction l as [|b l IH]; [done|]. simpl.
  rewrite IH. destruct (decide (b = a)) as [->|]; simplify_map_eq; done.
Qed.

Lemma entries_app m l1 l2 : entries m (l1 ++ l2) = entries m l1 ++ entries m l2.
Proof.
  induction l1 as [|a l1 IH]; [done|]. simpl. rewrite IH. by destruct (m !! a).
Qed.

(** A loop over a chain that stops at the first node a test accepts. *)
Definition matches (m : gmap Z fpx_cleanup_node_t) (data : Z) (h : fpx_cleanup_handler_t) (a : Z) : Prop :=
  ∃ n, m !! a = Some n ∧ cn_data n = data ∧ cn_handler n = h.

Lemma find_cleanup_ok w data h : ∀ fuel p prev l,
  chain cn_next (w_cleanups w) p l → (length l ≤ fuel)%nat →
  (∃ l1 a l2, l = l1 ++ a :: l2 ∧ matches (w_cleanups w) data h a ∧
     Forall (λ b, ¬ matches (w_cleanups w) data h b) l1 ∧
     find_cleanup fuel w p prev data h = Ok (Some a, final l1 prev)) ∨
  (Forall (λ b, ¬ matches (w_cleanups w) data h b) l ∧
   ∃ pr, find_cleanup fuel w p prev data h = Ok (None, pr)).
Proof.
  induction fuel as [|fuel IH]; intros p prev [|a l]; simpl;
    try (intros -> ?; right; split; [constructor|by eexists]); intros (-> & n & Ha & Hl) Hf; [lia|].
  rewrite (load_cleanup_ok _ _ _ Ha), bind_ok. case_decide as Hd.
  - left. exists [], a, l. split_and!; [done|by exists n|constructor|done].
  - assert (¬ matches (w_cleanups w) data h a) as Hna.
    { intros (n' & Hn' & Hm). apply Hd. congruence. }
    destruct (IH (cn_next n) (Some a) l Hl ltac:(lia)) as [(l1 & b & l2 & -> & Hb & Hl1 & ->)|(Hall & pr & ->)].
    + left. exists (a :: l1), b, l2. rewrite final_cons. split_and!; auto.
    + right. split; [auto|by eexists].
Qed.

(** Unlinking the node behind [l1]. *)
Lemma chain_unlink m p l1 a l2 na :
  NoDup (l1 ++ a :: l2) → chain cn_next m p (l1 ++ a :: l2) → m !! a = Some na →
  match last l1 with
  | None => p = Some a ∧ l1 = [] ∧ chain cn_next m (cn_next na) l2
  | Some b => p ≠ Some a ∧ b ∈ l1 ∧ ∃ nb, m !! b = Some nb ∧
                chain cn_next (<[b := cn_set_next (cn_next na) nb]> m) p (l1 ++ l2)
  end.
Proof.
  intros Hnd Hch Ha. revert p Hnd Hch. induction l1 as [|b l1 IH]; intros p Hnd Hch; simpl in Hch.
  - destruct Hch as (-> & n & Hn & Hl). simpl. split_and!; [done..|]. by replace na with n by congruence.
  - destruct Hch as (-> & nb & Hb & Hl). rewrite last_cons.
    simpl in Hnd. apply NoDup_cons in Hnd as [Hnb Hnd]. specialize (IH _ Hnd Hl).
    assert (b ≠ a) by set_solver. destruct (last l1) as [b'|] eqn:Hlast.
    + destruct IH as (_ & Hin & nb' & Hb' & Hch). split_and!; [congruence|set_solver|].
      exists nb'. split; [done|]. simpl. split; [done|]. exists nb.
      rewrite lookup_insert_ne by set_solver. done.
    + destruct IH as (Hp & -> & Hch). split_and!; [congruence|set_solver|]. exists nb.
      split; [done|]. simpl. split; [done|]. eexists. rewrite lookup_insert_eq. split; [done|].
      simpl. apply chain_insert_ne; [|done]. simpl in Hnb. set_solver.
Qed.

(** Everything but the clean-up lists of one pool is as before. *)
Record only_cleanups (w w' : world) (pool : Z) (p' : fpx_pool_t) (l : list Z) : Prop := {
  oc_blocks : w_blocks w' = w_blocks w;
  oc_memnodes : w_memnodes w' = w_memnodes w;
  oc_cleanups : ∀ c, c ∉ l → w_cleanups w' !! c = w_cleanups w !! c;
  oc_pools : w_pools w' = <[pool := p']> (w_pools w);
  oc_tid : w_tid w' = w_tid w;
  oc_trace : w_trace w' = w_trace w
}.

Lemma chain_head_cons {N} (next : N → option Z) m p a l : chain next m p (a :: l) → p = Some a.
Proof. by intros [-> _]. Qed.

Lemma reserve_cleanup_spec w pool p l1 a l2 fr d :
  w_pools w !! pool = Some p → cleanups_ok (w_cleanups w) p (l1 ++ a :: l2) fr →
  w_mutexes w !! p_mutex p = Some d →
  ∃ w' hd, reserve_cleanup w pool a (final l1 None) = Ok w' ∧
    let p' := p_set_free (Some a) (p_set_cleanups hd p) in
    only_cleanups w w' pool p' (l1 ++ a :: l2 ++ fr) ∧
    cleanups_ok (w_cleanups w') p' (l1 ++ l2) (a :: fr) ∧
    entries (w_cleanups w') (l1 ++ l2) = entries (w_cleanups w) (l1 ++ l2) ∧
    w_mutexes w' = <[p_mutex p := pred d]> (w_mutexes w).
Proof.
  intros Hp [Hcl Hfr Hnd] Hd. rewrite <- app_assoc in Hnd. simpl in Hnd.
  assert (NoDup (l1 ++ a :: l2)) as Hnd1.
  { rewrite app_comm_cons, app_assoc in Hnd. by apply NoDup_app in Hnd as (? & _ & _). }
  assert (NoDup ((l1 ++ l2) ++ a :: fr)) as Hnd2.
  { eapply NoDup_Permutation_proper; [|exact Hnd]. rewrite <- app_assoc. f_equiv.
    by rewrite <- Permutation_middle. }
  assert ((a ∉ (l1 ++ l2)) ∧ (a ∉ fr)) as [Hal Haf].
  { apply NoDup_app in Hnd2 as (_ & H1 & H2). apply NoDup_cons in H2 as [? _]. split; [|done].
    intros Hin. apply (H1 a Hin). set_solver. }
  destruct (chain_lookup _ _ _ _ a Hcl ltac:(set_solver)) as [na Hna].
  pose proof (chain_unlink _ _ _ _ _ _ Hnd1 Hcl Hna) as Hun.
  unfold reserve_cleanup. world_run. unfold final. destruct (last l1) as [b|] eqn:Hlast.
  - destruct Hun as (Hpa & Hb & nb & Hnb & Hch). rewrite decide_False by done.
    simpl of_option. rewrite bind_ok. assert (b ≠ a) as Hba by (intros ->; set_solver).
    world_run.
    eexists _, (p_cleanups p). split; [done|]. cbv zeta. split; [|split; [|split]].
    + split; simpl; try done.
      * intros c Hc. rewrite !lookup_insert_ne; set_solver.
    + split; simpl; [|split; [done|]|done].
      * apply chain_insert_ne; [done|]. done.
      * eexists. rewrite lookup_insert_eq. split; [done|]. simpl. apply chain_insert_ne; [done|].
        apply chain_insert_ne; [|done]. intros Hbf.
        apply NoDup_app in Hnd2 as (_ & H1 & _). apply (H1 b); set_solver.
    + simpl. erewrite entries_relink by (by rewrite lookup_insert_ne). by rewrite entries_relink.
    + done.
  - destruct Hun as (Hpa & -> & Hch). rewrite decide_True by done. world_run.
    eexists _, (cn_next na). split; [done|]. cbv zeta. split; [|split; [|split]].
    + split; simpl; try done.
      * intros c Hc. rewrite !lookup_insert_ne; set_solver.
      * by rewrite insert_insert_eq.
    + split; simpl; [|split; [done|]|done].
      * apply chain_insert_ne; done.
      * eexists. rewrite lookup_insert_eq. split; [done|]. simpl. by apply chain_insert_ne.
    + simpl. by rewrite entries_relink.
    + done.
Qed.

(** *** Calling handlers *)

(** A block the pool hands to [fpx_free]: live, and none of the structures of
    the world lies in it. *)
Definition plain_block (w : world) (data : Z) : Prop :=
  ∃ s, 0 < s ∧ w_blocks w !! data = Some s ∧
    ∀ k, data ≤ k < data + s → w_memnodes w !! k = None ∧ w_cleanups w !! k = None ∧
                               w_pools w !! k = None ∧ w_mutexes w !! k = None.

(** What a list of calls, in order, does to the live blocks. *)
Fixpoint freed (es : list (fpx_cleanup_handler_t * Z)) (bl : gmap Z Z) : gmap Z Z :=
  match es with
  | [] => bl
  | (H_free, d) :: es => freed es (delete d bl)
  | (H_user _, _) :: es => freed es bl
  end.

(** All calls of [fpx_free] are of distinct plain blocks. *)
Definition callable (w : world) (es : list (fpx_cleanup_handler_t * Z)) : Prop :=
  (∀ d, (H_free, d) ∈ es → plain_block w d) ∧
  NoDup (omap (λ e, match e.1 with H_free => Some e.2 | H_user _ => None end) es).

Lemma outside_id {A} a s (m : gmap Z A) : (∀ k, a ≤ k < a + s → m !! k = None) → outside a s m = m.
Proof.
  intros H. apply map_filter_id. intros k x Hk Hin. simpl in Hin. by rewrite (H k Hin) in Hk.
Qed.

Lemma fpx_free_plain w d :
  plain_block w d →
  fpx_free w d = Ok (World (delete d (w_blocks w)) (w_memnodes w) (w_cleanups w) (w_pools w)
                       (w_mutexes w) (w_tid w) (w_counter w) (w_trace w)).
Proof.
  intros (s & _ & Hd & Hk). unfold fpx_free. rewrite Hd. simpl.
  rewrite !outside_id; [done|intros k Hr; by destruct (Hk k Hr) as (? & ? & ? & ?)..].
Qed.

Lemma call_handler_ok w h d :
  (h = H_free → plain_block w d) →
  call_handler w h d = Ok (World (freed [(h, d)] (w_blocks w)) (w_memnodes w) (w_cleanups w)
    (w_pools w) (w_mutexes w) (w_tid w) (w_counter w) (w_trace w ++ [(h, d)])).
Proof.
  intros H. unfold call_handler. destruct h; [|done].
  rewrite fpx_free_plain; [done|]. destruct (H eq_refl) as (s & ? & ? & ?). exists s. auto.
Qed.

(** Plain blocks stay plain as long as no structure is added. *)
Lemma plain_block_mono w w' d :
  w_blocks w' !! d = w_blocks w !! d →
  (∀ k, w_memnodes w !! k = None → w_memnodes w' !! k = None) →
  (∀ k, w_cleanups w !! k = None → w_cleanups w' !! k = None) →
  (∀ k, w_pools w !! k = None → w_pools w' !! k = None) →
  (∀ k, w_mutexes w !! k = None → w_mutexes w' !! k = None) →
  plain_block w d → plain_block w' d.
Proof.
  intros Hb H1 H2 H3 H4 (s & Hs & Hd & Hk). exists s. split; [done|]. split; [by rewrite Hb|].
  intros k Hr. destruct (Hk k Hr) as (? & ? & ? & ?). auto.
Qed.

Lemma insert_none {A} (m : gmap Z A) a x y k :
  m !! a = Some y → m !! k = None → <[a := x]> m !! k = None.
Proof. intros Ha Hk. rewrite lookup_insert_ne; [done|congruence]. Qed.

Lemma run_all_loop_ok pool l : ∀ w p fr fuel,
  w_pools w !! pool = Some p → ∀ hd, chain cn_next (w_cleanups w) hd l →
  chain cn_next (w_cleanups w) (p_free_cleanups p) fr → NoDup (l ++ fr) →
  callable w (entries (w_cleanups w) l) → (length l ≤ fuel)%nat →
  ∃ m' v, run_all_loop fuel w pool hd = Ok (World (freed (entries (w_cleanups w) l) (w_blocks w))
      (w_memnodes w) m' (<[pool := p_set_free v p]> (w_pools w)) (w_mutexes w) (w_tid w)
      (w_counter w) (w_trace w ++ entries (w_cleanups w) l)) ∧
    chain cn_next m' v (rev l ++ fr) ∧
    (∀ c, c ∉ l → m' !! c = w_cleanups w !! c) ∧ dom m' = dom (w_cleanups w).
Proof.
  induction l as [|a l IH]; intros w p fr fuel Hp hd Hl Hfr Hnd Hcall Hf.
  - simpl in Hl. subst hd. exists (w_cleanups w), (p_free_cleanups p).
    assert (p_set_free (p_free_cleanups p) p = p) as -> by by destruct p.
    destruct fuel; simpl; rewrite insert_id, app_nil_r by done; by destruct w.
  - destruct Hl as (-> & n & Ha & Hl). destruct fuel as [|fuel]; [simpl in Hf; lia|].
    simpl in Hnd. apply NoDup_cons in Hnd as [Hna Hnd].
    cbn [entries run_all_loop] in *. rewrite Ha in *.
    destruct Hcall as [Hfree Hfnd].
    rewrite (load_cleanup_ok _ _ _ Ha), bind_ok.
    rewrite call_handler_ok, bind_ok by (intros Hh; apply Hfree; rewrite Hh; set_solver).
    world_run.
    set (w1 := set_pools _ _).
    assert (w_pools w1 !! pool = Some (p_set_free (Some a) p)) as Hp1 by (simpl; by rewrite lookup_insert_eq).
    assert (entries (w_cleanups w1) l = entries (w_cleanups w) l) as He by (simpl; by rewrite entries_relink).
    destruct (IH w1 _ (a :: fr) fuel Hp1 (cn_next n)) as (m' & v & Hrun & Hch & Hout & Hdom).
    + simpl. apply chain_insert_ne; [|done]. set_solver.
    + simpl. split; [done|]. eexists. rewrite lookup_insert_eq. split; [done|]. simpl.
      apply chain_insert_ne; [set_solver|done].
    + apply NoDup_app in Hnd as (? & Hd & ?). apply NoDup_app. split; [done|]. split; [|apply NoDup_cons; set_solver].
      intros x Hx [->|Hx']%elem_of_cons; [set_solver|]. by apply (Hd x).
    + rewrite He. split.
      * intros d Hd. eapply plain_block_mono; [| | | | |apply Hfree; set_solver]; simpl; try done.
        -- destruct (cn_handler n) as [|id]; [|done]. simpl. simpl in Hfnd.
           rewrite lookup_delete_ne; [done|]. intros Heq. apply NoDup_cons in Hfnd as [Hx _].
           apply Hx, list_elem_of_omap. exists (H_free, d). by rewrite Heq.
        -- intros k Hk. by eapply insert_none.
        -- intros k Hk. by eapply insert_none.
      * simpl in Hfnd. destruct (cn_handler n); [by apply NoDup_cons in Hfnd as [_ ?]|done].
    + simpl in Hf. lia.
    + exists m', v. rewrite Hrun. simpl. rewrite entries_relink by done. split; [|split_and!].
      * do 2 f_equal; [by destruct (cn_handler n)|by rewrite insert_insert_eq|by rewrite <- app_assoc].
      * by rewrite <- app_assoc.
      * intros c Hc. rewrite Hout by set_solver. simpl. rewrite lookup_insert_ne; set_solver.
      * rewrite Hdom. simpl. apply dom_insert_lookup_L. by eexists.
Qed.

(** Running all clean-ups: every registered handler once, the latest first; the
    nodes are kept for later. *)
Lemma run_all_ok w pool p cl fr :
  w_pools w !! pool = Some p → cleanups_ok (w_cleanups w) p cl fr →
  callable w (entries (w_cleanups w) cl) →
  ∃ m' v, let p' := p_set_cleanups None (p_set_free v p) in
    fpx_pool_cleanup_run_all w pool = Ok (World (freed (entries (w_cleanups w) cl) (w_blocks w))
      (w_memnodes w) m' (<[pool := p']> (w_pools w)) (w_mutexes w) (w_tid w)
      (w_counter w) (w_trace w ++ entries (w_cleanups w) cl)) ∧
    cleanups_ok m' p' [] (rev cl ++ fr) ∧ dom m' = dom (w_cleanups w).
Proof.
  intros Hp [Hcl Hfr Hnd] Hcall.
  assert (length cl ≤ size (w_cleanups w))%nat as Hlen.
  { eapply chain_length; [|done]. by apply NoDup_app in Hnd as (? & _ & _). }
  destruct (run_all_loop_ok pool cl w p fr (cleanup_fuel w) Hp _ Hcl Hfr Hnd Hcall Hlen)
    as (m' & v & Hrun & Hch & _ & Hdom).
  exists m', v. cbv zeta. split; [|split; [split|done]].
  - unfold fpx_pool_cleanup_run_all. rewrite (load_pool_ok _ _ _ Hp), bind_ok, Hrun, bind_ok.
    world_run. unfold set_pools. simpl. by rewrite insert_insert_eq.
  - done.
  - exact Hch.
  - simpl. rewrite <- (Permutation_rev cl). done.
Qed.

(** *** Resetting the nodes *)
Definition mn_reset (n : fpx_memnode_t) : fpx_memnode_t := mn_set_avail (mn_begin n) (mn_size n) n.

Definition resets (m m' : gmap Z fpx_memnode_t) (l : list Z) : Prop :=
  (∀ a, a ∈ l → m' !! a = mn_reset <$> m !! a) ∧ (∀ a, a ∉ l → m' !! a = m !! a).

Lemma reset_chain_ok l : ∀ w hd fuel,
  chain mn_next (w_memnodes w) hd l → NoDup l → (length l ≤ fuel)%nat →
  ∃ m', reset_chain fuel w hd = Ok (set_memnodes w m') ∧ resets (w_memnodes w) m' l.
Proof.
  induction l as [|a l IH]; intros w hd fuel Hch Hnd Hf.
  - simpl in Hch. subst hd. exists (w_memnodes w).
    assert (set_memnodes w (w_memnodes w) = w) as -> by by destruct w.
    destruct fuel; (split; [done|]); split; set_solver.
  - destruct Hch as (-> & n & Ha & Hl). apply NoDup_cons in Hnd as [Hna Hnd].
    destruct fuel as [|fuel]; [simpl in Hf; lia|]. cbn [reset_chain]. world_run.
    set (w1 := set_memnodes _ _).
    destruct (IH w1 (mn_next n) fuel) as (m' & Hrun & Hin & Hout).
    + simpl. by apply chain_insert_ne.
    + done.
    + simpl in Hf. lia.
    + exists m'. rewrite Hrun. split; [done|]. split.
      * intros b [->|Hb]%elem_of_cons.
        -- rewrite Hout by done. simpl. rewrite lookup_insert_eq, Ha. done.
        -- rewrite Hin by done. simpl. rewrite lookup_insert_ne; [done|set_solver].
      * intros b Hb. rewrite Hout by set_solver. simpl. rewrite lookup_insert_ne; [done|set_solver].
Qed.

Lemma resets_app m1 m2 m3 l1 l2 :
  NoDup (l1 ++ l2) → resets m1 m2 l1 → resets m2 m3 l2 → resets m1 m3 (l1 ++ l2).
Proof.
  intros (_ & Hd & _)%NoDup_app [H1 H2] [H3 H4]. split.
  - intros a Ha. apply elem_of_app in Ha as [Ha|Ha].
    + rewrite H4 by auto. auto.
    + rewrite H3 by done. rewrite H2; [done|]. intros Ha'. by apply (Hd a).
  - intros a Ha. rewrite H4, H2; set_solver.
Qed.

Lemma chain_resets m m' hd l s : resets m m' s → chain mn_next m hd l → chain mn_next m' hd l.
Proof.
  intros [H1 H2]. revert hd. induction l as [|a l IH]; intros hd; simpl; [done|].
  intros (-> & n & Ha & Hl). split; [done|]. destruct (decide (a ∈ s)) as [Hs|Hs].
  - exists (mn_reset n). rewrite H1, Ha by done. auto.
  - exists n. rewrite H2 by done. auto.
Qed.

(** A node keeps its place when it is reset. *)
Lemma node_ok_reset bl i a n : node_ok bl i a n → node_ok bl i a (mn_reset n).
Proof. intros []. split; simpl; try done; unfold SIZEOF_MEMNODE in *; try lia; tauto. Qed.

Lemma nodes_ok_resets bl m m' sl ch s : resets m m' s → nodes_ok bl m sl ch → nodes_ok bl m' sl ch.
Proof.
  intros Hr [H1 H2 H3 H4]. split; [done| |done|].
  - eapply Forall2_impl; [exact H2|]. intros hd c. by apply chain_resets with s.
  - intros i c a Hc Ha. destruct (H4 i c a Hc Ha) as (n & Hn & Hok). destruct Hr as [R1 R2].
    destruct (decide (a ∈ s)).
    + exists (mn_reset n). rewrite R1, Hn by done. split; [done|by apply node_ok_reset].
    + exists n. by rewrite R2.
Qed.

Lemma reset_slots_ok pool p ch k : ∀ w i,
  w_pools w !! pool = Some p → nodes_ok (w_blocks w) (w_memnodes w) (p_nodes p) ch → (i + k)%nat = 20%nat →
  ∃ m', reset_slots k w pool i = Ok (set_memnodes w m') ∧
        resets (w_memnodes w) m' (concat (drop i ch)).
Proof.
  induction k as [|k IH]; intros w i Hp Hok Hi.
  - exists (w_memnodes w). assert (set_memnodes w (w_memnodes w) = w) as -> by by destruct w.
    split; [done|]. rewrite drop_ge by (rewrite (ns_length _ _ _ _ Hok); lia). split; set_solver.
  - assert (i < length ch)%nat as Hlt by (rewrite (ns_length _ _ _ _ Hok); lia).
    apply lookup_lt_is_Some_2 in Hlt as [c Hc].
    destruct (nodes_ok_chain _ _ _ _ _ _ Hok Hc) as (hd & Hhd & Hch & Hlen).
    assert (NoDup (c ++ concat (drop (S i) ch))) as Hnd.
    { pose proof (ns_nodup _ _ _ _ Hok) as Hn. rewrite <- (take_drop i ch), concat_app in Hn.
      apply NoDup_app in Hn as (_ & _ & Hn). by rewrite (drop_S ch c i Hc) in Hn. }
    pose proof Hnd as (Hndc & _ & _)%NoDup_app.
    cbn [reset_slots]. rewrite (load_pool_ok _ _ _ Hp), bind_ok, Hhd. simpl of_option. rewrite bind_ok.
    destruct (reset_chain_ok c w hd (memnode_fuel w) Hch Hndc Hlen) as (m1 & Hr1 & Hres1).
    rewrite Hr1, bind_ok.
    destruct (IH (set_memnodes w m1) (S i)) as (m2 & Hr2 & Hres2); [done| |lia|].
    { simpl. by eapply nodes_ok_resets. }
    exists m2. rewrite Hr2. split; [done|]. rewrite (drop_S ch c i Hc). simpl. by eapply resets_app.
Qed.

(** Nodes survive the release of other blocks. *)
Lemma freed_lookup es bl a : (∀ d, (H_free, d) ∈ es → d ≠ a) → freed es bl !! a = bl !! a.
Proof.
  revert bl. induction es as [|[[|id] d] es IH]; intros bl H; simpl; [done| |].
  - rewrite IH by set_solver. rewrite lookup_delete_ne; [done|]. apply H. set_solver.
  - apply IH. set_solver.
Qed.

Lemma freed_subseteq es bl : freed es bl ⊆ bl.
Proof.
  revert bl. induction es as [|[[|id] d] es IH]; intros bl; simpl; [done| |done].
  etransitivity; [apply IH|]. apply delete_subseteq.
Qed.

Lemma blocks_ok_subseteq bl bl' : bl' ⊆ bl → blocks_ok bl → blocks_ok bl'.
Proof. intros Hs Hb a b s t Hne Ha Hb'. apply (Hb a b); [done|by eapply lookup_weaken..]. Qed.

Lemma nodes_ok_freed w sl ch es :
  callable w es → nodes_ok (w_blocks w) (w_memnodes w) sl ch →
  nodes_ok (freed es (w_blocks w)) (w_memnodes w) sl ch.
Proof.
  intros [Hf _] [H1 H2 H3 H4]. split; [done..|].
  intros i c a Hc Ha. destruct (H4 i c a Hc Ha) as (n & Hn & []). exists n. split; [done|].
  split; try done. rewrite freed_lookup; [done|]. intros d Hd ->.
  destruct (Hf a Hd) as (s & Hs & _ & Hk). destruct (Hk a ltac:(lia)) as [Hx _]. congruence.
Qed.

(** Clearing a pool without children. *)
Lemma clear_leaf fuel w pool p ch cl fr :
  pool_ok w pool p ch → cleanups_ok (w_cleanups w) p cl fr →
  callable w (entries (w_cleanups w) cl) → p_owner p = w_tid w → p_child p = None →
  ∃ w' v, let p' := p_set_cleanups None (p_set_free v p) in
    clear_fuel (S fuel) w pool = Ok w' ∧ pool_ok w' pool p' ch ∧
    cleanups_ok (w_cleanups w') p' [] (rev cl ++ fr) ∧
    resets (w_memnodes w) (w_memnodes w') (concat ch) ∧
    w_blocks w' = freed (entries (w_cleanups w) cl) (w_blocks w) ∧
    w_trace w' = w_trace w ++ entries (w_cleanups w) cl ∧
    w_mutexes w' = w_mutexes w ∧ w_pools w' = <[pool := p']> (w_pools w).
Proof.
  intros [Hp Hok Hb [d Hd]] Hcl Hcall Hown Hchild.
  cbn [clear_fuel]. rewrite (load_pool_ok _ _ _ Hp), bind_ok, Hown, Z.eqb_refl. simpl negb. cbn iota.
  rewrite (lock_pool_ok _ _ _ _ Hp Hd), bind_ok. set (w1 := set_mutexes _ _).
  assert (callable w1 (entries (w_cleanups w) cl)) as Hcall1.
  { destruct Hcall as [H1 H2]. split; [|done]. intros x Hx.
    eapply plain_block_mono; [| | | | |by apply H1]; simpl; try done.
    intros k Hk. by eapply insert_none. }
  destruct (run_all_ok w1 pool p cl fr Hp Hcl Hcall1) as (m1 & v & Hrun & Hcl1 & _).
  rewrite Hrun, bind_ok. set (p' := p_set_cleanups None (p_set_free v p)) in *. set (w2 := World _ _ _ _ _ _ _ _).
  assert (w_pools w2 !! pool = Some p') as Hp2 by (simpl; by rewrite lookup_insert_eq).
  rewrite (load_pool_ok _ _ _ Hp2), bind_ok. simpl p_child. rewrite Hchild.
  assert (∀ op f, each_brother op f w2 None = Ok w2) as -> by by intros ? [].
  rewrite bind_ok.
  assert (nodes_ok (freed (entries (w_cleanups w) cl) (w_blocks w)) (w_memnodes w) (p_nodes p) ch) as Hok2
    by (by apply nodes_ok_freed).
  destruct (reset_slots_ok pool p' ch 20 w2 0 Hp2 Hok2 eq_refl) as (m2 & -> & Hres).
  rewrite drop_0 in Hres. rewrite bind_ok.
  erewrite (unlock_pool_ok _ pool p'); [|done|simpl; by rewrite lookup_insert_eq].
  eexists _, v. split; [done|]. fold p'. simpl. rewrite relock by done.
  split; [|split; [done|split; [done|done]]].
  split; simpl; [by rewrite lookup_insert_eq|by eapply nodes_ok_resets| |by eexists].
  eapply blocks_ok_subseteq; [apply freed_subseteq|done].
Qed.

(** ** Sizes *)
Definition sum_over (m : gmap Z fpx_memnode_t) (f : fpx_memnode_t → Z) (l : list Z) : Z :=
  foldr (λ a s, match m !! a with Some n => f n | None => 0 end + s) 0 l.

Lemma sum_over_app m f l1 l2 : sum_over m f (l1 ++ l2) = sum_over m f l1 + sum_over m f l2.
Proof. unfold sum_over. induction l1 as [|a l1 IH]; simpl; [done|]. rewrite IH. lia. Qed.

Lemma sum_chain_ok w f l : ∀ hd fuel s,
  chain mn_next (w_memnodes w) hd l → (length l ≤ fuel)%nat →
  sum_chain fuel w f hd (u64 s) = Ok (u64 (s + sum_over (w_memnodes w) f l)).
Proof.
  induction l as [|a l IH]; intros hd fuel s Hch Hf.
  - simpl in Hch. subst hd. simpl. rewrite Z.add_0_r. by destruct fuel.
  - destruct Hch as (-> & n & Ha & Hl). destruct fuel as [|fuel]; [simpl in Hf; lia|].
    cbn [sum_chain]. rewrite (load_memnode_ok _ _ _ Ha), bind_ok, u64_add_l.
    rewrite IH; [|done|simpl in Hf; lia]. simpl. rewrite Ha. do 2 f_equal. lia.
Qed.

Lemma sum_slots_ok w pool p ch (f : Z → fpx_memnode_t → Z) (g : fpx_memnode_t → Z) k : ∀ i s,
  w_pools w !! pool = Some p → nodes_ok (w_blocks w) (w_memnodes w) (p_nodes p) ch →
  (∀ i c a n, ch !! i = Some c → a ∈ c → w_memnodes w !! a = Some n → f (Z.of_nat i) n = g n) →
  (i + k)%nat = 20%nat →
  sum_slots k w pool f i (u64 s) = Ok (u64 (s + sum_over (w_memnodes w) g (concat (drop i ch)))).
Proof.
  induction k as [|k IH]; intros i s Hp Hok Hfg Hi.
  - rewrite drop_ge by (rewrite (ns_length _ _ _ _ Hok); lia). simpl. by rewrite Z.add_0_r.
  - assert (i < length ch)%nat as Hlt by (rewrite (ns_length _ _ _ _ Hok); lia).
    apply lookup_lt_is_Some_2 in Hlt as [c Hc].
    destruct (nodes_ok_chain _ _ _ _ _ _ Hok Hc) as (hd & Hhd & Hch & Hlen).
    cbn [sum_slots]. rewrite (load_pool_ok _ _ _ Hp), bind_ok, Hhd. simpl of_option. rewrite bind_ok.
    rewrite (sum_chain_ok w _ c) by done. rewrite bind_ok, IH by (done || lia).
    rewrite (drop_S ch c i Hc). simpl. rewrite sum_over_app. do 2 f_equal. rewrite <- Z.add_assoc. f_equal. f_equal.
    assert (∀ a n, a ∈ c → w_memnodes w !! a = Some n → f (Z.of_nat i) n = g n) as Hc' by eauto.
    clear -Hc'. induction c as [|a c IH]; simpl; [done|]. rewrite IH by set_solver.
    destruct (w_memnodes w !! a) as [n|] eqn:Ha; [|done]. rewrite (Hc' a n); set_solver.
Qed.

(** ** Destroying *)

(** The chain [c] of a slot is released. *)
Lemma free_chain_ok l : ∀ w hd fuel,
  chain mn_next (w_memnodes w) hd l → NoDup l → (length l ≤ fuel)%nat → blocks_ok (w_blocks w) →
  (∀ a, a ∈ l → ∃ s, w_blocks w !! a = Some s ∧ 0 < s) →
  ∃ w', free_chain fuel w hd = Ok w' ∧ w_blocks w' ⊆ w_blocks w ∧
    (∀ b, b ∉ l → w_blocks w' !! b = w_blocks w !! b) ∧
    (∀ b s, w_blocks w !! b = Some s → 0 < s → b ∉ l → w_memnodes w' !! b = w_memnodes w !! b) ∧
    (∀ k, w_pools w' !! k = w_pools w !! k ∨ w_pools w' !! k = None) ∧
    (∀ a s k, a ∈ l → w_blocks w !! a = Some s → a ≤ k < a + s → w_pools w' !! k = None).
Proof.
  induction l as [|a l IH]; intros w hd fuel Hch Hnd Hf Hb Hbl.
  - simpl in Hch. subst hd. exists w. split; [by destruct fuel|]. split_and!; set_solver.
  - destruct Hch as (-> & n & Ha & Hl). apply NoDup_cons in Hnd as [Hna Hnd].
    destruct fuel as [|fuel]; [simpl in Hf; lia|]. cbn [free_chain].
    destruct (Hbl a ltac:(set_solver)) as (sz & Hsz & Hpos).
    rewrite (load_memnode_ok _ _ _ Ha), bind_ok. unfold fpx_memnode_deallocate, fpx_free.
    rewrite Hsz. simpl of_option. rewrite !bind_ok. set (w1 := World _ _ _ _ _ _ _ _).
    assert (∀ b s, b ≠ a → w_blocks w !! b = Some s → 0 < s → ¬ (a ≤ b < a + sz)) as Hapart.
    { intros b s Hne Hbs Hs. destruct (Hb a b sz s) as [|]; auto; lia. }
    assert (∀ b s, b ≠ a → w_blocks w !! b = Some s → 0 < s →
              w_memnodes w1 !! b = w_memnodes w !! b) as Hkeep.
    { intros b s Hne Hbs Hs. simpl. unfold outside.
      destruct (w_memnodes w !! b) as [nb|] eqn:Hnb.
      - apply map_lookup_filter_Some. split; [done|]. simpl. eauto.
      - apply map_lookup_filter_None. by left. }
    destruct (IH w1 (mn_next n) fuel) as (w' & Hrun & Hsub & Hblk & Hmem & Hpool & Hgone).
    + eapply chain_frame; [|exact Hl]. intros b Hbl'. destruct (Hbl b ltac:(set_solver)) as (s & Hs & Hs0).
      eapply Hkeep; [set_solver|done|done].
    + done.
    + simpl in Hf. lia.
    + eapply blocks_ok_subseteq; [apply delete_subseteq|done].
    + intros b Hbl'. destruct (Hbl b ltac:(set_solver)) as (s & Hs & Hs0). exists s. split; [|done].
      simpl. rewrite lookup_delete_ne; [done|set_solver].
    + exists w'. split; [done|]. simpl in Hblk. split_and!.
      * etransitivity; [exact Hsub|]. apply delete_subseteq.
      * intros b Hbn. rewrite Hblk by set_solver. rewrite lookup_delete_ne; [done|set_solver].
      * intros b s Hs Hs0 Hbn. apply not_elem_of_cons in Hbn as [Hba Hbn].
        rewrite (Hmem b s) by (simpl; rewrite ?lookup_delete_ne by done; done).
        simpl. unfold outside. destruct (w_memnodes w !! b) as [nb|] eqn:Hnb.
        -- apply map_lookup_filter_Some. split; [done|]. simpl. intros Hin.
           destruct (Hb a b sz s) as [|]; auto; lia.
        -- apply map_lookup_filter_None. by left.
      * intros k. destruct (Hpool k) as [->|]; [|by right]. simpl. unfold outside.
        destruct (filter _ (w_pools w) !! k) as [pk|] eqn:Hpk; [left|by right].
        by apply map_lookup_filter_Some in Hpk as [-> _].
      * intros x s k [->|Hx]%elem_of_cons Hs Hk.
        -- replace s with sz in Hk by congruence. destruct (Hpool k) as [->|]; [|done].
           simpl. unfold outside. apply map_lookup_filter_None. right. intros ? _. simpl. tauto.
        -- apply (Hgone x s); [done| |done]. simpl. rewrite lookup_delete_ne; [done|set_solver].
Qed.

Lemma slot_nodup {A} (ch : list (list A)) i c : NoDup (concat ch) → ch !! i = Some c → NoDup c.
Proof.
  revert i. induction ch as [|c0 ch IH]; intros [|i] Hnd Hc; simplify_eq/=;
    apply NoDup_app in Hnd as (? & _ & ?); eauto.
Qed.

Lemma slots_apart {A} (ch : list (list A)) i j c d x :
  NoDup (concat ch) → i ≠ j → ch !! i = Some c → ch !! j = Some d → x ∈ c → x ∉ d.
Proof.
  revert i j. induction ch as [|c0 ch IH]; intros [|i] [|j] Hnd Hij Hc Hd Hx Hx'; simplify_eq/=;
    apply NoDup_app in Hnd as (_ & Hd0 & Hnd).
  - apply (Hd0 x Hx), elem_of_concat. eauto.
  - apply (Hd0 x Hx'), elem_of_concat. eauto.
  - by apply (IH i j Hnd ltac:(congruence) Hc Hd Hx).
Qed.

(** The loop reads the pool again after it has released the block that holds
    it, unless that block was in the last slot. *)
Lemma free_slots_ub pool p ch home ih k : ∀ w i,
  (i + k)%nat = 20%nat → (i ≤ ih < 19)%nat → length ch = 20%nat → NoDup (concat ch) →
  blocks_ok (w_blocks w) →
  (w_pools w !! pool = Some p ∨ w_pools w !! pool = None) →
  (∀ j c, (i ≤ j)%nat → ch !! j = Some c → ∃ hd, p_nodes p !! j = Some hd ∧
     chain mn_next (w_memnodes w) hd c ∧ ∀ a, a ∈ c → ∃ s, w_blocks w !! a = Some s ∧ 0 < s) →
  (∃ c s, ch !! ih = Some c ∧ home ∈ c ∧ w_blocks w !! home = Some s ∧ home ≤ pool < home + s) →
  free_slots k w pool i = UB.
Proof.
  induction k as [|k IH]; intros w i Hik Hih Hlen Hnd Hb Hpool Hch Hhome; [lia|].
  cbn [free_slots]. unfold load_pool. destruct Hpool as [Hp | ->]; [|done]. rewrite Hp. simpl of_option. rewrite bind_ok.
  assert (i < length ch)%nat as Hlt by lia. apply lookup_lt_is_Some_2 in Hlt as [c Hc].
  destruct (Hch i c ltac:(lia) Hc) as (hd & -> & Hchain & Hbl). simpl of_option. rewrite bind_ok.
  assert (NoDup c) as Hndc by (by eapply slot_nodup).
  destruct (free_chain_ok c w hd (memnode_fuel w) Hchain Hndc) as (w' & -> & Hsub & Hblk & Hmem & Hpk & Hgone);
    [by eapply chain_length|done|done|].
  rewrite bind_ok. destruct Hhome as (ch0 & s & Hih0 & Hin & Hhs & Hrange).
  destruct (decide (i = ih)) as [->|Hne].
  - replace ch0 with c in Hin by congruence. destruct k as [|k]; [lia|]. cbn [free_slots].
    unfold load_pool. by rewrite (Hgone home s pool Hin Hhs Hrange).
  - apply IH; try done; try lia; [by eapply blocks_ok_subseteq| | |].
    + destruct (Hpk pool) as [->|]; [by left|by right].
    + intros j d Hj Hd. destruct (Hch j d ltac:(lia) Hd) as (hd' & Hhd' & Hchd & Hbd).
      exists hd'. split; [done|].
      assert (∀ a, a ∈ d → a ∉ c) as Hdc by (intros a Ha; eapply (slots_apart ch j i); [done|lia|done..]).
      split.
      * eapply chain_frame; [|exact Hchd]. intros a Ha. destruct (Hbd a Ha) as (t & Ht & Ht0). eauto.
      * intros a Ha. rewrite Hblk by auto. auto.
    + exists ch0, s. rewrite Hblk; [done|]. eapply (slots_apart ch ih i); [done|lia|done..].
Qed.

(** ** Creation *)
(** The chains of a pool that has one node, [a], in slot [i]. *)
Definition one_node (i : nat) (a : Z) : list (list Z) := <[i := [a]]> (replicate 20 []).

Lemma one_node_perm i a : (i < 20)%nat → concat (one_node i a) ≡ₚ [a].
Proof.
  intros Hi. unfold one_node. rewrite concat_insert_perm by by apply lookup_replicate_2.
  done.
Qed.

Lemma one_node_ok bl m i a n :
  (i < 20)%nat → m !! a = Some n → mn_next n = None → node_ok bl i a n →
  nodes_ok bl m (<[i := Some a]> (replicate 20 None)) (one_node i a).
Proof.
  intros Hi Ha Hn Hok. split.
  - unfold one_node. by rewrite length_insert, length_replicate.
  - apply Forall2_insert; [|simpl; eauto]. by apply Forall2_replicate.
  - rewrite one_node_perm by done. apply NoDup_singleton.
  - intros j c b Hc Hb. apply list_lookup_insert_Some in Hc as [(-> & <- & _)|[_ Hc]].
    + apply list_elem_of_singleton in Hb as ->. eauto.
    + apply lookup_replicate in Hc as [-> _]. set_solver.
Qed.

(** The page count and slot of a new pool's first node. *)
Definition create_pages (size : Z) : Z := fpx_get_npages (fpx_align_allocation size + 216).

Lemma create_pages_range size :
  0 ≤ size ≤ max_slot_request - 216 →
  let np := create_pages size in
  let need := u64 (fpx_align_allocation size + FPX_SIZEOF_MEMPOOL_T_ALIGN) in
  1 ≤ np ≤ 20 ∧ fpx_align_allocation size ≠ 0 ∧ fpx_get_npages need = np ∧
  fpx_align_allocation size + 264 < np * FPX_PAGE_SIZE.
Proof.
  intros H np need. unfold max_slot_request in H.
  destruct (align_allocation_spec size ltac:(lia)) as (H1 & H2 & H3 & H4).
  assert (fpx_align_allocation size ≤ 81648) as H5.
  { pose proof (Z.div_mod (fpx_align_allocation size) 8 ltac:(lia)). lia. }
  assert (need = fpx_align_allocation size + 216) as Hneed.
  { unfold need. change FPX_SIZEOF_MEMPOOL_T_ALIGN with 216. apply u64_small. lia. }
  destruct (get_npages_spec (fpx_align_allocation size + 216) ltac:(lia)) as [Hn Hr].
  unfold FPX_PAGE_SIZE in *. fold (create_pages size) in Hn, Hr. rewrite Hneed.
  unfold np. split_and!; try done; lia.
Qed.

Lemma mod8_of_16 a : a mod 16 = 0 → a mod 8 = 0.
Proof.
  intros H. rewrite (Z.div_mod a 16), H, Z.add_0_r by done.
  replace (16 * (a / 16)) with (2 * (a / 16) * 8) by lia. apply Z_mod_mult.
Qed.

(** The pool structure and the first node of a new pool whose block is at [a];
    a root pool keeps its own mutex behind its structure. *)
Definition new_pool (w : world) (size a mutex : Z) (parent brother : option Z) : fpx_pool_t :=
  Pool (<[Z.to_nat (create_pages size - 1) := Some a]> (replicate 20 None))
    parent brother None None None mutex (w_tid w).
Definition new_node (size a begin : Z) : fpx_memnode_t :=
  let total := create_pages size * FPX_PAGE_SIZE in
  Memnode None begin begin (a + total - begin) (a + total - begin) total.

Lemma new_node_ok bl size a begin :
  0 ≤ size ≤ max_slot_request - 216 → 0 < a → a + create_pages size * FPX_PAGE_SIZE < 2 ^ 64 →
  bl !! a = Some (create_pages size * FPX_PAGE_SIZE) →
  begin mod 8 = 0 → a + 48 ≤ begin ≤ a + 304 →
  node_ok bl (Z.to_nat (create_pages size - 1)) a (new_node size a begin).
Proof.
  intros H Ha Hend Hbl Hmod Hbeg. destruct (create_pages_range size H) as (Hnp & _ & _ & Hr).
  unfold FPX_PAGE_SIZE in *. split; simpl; unfold SIZEOF_MEMNODE, FPX_PAGE_SIZE; try done; try lia.
Qed.

Section Creation.
Variable sys_malloc : gmap Z Z → Z → option Z.
Variable enomem : fpx_err_t.
Variable mutex_init : gmap Z nat → fpx_err_t.
Hypothesis Hmalloc : malloc_ok sys_malloc.

Lemma create_root w size a :
  0 ≤ size ≤ max_slot_request - 216 →
  sys_malloc (w_blocks w) (create_pages size * FPX_PAGE_SIZE) = Some a →
  mutex_init (w_mutexes w) = FPX_OK →
  ∃ w', fpx_pool_create sys_malloc enomem mutex_init w size None = Ok (FPX_OK, Some (a + 48), w') ∧
    w_blocks w' = <[a := create_pages size * FPX_PAGE_SIZE]> (w_blocks w) ∧
    w_memnodes w' = <[a := new_node size a (a + 304)]> (w_memnodes w) ∧
    w_pools w' = <[a + 48 := new_pool w size a (a + 264) None None]> (w_pools w) ∧
    w_mutexes w' = <[a + 264 := O]> (w_mutexes w) ∧ w_cleanups w' = w_cleanups w ∧
    w_tid w' = w_tid w ∧ w_trace w' = w_trace w.
Proof using Hmalloc.
  intros H Ha Hm. destruct (create_pages_range size H) as (Hnp & Hnz & Hnp' & Hr).
  unfold fpx_pool_create. rewrite (proj2 (Z.eqb_neq _ _)) by done. rewrite Hnp'. clear Hnp'.
  unfold new_node, new_pool. remember (create_pages size) as np eqn:Hnpdef. clear Hnpdef. unfold FPX_PAGE_SIZE in *.
  rewrite !(u64_small (np - 1)), !(u64_small (np * 4096)) by lia.
  rewrite (proj2 (Z.ltb_ge _ _)) by (unfold FPX_MAX_POOL_SLOT; lia).
  rewrite (memnode_allocate_ok _ Hmalloc) by lia. rewrite Ha. cbn beta iota zeta.
  destruct (Hmalloc _ (np * 4096) _ ltac:(lia) Ha) as (Hpos & Hend & _).
  world_run. cbn [mn_begin mn_size fresh_node]. simpl w_mutexes. rewrite Hm.
  change (FPX_OK =? FPX_OK) with true. cbn beta iota zeta. world_run.
  change FPX_SIZEOF_MEMPOOL_T_ALIGN with 216. change FPX_SIZEOF_MUTEX_T_ALIGN with 40.
  unfold set_slot. rewrite length_replicate, (proj2 (Z.ltb_lt (np - 1) _)) by lia.
  simpl require. world_run.
  rewrite (u64_small (a + 48 + 216)), (u64_small (np * 4096 - 48 - 216)) by lia.
  rewrite (u64_small (a + 48 + 216 + 40)), (u64_small (np * 4096 - 48 - 216 - 40)) by lia.
  eexists. split; [done|]. simpl. rewrite !insert_insert_eq.
  split_and!; try done.
  - do 2 f_equal; lia.
  - do 2 f_equal; lia.
  - f_equal; lia.
Qed.

Lemma insert_shadow {A} (m : gmap Z A) x y u v v' :
  x ≠ y → <[x := v]> (<[y := u]> (<[x := v']> m)) = <[x := v]> (<[y := u]> m).
Proof using.
  intros H. rewrite (insert_insert_ne m y x) by done. by rewrite insert_insert_eq.
Qed.

Lemma create_child w size a parent pp :
  0 ≤ size ≤ max_slot_request - 216 →
  sys_malloc (w_blocks w) (create_pages size * FPX_PAGE_SIZE) = Some a →
  w_pools w !! parent = Some pp → parent ≠ a + 48 →
  ∃ w', fpx_pool_create sys_malloc enomem mutex_init w size (Some parent) =
        Ok (FPX_OK, Some (a + 48), w') ∧
    w_blocks w' = <[a := create_pages size * FPX_PAGE_SIZE]> (w_blocks w) ∧
    w_memnodes w' = <[a := new_node size a (a + 264)]> (w_memnodes w) ∧
    w_pools w' = <[a + 48 := new_pool w size a (p_mutex pp) (Some parent) (p_child pp)]>
                   (<[parent := p_set_child (Some (a + 48)) pp]> (w_pools w)) ∧
    w_mutexes w' = w_mutexes w ∧ w_cleanups w' = w_cleanups w ∧
    w_tid w' = w_tid w ∧ w_trace w' = w_trace w.
Proof using Hmalloc.
  intros H Ha Hpp Hne. destruct (create_pages_range size H) as (Hnp & Hnz & Hnp' & Hr).
  unfold fpx_pool_create. rewrite (proj2 (Z.eqb_neq _ _)) by done. rewrite Hnp'. clear Hnp'.
  unfold new_node, new_pool. remember (create_pages size) as np eqn:Hnpdef. clear Hnpdef. unfold FPX_PAGE_SIZE in *.
  rewrite !(u64_small (np - 1)), !(u64_small (np * 4096)) by lia.
  rewrite (proj2 (Z.ltb_ge _ _)) by (unfold FPX_MAX_POOL_SLOT; lia).
  rewrite (memnode_allocate_ok _ Hmalloc) by lia. rewrite Ha. cbn beta iota zeta.
  destruct (Hmalloc _ (np * 4096) _ ltac:(lia) Ha) as (Hpos & Hend & _).
  world_run. cbn [mn_begin mn_size fresh_node].
  change (FPX_OK =? FPX_OK) with true. cbn beta iota zeta.
  change FPX_SIZEOF_MEMPOOL_T_ALIGN with 216.
  unfold set_slot. rewrite length_replicate, (proj2 (Z.ltb_lt (np - 1) _)) by lia.
  simpl require. world_run. unfold fpx_pool_add_child. world_run.
  rewrite (u64_small (a + 48 + 216)), (u64_small (np * 4096 - 48 - 216)) by lia.
  destruct (p_child pp) as [ch0|] eqn:Hch; world_run;
    (eexists; split; [done|]; simpl; rewrite ?insert_insert_eq; split_and!; try done).
  all: first [by apply insert_shadow | do 2 f_equal; lia].
Qed.
End Creation.

(** ** Registering clean-ups *)

(** The fields that say where a pool stands among the others. *)
Definition same_place (p p' : fpx_pool_t) : Prop :=
  p_parent p' = p_parent p ∧ p_brother p' = p_brother p ∧ p_child p' = p_child p ∧
  p_mutex p' = p_mutex p ∧ p_owner p' = p_owner p.

(** A pool together with its clean-ups, all of whose nodes lie in memory the
    pool has handed out. *)
Record pool_full (w : world) (pool : Z) (p : fpx_pool_t) (ch : list (list Z)) (cl fr : list Z) : Prop := {
  pf_pool : pool_ok w pool p ch;
  pf_cleanups : cleanups_ok (w_cleanups w) p cl fr;
  pf_in_use : ∀ c, c ∈ cl ++ fr → in_use (w_memnodes w) ch c
}.

(** A handler has been registered in front of the others. *)
Definition registered (w : world) (pool : Z) (p : fpx_pool_t) (ch : list (list Z)) (cl : list Z)
    (h : fpx_cleanup_handler_t) (d : Z) (w' : world) : Prop :=
  ∃ p' ch' cl' fr', pool_full w' pool p' ch' cl' fr' ∧ same_place p p' ∧
    entries (w_cleanups w') cl' = (h, d) :: entries (w_cleanups w) cl ∧
    (∀ x, in_use (w_memnodes w) ch x → in_use (w_memnodes w') ch' x) ∧
    w_mutexes w' = w_mutexes w ∧ w_blocks w ⊆ w_blocks w' ∧ w_trace w' = w_trace w.

Lemma pool_ok_mutex w pool p ch M :
  pool_ok w pool p ch → is_Some (M !! p_mutex p) → pool_ok (set_mutexes w M) pool p ch.
Proof. intros [] ?. by split. Qed.

Section Registering.
Variable sys_malloc : gmap Z Z → Z → option Z.
Hypothesis Hmalloc : malloc_ok sys_malloc.

Lemma cleanup_add_reuse palloc w pool p ch cl c fr h d :
  pool_full w pool p ch cl (c :: fr) →
  ∃ w', cleanup_add_body palloc w pool d h = Ok w' ∧ registered w pool p ch cl h d w'.
Proof.
  intros [[Hp Hok Hb [dp Hd]] [Hcl Hfr Hnd] Huse].
  destruct Hfr as (Hhd & n & Hn & Hfr).
  unfold cleanup_add_body. world_run. rewrite Hhd. world_run. cbn [of_option]. world_run.
  eexists. split; [done|].
  assert ((c ∉ cl) ∧ (c ∉ fr)) as [Hccl Hcfr].
  { apply NoDup_app in Hnd as (_ & H1 & H2). apply NoDup_cons in H2 as [? _].
    split; [|done]. intros Hin. apply (H1 c Hin). set_solver. }
  eexists (p_set_cleanups (Some c) (p_set_free (cn_next n) p)), ch, (c :: cl), fr.
  split; [split; [split|split|]|split; [done|split_and!]]; simpl; rewrite ?relock, ?lookup_insert_eq by done; try done.
  - split; [done|]. eexists. split; [done|]. simpl. by apply chain_insert_ne.
  - by apply chain_insert_ne.
  - rewrite Permutation_middle. done.
  - intros x Hx. apply Huse. set_solver.
  - f_equal. apply entries_frame. intros a Ha. apply lookup_insert_ne. set_solver.
Qed.

Lemma cleanup_add_fresh fuel w pool p ch cl h d :
  pool_full w pool p ch cl [] →
  (∃ w', cleanup_add_body (palloc_fuel sys_malloc (S fuel)) w pool d h = Ok w' ∧
         registered w pool p ch cl h d w') ∨
  (cleanup_add_body (palloc_fuel sys_malloc (S fuel)) w pool d h = UB ∧
   sys_malloc (w_blocks w) FPX_PAGE_SIZE = None).
Proof using Hmalloc.
  intros [Hpo [Hcl Hfr Hnd] Huse]. pose proof Hpo as [Hp Hok Hb [dp Hd]]. simpl in Hfr.
  unfold cleanup_add_body. world_run. rewrite Hfr. set (w1 := set_mutexes w _).
  assert (pool_ok w1 pool p ch) as Hpo1.
  { apply pool_ok_mutex; [done|]. rewrite lookup_insert_eq. by eexists. }
  destruct (palloc_ok sys_malloc Hmalloc fuel w1 pool p ch SIZEOF_CLEANUP Hpo1) as (r & w2 & -> & Hout);
    [by split|].
  rewrite bind_assoc, bind_ok. cbn beta iota zeta. apply palloc_outcome_grants in Hout.
  destruct r as [a|].
  2:{ right. destruct Hout as (_ & Hnone). split; [done|]. exact Hnone. }
  left. destruct Hout as (sl' & ch' & Hpo2 & Hon & Hsub & Hpos & Hal & [Hg1 Hg2] & _).
  destruct Hpo2 as [Hp2 Hok2 Hb2 [dp2 Hd2]]. destruct Hon as [Onp Onc Onm Ont Ontr Onb _].
  change (fpx_align_allocation SIZEOF_CLEANUP) with 24 in Hg1, Hg2.
  simpl in *. rewrite Onm, lookup_insert_eq in Hd2. injection Hd2 as <-.
  assert (w_mutexes w2 !! p_mutex (p_set_nodes sl' p) = Some (S dp)) as Hd2
    by (rewrite Onm; apply lookup_insert_eq).
  assert (a ∉ cl) as Hacl.
  { intros Hin. apply (Hg2 a); [lia|]. apply Huse. set_solver. }
  cbn [of_option]. world_run. eexists. split; [done|].
  exists (p_set_cleanups (Some a) (p_set_nodes sl' p)), ch', (a :: cl), [].
  split; [split; [split|split|]|split; [done|split_and!]]; simpl;
    rewrite ?lookup_insert_eq by done; try done; eauto.
  - split; [done|]. eexists. split; [done|]. simpl.
    apply chain_insert_ne; [done|]. apply chain_insert_ne; [done|]. by rewrite Onc.
  - rewrite app_nil_r in *. by apply NoDup_cons.
  - intros c Hc. apply Hg1. rewrite app_nil_r in Hc. apply elem_of_cons in Hc as [->|Hc]; [right|left].
    + lia.
    + apply Huse. set_solver.
  - f_equal. apply entries_frame. intros x Hx. rewrite !lookup_insert_ne by set_solver. by rewrite Onc.
  - intros x Hx. apply Hg1. by left.
  - rewrite Onm. by rewrite relock.
Qed.
End Registering.

(** ** A concrete allocator, for the examples *)

(** The end of the highest live block, rounded up. *)
Definition top (bl : gmap Z Z) : Z :=
  foldr (λ kv acc, Z.max (kv.1 + Z.max 1 kv.2) acc) 65536 (map_to_list bl).
Definition bump (bl : gmap Z Z) (size : Z) : option Z :=
  let a := (top bl + 15) / 16 * 16 in
  if a + size <? 2 ^ 47 then Some a else None.

Lemma top_ge bl : 65536 ≤ top bl ∧ ∀ b s, bl !! b = Some s → b + Z.max 1 s ≤ top bl.
Proof.
  unfold top. assert (∀ l : list (Z * Z),
    65536 ≤ foldr (λ kv acc, Z.max (kv.1 + Z.max 1 kv.2) acc) 65536 l ∧
    ∀ b s, (b, s) ∈ l → b + Z.max 1 s ≤ foldr (λ kv acc, Z.max (kv.1 + Z.max 1 kv.2) acc) 65536 l) as H.
  { induction l as [|[b s] l [IH1 IH2]]; simpl; [split; [done|set_solver]|]. split; [lia|].
    intros b' s' [[= -> ->]|Hin]%elem_of_cons; [lia|]. specialize (IH2 _ _ Hin). lia. }
  split; [apply H|]. intros b s Hb. apply H. by apply elem_of_map_to_list.
Qed.

Lemma bump_ok : malloc_ok bump.
Proof.
  intros bl size a Hs. unfold bump. set (x := (top bl + 15) / 16 * 16).
  destruct (top_ge bl) as [Ht Hall]. destruct (Z.ltb_spec (x + size) (2 ^ 47)); [|done]. intros [= <-].
  assert (top bl ≤ x) by (unfold x; pose proof (Z.div_mod (top bl + 15) 16 ltac:(lia));
    pose proof (Z.mod_pos_bound (top bl + 15) 16 ltac:(lia)); lia).
  split_and!; try lia.
  - unfold x. apply Z_mod_mult.
  - destruct (bl !! x) as [s|] eqn:Hx; [|done].
    specialize (Hall _ _ Hx). lia.
  - intros b s Hb. right. specialize (Hall b s Hb). lia.
Qed.

(** ** A fresh root pool, and the pool of the examples *)
Lemma create_root_full sys_malloc enomem mutex_init w size a :
  malloc_ok sys_malloc → blocks_ok (w_blocks w) → 0 ≤ size ≤ max_slot_request - 216 →
  sys_malloc (w_blocks w) (create_pages size * FPX_PAGE_SIZE) = Some a →
  mutex_init (w_mutexes w) = FPX_OK →
  let p := new_pool w size a (a + 264) None None in
  let ch := one_node (Z.to_nat (create_pages size - 1)) a in
  ∃ w', fpx_pool_create sys_malloc enomem mutex_init w size None = Ok (FPX_OK, Some (a + 48), w') ∧
    pool_full w' (a + 48) p ch [] [] ∧ (∀ x, ¬ in_use (w_memnodes w') ch x) ∧
    w_mutexes w' !! p_mutex p = Some O ∧ w_tid w' = w_tid w.
Proof.
  intros Hm Hb Hs Ha Hmi p ch.
  destruct (create_root _ enomem mutex_init Hm w size a Hs Ha Hmi)
    as (w' & Hrun & Hbl & Hmn & Hp & Hmu & Hcl & Htid & _).
  destruct (create_pages_range size Hs) as (Hnp & _ & _ & _).
  assert (0 ≤ create_pages size * FPX_PAGE_SIZE) by (unfold FPX_PAGE_SIZE; lia).
  destruct (Hm _ _ _ ltac:(done) Ha) as (Hpos & Hend & Hal & _ & _).
  assert (w_memnodes w' !! a = Some (new_node size a (a + 304))) as Hna by (rewrite Hmn; apply lookup_insert_eq).
  exists w'. split; [done|]. split; [split|split; [|split]].
  - split.
    + rewrite Hp. apply lookup_insert_eq.
    + apply one_node_ok with (new_node size a (a + 304)); [lia|done|done|].
      apply new_node_ok; try done; [rewrite Hbl; apply lookup_insert_eq| |lia].
      by rewrite Zplus_mod, (mod8_of_16 a Hal).
    + rewrite Hbl. by eapply blocks_ok_malloc.
    + simpl. rewrite Hmu, lookup_insert_eq. by eexists.
  - split; simpl; try done. constructor.
  - set_solver.
  - intros x (b & n & Hbc & Hnb & Hx). unfold ch in Hbc.
    rewrite one_node_perm in Hbc by lia. apply list_elem_of_singleton in Hbc as ->.
    rewrite Hna in Hnb. injection Hnb as <-. simpl in Hx. lia.
  - simpl. rewrite Hmu. apply lookup_insert_eq.
  - done.
Qed.

Definition empty_world : world := World ∅ ∅ ∅ ∅ ∅ 1 0 [].
Definition ex_create := fpx_pool_create bump 12 (λ _, FPX_OK) empty_world 0 None.
Definition ex_world : world :=
  match ex_create with Ok (_, _, w) => w | _ => empty_world end.
Definition ex_a : Z := 65536.
Definition ex_pool : Z := ex_a + 48.
Definition ex_p : fpx_pool_t := new_pool empty_world 0 ex_a (ex_a + 264) None None.
Definition ex_ch : list (list Z) := one_node 0 ex_a.

Lemma ex_full : pool_full ex_world ex_pool ex_p ex_ch [] [] ∧ w_mutexes ex_world !! p_mutex ex_p = Some O.
Proof.
  destruct (create_root_full bump 12 (λ _, FPX_OK) empty_world 0 ex_a bump_ok) as (w' & Hrun & Hfull & _ & Hm & _).
  - intros a b s t _ H. done.
  - by split.
  - by vm_compute.
  - done.
  - unfold ex_world, ex_create. by rewrite Hrun.
Qed.

(** ** Properties *)

(** C2: A request of at most 81864 bytes never leaves the pool's structures
    inconsistent.  It is served by the first node, from its own slot upwards and from
    the head of each, that has room for the rounded size; if there is none, by a new
    block of the system, which becomes the head of its slot; if there is none of these
    either it answers [NULL] and changes nothing.  A granted area is 8-byte aligned,
    large enough, lies inside one live block behind that block's header, and no byte of
    it had been handed out before; the other nodes stay as they are. *)
Theorem palloc_correct sys_malloc w pool p ch size :
  malloc_ok sys_malloc → pool_ok w pool p ch → 0 ≤ size ≤ max_slot_request →
  ∃ r w', fpx_palloc sys_malloc w pool size = Ok (r, w') ∧
    palloc_outcome sys_malloc w pool p ch size r w' ∧
    size ≤ fpx_align_allocation size.
Proof.
  intros Hm Hok Hs. destruct (palloc_ok sys_malloc Hm 1 w pool p ch size Hok Hs) as (r & w' & H & Ho).
  exists r, w'. split; [done|]. split; [done|]. apply (slot_request size Hs).
Qed.

Lemma palloc_correct_witness :
  ∃ r w', fpx_palloc bump ex_world ex_pool 100 = Ok (r, w') ∧ r = Some 65840.
Proof.
  destruct (palloc_correct bump ex_world ex_pool ex_p ex_ch 100 bump_ok (pf_pool _ _ _ _ _ _ (proj1 ex_full)))
    as (r & w' & H & _); [by vm_compute|].
  exists r, w'. split; [exact H|]. vm_compute in H. congruence.
Defined.

(** C3: The areas granted by any sequence of requests of at most 81864 bytes each are
    aligned and pairwise disjoint, and none overlaps memory handed out before the
    sequence. *)
Theorem pallocs_disjoint sys_malloc w pool p ch sizes :
  malloc_ok sys_malloc → pool_ok w pool p ch → Forall (λ s, 0 ≤ s ≤ max_slot_request) sizes →
  ∃ rs w', pallocs sys_malloc w pool sizes = Ok (rs, w') ∧ length rs = length sizes ∧
    (∀ i a, rs !! i = Some (Some a) → a mod 8 = 0) ∧
    (∀ i r s x, rs !! i = Some r → sizes !! i = Some s → answered r s x →
       ¬ in_use (w_memnodes w) ch x) ∧
    (∀ i j r1 r2 s1 s2 x, i ≠ j → rs !! i = Some r1 → rs !! j = Some r2 →
       sizes !! i = Some s1 → sizes !! j = Some s2 → answered r1 s1 x → ¬ answered r2 s2 x).
Proof.
  intros Hm Hok Hs.
  destruct (pallocs_ok sys_malloc Hm sizes w pool p ch Hok Hs)
    as (rs & w' & sl' & ch' & Hrun & Hlen & _ & _ & Hin & Hal & Hdis).
  exists rs, w'. split_and!; [done|done|done| |].
  - intros i r s x H1 H2 H3. by destruct (Hin i r s x H1 H2 H3).
  - intros i j r1 r2 s1 s2 x Hij H1 H2 H3 H4 H5 H6.
    destruct (decide (i < j)%nat); [by eapply (Hdis i j)|]. eapply (Hdis j i); [lia|done..].
Qed.

Lemma pallocs_disjoint_witness :
  ∃ rs w', pallocs bump ex_world ex_pool [100; 5000; 1] = Ok (rs, w') ∧
           rs = [Some 65840; Some 69680; Some 65944].
Proof.
  destruct (pallocs_disjoint bump ex_world ex_pool ex_p ex_ch [100; 5000; 1] bump_ok
    (pf_pool _ _ _ _ _ _ (proj1 ex_full))) as (rs & w' & H & _).
  - repeat constructor; by vm_compute.
  - exists rs, w'. split; [exact H|]. vm_compute in H. congruence.
Defined.

(** A request's rounded size when it is neither small nor huge. *)
Lemma align_request size :
  max_slot_request < size ≤ 2 ^ 64 - 56 →
  let need := fpx_align_allocation size in
  size ≤ need < size + 8 ∧ need mod 8 = 0 ∧ need ≤ 2 ^ 64 - 56.
Proof.
  intros H need. unfold max_slot_request in H.
  destruct (align_allocation_spec size ltac:(lia)) as (H1 & H2 & H3 & H4). fold need in H1, H2, H3, H4.
  split_and!; try done; try lia. pose proof (Z.div_mod need 8 ltac:(lia)). lia.
Qed.

(** The slot index of a request of 81865 to 85960 bytes is one too large. *)
Lemma request_slot_overflow sys_malloc w pool p ch size a :
  malloc_ok sys_malloc → pool_ok w pool p ch → max_slot_request < size ≤ 85960 →
  sys_malloc (w_blocks w) (21 * FPX_PAGE_SIZE) = Some a →
  fpx_palloc sys_malloc w pool size = UB.
Proof.
  intros Hm Hpo Hs Ha. pose proof Hpo as [Hp Hok Hb [d Hd]].
  destruct (align_request size ltac:(lia)) as (H1 & H2 & H3). unfold max_slot_request in Hs.
  unfold fpx_palloc. cbn [palloc_fuel]. unfold palloc_body.
  set (need := fpx_align_allocation size) in *.
  pose proof (Z.div_mod need 8 ltac:(lia)). 
  destruct (get_npages_spec need ltac:(lia)) as [Hn Hr]. unfold FPX_PAGE_SIZE in *.
  assert (fpx_get_npages need = 21) as -> by lia.
  rewrite (proj2 (Z.eqb_neq need 0)) by lia. change (u64 (21 - 1)) with 20.
  change (FPX_MAX_POOL_SLOT <? 20) with false. cbn iota.
  unfold palloc_slots. world_run. change (Z.to_nat (FPX_MAX_POOL_SLOT - 20)) with O. cbn [find_slot].
  rewrite bind_ok. rewrite (memnode_allocate_ok _ Hm) by (vm_compute; by split).
  simpl w_blocks. change (u64 (21 * FPX_PAGE_SIZE)) with (21 * 4096).
  replace (sys_malloc (w_blocks w) (21 * 4096)) with (Some a) by done. world_run.
  assert (p_nodes p !! 20%nat = None) as Hnone.
  { apply lookup_ge_None_2. rewrite (Forall2_length _ _ _ (ns_chains _ _ _ _ Hok)), (ns_length _ _ _ _ Hok). lia. }
  change (Z.to_nat 20) with 20%nat. by rewrite Hnone.
Qed.

Lemma palloc_slots_huge sys_malloc w pool p ch need a :
  malloc_ok sys_malloc → pool_ok w pool p ch → 2 ^ 64 - 48 ≤ need < 2 ^ 64 →
  sys_malloc (w_blocks w) FPX_PAGE_SIZE = Some a →
  ∃ w', palloc_slots sys_malloc w pool need 1 0 = Ok (Some (a + 48), w') ∧
        w_blocks w' = <[a := FPX_PAGE_SIZE]> (w_blocks w).
Proof.
  intros Hm Hpo Hn Ha. pose proof Hpo as [Hp Hok Hb [d Hd]].
  unfold palloc_slots. world_run.
  rewrite (find_slot_ok _ pool p ch) by (first [exact Hp | exact Hok | done]).
  change (w_memnodes (set_mutexes w _)) with (w_memnodes w).
  rewrite (find_none_big w pool p ch) by (done || (unfold FPX_PAGE_SIZE; lia)). rewrite bind_ok.
  rewrite (memnode_allocate_ok _ Hm) by (vm_compute; by split). simpl w_blocks.
  change (u64 (1 * FPX_PAGE_SIZE)) with FPX_PAGE_SIZE. rewrite Ha. world_run.
  assert (∃ hd, p_nodes p !! 0%nat = Some hd) as [hd Hhd].
  { apply lookup_lt_is_Some_2. rewrite (Forall2_length _ _ _ (ns_chains _ _ _ _ Hok)), (ns_length _ _ _ _ Hok). lia. }
  change (Z.to_nat 0) with 0%nat. rewrite Hhd. cbn [of_option]. world_run.
  unfold set_slot. rewrite (Forall2_length _ _ _ (ns_chains _ _ _ _ Hok)), (ns_length _ _ _ _ Hok).
  change (0 <? Z.of_nat 20) with true. cbn [require]. world_run.
  erewrite take_from_ok by (simpl; by rewrite lookup_insert_eq). world_run.
  eexists. split; done.
Qed.

(** A request whose page count wraps around gets one page. *)
Lemma request_wraps sys_malloc w pool p ch size a :
  malloc_ok sys_malloc → pool_ok w pool p ch → 2 ^ 64 - 56 < size ≤ 2 ^ 64 - 8 →
  sys_malloc (w_blocks w) FPX_PAGE_SIZE = Some a →
  ∃ w', fpx_palloc sys_malloc w pool size = Ok (Some (a + 48), w') ∧
        w_blocks w' = <[a := FPX_PAGE_SIZE]> (w_blocks w).
Proof.
  intros Hm Hpo Hs Ha. unfold fpx_palloc. cbn [palloc_fuel]. unfold palloc_body.
  destruct (align_allocation_spec size ltac:(lia)) as (H1 & H2 & H3 & H4).
  set (need := fpx_align_allocation size) in *.
  assert (2 ^ 64 - 48 ≤ need < 2 ^ 64) as Hn by (pose proof (Z.div_mod need 8 ltac:(lia)); lia).
  rewrite (proj2 (Z.eqb_neq need 0)) by lia.
  assert (fpx_get_npages need = 1) as ->.
  { unfold fpx_get_npages. change FPX_SIZEOF_MEMNODE_T_ALIGN with 48.
    replace (u64 (need + 48)) with (need + 48 - 2 ^ 64) by (unfold u64; apply (Zmod_unique _ _ 1); lia).
    by rewrite (proj2 (Z.ltb_lt _ _)) by (unfold FPX_PAGE_SIZE; lia). }
  change (u64 (1 - 1)) with 0. change (FPX_MAX_POOL_SLOT <? 0) with false. cbn iota.
  by apply (palloc_slots_huge _ _ _ p ch).
Qed.

(** The last seven sizes: rounding them up wraps around to zero. *)
Lemma request_zero sys_malloc w pool p size d :
  w_pools w !! pool = Some p → w_mutexes w !! p_mutex p = Some d → 2 ^ 64 - 8 < size < 2 ^ 64 →
  fpx_palloc sys_malloc w pool size = Ok (None, set_mutexes w (<[p_mutex p := pred d]> (w_mutexes w))).
Proof.
  intros Hp Hd Hs. unfold fpx_palloc. cbn [palloc_fuel]. unfold palloc_body.
  rewrite align_allocation_zero, Z.eqb_refl by done. by rewrite (unlock_pool_ok _ _ _ _ Hp Hd), bind_ok.
Qed.

(** C28: The ranges of sizes the tests of the code miss.  A request of 81865 to
    85960 bytes passes the test against FPX_MAX_POOL_SLOT with [index = 20] and,
    once the system has granted the block, accesses [nodes[20]], behind the end of
    the array.  For a request of 2^64 - 55 to 2^64 - 8 bytes the page count wraps around
    to one: the answer is not [NULL] but the first byte of a single page.  For the seven
    sizes above that the rounded size wraps around to zero: the answer is [NULL], but
    the pool's mutex, which has not been taken, is released. *)
Theorem palloc_size_limits sys_malloc w pool p ch size a d :
  malloc_ok sys_malloc → pool_ok w pool p ch → w_mutexes w !! p_mutex p = Some d →
  (max_slot_request < size ≤ 85960 → sys_malloc (w_blocks w) (21 * FPX_PAGE_SIZE) = Some a →
     fpx_palloc sys_malloc w pool size = UB) ∧
  (2 ^ 64 - 56 < size ≤ 2 ^ 64 - 8 → sys_malloc (w_blocks w) FPX_PAGE_SIZE = Some a →
     ∃ w', fpx_palloc sys_malloc w pool size = Ok (Some (a + 48), w') ∧
           w_blocks w' = <[a := FPX_PAGE_SIZE]> (w_blocks w)) ∧
  (2 ^ 64 - 8 < size < 2 ^ 64 →
     fpx_palloc sys_malloc w pool size = Ok (None, set_mutexes w (<[p_mutex p := pred d]> (w_mutexes w)))).
Proof.
  intros Hm Hpo Hd. split_and!; intros; [by apply (request_slot_overflow _ w pool p ch size a)| |].
  - by apply (request_wraps _ w pool p ch).
  - apply request_zero; [apply Hpo|done|done].
Qed.

Lemma palloc_size_limits_witness :
  fpx_palloc bump ex_world ex_pool 82000 = UB ∧
  (∃ w', fpx_palloc bump ex_world ex_pool (2 ^ 64 - 8) = Ok (Some 69680, w') ∧
         w_blocks w' = <[69632 := FPX_PAGE_SIZE]> (w_blocks ex_world)) ∧
  ∃ w', fpx_palloc bump ex_world ex_pool (2 ^ 64 - 1) = Ok (None, w').
Proof.
  destruct ex_full as [[Hpo _ _] Hd]. split_and!.
  - refine (proj1 (palloc_size_limits bump ex_world ex_pool ex_p ex_ch 82000 69632 0 bump_ok Hpo Hd) _ _); by vm_compute.
  - refine (proj1 (proj2 (palloc_size_limits bump ex_world ex_pool ex_p ex_ch (2 ^ 64 - 8) 69632 0 bump_ok Hpo Hd)) _ _);
      by vm_compute.
  - eexists. refine (proj2 (proj2 (palloc_size_limits bump ex_world ex_pool ex_p ex_ch (2 ^ 64 - 1) 69632 0 bump_ok Hpo Hd)) _).
    lia.
Defined.

(** Registering a handler puts it in front of the others, in a reserved node
    or in one newly allocated from the pool, and keeps the pool's structures
    consistent; when neither is to be had, the code writes through [NULL]. *)
Theorem cleanup_add_correct sys_malloc w pool p ch cl fr h d :
  malloc_ok sys_malloc → pool_full w pool p ch cl fr →
  (∃ w', fpx_pool_cleanup_add sys_malloc w pool d h = Ok w' ∧ registered w pool p ch cl h d w') ∨
  (fpx_pool_cleanup_add sys_malloc w pool d h = UB ∧ fr = [] ∧
   sys_malloc (w_blocks w) FPX_PAGE_SIZE = None).
Proof.
  intros Hm Hf. destruct fr as [|c fr].
  - destruct (cleanup_add_fresh sys_malloc Hm 1 w pool p ch cl h d Hf) as [H|[H1 H2]]; [by left|right; auto].
  - left. by eapply cleanup_add_reuse.
Qed.

Lemma cleanup_add_correct_witness :
  ∃ w', fpx_pool_cleanup_add bump ex_world ex_pool 7 (H_user 3) = Ok w' ∧
        registered ex_world ex_pool ex_p ex_ch [] (H_user 3) 7 w'.
Proof.
  destruct (cleanup_add_correct bump ex_world ex_pool ex_p ex_ch [] [] (H_user 3) 7 bump_ok (proj1 ex_full))
    as [H|(H & _ & Hn)].
  - exact H.
  - exfalso. vm_compute in Hn. discriminate Hn.
Defined.

Lemma nodes_ok_blocks bl bl' m sl ch : bl ⊆ bl' → nodes_ok bl m sl ch → nodes_ok bl' m sl ch.
Proof.
  intros Hs [H1 H2 H3 H4]. split; [done..|]. intros i c a Hc Ha.
  destruct (H4 i c a Hc Ha) as (n & Hn & []). exists n. split; [done|]. split; try done.
  by eapply lookup_weaken.
Qed.

Lemma pool_full_blocks w pool p ch cl fr bl c :
  w_blocks w ⊆ bl → blocks_ok bl → pool_full w pool p ch cl fr →
  pool_full (set_blocks w bl c) pool p ch cl fr.
Proof.
  intros Hs Hb [[Hp Hok _ Hd] Hcl Hu]. split; [|done|done]. split; try done. by eapply nodes_ok_blocks.
Qed.

(** A request of 85961 bytes or more is forwarded to the system allocator
    whole, and the block is registered with the pool so that [fpx_free] will be
    called for it.  On this path the pool's mutex is released without having been
    taken: a caller that holds it loses one level of its lock. *)
Theorem palloc_large sys_malloc w pool p ch cl fr size a d :
  malloc_ok sys_malloc → pool_full w pool p ch cl fr → 85960 < size ≤ 2 ^ 64 - 56 →
  let need := fpx_align_allocation size in
  sys_malloc (w_blocks w) need = Some a → w_mutexes w !! p_mutex p = Some d →
  (fr = [] → sys_malloc (<[a := need]> (w_blocks w)) FPX_PAGE_SIZE ≠ None) →
  ∃ w' p' ch' cl' fr',
    fpx_palloc sys_malloc w pool size = Ok (Some a, w') ∧ size ≤ need ∧
    pool_full w' pool p' ch' cl' fr' ∧ same_place p p' ∧
    w_blocks w' !! a = Some need ∧
    entries (w_cleanups w') cl' = (H_free, a) :: entries (w_cleanups w) cl ∧
    w_mutexes w' !! p_mutex p = Some (pred d).
Proof.
  intros Hm Hf Hs need Ha Hd Hroom.
  destruct (align_request size) as (H1 & H2 & H3); [unfold max_slot_request; lia|]. fold need in H1, H2, H3.
  destruct (get_npages_spec need ltac:(lia)) as [Hn Hr].
  assert (22 ≤ fpx_get_npages need ≤ 2 ^ 63) as Hnp
    by (unfold FPX_PAGE_SIZE in *; pose proof (Z.div_mod need 8 ltac:(lia)); lia).
  change (fpx_palloc sys_malloc w pool size)
    with (palloc_body sys_malloc (cleanup_add_body (palloc_fuel sys_malloc 1)) w pool size).
  unfold palloc_body. fold need.
  rewrite (proj2 (Z.eqb_neq need 0)), u64_small by lia.
  rewrite (proj2 (Z.ltb_lt _ _)) by (unfold FPX_MAX_POOL_SLOT; lia).
  unfold fpx_malloc. rewrite Ha. cbn beta iota zeta. set (w1 := set_blocks w _ _).
  destruct (Hm _ need _ ltac:(lia) Ha) as (_ & _ & _ & Hfree & _).
  assert (pool_full w1 pool p ch cl fr) as Hf1.
  { apply pool_full_blocks; [by apply insert_subseteq| |done].
    apply (blocks_ok_malloc _ Hm); [lia|apply Hf|done]. }
  assert (∃ w2, cleanup_add_body (palloc_fuel sys_malloc 1) w1 pool a H_free = Ok w2 ∧
                registered w1 pool p ch cl H_free a w2) as (w2 & -> & Hreg).
  { destruct fr as [|c fr].
    - destruct (cleanup_add_fresh sys_malloc Hm 0 w1 pool p ch cl H_free a Hf1) as [H|[_ H]]; [done|].
      exfalso. by apply (Hroom eq_refl).
    - by eapply cleanup_add_reuse. }
  destruct Hreg as (p' & ch' & cl' & fr' & Hf2 & Hsp & He & _ & Hmu & Hbl & _).
  rewrite bind_ok. pose proof Hf2 as [[Hp2 _ _ _] _ _].
  assert (w_mutexes w2 !! p_mutex p' = Some d) as Hd2 by (destruct Hsp as (_ & _ & _ & -> & _); by rewrite Hmu).
  rewrite (unlock_pool_ok _ _ _ _ Hp2 Hd2), bind_ok.
  eexists _, p', ch', cl', fr'. split; [done|]. split; [lia|]. split; [|split; [done|split; [|split]]].
  - destruct Hf2 as [Hpo Hco Hu]. split; [|done|done]. apply pool_ok_mutex; [done|].
    rewrite lookup_insert_eq. by eexists.
  - eapply lookup_weaken; [|exact Hbl]. simpl. apply lookup_insert_eq.
  - exact He.
  - simpl. destruct Hsp as (_ & _ & _ & -> & _). apply lookup_insert_eq.
Qed.

Lemma palloc_large_witness :
  ∃ w', fpx_palloc bump ex_world ex_pool 100000 = Ok (Some 69632, w') ∧
        w_mutexes w' !! p_mutex ex_p = Some O.
Proof.
  destruct (palloc_large bump ex_world ex_pool ex_p ex_ch [] [] 100000 69632 0 bump_ok (proj1 ex_full))
    as (w' & _ & _ & _ & _ & H & _ & _ & _ & _ & _ & Hmu).
  - lia.
  - by vm_compute.
  - exact (proj2 ex_full).
  - intros _. by vm_compute.
  - exists w'. split; [exact H|exact Hmu].
Defined.

(** What [find_cleanup] is looking for is registered as [l1 ++ a :: l2]. *)
Lemma find_registered w pool p cl fr d data h :
  w_pools w !! pool = Some p → cleanups_ok (w_cleanups w) p cl fr → w_mutexes w !! p_mutex p = Some d →
  let w1 := set_mutexes w (<[p_mutex p := S d]> (w_mutexes w)) in
  (∃ l1 a l2, cl = l1 ++ a :: l2 ∧ matches (w_cleanups w) data h a ∧
     Forall (λ b, ¬ matches (w_cleanups w) data h b) l1 ∧
     find_cleanup (cleanup_fuel w1) w1 (p_cleanups p) None data h = Ok (Some a, final l1 None)) ∨
  (Forall (λ b, ¬ matches (w_cleanups w) data h b) cl ∧
   ∃ pr, find_cleanup (cleanup_fuel w1) w1 (p_cleanups p) None data h = Ok (None, pr)).
Proof.
  intros Hp [Hcl Hfr Hnd] Hd w1. apply (find_cleanup_ok w1); [done|]. eapply chain_length; [|done].
  by apply NoDup_app in Hnd as (? & _ & _).
Qed.

Lemma entries_unmatched m data h l :
  (∀ a, a ∈ l → is_Some (m !! a)) →
  Forall (λ b, ¬ matches m data h b) l ↔ (h, data) ∉ entries m l.
Proof.
  induction l as [|a l IH]; intros Hl; simpl; [split; [set_solver|constructor]|].
  destruct (Hl a ltac:(set_solver)) as [n Hn]. rewrite Hn, Forall_cons, IH by set_solver.
  rewrite not_elem_of_cons. unfold matches. rewrite Hn. split; intros [H1 H2]; (split; [|done]).
  - intros [= -> ->]. apply H1. eauto.
  - intros (n' & [= <-] & <- & <-). by apply H1.
Qed.

(** The outcome common to running and removing a clean-up [(h, data)]: its
    latest registration is gone and its node is kept; when there is none, the
    lists are untouched and the mutex stays locked. *)
Definition unregistered (w : world) (pool : Z) (p : fpx_pool_t) (cl fr : list Z) (d : nat)
    (h : fpx_cleanup_handler_t) (data : Z) (calls : list (fpx_cleanup_handler_t * Z)) (w' : world) : Prop :=
  (∃ p' e1 e2 cl' c, entries (w_cleanups w) cl = e1 ++ (h, data) :: e2 ∧ ((h, data) ∉ e1) ∧
     entries (w_cleanups w') cl' = e1 ++ e2 ∧
     cleanups_ok (w_cleanups w') p' cl' (c :: fr) ∧ w_pools w' = <[pool := p']> (w_pools w) ∧
     w_mutexes w' !! p_mutex p = Some d ∧ w_memnodes w' = w_memnodes w ∧
     w_trace w' = w_trace w ++ calls ∧ w_blocks w' = freed calls (w_blocks w)) ∨
  (((h, data) ∉ entries (w_cleanups w) cl) ∧
   w' = set_mutexes w (<[p_mutex p := S d]> (w_mutexes w))).

Lemma reserve_unregisters w pool p l1 a l2 fr d data h calls :
  w_pools w !! pool = Some p → cleanups_ok (w_cleanups w) p (l1 ++ a :: l2) fr →
  w_mutexes w !! p_mutex p = Some d →
  matches (w_cleanups w) data h a → Forall (λ b, ¬ matches (w_cleanups w) data h b) l1 →
  let w1 := World (freed calls (w_blocks w)) (w_memnodes w) (w_cleanups w) (w_pools w)
              (<[p_mutex p := S d]> (w_mutexes w)) (w_tid w) (w_counter w) (w_trace w ++ calls) in
  ∃ w', reserve_cleanup w1 pool a (final l1 None) = Ok w' ∧
        unregistered w pool p (l1 ++ a :: l2) fr d h data calls w'.
Proof.
  intros Hp Hcl Hd (n & Hn & Hnd & Hnh) Hl1 w1.
  assert (w_mutexes w1 !! p_mutex p = Some (S d)) as Hd1 by apply lookup_insert_eq.
  destruct (reserve_cleanup_spec w1 pool p l1 a l2 fr (S d) Hp Hcl Hd1)
    as (w' & hd & Hrun & [Hb Hm _ Hpl _ Ht] & Hcl' & He & Hmu).
  exists w'. split; [done|]. left.
  exists (p_set_free (Some a) (p_set_cleanups hd p)), (entries (w_cleanups w) l1),
    (entries (w_cleanups w) l2), (l1 ++ l2), a.
  split; [|split; [|split; [|split; [|split]]]]; try done.
  - rewrite entries_app. simpl. rewrite Hn. by subst.
  - apply entries_unmatched; [|done]. intros b Hb'. eapply chain_lookup; [apply Hcl|set_solver].
  - rewrite He, entries_app. done.
  - rewrite Hmu. split; [|done]. simpl. apply lookup_insert_eq.
Qed.

(** Removing a clean-up drops its latest registration without calling the
    handler; running it calls the handler once and drops it.  If the pair is not
    registered, both return with the pool's mutex still locked. *)
Theorem cleanup_run_remove_correct w pool p cl fr d h data :
  w_pools w !! pool = Some p → cleanups_ok (w_cleanups w) p cl fr →
  w_mutexes w !! p_mutex p = Some d → (h = H_free → plain_block w data) →
  (∃ w', fpx_pool_cleanup_remove w pool data h = Ok w' ∧
         unregistered w pool p cl fr d h data [] w') ∧
  (∃ w', fpx_pool_cleanup_run w pool data h = Ok w' ∧
         unregistered w pool p cl fr d h data [(h, data)] w').
Proof.
  intros Hp Hcl Hd Hplain.
  unfold fpx_pool_cleanup_remove, fpx_pool_cleanup_run.
  rewrite (load_pool_ok _ _ _ Hp), !bind_ok, (lock_pool_ok _ _ _ _ Hp Hd), !bind_ok.
  set (w1 := set_mutexes w _).
  destruct (find_registered w pool p cl fr d data h Hp Hcl Hd)
    as [(l1 & a & l2 & -> & Hm & Hl1 & Hfind)|(Hno & pr & Hfind)]; fold w1 in Hfind; rewrite Hfind, !bind_ok; cbn beta iota zeta.
  - split.
    + destruct (reserve_unregisters w pool p l1 a l2 fr d data h [] Hp Hcl Hd Hm Hl1) as (w' & Hr & Hu).
      exists w'. split; [|done]. simpl in Hr. rewrite app_nil_r in Hr. exact Hr.
    + rewrite call_handler_ok, bind_ok.
      * destruct (reserve_unregisters w pool p l1 a l2 fr d data h [(h, data)] Hp Hcl Hd Hm Hl1)
          as (w' & Hr & Hu). exists w'. split; [exact Hr|exact Hu].
      * intros Hh. eapply plain_block_mono; [| | | | |by apply Hplain]; simpl; try done.
        intros k Hk. by eapply insert_none.
  - apply entries_unmatched in Hno; [|intros b Hb; eapply chain_lookup; [apply Hcl|done]].
    split; exists w1; (split; [done|right; split; done]).
Qed.

Lemma cleanup_run_remove_correct_witness :
  fpx_pool_cleanup_remove ex_world ex_pool 7 (H_user 3) =
  Ok (set_mutexes ex_world (<[p_mutex ex_p := 1%nat]> (w_mutexes ex_world))).
Proof.
  destruct ex_full as [[[Hp _ _ _] Hc _] Hd].
  destruct (cleanup_run_remove_correct ex_world ex_pool ex_p [] [] 0 (H_user 3) 7 Hp Hc Hd
    ltac:(discriminate)) as [(w' & H & [(? & e1 & ? & ? & ? & He & _)|[_ ->]]) _].
  - destruct e1; discriminate He.
  - exact H.
Defined.

(** C19: Clearing a pool without children calls every registered handler once,
    the latest first, makes all memory of all nodes available again, and keeps the
    clean-up nodes for later.  Since those nodes lie in the memory that has just
    been made available, each of them may be handed out while it is still linked. *)
Theorem pool_clear_correct w pool p ch cl fr :
  pool_full w pool p ch cl fr → callable w (entries (w_cleanups w) cl) →
  p_owner p = w_tid w → p_child p = None →
  ∃ w' p', fpx_pool_clear w pool = Ok w' ∧ pool_ok w' pool p' ch ∧ same_place p p' ∧
    w_trace w' = w_trace w ++ entries (w_cleanups w) cl ∧
    w_blocks w' = freed (entries (w_cleanups w) cl) (w_blocks w) ∧
    w_mutexes w' = w_mutexes w ∧
    cleanups_ok (w_cleanups w') p' [] (rev cl ++ fr) ∧
    (∀ x, ¬ in_use (w_memnodes w') ch x) ∧
    (∀ a n, a ∈ concat ch → w_memnodes w' !! a = Some n → mn_size_avail n = mn_size n) ∧
    (cl ≠ [] → ∃ c, p_free_cleanups p' = Some c ∧ c ∈ cl ∧ in_use (w_memnodes w) ch c).
Proof.
  intros [Hpo Hco Hu] Hcall Hown Hchild.
  destruct (clear_leaf (size (w_pools w)) w pool p ch cl fr Hpo Hco Hcall Hown Hchild)
    as (w' & v & Hrun & Hpo' & Hco' & [Hr1 _] & Hb & Ht & Hm & _).
  exists w', (p_set_cleanups None (p_set_free v p)). split; [exact Hrun|].
  split; [done|]. split; [by split_and!|]. split; [done|]. split; [done|]. split; [done|]. split; [done|].
  assert (∀ a n, a ∈ concat ch → w_memnodes w' !! a = Some n →
    mn_first_avail n = mn_begin n ∧ mn_size_avail n = mn_size n) as Hreset.
  { intros a n Ha Hn. rewrite Hr1 in Hn by done.
    destruct (w_memnodes w !! a); [|done]. simpl in Hn. by injection Hn as <-. }
  split; [|split].
  - intros x (a & n & Ha & Hn & Hx). destruct (Hreset a n Ha Hn). lia.
  - intros a n Ha Hn. by apply (Hreset a n).
  - intros Hne. destruct (rev cl) as [|c l] eqn:Hrev.
    { exfalso. apply Hne. by rewrite <- (rev_involutive cl), Hrev. }
    assert (c ∈ cl) as Hc by (apply list_elem_of_In, in_rev; rewrite Hrev; by left).
    exists c. split; [|split; [done|apply Hu; set_solver]].
    destruct Hco' as [_ Hfr _]. simpl in Hfr. apply Hfr.
Qed.

Lemma outside_all {A} (m : gmap Z A) d s :
  forallb (λ kv, (kv.1 <? d) || (d + s <=? kv.1)) (map_to_list m) = true → ∀ k, d ≤ k < d + s → m !! k = None.
Proof.
  intros Hall k Hk. destruct (m !! k) as [x|] eqn:E; [|done]. exfalso.
  rewrite List.forallb_forall in Hall. specialize (Hall (k, x)). apply elem_of_map_to_list, list_elem_of_In in E.
  apply Hall in E. cbn in E. lia.
Qed.

(** A pool that has forwarded a request to the system and registered a handler since. *)
Definition ex_busy : world :=
  match ('(_, w) ← fpx_palloc bump ex_world ex_pool 100000; fpx_pool_cleanup_add bump w ex_pool 7 (H_user 3)) with
  | Ok w => w
  | _ => empty_world
  end.

Lemma ex_busy_full : ∃ p ch cl fr, pool_full ex_busy ex_pool p ch cl fr ∧ same_place ex_p p ∧
  entries (w_cleanups ex_busy) cl = [(H_user 3, 7); (H_free, 69632)].
Proof.
  destruct (palloc_large bump ex_world ex_pool ex_p ex_ch [] [] 100000 69632 0 bump_ok (proj1 ex_full))
    as (w1 & p1 & ch1 & cl1 & fr1 & H1 & _ & Hf1 & Hp1 & _ & He1 & _);
    [lia|by vm_compute|exact (proj2 ex_full)|by intros _; vm_compute|].
  destruct (cleanup_add_correct bump w1 ex_pool p1 ch1 cl1 fr1 (H_user 3) 7 bump_ok Hf1)
    as [(w2 & H2 & p2 & ch2 & cl2 & fr2 & Hf2 & Hp2 & He2 & _)|(H2 & _)].
  - exists p2, ch2, cl2, fr2. unfold ex_busy. rewrite H1, bind_ok, H2. split; [done|]. split.
    + destruct Hp1 as (? & ? & ? & ? & ?), Hp2 as (? & ? & ? & ? & ?). split_and!; congruence.
    + by rewrite He2, He1.
  - exfalso. assert (('(_, w) ← fpx_palloc bump ex_world ex_pool 100000;
      fpx_pool_cleanup_add bump w ex_pool 7 (H_user 3)) = UB) as E by by rewrite H1, bind_ok.
    vm_compute in E. discriminate E.
Qed.

(** Both handlers run, the latest first, the forwarded block is freed, and the pool's
    memory is available again. *)
Lemma pool_clear_correct_witness :
  ∃ w', fpx_pool_clear ex_busy ex_pool = Ok w' ∧ w_trace w' = [(H_user 3, 7); (H_free, 69632)] ∧
    w_blocks w' = delete 69632 (w_blocks ex_busy) ∧ is_Some (w_blocks ex_busy !! 69632) ∧
    ∃ c p' ch, p_free_cleanups p' = Some c ∧ in_use (w_memnodes ex_busy) ch c ∧ ¬ in_use (w_memnodes w') ch c.
Proof.
  destruct ex_busy_full as (p & ch & cl & fr & Hf & (_ & _ & Hchild & _ & Howner) & He).
  destruct (pool_clear_correct ex_busy ex_pool p ch cl fr Hf) as (w' & p' & H & _ & _ & Ht & Hb & _ & _ & Hu & _ & Hfree).
  - rewrite He. split.
    + intros d [Hd|[Hd|[]%not_elem_of_nil]%elem_of_cons]%elem_of_cons; [discriminate Hd|]. injection Hd as ->.
      exists 100000. split; [lia|]. split; [by vm_compute|]. intros k Hk.
      split_and!; apply (outside_all _ 69632 100000); try done; by vm_compute.
    + apply NoDup_singleton.
  - rewrite Howner. by vm_compute.
  - by rewrite Hchild.
  - exists w'. rewrite Ht, Hb, He. split; [exact H|]. split; [by vm_compute|]. split; [done|].
    split; [vm_compute; by eexists|]. destruct Hfree as (c & Hc & _ & Hin); [intros ->; discriminate He|].
    exists c, p', ch. split; [exact Hc|]. split; [exact Hin|]. apply Hu.
Defined.

(** The three size functions report, modulo 2^64, the sum of the nodes'
    usable sizes, the part of it not handed out, and the sizes of all system
    blocks; the difference of the first two is the number of bytes in use. *)
Theorem pool_sizes_correct w pool p ch :
  pool_ok w pool p ch →
  let sum f := sum_over (w_memnodes w) f (concat ch) in
  fpx_pool_get_size w pool = Ok (u64 (sum mn_size)) ∧
  fpx_pool_get_free_size w pool = Ok (u64 (sum mn_size_avail)) ∧
  fpx_pool_get_total_size w pool = Ok (u64 (sum mn_dealloc_size)) ∧
  sum mn_size - sum mn_size_avail = sum (λ n, mn_first_avail n - mn_begin n) ∧
  0 ≤ sum mn_size_avail ≤ sum mn_size ∧ sum mn_size ≤ sum mn_dealloc_size.
Proof.
  intros [Hp Hok _ _] sum. unfold fpx_pool_get_size, fpx_pool_get_free_size, fpx_pool_get_total_size.
  change 0 with (u64 0) at 1 2 3.
  rewrite (sum_slots_ok w pool p ch _ mn_size), (sum_slots_ok w pool p ch _ mn_size_avail),
    (sum_slots_ok w pool p ch _ mn_dealloc_size) by
    (try done; intros i c a n Hc Ha Hn; destruct (ns_node _ _ _ _ Hok i c a Hc Ha) as (n' & Hn' & []);
     replace n' with n in * by congruence; rewrite u64_small; unfold FPX_PAGE_SIZE in *; lia).
  rewrite drop_0. split; [done|]. split; [done|]. split; [done|].
  assert (∀ a, a ∈ concat ch → ∃ i n, w_memnodes w !! a = Some n ∧ node_ok (w_blocks w) i a n) as Hall
    by (intros a Ha; by eapply nodes_ok_elem).
  unfold sum. clear sum. induction (concat ch) as [|a l IH]; simpl; [lia|].
  destruct (Hall a ltac:(set_solver)) as (i & n & -> & []). unfold SIZEOF_MEMNODE in *.
  destruct IH as (? & ? & ?); [intros b Hb; apply Hall; set_solver|]. lia.
Qed.

Lemma pool_sizes_correct_witness :
  fpx_pool_get_free_size ex_world ex_pool = Ok 3792 ∧ fpx_pool_get_total_size ex_world ex_pool = Ok 4096.
Proof.
  destruct (pool_sizes_correct ex_world ex_pool ex_p ex_ch (pf_pool _ _ _ _ _ _ (proj1 ex_full)))
    as (_ & H1 & H2 & _).
  split; [rewrite H1|rewrite H2]; by vm_compute.
Defined.

(** The block a structure lives in. *)
Definition in_block (w : world) (k : Z) : Prop := ∃ b s, w_blocks w !! b = Some s ∧ b ≤ k < b + s.

Definition parent_ok (w : world) (q : Z) (pp : fpx_pool_t) : Prop :=
  w_pools w !! q = Some pp ∧ in_block w q ∧ is_Some (w_mutexes w !! p_mutex pp).

Lemma create_child_full sys_malloc enomem mutex_init w size a q pp :
  malloc_ok sys_malloc → blocks_ok (w_blocks w) → 0 ≤ size ≤ max_slot_request - 216 →
  sys_malloc (w_blocks w) (create_pages size * FPX_PAGE_SIZE) = Some a → parent_ok w q pp →
  let p := new_pool w size a (p_mutex pp) (Some q) (p_child pp) in
  let ch := one_node (Z.to_nat (create_pages size - 1)) a in
  ∃ w', fpx_pool_create sys_malloc enomem mutex_init w size (Some q) = Ok (FPX_OK, Some (a + 48), w') ∧
    pool_full w' (a + 48) p ch [] [] ∧ (∀ x, ¬ in_use (w_memnodes w') ch x) ∧
    w_pools w' !! q = Some (p_set_child (Some (a + 48)) pp).
Proof.
  intros Hm Hb Hs Ha (Hpp & (b & s & Hbs & Hq) & Hmu) p ch.
  destruct (create_pages_range size Hs) as (Hnp & _ & _ & _).
  assert (4096 ≤ create_pages size * FPX_PAGE_SIZE) by (unfold FPX_PAGE_SIZE; lia).
  destruct (Hm _ (create_pages size * FPX_PAGE_SIZE) _ ltac:(lia) Ha) as (Hpos & Hend & Hal & Hfree & Hdis).
  assert (q ≠ a + 48) as Hne by (destruct (Hdis b s Hbs); lia).
  destruct (create_child _ enomem mutex_init Hm w size a q pp Hs Ha Hpp Hne)
    as (w' & Hrun & Hbl & Hmn & Hp & Hmu' & Hcl & Htid & _).
  assert (w_memnodes w' !! a = Some (new_node size a (a + 264))) as Hna by (rewrite Hmn; apply lookup_insert_eq).
  exists w'. split; [done|]. split; [split|split].
  - split.
    + rewrite Hp. apply lookup_insert_eq.
    + apply one_node_ok with (new_node size a (a + 264)); [lia|done|done|].
      apply new_node_ok; try done; [rewrite Hbl; apply lookup_insert_eq| |lia].
      by rewrite Zplus_mod, (mod8_of_16 a Hal).
    + rewrite Hbl. apply (blocks_ok_malloc _ Hm); [lia|done|done].
    + simpl. by rewrite Hmu'.
  - split; simpl; try done. constructor.
  - set_solver.
  - intros x (c & n & Hbc & Hnb & Hx). unfold ch in Hbc.
    rewrite one_node_perm in Hbc by lia. apply list_elem_of_singleton in Hbc as ->.
    rewrite Hna in Hnb. injection Hnb as <-. simpl in Hx. lia.
  - rewrite Hp, lookup_insert_ne by done. apply lookup_insert_eq.
Qed.

(** C18: [fpx_pool_create] builds a consistent pool, owned by the calling thread,
    with no clean-ups and nothing handed out.  A root pool has an unlocked mutex of
    its own; a child shares its parent's and becomes the first of its children, in
    front of the previous ones. *)
Theorem pool_create_correct sys_malloc enomem mutex_init w size a parent :
  malloc_ok sys_malloc → blocks_ok (w_blocks w) → 0 ≤ size ≤ max_slot_request - 216 →
  sys_malloc (w_blocks w) (create_pages size * FPX_PAGE_SIZE) = Some a →
  match parent with
  | None => mutex_init (w_mutexes w) = FPX_OK
  | Some q => ∃ pp, parent_ok w q pp
  end →
  ∃ w' p ch, fpx_pool_create sys_malloc enomem mutex_init w size parent = Ok (FPX_OK, Some (a + 48), w') ∧
    pool_full w' (a + 48) p ch [] [] ∧ (∀ x, ¬ in_use (w_memnodes w') ch x) ∧
    p_owner p = w_tid w ∧ p_child p = None ∧ p_parent p = parent ∧
    match parent with
    | None => w_mutexes w' !! p_mutex p = Some O ∧ p_brother p = None
    | Some q => ∃ pp, w_pools w !! q = Some pp ∧ p_mutex p = p_mutex pp ∧ p_brother p = p_child pp ∧
                      w_pools w' !! q = Some (p_set_child (Some (a + 48)) pp)
    end.
Proof.
  intros Hm Hb Hs Ha Hpar. destruct parent as [q|].
  - destruct Hpar as [pp Hpp].
    destruct (create_child_full _ enomem mutex_init w size a q pp Hm Hb Hs Ha Hpp) as (w' & Hrun & Hf & Hu & Hq).
    eexists w', _, _. split; [exact Hrun|]. split; [exact Hf|]. split_and!; try done.
    exists pp. split; [apply Hpp|done].
  - destruct (create_root_full _ enomem mutex_init w size a Hm Hb Hs Ha Hpar) as (w' & Hrun & Hf & Hu & Hmu & _).
    eexists w', _, _. split; [exact Hrun|]. split; [exact Hf|]. by split_and!.
Qed.

Lemma pool_create_correct_witness :
  ∃ w', fpx_pool_create bump 12 (λ _, FPX_OK) ex_world 5000 (Some ex_pool) = Ok (FPX_OK, Some 69680, w').
Proof.
  destruct (pool_create_correct bump 12 (λ _, FPX_OK) ex_world 5000 69632 (Some ex_pool) bump_ok)
    as (w' & p & ch & H & _).
  - apply (po_blocks _ _ _ _ (pf_pool _ _ _ _ _ _ (proj1 ex_full))).
  - by vm_compute.
  - by vm_compute.
  - exists ex_p. destruct ex_full as [[[Hp _ _ _] _ _] Hd]. split; [exact Hp|]. split.
    + exists ex_a, 4096. by vm_compute.
    + rewrite Hd. by eexists.
  - exists w'. exact H.
Defined.

(** C29: Destroying a pool reads the pool's slot array after the block that holds
    the pool has been freed, unless that block sits in the very last slot: for every
    pool without children that [fpx_pool_create] can build, with whatever was
    allocated from it since, the call is undefined behaviour. *)
Theorem pool_destroy_use_after_free w pool p ch cl fr home i c s :
  pool_ok w pool p ch → cleanups_ok (w_cleanups w) p cl fr →
  callable w (entries (w_cleanups w) cl) → p_owner p = w_tid w → p_child p = None →
  ch !! i = Some c → home ∈ c → (i < 19)%nat →
  w_blocks w !! home = Some s → home ≤ pool < home + s →
  fpx_pool_destroy w pool = UB.
Proof.
  intros [Hp Hok Hb Hd] Hcl Hcall Hown Hchild Hc Hhome Hi Hs Hrange.
  unfold fpx_pool_destroy. cbn [destroy_fuel].
  rewrite (load_pool_ok _ _ _ Hp), bind_ok, Hown, Z.eqb_refl. simpl negb. cbn iota.
  destruct (run_all_ok w pool p cl fr Hp Hcl Hcall) as (m1 & v & Hrun & _ & _).
  rewrite Hrun, bind_ok. set (p' := p_set_cleanups None (p_set_free v p)) in *. set (w2 := World _ _ _ _ _ _ _ _).
  assert (w_pools w2 !! pool = Some p') as Hp2 by (simpl; by rewrite lookup_insert_eq).
  rewrite (load_pool_ok _ _ _ Hp2), bind_ok. simpl p_child. rewrite Hchild.
  assert (∀ op f, each_brother op f w2 None = Ok w2) as -> by by intros ? [].
  rewrite bind_ok.
  pose proof (nodes_ok_freed _ _ _ _ Hcall Hok) as Hok2.
  apply (free_slots_ub pool p' ch home i 20 w2 0); try done.
  - lia.
  - apply (ns_length _ _ _ _ Hok).
  - apply (ns_nodup _ _ _ _ Hok).
  - eapply blocks_ok_subseteq; [apply freed_subseteq|done].
  - by left.
  - intros j d _ Hj. destruct (nodes_ok_chain _ _ _ _ _ _ Hok2 Hj) as (hd & Hhd & Hch & _).
    exists hd. split; [done|]. split; [done|]. intros a Ha.
    destruct (ns_node _ _ _ _ Hok2 j d a Hj Ha) as (n & _ & []). eexists. split; [done|].
    unfold FPX_PAGE_SIZE in *. lia.
  - exists c, s. split; [done|]. split; [done|]. split; [|done]. simpl.
    destruct (ns_node _ _ _ _ Hok2 i c home Hc Hhome) as (n & Hn & []).
    destruct (ns_node _ _ _ _ Hok i c home Hc Hhome) as (n' & Hn' & []). congruence.
Qed.

Lemma pool_destroy_use_after_free_witness : fpx_pool_destroy ex_world ex_pool = UB.
Proof.
  destruct ex_full as [[Hpo Hc _] _].
  apply (pool_destroy_use_after_free ex_world ex_pool ex_p ex_ch [] [] ex_a 0 [ex_a] 4096 Hpo Hc).
  - split; [intros d Hd; set_solver|constructor].
  - by vm_compute.
  - done.
  - done.
  - set_solver.
  - lia.
  - by vm_compute.
  - by vm_compute.
Defined.
