(* ===== verification/Parse.v ===== *)
(** * Configuration values: [src/src/core/parse.c]

    Sizes with a K, M or G suffix, "address:port" strings and log levels.  A
    pointer into the argument is its offset; offset [-1] is the pointer in front of
    the string.  A result string is the text the code stores through its [char **]
    parameter: a copy in the pool, or a literal; [None] says that nothing has been
    stored, so that the caller's variable keeps its indeterminate value. *)

From S2P Require Import Prelude CInt Errno Str.
Open Scope Z_scope.

(** ** [fpx_config_parse_size] *)
Definition fpx_config_parse_size (str : chars) : res Z :=
  len ← fpx_strlen str;
  if len =? 0 then Ok (-1) else
  prefix ← rd str (len - 1);
  let '(len, max, scale) :=
    if (prefix =? 75) || (prefix =? 107) then (u64 (len - 1), FPX_SSIZE_T_MAX / 1024, 1024)
    else if (prefix =? 77) || (prefix =? 109) then
      (u64 (len - 1), FPX_SSIZE_T_MAX / (1024 * 1024), 1024 * 1024)
    else if (prefix =? 71) || (prefix =? 103) then
      (u64 (len - 1), FPX_SSIZE_T_MAX / (1024 * 1024 * 1024), 1024 * 1024 * 1024)
    else (len, FPX_SSIZE_T_MAX, 1) in
  size ← fpx_atosz str len;
  if (size =? -1) || (max <? size) then Ok (-1) else
  ssize_result (size * scale).

(** ** [fpx_config_parse_addr_port] *)
Definition FPX_ADDR_INVALID : Z := u32 (-1).
Definition FPX_ADDR_IPV4 : Z := 0.
Definition FPX_ADDR_IPV6 : Z := 1.

(** A stored [char *]: a string literal, or a copy at an address of the pool. *)
Inductive str_ref :=
  | Lit (s : chars)
  | Copy (a : Z) (s : chars).
Definition str_text (r : str_ref) : chars :=
  match r with Lit s => s | Copy _ s => s end.

(** The loop that moves [pos] back over the digits at the end. *)
Fixpoint skip_digits (fuel : nat) (str : chars) (pos : Z) : res Z :=
  match fuel with
  | O => NoFuel
  | S fuel =>
      if pos <? 0 then Ok pos else
      c ← rd str pos;
      if fpx_isdigit c then skip_digits fuel str (pos - 1) else Ok pos
  end.

Section Addresses.
Context {P : Type} `{PoolAlloc P}.

(** [p = fpx_palloc(pool, len + 1); fpx_memmove(p, str + from, n)]: without a
    block the copy goes through [NULL]. *)
Definition copy_out (pool : P) (str : chars) (from n size : Z) : res (Z * chars * P) :=
  '(mem, pool) ← palloc pool size;
  a ← of_option mem;
  _ ← require ((0 <=? from) && (0 <=? n) && (n <=? size));
  s ← read_bytes (drop (Z.to_nat from) str) n;
  Ok (a, s, pool).

Definition port_in_range (p : Z) : bool := negb ((p <? 1) || (65535 <? p)).

(** The result is [(rv, *addr, *port, pool)]. *)
Definition addr_port : Type := Z * option str_ref * option str_ref * P.

(** The address in front of the port: lines 109 to 136. *)
Definition parse_address (pool : P) (str : chars) (end_ : Z) (port : option str_ref) : res addr_port :=
  close_bracket ← fpx_strchr str 93;
  c0 ← rd str 0;
  cend ← rd str end_;
  let copy rv from len :=
    '(a, s, pool) ← copy_out pool str from len (u64 (len + 1));
    Ok (rv, Some (Copy a (s ++ [0])), port, pool) in
  if c0 =? 91 then
    match close_bracket with
    | None => Ok (FPX_ADDR_INVALID, None, port, pool)
    | Some b => if negb (cend =? 93) then Ok (FPX_ADDR_INVALID, None, port, pool)
                else copy FPX_ADDR_IPV6 1 (u64 (b - 1))
    end
  else
    match close_bracket with
    | Some _ => Ok (FPX_ADDR_INVALID, None, port, pool)
    | None => copy FPX_ADDR_IPV4 0 (u64 (end_ - 0 + 1))
    end.

Definition fpx_config_parse_addr_port (pool : P) (str : chars) : res addr_port :=
  len ← fpx_strlen str;
  let end_ := len - 1 in
  pos ← skip_digits (S (length str)) str end_;
  if pos <? 0 then
    int_port ← fpx_atoi str (u64 (end_ - pos));
    if negb (port_in_range int_port) then Ok (FPX_ADDR_INVALID, None, None, pool) else
    '(a, s, pool) ← copy_out pool str 0 (u64 (len + 1)) (u64 (len + 1));
    Ok (FPX_ADDR_IPV4, Some (Lit (chars_of "0.0.0.0" ++ [0])), Some (Copy a s), pool)
  else
  c ← rd str pos;
  if (c =? 58) && (pos <? end_) then
    if pos =? 0 then Ok (FPX_ADDR_INVALID, None, None, pool) else
    int_port ← fpx_atoi (drop (Z.to_nat (pos + 1)) str) (u64 (end_ - pos));
    if negb (port_in_range int_port) then Ok (FPX_ADDR_INVALID, None, None, pool) else
    len ← fpx_strlen (drop (Z.to_nat (pos + 1)) str);
    '(a, s, pool) ← copy_out pool str (pos + 1) (u64 (len + 1)) (u64 (len + 1));
    parse_address pool str (pos - 1) (Some (Copy a s))
  else parse_address pool str end_ None.
End Addresses.

(** ** [fpx_config_parse_log_level] *)
Definition FPX_LOG_INVALID_LEVEL : Z := 5.
Definition fpx_log_prio : list chars :=
  (λ s, cstr (chars_of s)) <$> ["emerg"; "error"; "warn"; "info"; "debug"]%string.

Fixpoint log_level_loop (str : chars) (prio : list chars) (i : Z) : res Z :=
  match prio with
  | [] => Ok FPX_LOG_INVALID_LEVEL
  | p :: prio => r ← fpx_strcmp str p; if r =? 0 then Ok i else log_level_loop str prio (i + 1)
  end.
Definition fpx_config_parse_log_level (str : chars) : res Z := log_level_loop str fpx_log_prio 0.

(** ** Reference notions *)

(** The factor a suffix stands for. *)
Definition suffix_scale (c : Z) : option Z :=
  if (c =? 75) || (c =? 107) then Some 1024
  else if (c =? 77) || (c =? 109) then Some (1024 * 1024)
  else if (c =? 71) || (c =? 103) then Some (1024 * 1024 * 1024) else None.

(** The number of bytes a size denotes: digits, with an optional suffix. *)
Definition size_value (s : chars) : option Z :=
  match last s with
  | None => None
  | Some c => match suffix_scale c with
              | Some k => (λ v, v * k) <$> decimal (take (length s - 1) s)
              | None => decimal s
              end
  end.

(** ** Lemmas *)
Lemma suffix_not_digit c k : suffix_scale c = Some k → 0 < k ≤ 1024 * 1024 * 1024.
Proof. unfold suffix_scale. repeat case_match; intros [= <-]; lia. Qed.

Lemma dec_acc_nonneg s v : 0 ≤ v → forallb fpx_isdigit s = true → 0 ≤ dec_acc s v.
Proof.
  revert v. induction s as [|c s IH]; intros v Hv; simpl; [done|].
  intros [Hc Hs]%andb_prop. apply IH; [|done]. unfold fpx_isdigit in Hc. lia.
Qed.
Lemma decimal_nonneg s v : decimal s = Some v → 0 ≤ v.
Proof.
  unfold decimal. destruct s as [|c s]; [done|]. case_match eqn:E; [|done].
  intros [= <-]. by apply (dec_acc_nonneg (c :: s)).
Qed.

Lemma atosz_prefix s rest n :
  (n ≤ length s)%nat → fpx_atosz (s ++ rest) (Z.of_nat n) =
    Ok (match decimal (take n s) with Some v => if v <=? FPX_SSIZE_T_MAX then v else -1 | None => -1 end).
Proof.
  intros Hn. destruct (decide (n = 0%nat)) as [->|].
  - by rewrite take_0.
  - rewrite atosz_decimal by (rewrite length_app; lia). rewrite Nat2Z.id, take_app_le by lia. done.
Qed.

(** The scaled result, for any way to choose the limit. *)
Lemma scaled_result (o : option Z) (k : Z) :
  0 < k → (∀ v, o = Some v → 0 ≤ v) →
  let size := match o with Some v => if v <=? FPX_SSIZE_T_MAX then v else -1 | None => -1 end in
  (if (size =? -1) || (FPX_SSIZE_T_MAX / k <? size) then Ok (-1) else ssize_result (size * k)) =
  Ok (match (λ v, v * k) <$> o with Some v => if v <=? FPX_SSIZE_T_MAX then v else -1 | None => -1 end).
Proof.
  intros Hk Ho size. unfold size. destruct o as [v|]; [|done]. simpl.
  specialize (Ho v eq_refl).
  assert (v <= FPX_SSIZE_T_MAX / k ↔ v * k ≤ FPX_SSIZE_T_MAX) as Hdiv.
  { split; intros Hv.
    - pose proof (Z.mul_div_le FPX_SSIZE_T_MAX k Hk). nia.
    - apply Z.div_le_lower_bound; lia. }
  destruct (Z.leb_spec v FPX_SSIZE_T_MAX).
  - rewrite (proj2 (Z.eqb_neq v (-1))) by lia. simpl.
    destruct (Z.ltb_spec (FPX_SSIZE_T_MAX / k) v), (Z.leb_spec (v * k) FPX_SSIZE_T_MAX); try lia; [done|].
    apply ssize_chk. nia.
  - simpl. destruct (Z.leb_spec (v * k) FPX_SSIZE_T_MAX); [nia|done].
Qed.

Lemma parse_size_eq s rest :
  text s → Z.of_nat (length s) < 2 ^ 63 →
  fpx_config_parse_size (s ++ 0 :: rest) =
  Ok (match size_value s with Some v => if v <=? FPX_SSIZE_T_MAX then v else -1 | None => -1 end).
Proof.
  intros Ht Hb. unfold fpx_config_parse_size. rewrite strlen_app, bind_ok by (done || lia).
  destruct (list_snoc_case s) as [->|(s' & c & ->)]; [done|].
  rewrite (proj2 (Z.eqb_neq _ 0)) by (rewrite length_app; simpl; lia).
  rewrite <- app_assoc. change ([c] ++ 0 :: rest) with (c :: 0 :: rest). rewrite rd_last, bind_ok.
  unfold size_value, suffix_scale. rewrite last_snoc, length_app in *. simpl (length [c]) in *.
  replace (length s' + 1 - 1)%nat with (length s') by lia.
  rewrite take_app_le, take_ge by lia.
  replace (u64 (Z.of_nat (length s' + 1) - 1)) with (Z.of_nat (length s')) by (rewrite u64_small; lia).
  pose proof (atosz_prefix s' (c :: 0 :: rest) (length s') ltac:(lia)) as Hat.
  rewrite take_ge in Hat by lia.
  pose proof (decimal_nonneg s') as Hnn.
  destruct ((c =? 75) || (c =? 107)); [|destruct ((c =? 77) || (c =? 109)); [|destruct ((c =? 71) || (c =? 103))]];
    cbn beta iota zeta; [rewrite Hat, bind_ok; by apply scaled_result..|].
  pose proof (atosz_prefix (s' ++ [c]) (0 :: rest) (length (s' ++ [c])) ltac:(lia)) as Hat'.
  rewrite take_ge, <- app_assoc, length_app in Hat' by lia. change ([c] ++ 0 :: rest) with (c :: 0 :: rest) in Hat'.
  simpl (length [c]) in Hat'. rewrite Hat', bind_ok.
  pose proof (scaled_result (decimal (s' ++ [c])) 1 ltac:(lia) (decimal_nonneg _)) as Hs. cbv zeta in Hs.
  rewrite Z.div_1_r in Hs. rewrite Hs. destruct (decimal (s' ++ [c])); simpl; [by rewrite Z.mul_1_r|done].
Qed.

(** *** The port at the end of the string *)
Lemma rd_app_l s c rest : rd (s ++ c :: rest) (Z.of_nat (length s)) = Ok c.
Proof. apply rd_app_r. Qed.

Lemma skip_digits_ok pre ds rest fuel :
  forallb fpx_isdigit ds = true →
  (pre = [] ∨ ∃ p c, pre = p ++ [c] ∧ fpx_isdigit c = false) → (length ds < fuel)%nat →
  skip_digits fuel (pre ++ ds ++ rest) (Z.of_nat (length pre + length ds) - 1) =
    Ok (Z.of_nat (length pre) - 1).
Proof.
  intros Hds Hpre. revert rest fuel. induction ds as [|d ds IH] using rev_ind; intros rest fuel Hf.
  - destruct fuel as [|fuel]; [simpl in Hf; lia|]. cbn [skip_digits length app]. rewrite Nat.add_0_r.
    destruct Hpre as [->|(p & c & -> & Hc)]; [done|].
    rewrite (proj2 (Z.ltb_ge _ _)) by (rewrite length_app; simpl; lia).
    rewrite <- app_assoc. change ([c] ++ rest) with (c :: rest). by rewrite rd_last, bind_ok, Hc.
  - rewrite forallb_app in Hds. apply andb_prop in Hds as [Hds Hd]. simpl in Hd.
    rewrite andb_true_r in Hd. rewrite length_app in Hf. simpl in Hf.
    destruct fuel as [|fuel]; [lia|]. cbn [skip_digits].
    rewrite (proj2 (Z.ltb_ge _ _)) by (rewrite length_app; simpl; lia).
    rewrite <- app_assoc. change ([d] ++ rest) with (d :: rest).
    replace (pre ++ ds ++ d :: rest) with ((pre ++ ds) ++ d :: rest) by by rewrite <- app_assoc.
    replace (Z.of_nat (length pre + length (ds ++ [d])) - 1) with (Z.of_nat (length (pre ++ ds)))
      by (rewrite !length_app; simpl; lia).
    rewrite rd_app_l, bind_ok, Hd, <- app_assoc.
    etransitivity; [|apply (IH Hds (d :: rest) fuel); lia].
    f_equal. rewrite length_app. lia.
Qed.

Section AddressProofs.
Context {P : Type} `{PoolAlloc P}.
Hypothesis Hpalloc : ∀ (p : P) n, ∃ a p', palloc p n = Ok (Some a, p').

Lemma copy_out_ok pool pre s post size :
  Z.of_nat (length s) ≤ size →
  ∃ a pool', copy_out pool (pre ++ s ++ post) (Z.of_nat (length pre)) (Z.of_nat (length s)) size =
             Ok (a, s, pool').
Proof using Hpalloc.
  intros Hs. destruct (Hpalloc pool size) as (a & pool' & Ha). exists a, pool'.
  unfold copy_out. rewrite Ha, bind_ok. cbn beta iota zeta. cbn [of_option]. rewrite bind_ok.
  rewrite (proj2 (Z.leb_le 0 _)), (proj2 (Z.leb_le 0 _)), (proj2 (Z.leb_le _ size)) by lia.
  cbn [andb require]. rewrite bind_ok, Nat2Z.id, drop_app_length, read_bytes_app. done.
Qed.

(** What the call stores, with the addresses of the copies left out. *)
Definition gives (r : res (addr_port (P := P))) (rv : Z) (addr port : option chars) : Prop :=
  ∃ r1 r2 pool', r = Ok (rv, r1, r2, pool') ∧ str_text <$> r1 = addr ∧ str_text <$> r2 = port.

(** The [int] the code reads from a run of digits. *)
Definition int_value (ds : chars) : Z :=
  match decimal ds with Some v => if v <=? FPX_INT_T_MAX then v else -1 | None => -1 end.

Lemma atoi_app ds rest :
  ds ≠ [] → Z.of_nat (length ds) < 2 ^ 62 →
  fpx_atoi (ds ++ rest) (u64 (Z.of_nat (length ds))) = Ok (int_value ds).
Proof using.
  intros Hne Hb. assert (0 < length ds)%nat by (destruct ds; [done|simpl; lia]).
  rewrite u64_small, atoi_decimal by (rewrite ?length_app; lia).
  by rewrite Nat2Z.id, take_app_length.
Qed.

(** A copy up to and including the terminator. *)
Lemma copy_tail pool pre s rest :
  Z.of_nat (length s) < 2 ^ 62 →
  let n := u64 (Z.of_nat (length s) + 1) in
  ∃ a pool', copy_out pool (pre ++ s ++ 0 :: rest) (Z.of_nat (length pre)) n n = Ok (a, cstr s, pool').
Proof using Hpalloc.
  intros Hb n. destruct (copy_out_ok pool pre (cstr s) rest n) as (a & pool' & Hc).
  { unfold n, cstr. rewrite length_app, u64_small; simpl; lia. }
  exists a, pool'. rewrite <- Hc. unfold n, cstr. rewrite u64_small, length_app, <- app_assoc by lia.
  f_equal. simpl. lia.
Qed.

(** The same behind one more character. *)
Lemma copy_behind pool pre c s rest :
  Z.of_nat (length s) < 2 ^ 62 →
  let n := u64 (Z.of_nat (length s) + 1) in
  ∃ a pool', copy_out pool (pre ++ c :: s ++ 0 :: rest) (Z.of_nat (length pre) + 1) n n = Ok (a, cstr s, pool').
Proof using Hpalloc.
  intros Hb n. destruct (copy_tail pool (pre ++ [c]) s rest Hb) as (a & pool' & Hc).
  exists a, pool'. rewrite <- Hc, <- app_assoc. f_equal. rewrite length_app. simpl. lia.
Qed.

Lemma port_only pool ds rest :
  text ds → ds ≠ [] → forallb fpx_isdigit ds = true → Z.of_nat (length ds) < 2 ^ 62 →
  if port_in_range (int_value ds)
  then gives (fpx_config_parse_addr_port pool (ds ++ 0 :: rest)) FPX_ADDR_IPV4
         (Some (cstr (chars_of "0.0.0.0"))) (Some (cstr ds))
  else gives (fpx_config_parse_addr_port pool (ds ++ 0 :: rest)) FPX_ADDR_INVALID None None.
Proof using Hpalloc.
  intros Ht Hne Hds Hb. unfold fpx_config_parse_addr_port.
  rewrite strlen_app, bind_ok by (done || lia). cbv zeta.
  pose proof (skip_digits_ok [] ds (0 :: rest) (S (length (ds ++ 0 :: rest))) Hds (or_introl eq_refl)) as Hsk.
  simpl (length [] + _)%nat in Hsk. rewrite app_nil_l in Hsk.
  rewrite Hsk, bind_ok by (rewrite length_app; lia).
  change (Z.of_nat (length []) - 1) with (-1). change (-1 <? 0) with true. cbn iota.
  replace (Z.of_nat (length ds) - 1 - -1) with (Z.of_nat (length ds)) by lia.
  rewrite atoi_app, bind_ok by done.
  destruct (port_in_range (int_value ds)); cbn [negb].
  - destruct (copy_tail pool [] ds rest Hb) as (a & pool' & Hc). rewrite app_nil_l in Hc.
    change (Z.of_nat (length [])) with 0 in Hc.
    rewrite Hc, bind_ok. by eexists _, _, _.
  - by eexists _, _, _.
Qed.

(** A string that ends in a non-digit and digits. *)
Lemma before_digits pool h c ds rest :
  text (h ++ c :: ds) → fpx_isdigit c = false → forallb fpx_isdigit ds = true →
  Z.of_nat (length (h ++ c :: ds)) < 2 ^ 62 →
  let str := h ++ c :: ds ++ 0 :: rest in
  fpx_config_parse_addr_port pool str =
  if (c =? 58) && negb (bool_decide (ds = [])) then
    if bool_decide (h = []) then Ok (FPX_ADDR_INVALID, None, None, pool)
    else if port_in_range (int_value ds) then
      '(a, s, pool) ← copy_out pool str (Z.of_nat (length h) + 1)
         (u64 (Z.of_nat (length ds) + 1)) (u64 (Z.of_nat (length ds) + 1));
      parse_address pool str (Z.of_nat (length h) - 1) (Some (Copy a s))
    else Ok (FPX_ADDR_INVALID, None, None, pool)
  else parse_address pool str (Z.of_nat (length (h ++ c :: ds)) - 1) None.
Proof using.
  intros Ht Hc Hds Hb str. unfold fpx_config_parse_addr_port.
  assert (str = (h ++ c :: ds) ++ 0 :: rest) as Hstr by (unfold str; by rewrite <- app_assoc).
  assert (fpx_strlen str = Ok (Z.of_nat (length (h ++ c :: ds)))) as -> by (rewrite Hstr; apply strlen_app; [done|lia]).
  rewrite bind_ok. cbv zeta.
  pose proof (skip_digits_ok (h ++ [c]) ds (0 :: rest) (S (length str)) Hds) as Hsk.
  replace ((h ++ [c]) ++ ds ++ 0 :: rest) with str in Hsk by (unfold str; by rewrite <- app_assoc).
  replace (length (h ++ [c]) + length ds)%nat with (length (h ++ c :: ds)) in Hsk
    by (rewrite !length_app; simpl; lia).
  rewrite length_app in *. simpl (length (c :: ds)) in *.
  rewrite Hsk, bind_ok; [|eauto|unfold str; rewrite length_app; simpl; rewrite length_app; lia].
  replace (Z.of_nat (length (h ++ [c])) - 1) with (Z.of_nat (length h)) by (rewrite length_app; simpl; lia).
  rewrite (proj2 (Z.ltb_ge _ _)) by lia. assert (rd str (Z.of_nat (length h)) = Ok c) as -> by apply rd_app_l. rewrite bind_ok.
  assert ((Z.of_nat (length h) <? Z.of_nat (length h + S (length ds)) - 1) = negb (bool_decide (ds = []))) as ->.
  { destruct ds as [|d ds]; simpl; [apply Z.ltb_ge|apply Z.ltb_lt]; lia. }
  destruct ((c =? 58) && negb (bool_decide (ds = []))) eqn:Hport; [|done].
  assert (ds ≠ []) as Hne by (intros ->; by rewrite andb_false_r in Hport).
  assert ((Z.of_nat (length h) =? 0) = bool_decide (h = [])) as ->.
  { by destruct h. }
  destruct (bool_decide (h = [])); [done|].
  assert (drop (Z.to_nat (Z.of_nat (length h) + 1)) str = ds ++ 0 :: rest) as ->.
  { unfold str. replace (Z.to_nat (Z.of_nat (length h) + 1)) with (length (h ++ [c])) by (rewrite length_app; simpl; lia).
    change (c :: ds ++ 0 :: rest) with ([c] ++ ds ++ 0 :: rest). by rewrite app_assoc, drop_app_length. }
  replace (Z.of_nat (length h + S (length ds)) - 1 - Z.of_nat (length h)) with (Z.of_nat (length ds)) by lia.
  rewrite atoi_app, bind_ok by (done || lia). destruct (port_in_range (int_value ds)); [|done]. cbn [negb].
  rewrite strlen_app, bind_ok; [done| |lia].
  unfold text in Ht. apply Forall_app in Ht as [_ Ht]. by apply Forall_cons in Ht as [_ Ht].
Qed.

(** An address without brackets, followed by a terminator or a port. *)
Lemma plain_address pool h tail port :
  text (h ++ tail) → h ≠ [] → head h ≠ Some 91 → Forall (λ x, (x =? 93) = false) (h ++ tail) →
  Z.of_nat (length (h ++ tail)) < 2 ^ 62 → ∀ rest,
  gives (parse_address pool ((h ++ tail) ++ 0 :: rest) (Z.of_nat (length h) - 1) port)
    FPX_ADDR_IPV4 (Some (cstr h)) (str_text <$> port).
Proof using Hpalloc.
  intros Ht Hne Hhd Hno Hb rest. unfold parse_address.
  rewrite strchr_index, bind_ok by (done || lia).
  rewrite (proj2 (index_of_None _ _) Hno).
  destruct h as [|c0 h0]; [done|]. set (h := c0 :: h0) in *.
  assert (rd ((h ++ tail) ++ 0 :: rest) 0 = Ok c0) as -> by done. rewrite bind_ok.
  rewrite length_app in Hb.
  assert (∃ ce, rd ((h ++ tail) ++ 0 :: rest) (Z.of_nat (length h) - 1) = Ok ce) as [ce ->].
  { assert (Z.to_nat (Z.of_nat (length h) - 1) < length ((h ++ tail) ++ 0%Z :: rest))%nat as Hlt
      by (rewrite !length_app; simpl; lia).
    apply lookup_lt_is_Some_2 in Hlt as [ce Hce]. exists ce. apply rd_lookup; [simpl; lia|done]. }
  rewrite bind_ok. cbv zeta. rewrite (proj2 (Z.eqb_neq c0 91)) by (intros ->; done).
  replace (u64 (Z.of_nat (length h) - 1 - 0 + 1)) with (Z.of_nat (length h)) by (rewrite u64_small; lia).
  destruct (copy_out_ok pool [] h (tail ++ 0 :: rest) (u64 (Z.of_nat (length h) + 1))) as (a & pool' & Hc).
  { rewrite u64_small; lia. }
  rewrite app_nil_l in Hc. rewrite <- app_assoc. change (Z.of_nat (length [])) with 0 in Hc.
  rewrite Hc, bind_ok. by eexists _, _, _.
Qed.

(** An address in brackets. *)
Lemma bracket_address pool v tail port rest :
  text (91 :: v ++ 93 :: tail) → Forall (λ x, (x =? 93) = false) v →
  Z.of_nat (length (91 :: v ++ 93 :: tail)) < 2 ^ 62 →
  gives (parse_address pool ((91 :: v ++ 93 :: tail) ++ 0 :: rest) (Z.of_nat (length v) + 1) port)
    FPX_ADDR_IPV6 (Some (cstr v)) (str_text <$> port).
Proof using Hpalloc.
  intros Ht Hno Hb. unfold parse_address. rewrite strchr_index, bind_ok by (done || lia).
  assert (index_of (λ x, x =? 93) (91 :: v ++ 93 :: tail) = Some (Z.of_nat (length v) + 1)) as ->.
  { cbn [index_of]. change (91 =? 93) with false. cbn iota.
    rewrite index_of_app, (proj2 (index_of_None _ _) Hno). cbn [index_of]. change (93 =? 93) with true.
    simpl. f_equal. lia. }
  assert (rd ((91 :: v ++ 93 :: tail) ++ 0 :: rest) 0 = Ok 91) as -> by done. rewrite bind_ok.
  assert (rd ((91 :: v ++ 93 :: tail) ++ 0 :: rest) (Z.of_nat (length v) + 1) = Ok 93) as ->.
  { pose proof (rd_app_l (91 :: v) 93 (tail ++ 0 :: rest)) as Hr. cbn [app] in *. rewrite <- app_assoc. cbn [app].
    rewrite <- Hr. f_equal. simpl length. lia. }
  rewrite bind_ok. cbv zeta. change (91 =? 91) with true. change (93 =? 93) with true. cbn [negb].
  simpl length in Hb. rewrite length_app in Hb.
  replace (u64 (Z.of_nat (length v) + 1 - 1)) with (Z.of_nat (length v)) by (rewrite u64_small; lia).
  destruct (copy_out_ok pool [91] v (93 :: tail ++ 0 :: rest) (u64 (Z.of_nat (length v) + 1))) as (a & pool' & Hc).
  { rewrite u64_small; lia. }
  replace ((91 :: v ++ 93 :: tail) ++ 0 :: rest) with ([91] ++ v ++ 93 :: tail ++ 0 :: rest)
    by (simpl; by rewrite <- app_assoc).
  change (Z.of_nat (length [91])) with 1 in Hc. rewrite Hc, bind_ok. by eexists _, _, _.
Qed.
End AddressProofs.

(** ** Properties *)

(** C25: [fpx_config_parse_size] returns the number of bytes the string denotes,
    decimal digits scaled by an optional K, M or G of either case; it returns -1
    for anything else and for values above the largest [ssize_t], and no signed
    overflow happens on the way. *)
Theorem parse_size_correct s rest :
  text s → Z.of_nat (length s) < 2 ^ 63 →
  fpx_config_parse_size (s ++ 0 :: rest) =
  Ok (match size_value s with Some v => if v <=? FPX_SSIZE_T_MAX then v else -1 | None => -1 end).
Proof. apply parse_size_eq. Qed.

Lemma parse_size_correct_witness :
  fpx_config_parse_size (chars_of "16M" ++ [0]) = Ok 16777216 ∧
  fpx_config_parse_size (chars_of "9007199254740992K" ++ [0]) = Ok (-1).
Proof.
  split; (etransitivity; [apply parse_size_correct; [repeat constructor; vm_compute; congruence|by vm_compute]|by vm_compute]).
Defined.

Lemma last_digit ds : ds ≠ [] → forallb fpx_isdigit ds = true →
  ∃ c, last ds = Some c ∧ suffix_scale c = None.
Proof.
  intros Hne Hds. destruct (list_snoc_case ds) as [->|(d & c & ->)]; [done|].
  exists c. split; [apply last_snoc|]. rewrite forallb_app in Hds. apply andb_prop in Hds as [_ Hc].
  simpl in Hc. rewrite andb_true_r in Hc. apply isdigit_range in Hc. unfold suffix_scale.
  by rewrite !(proj2 (Z.eqb_neq c _)) by lia.
Qed.

(** A printed number, bare or with a unit behind it, is read back as that
    many bytes, kibibytes, mebibytes or gibibytes, for every value that fits. *)
Theorem parse_size_roundtrip v c k rest :
  0 ≤ v → suffix_scale c = Some k → v * k ≤ FPX_SSIZE_T_MAX → c ≠ 0 → -128 ≤ c < 128 →
  Z.of_nat (length (print_dec v)) < 2 ^ 62 →
  fpx_config_parse_size (print_dec v ++ 0 :: rest) = Ok v ∧
  fpx_config_parse_size (print_dec v ++ c :: 0 :: rest) = Ok (v * k).
Proof.
  intros Hv Hc Hmax Hc0 Hcr Hlen. pose proof (suffix_not_digit c k Hc).
  destruct (print_dec_ok v Hv) as (Hdec & Hdig & Hne).
  pose proof (digits_text _ Hdig) as Ht. split.
  - rewrite parse_size_eq by (done || lia). unfold size_value.
    destruct (last_digit _ Hne Hdig) as (c' & -> & ->). rewrite Hdec.
    by rewrite (proj2 (Z.leb_le _ _)) by (unfold FPX_SSIZE_T_MAX in *; nia).
  - change (c :: 0 :: rest) with ([c] ++ 0 :: rest). rewrite app_assoc, parse_size_eq.
    + unfold size_value. rewrite last_snoc, Hc, length_app. simpl (length [c]).
      rewrite Nat.add_sub, take_app_length, Hdec. simpl. by rewrite (proj2 (Z.leb_le _ _)).
    + apply Forall_app. split; [exact Ht|]. by apply Forall_singleton.
    + rewrite length_app. simpl. lia.
Qed.

Lemma parse_size_roundtrip_witness :
  fpx_config_parse_size (print_dec 512 ++ 107 :: [0]) = Ok 524288.
Proof.
  refine (proj2 (parse_size_roundtrip 512 107 1024 [] _ _ _ _ _ _));
    [lia|reflexivity|vm_compute; discriminate|lia|lia|by vm_compute].
Defined.

Lemma int_value_print p : 0 ≤ p → int_value (print_dec p) = if p <=? FPX_INT_T_MAX then p else -1.
Proof. intros Hp. unfold int_value. by destruct (print_dec_ok p Hp) as (-> & _). Qed.

Lemma port_range_print p : 0 ≤ p → port_in_range (int_value (print_dec p)) = bool_decide (1 ≤ p ≤ 65535).
Proof.
  intros Hp. rewrite int_value_print by done. unfold port_in_range, FPX_INT_T_MAX.
  destruct (Z.leb_spec p 2147483647), (Z.ltb_spec p 1), (Z.ltb_spec 65535 p); simpl;
    symmetry; case_bool_decide; done || lia.
Qed.

(** The text of a host: no brackets that would be taken for an IPv6 address. *)
Definition host_text (h : chars) : Prop :=
  text h ∧ h ≠ [] ∧ head h ≠ Some 91 ∧ Forall (λ x, (x =? 93) = false) h.

Lemma digits_not_bracket ds : forallb fpx_isdigit ds = true → Forall (λ x, (x =? 93) = false) ds.
Proof.
  intros H. apply Forall_forall. intros x Hx. apply forallb_forall with (x := x) in H; [|by apply list_elem_of_In].
  apply isdigit_range in H. apply Z.eqb_neq. lia.
Qed.

Section AddressProperties.
Context {P : Type} `{PoolAlloc P}.

Lemma addr_port_ok pool host v p rest :
  (∀ (q : P) n, ∃ a q', palloc q n = Ok (Some a, q')) →
  host_text host → text v → Forall (λ x, (x =? 93) = false) v → 0 ≤ p →
  Z.of_nat (length host + length v + length (print_dec p)) + 3 < 2 ^ 62 →
  let parse s := fpx_config_parse_addr_port pool (s ++ 0 :: rest) in
  let port := print_dec p in
  (1 ≤ p ≤ 65535 →
     gives (parse port) FPX_ADDR_IPV4 (Some (cstr (chars_of "0.0.0.0"))) (Some (cstr port)) ∧
     gives (parse (host ++ [58] ++ port)) FPX_ADDR_IPV4 (Some (cstr host)) (Some (cstr port)) ∧
     gives (parse ([91] ++ v ++ [93; 58] ++ port)) FPX_ADDR_IPV6 (Some (cstr v)) (Some (cstr port))) ∧
  (¬ (1 ≤ p ≤ 65535) →
     gives (parse port) FPX_ADDR_INVALID None None ∧
     gives (parse (host ++ [58] ++ port)) FPX_ADDR_INVALID None None ∧
     gives (parse ([91] ++ v ++ [93; 58] ++ port)) FPX_ADDR_INVALID None None).
Proof.
  intros Hpal (Hth & Hne & Hhd & Hno) Htv Hnov Hp Hlen parse port.
  destruct (print_dec_ok p Hp) as (_ & Hdig & Hpne). fold port in Hdig, Hpne, Hlen.
  pose proof (digits_text _ Hdig) as Htp. pose proof (port_range_print p Hp) as Hrange. fold port in Hrange.
  pose proof (port_only Hpal pool port rest Htp Hpne Hdig ltac:(lia)) as H1. rewrite Hrange in H1.
  assert (text (host ++ 58 :: port)) as Ht2 by (apply Forall_app; split; [done|by constructor]).
  assert (text ((91 :: v ++ [93]) ++ 58 :: port)) as Ht3.
  { apply Forall_app; split; [|by constructor]. constructor; [done|]. apply Forall_app. split; [done|by apply Forall_singleton]. }
  assert (parse ([91] ++ v ++ [93; 58] ++ port) = fpx_config_parse_addr_port pool
            ((91 :: v ++ [93]) ++ 58 :: port ++ 0 :: rest)) as H3eq.
  { unfold parse. f_equal. simpl. f_equal. rewrite <- !app_assoc. done. }
  assert (parse (host ++ [58] ++ port) = fpx_config_parse_addr_port pool (host ++ 58 :: port ++ 0 :: rest)) as H2eq.
  { unfold parse. f_equal. simpl. by rewrite <- app_assoc. }
  rewrite H3eq, H2eq.
  rewrite (before_digits pool host 58 port rest) by (try done; rewrite length_app; simpl; lia).
  rewrite (before_digits pool (91 :: v ++ [93]) 58 port rest)
    by (try done; rewrite length_app; simpl; rewrite length_app; simpl; lia).
  change (58 =? 58) with true. rewrite (bool_decide_false (port = [])) by done.
  rewrite (bool_decide_false (host = [])) by done. rewrite (bool_decide_false (91 :: v ++ [93] = [])) by done.
  cbn [andb negb]. rewrite Hrange. split; intros Hr.
  - rewrite bool_decide_true in * by done. split; [exact H1|]. split.
    + destruct (copy_behind Hpal pool host 58 port rest ltac:(lia)) as (a & pool' & Hc).
      rewrite Hc, bind_ok.
      replace (host ++ 58 :: port ++ 0 :: rest) with ((host ++ 58 :: port) ++ 0 :: rest) by by rewrite <- app_assoc.
      apply (plain_address Hpal pool' host (58 :: port) (Some (Copy a (cstr port)))); try done.
      * apply Forall_app. split; [done|]. constructor; [done|by apply digits_not_bracket].
      * rewrite length_app. simpl. lia.
    + destruct (copy_behind Hpal pool (91 :: v ++ [93]) 58 port rest ltac:(lia)) as (a & pool' & Hc).
      rewrite Hc, bind_ok.
      replace ((91 :: v ++ [93]) ++ 58 :: port ++ 0 :: rest) with ((91 :: v ++ 93 :: 58 :: port) ++ 0 :: rest)
        by (simpl; f_equal; by rewrite <- !app_assoc).
      replace (Z.of_nat (length (91 :: v ++ [93])) - 1) with (Z.of_nat (length v) + 1)
        by (simpl; rewrite length_app; simpl; lia).
      apply (bracket_address Hpal pool' v (58 :: port) (Some (Copy a (cstr port)))); try done.
      * simpl in Ht3. by rewrite <- app_assoc in Ht3.
      * simpl. rewrite length_app. simpl. lia.
  - rewrite bool_decide_false in * by done. split; [exact H1|]. split; by eexists _, _, _.
Qed.

(** C35: With a pool that has memory, "port", "host:port" and "[v6]:port" are taken
    apart into exactly the address and port they were put together from, with
    0.0.0.0 for a missing address; the bracketed form is reported as IPv6.  A port
    outside 1 to 65535, of any number of digits, is rejected. *)
Theorem addr_port_roundtrip pool host v p rest :
  (∀ (q : P) n, ∃ a q', palloc q n = Ok (Some a, q')) →
  host_text host → text v → Forall (λ x, (x =? 93) = false) v → 0 ≤ p →
  Z.of_nat (length host + length v + length (print_dec p)) + 3 < 2 ^ 62 →
  let parse s := fpx_config_parse_addr_port pool (s ++ 0 :: rest) in
  let port := print_dec p in
  (1 ≤ p ≤ 65535 →
     gives (parse port) FPX_ADDR_IPV4 (Some (cstr (chars_of "0.0.0.0"))) (Some (cstr port)) ∧
     gives (parse (host ++ [58] ++ port)) FPX_ADDR_IPV4 (Some (cstr host)) (Some (cstr port)) ∧
     gives (parse ([91] ++ v ++ [93; 58] ++ port)) FPX_ADDR_IPV6 (Some (cstr v)) (Some (cstr port))) ∧
  (¬ (1 ≤ p ≤ 65535) →
     gives (parse port) FPX_ADDR_INVALID None None ∧
     gives (parse (host ++ [58] ++ port)) FPX_ADDR_INVALID None None ∧
     gives (parse ([91] ++ v ++ [93; 58] ++ port)) FPX_ADDR_INVALID None None).
Proof. intros Hpal Hh Ht Hno Hp Hb. by apply addr_port_ok. Qed.
End AddressProperties.

Lemma addr_port_roundtrip_witness :
  gives
    (fpx_config_parse_addr_port (P := Z) (H := λ p n, Ok (Some p, p + n)) 4096
       ([91] ++ chars_of "::1" ++ [93; 58] ++ print_dec 8080 ++ [0]))
    FPX_ADDR_IPV6 (Some (cstr (chars_of "::1"))) (Some (cstr (print_dec 8080))).
Proof.
  destruct (addr_port_roundtrip (P := Z) (H := λ p n, Ok (Some p, p + n)) 4096
    (chars_of "localhost") (chars_of "::1") 8080 []) as [H _].
  - intros q n. by eexists _, _.
  - split; [repeat constructor; vm_compute; congruence|]. split; [discriminate|]. split; [discriminate|].
    by repeat constructor.
  - repeat constructor; vm_compute; congruence.
  - by repeat constructor.
  - lia.
  - by vm_compute.
  - destruct (H ltac:(lia)) as (_ & _ & H3). exact H3.
Defined.

Section MorePlainAddresses.
Context {P : Type} `{PoolAlloc P}.

(** For a host with no ":port" behind it the call succeeds and stores the
    address, but stores nothing through [port]: the caller's pointer keeps the
    indeterminate value it had. *)
Theorem addr_without_port pool h c ds rest :
  (∀ (q : P) n, ∃ a q', palloc q n = Ok (Some a, q')) →
  host_text (h ++ c :: ds) → fpx_isdigit c = false → forallb fpx_isdigit ds = true →
  (c = 58 → ds = []) → Z.of_nat (length (h ++ c :: ds)) < 2 ^ 62 →
  gives (fpx_config_parse_addr_port pool ((h ++ c :: ds) ++ 0 :: rest))
    FPX_ADDR_IPV4 (Some (cstr (h ++ c :: ds))) None.
Proof.
  intros Hpal (Ht & Hne & Hhd & Hno) Hc Hds Hport Hb.
  rewrite <- app_assoc. change ((c :: ds) ++ 0 :: rest) with (c :: ds ++ 0 :: rest).
  rewrite before_digits by done.
  assert ((c =? 58) && negb (bool_decide (ds = [])) = false) as ->.
  { destruct (Z.eqb_spec c 58) as [E|]; [|done]. by rewrite (Hport E). }
  pose proof (plain_address Hpal pool (h ++ c :: ds) [] None) as Hp. rewrite app_nil_r in Hp.
  specialize (Hp Ht Hne Hhd Hno Hb rest). rewrite <- app_assoc in Hp. exact Hp.
Qed.
End MorePlainAddresses.

Lemma addr_without_port_witness :
  gives (fpx_config_parse_addr_port (P := Z) (H := λ p n, Ok (Some p, p + n)) 4096
           (chars_of "localhost" ++ [0]))
    FPX_ADDR_IPV4 (Some (cstr (chars_of "localhost"))) None.
Proof.
  refine (addr_without_port (P := Z) (H := λ p n, Ok (Some p, p + n)) 4096
    (chars_of "localhos") 116 [] [] _ _ _ _ _ _).
  - intros q n. by eexists _, _.
  - split; [repeat constructor; vm_compute; congruence|]. split; [discriminate|]. split; [discriminate|].
    by repeat constructor.
  - done.
  - done.
  - done.
  - by vm_compute.
Defined.

Definition level_names : list chars :=
  (chars_of <$> ["emerg"; "error"; "warn"; "info"; "debug"]%string).

Lemma log_level_loop_ok s names i :
  text s → Forall text names →
  ∃ r, log_level_loop (cstr s) (cstr <$> names) i = Ok r ∧
    ((∃ k, names !! k = Some s ∧ r = i + Z.of_nat k ∧ s ∉ take k names) ∨
     ((s ∉ names) ∧ r = FPX_LOG_INVALID_LEVEL)).
Proof.
  intros Hs. revert i. induction names as [|n names IH]; intros i Hn.
  - exists FPX_LOG_INVALID_LEVEL. split; [done|]. right. set_solver.
  - apply Forall_cons in Hn as [Hn Hns]. rewrite fmap_cons. cbn [log_level_loop].
    destruct (strcmp_eq s n Hs Hn) as (d & -> & Hd). rewrite bind_ok.
    destruct (Z.eqb_spec d 0) as [E|E].
    + apply Hd in E as ->. exists i. split; [done|]. left. exists 0%nat. split; [done|].
      split; [lia|set_solver].
    + assert (s ≠ n) as Hne by tauto. destruct (IH (i + 1) Hns) as (r & -> & [(k & Hk & -> & Ht)|[Hr ->]]).
      * eexists. split; [done|]. left. exists (S k). split; [done|]. split; [lia|]. simpl. set_solver.
      * eexists. split; [done|]. right. set_solver.
Qed.

(** A log level is recognised exactly by its name, and its number is the
    position of the name; every other text gives FPX_LOG_INVALID_LEVEL. *)
Theorem parse_log_level_correct s :
  text s →
  ∃ r, fpx_config_parse_log_level (cstr s) = Ok r ∧
    (∀ k, (k < 5)%nat → r = Z.of_nat k ↔ level_names !! k = Some s) ∧
    (r = FPX_LOG_INVALID_LEVEL ↔ s ∉ level_names).
Proof.
  intros Hs. assert (Forall text level_names) as Hn by (repeat constructor; vm_compute; congruence).
  destruct (log_level_loop_ok s level_names 0 Hs Hn) as (r & Hr & Hcase).
  exists r. split; [exact Hr|].
  assert (NoDup level_names) as Hnd by (apply (bool_decide_unpack _); by vm_compute).
  destruct Hcase as [(k & Hk & -> & _)|[Hno ->]].
  - assert (k < 5)%nat as Hk5 by (apply lookup_lt_Some in Hk; exact Hk).
    split.
    + intros j Hj. split; [intros E; by replace j with k by lia|].
      intros Hj'. rewrite (NoDup_lookup _ _ _ _ Hnd Hj' Hk). lia.
    + unfold FPX_LOG_INVALID_LEVEL. split; [lia|]. intros Hno. exfalso. apply Hno.
      by eapply list_elem_of_lookup_2.
  - split; [|done]. intros k Hk. unfold FPX_LOG_INVALID_LEVEL. split; [lia|].
    intros Hk'. exfalso. apply Hno. by eapply list_elem_of_lookup_2.
Qed.

Lemma parse_log_level_correct_witness : ∃ r, fpx_config_parse_log_level (cstr (chars_of "warn")) = Ok r ∧ r = 2.
Proof.
  destruct (parse_log_level_correct (chars_of "warn")) as (r & H & Hk & _).
  - repeat constructor; vm_compute; congruence.
  - exists r. split; [exact H|]. apply (Hk 2%nat); [lia|reflexivity].
Defined.
