(* ===== verification/Filesys.v ===== *)
(** * Files and paths: [src/src/system/filesys.c]

    The POSIX half of the file, the functions common to both halves, and the two
    pure functions of the Windows half, which translate a UTF-8 path to UTF-16; the
    other functions of that half are in WinFiles.v.

    The operating system is the interface [Posix]: one field per system call, on
    a state [W] of its own.  A [fpx_dir_t] is the handle of [opendir] with the
    current entry, as with FPX_HAVE_D_TYPE. *)

From S2P Require Import Prelude CInt Errno Str.
Open Scope Z_scope.

(** ** System calls *)

(** A failing call answers -1 (or no handle) and sets [errno]. *)
Class Posix (W : Type) := {
  sys_errno : W → Z;
  sys_open : W → chars → Z → Z → Z * W;
  sys_close : W → Z → W;
  sys_lseek : W → Z → Z → Z → Z * W;
  sys_read : W → Z → Z → Z * chars * W;
  sys_write : W → Z → chars → Z * W;
  sys_stat : W → chars → option Z * W;
  sys_fstat : W → Z → option Z * W;
  sys_opendir : W → chars → option Z * W;
  sys_readdir : W → Z → option (chars * Z) * W;
  sys_closedir : W → Z → W;
  sys_glob : W → chars → Z * list chars * W
}.

Definition SEEK_SET : Z := 0.
Definition SEEK_CUR : Z := 1.
Definition SEEK_END : Z := 2.

(** ** File types and permissions *)

(** [st_mode] on Linux: the type in bits 12 to 15, then set-id and sticky bits,
    then three permission triples. *)
Definition S_IFMT (mode : Z) : Z := Z.land mode 61440.
Definition S_ISREG (mode : Z) : bool := S_IFMT mode =? 32768.
Definition S_ISDIR (mode : Z) : bool := S_IFMT mode =? 16384.
Definition S_ISCHR (mode : Z) : bool := S_IFMT mode =? 8192.
Definition S_ISBLK (mode : Z) : bool := S_IFMT mode =? 24576.
Definition S_ISFIFO (mode : Z) : bool := S_IFMT mode =? 4096.
Definition S_ISLNK (mode : Z) : bool := S_IFMT mode =? 40960.
Definition S_ISSOCK (mode : Z) : bool := S_IFMT mode =? 49152.

(** The values of [DT_REG] and its like. *)
Definition FPX_FILE_TYPE_UNKFILE : Z := 0.
Definition FPX_FILE_TYPE_FILE : Z := 8.
Definition FPX_FILE_TYPE_DIR : Z := 4.
Definition FPX_FILE_TYPE_CHR : Z := 2.
Definition FPX_FILE_TYPE_BLK : Z := 6.
Definition FPX_FILE_TYPE_PIPE : Z := 1.
Definition FPX_FILE_TYPE_LINK : Z := 10.
Definition FPX_FILE_TYPE_SOCK : Z := 12.

Definition fpx_stat_get_file_type (mode : Z) : Z :=
  let type := FPX_FILE_TYPE_UNKFILE in
  let type := if S_ISREG mode then FPX_FILE_TYPE_FILE else type in
  let type := if S_ISDIR mode then FPX_FILE_TYPE_DIR else type in
  let type := if S_ISCHR mode then FPX_FILE_TYPE_CHR else type in
  let type := if S_ISBLK mode then FPX_FILE_TYPE_BLK else type in
  let type := if S_ISFIFO mode then FPX_FILE_TYPE_PIPE else type in
  let type := if S_ISLNK mode then FPX_FILE_TYPE_LINK else type in
  let type := if S_ISSOCK mode then FPX_FILE_TYPE_SOCK else type in
  type.

(** [if (mode & bit) access |= flag] *)
Definition add_access (mode bit flag access : Z) : Z :=
  if Z.land mode bit =? 0 then access else Z.lor access flag.

Definition FPX_FILE_ACCESS_USETID : Z := 32768.
Definition FPX_FILE_ACCESS_UR : Z := 1024.
Definition FPX_FILE_ACCESS_UW : Z := 512.
Definition FPX_FILE_ACCESS_UX : Z := 256.
Definition FPX_FILE_ACCESS_GSETID : Z := 16384.
Definition FPX_FILE_ACCESS_GR : Z := 64.
Definition FPX_FILE_ACCESS_GW : Z := 32.
Definition FPX_FILE_ACCESS_GX : Z := 16.
Definition FPX_FILE_ACCESS_STICKY : Z := 8192.
Definition FPX_FILE_ACCESS_OR : Z := 4.
Definition FPX_FILE_ACCESS_OW : Z := 2.
Definition FPX_FILE_ACCESS_OX : Z := 1.

Definition fpx_stat_get_access (mode : Z) : Z :=
  let access := 0 in
  let access := add_access mode 2048 FPX_FILE_ACCESS_USETID access in
  let access := add_access mode 256 FPX_FILE_ACCESS_UR access in
  let access := add_access mode 128 FPX_FILE_ACCESS_UW access in
  let access := add_access mode 64 FPX_FILE_ACCESS_UX access in
  let access := add_access mode 1024 FPX_FILE_ACCESS_GSETID access in
  let access := add_access mode 32 FPX_FILE_ACCESS_GR access in
  let access := add_access mode 16 FPX_FILE_ACCESS_GW access in
  let access := add_access mode 8 FPX_FILE_ACCESS_GX access in
  let access := add_access mode 512 FPX_FILE_ACCESS_STICKY access in
  let access := add_access mode 4 FPX_FILE_ACCESS_OR access in
  let access := add_access mode 2 FPX_FILE_ACCESS_OW access in
  let access := add_access mode 1 FPX_FILE_ACCESS_OX access in
  access.

(** ** Files *)
Record fpx_file_t := File { f_fd : Z; f_name : option chars; f_offset : Z }.
Record fpx_file_info_t := FileInfo { i_type : Z; i_access : Z; i_stat : Z }.

Definition FPX_INVALID_FILE : Z := -1.
Definition FPX_FILE_RDONLY : Z := 0.
Definition FPX_FILE_OPEN : Z := 0.
Definition FPX_FILE_DEFAULT_ACCESS : Z := 420.

Section Files.
Context {W : Type} `{Posix W}.

(** The [fpx_file_t] behind the pointer is returned with its new contents. *)
Definition fpx_file_open (w : W) (path : chars) (mode create access : Z) : fpx_err_t * fpx_file_t * W :=
  let file := File 0 None 0 in
  let '(fd, w) := sys_open w path (Z.lor mode create) access in
  if fd =? FPX_INVALID_FILE then (sys_errno w, file, w)
  else (FPX_OK, File fd (Some path) 0, w).

(** Bytes read, or -1; the bytes; the file; the state. *)
Definition fpx_file_read (w : W) (file : fpx_file_t) (size offset : Z) : Z * chars * fpx_file_t * W :=
  let '(r, w) := sys_lseek w (f_fd file) offset SEEK_SET in
  if r =? -1 then (-1, [], file, w) else
  let '(n, bytes, w) := sys_read w (f_fd file) size in
  if n =? -1 then (-1, [], file, w) else
  (n, bytes, File (f_fd file) (f_name file) (u64 (f_offset file + n)), w).

(** [for (;;)]: the loop ends when one call has written all that is left. *)
Fixpoint write_loop (fuel : nat) (w : W) (file : fpx_file_t) (buf : chars) (size written : Z)
    : res (Z * fpx_file_t * W) :=
  match fuel with
  | O => NoFuel
  | S fuel =>
      s ← read_bytes (drop (Z.to_nat written) buf) size;
      let '(n, w) := sys_write w (f_fd file) s in
      if n =? -1 then Ok (-1, file, w) else
      let file := File (f_fd file) (f_name file) (u64 (f_offset file + n)) in
      written ← ssize_result (written + n);
      if u64 n =? size then Ok (written, file, w)
      else write_loop fuel w file buf (u64 (size - n)) written
  end.

Definition fpx_file_write (fuel : nat) (w : W) (file : fpx_file_t) (buf : chars) (size offset : Z)
    : res (Z * fpx_file_t * W) :=
  let '(r, w) := sys_lseek w (f_fd file) offset SEEK_SET in
  if r =? -1 then Ok (-1, file, w) else write_loop fuel w file buf size 0.

Definition fpx_file_size (w : W) (file : fpx_file_t) : Z * W :=
  let '(r, w) := sys_lseek w (f_fd file) 0 SEEK_CUR in
  let off := u64 r in
  if off =? u64 (-1) then (-1, w) else
  let '(r, w) := sys_lseek w (f_fd file) 0 SEEK_END in
  let size := u64 r in
  if size =? u64 (-1) then (-1, w) else
  let '(r, w) := sys_lseek w (f_fd file) (s64 off) SEEK_SET in
  if r =? -1 then (-1, w) else (s64 size, w).

Definition fpx_read_fd (w : W) (fd n : Z) : Z * chars * W :=
  let '(rv, bytes, w) := sys_read w fd n in
  if rv =? -1 then (-1, [], w) else (rv, bytes, w).
Definition fpx_write_fd (w : W) (fd : Z) (buf : chars) : Z * W :=
  let '(rv, w) := sys_write w fd buf in
  if rv =? -1 then (-1, w) else (rv, w).

Definition fpx_write_stdout (w : W) (str : chars) : res (Z * W) :=
  len ← fpx_strlen str; s ← read_bytes str len; Ok (fpx_write_fd w 1 s).
Definition fpx_write_stderr (w : W) (str : chars) : res (Z * W) :=
  len ← fpx_strlen str; s ← read_bytes str len; Ok (fpx_write_fd w 2 s).

(** [None]: nothing has been stored through [info]. *)
Definition fpx_file_info_by_path (w : W) (path : chars) : fpx_err_t * option fpx_file_info_t * W :=
  let '(st, w) := sys_stat w path in
  match st with
  | None => (sys_errno w, None, w)
  | Some mode => (FPX_OK, Some (FileInfo (fpx_stat_get_file_type mode) (fpx_stat_get_access mode) mode), w)
  end.
Definition fpx_file_info (w : W) (file : fpx_file_t) : fpx_err_t * option fpx_file_info_t * W :=
  let '(st, w) := sys_fstat w (f_fd file) in
  match st with
  | None => (sys_errno w, None, w)
  | Some mode => (FPX_OK, Some (FileInfo (fpx_stat_get_file_type mode) (fpx_stat_get_access mode) mode), w)
  end.

Definition fpx_file_close (w : W) (file : fpx_file_t) : fpx_file_t * W :=
  (File FPX_INVALID_FILE None 0, sys_close w (f_fd file)).

(** ** Directories and patterns *)
Record fpx_dir_t := Dir { dir_handle : option Z; dir_entry : option chars; dir_name : option chars; dir_type : Z }.

Definition fpx_dir_open (w : W) (path : chars) : fpx_err_t * fpx_dir_t * W :=
  let '(h, w) := sys_opendir w path in
  match h with
  | None => (sys_errno w, Dir None None None FPX_FILE_TYPE_UNKFILE, w)
  | Some h => (FPX_OK, Dir (Some h) None (Some path) FPX_FILE_TYPE_UNKFILE, w)
  end.

(** A directory that has not been opened has no handle to read from. *)
Definition fpx_dir_read (w : W) (dir : fpx_dir_t) : res (fpx_err_t * fpx_dir_t * W) :=
  h ← of_option (dir_handle dir);
  let '(e, w) := sys_readdir w h in
  match e with
  | None =>
      let dir := Dir (dir_handle dir) None (dir_name dir) (dir_type dir) in
      let err := sys_errno w in
      if negb (err =? FPX_OK) then Ok (err, dir, w) else Ok (FPX_DONE, dir, w)
  | Some (name, type) => Ok (FPX_OK, Dir (dir_handle dir) (Some name) (dir_name dir) type, w)
  end.

Definition fpx_dir_close (w : W) (dir : fpx_dir_t) : res W :=
  h ← of_option (dir_handle dir); Ok (sys_closedir w h).
Definition fpx_dir_current_name (dir : fpx_dir_t) : res chars := of_option (dir_entry dir).
Definition fpx_dir_current_file_type (dir : fpx_dir_t) : Z := dir_type dir.
Definition fpx_dir_current_is_file (dir : fpx_dir_t) : bool := dir_type dir =? FPX_FILE_TYPE_FILE.

Record fpx_glob_t := Glob { gl_paths : list chars; gl_pattern : chars; gl_last : nat }.

Definition fpx_glob_open (w : W) (pattern : chars) : fpx_err_t * option fpx_glob_t * W :=
  let '(rv, paths, w) := sys_glob w pattern in
  if negb (rv =? 0) then (sys_errno w, None, w) else (FPX_OK, Some (Glob paths pattern 0), w).

(** The path is copied into a buffer of [cap] bytes. *)
Definition fpx_glob_read (gl : fpx_glob_t) (cap : Z) : res (fpx_err_t * option chars * fpx_glob_t) :=
  match gl_paths gl !! gl_last gl with
  | None => Ok (FPX_DONE, None, gl)
  | Some p =>
      len ← fpx_strlen p;
      _ ← require (len + 1 <=? cap);
      s ← read_bytes p (len + 1);
      Ok (FPX_OK, Some s, Glob (gl_paths gl) (gl_pattern gl) (S (gl_last gl)))
  end.
End Files.

(** ** Paths *)
Definition FPX_PATH_SEPARATOR : Z := 47.
Definition FPX_MAX_PATH_LEN : Z := 4096.
Definition fpx_is_path_separator (c : Z) : bool := c =? FPX_PATH_SEPARATOR.

Definition fpx_check_absolute_path (path : chars) : res fpx_err_t :=
  c ← rd path 0;
  Ok (if c =? 47 then FPX_OK else FPX_ERR_FILESYS_ABS_PATH).

(** The body of [fpx_file_full_path], which is common to both halves, with their
    macros [fpx_is_path_separator] and FPX_PATH_SEPARATOR.  The buffer holds [cap] bytes; the result is the length and the
    contents. *)
Definition full_path_with (is_sep : Z → bool) (sep cap : Z) (path file : chars) : res (Z * chars) :=
  path_len ← fpx_strlen path;
  file_len ← fpx_strlen file;
  c ← rd path (path_len - 1);
  let path_len := if is_sep c then path_len - 1 else path_len in
  s1 ← read_bytes path path_len;
  s2 ← read_bytes file file_len;
  let copied := path_len + 1 + file_len in
  _ ← require (copied + 1 <=? cap);
  Ok (copied, s1 ++ [sep] ++ s2 ++ [0]).
Definition fpx_file_full_path : Z → chars → chars → res (Z * chars) :=
  full_path_with fpx_is_path_separator FPX_PATH_SEPARATOR.

(** [fpx_dir_read] without FPX_HAVE_D_TYPE: the type is that of [stat], whose answer is not
    looked at. *)
Definition fpx_dir_read_stat {W} `{Posix W} (w : W) (dir : fpx_dir_t) : res (fpx_err_t * fpx_dir_t * W) :=
  h ← of_option (dir_handle dir);
  let '(e, w) := sys_readdir w h in
  match e with
  | None =>
      let dir := Dir (dir_handle dir) None (dir_name dir) (dir_type dir) in
      let err := sys_errno w in
      if negb (err =? FPX_OK) then Ok (err, dir, w) else Ok (FPX_DONE, dir, w)
  | Some (name, _) =>
      path ← of_option (dir_name dir);
      '(_, fullpath) ← fpx_file_full_path FPX_MAX_PATH_LEN path name;
      let '(st, w) := sys_stat w fullpath in
      fstat ← of_option st;
      Ok (FPX_OK, Dir (dir_handle dir) (Some name) (dir_name dir) (fpx_stat_get_file_type fstat), w)
  end.

Fixpoint fpx_is_path_has_wildcard (path : chars) : res bool :=
  match path with
  | [] => UB
  | ch :: path =>
      if ch =? 0 then Ok false
      else if (ch =? 63) || (ch =? 42) then Ok true
      else fpx_is_path_has_wildcard path
  end.

(** ** UTF-8 to UTF-16 (the Windows half) *)

(** [fpx_utf8_decode(&p, n)]: the code point and the rest of the bytes.  The
    caller always passes [n = 4]. *)
Fixpoint utf8_tail (len : nat) (p : list Z) (u : Z) : res (option Z * list Z) :=
  match len with
  | O => Ok (Some u, p)
  | S len =>
      match p with
      | [] => UB
      | i :: p =>
          if i <? 128 then Ok (None, p)
          else utf8_tail len p (Z.lor (u32 (Z.shiftl u 6)) (Z.land i 63))
      end
  end.

Definition utf8_error : Z := 4294967295.
Definition utf8_short : Z := 4294967294.

Definition fpx_utf8_decode (p : list Z) (n : Z) : res (Z * list Z) :=
  match p with
  | [] => UB
  | u :: p' =>
      let lead :=
        if 240 <=? u then Some (Z.land u 7, 65535, 3%nat)
        else if 224 <=? u then Some (Z.land u 15, 2047, 2%nat)
        else if 194 <=? u then Some (Z.land u 31, 127, 1%nat)
        else None in
      match lead with
      | None => Ok (utf8_error, p')
      | Some (u, valid, len) =>
          if u64 (n - 1) <? Z.of_nat len then Ok (utf8_short, p) else
          '(r, p) ← utf8_tail len p' u;
          match r with
          | None => Ok (utf8_error, p)
          | Some u => Ok (if valid <? u then u else utf8_error, p)
          end
      end
  end.

(** [fpx_path_to_wchar]: [room] units are left in the buffer; [None] for [NULL].
    [out] is what has been written. *)
Fixpoint path_to_wchar_loop (fuel : nat) (p : list Z) (room : Z) (out : list Z) : res (option (list Z)) :=
  match fuel with
  | O => NoFuel
  | S fuel =>
      if room <=? 0 then Ok None else
      c ← rd p 0;
      if c <? 128 then
        let out := out ++ [c] in
        if c =? 0 then Ok (Some out) else path_to_wchar_loop fuel (drop 1 p) (room - 1) out
      else if room =? 1 then Ok None else
      '(n, p) ← fpx_utf8_decode p 4;
      if 1114111 <? n then Ok None else
      if 65535 <? n then
        let n := n - 65536 in
        path_to_wchar_loop fuel p (room - 2)
          (out ++ [u16 (55296 + Z.shiftr n 10); u16 (56320 + Z.land n 1023)])
      else path_to_wchar_loop fuel p (room - 1) (out ++ [u16 n])
  end.
Definition fpx_path_to_wchar (outlen : Z) (instr : list Z) : res (option (list Z)) :=
  path_to_wchar_loop (S (length instr)) instr outlen [].

(** ** Lemmas *)
Lemma land_ones_mod x k : 0 ≤ k → Z.land x (2 ^ k - 1) = x mod 2 ^ k.
Proof. intros Hk. rewrite <- Z.land_ones by done. f_equal. rewrite Z.ones_equiv. lia. Qed.

(** The low 12 bits decide the permissions. *)
Lemma add_access_low mode bit flag a :
  Z.land 4095 bit = bit → add_access mode bit flag a = add_access (mode mod 4096) bit flag a.
Proof.
  intros Hb. unfold add_access. change 4096 with (2 ^ 12). rewrite <- land_ones_mod by done.
  rewrite <- Z.land_assoc. change (2 ^ 12 - 1) with 4095. by rewrite Hb.
Qed.

Definition access_value (mode : Z) : Z :=
  (mode / 64 mod 8) * 256 + (mode / 8 mod 8) * 16 + mode mod 8 +
  8192 * (mode / 512 mod 2) + 16384 * (mode / 1024 mod 2) + 32768 * (mode / 2048 mod 2).

Lemma access_small mode : 0 ≤ mode < 4096 → fpx_stat_get_access mode = access_value mode.
Proof.
  intros Hm.
  assert (forallb (λ m, fpx_stat_get_access m =? access_value m) (seqZ 0 4096) = true) as H
    by (vm_compute; reflexivity).
  apply Z.eqb_eq. rewrite forallb_forall in H. apply H. apply list_elem_of_In, elem_of_seqZ. lia.
Qed.

Lemma access_mod mode : 0 ≤ mode → fpx_stat_get_access mode = fpx_stat_get_access (mode mod 4096).
Proof.
  intros _. unfold fpx_stat_get_access. rewrite !(add_access_low mode) by done. reflexivity.
Qed.

Lemma access_value_mod mode : 0 ≤ mode → access_value (mode mod 4096) = access_value mode.
Proof.
  intros Hm. unfold access_value.
  assert (∀ d m, 0 < d → 0 < m → (d * m | 4096) → mode mod 4096 / d mod m = mode / d mod m) as H.
  { intros d m Hd Hmm [q Hq]. pose proof (Z.div_mod mode 4096 ltac:(lia)) as E.
    set (r := mode mod 4096) in *. rewrite E at 1.
    replace (4096 * (mode / 4096) + r) with (r + (q * m * (mode / 4096)) * d) by (rewrite Hq; ring).
    rewrite Z.div_add by lia. replace (q * m * (mode / 4096)) with (q * (mode / 4096) * m) by ring.
    by rewrite Z.mod_add by lia. }
  assert (∀ m, 0 < m → (m | 4096) → mode mod 4096 mod m = mode mod m) as H1.
  { intros m Hmm Hd. specialize (H 1 m ltac:(lia) Hmm). rewrite !Z.div_1_r, Z.mul_1_l in H. auto. }
  rewrite (H 64 8), (H 8 8), (H 512 2), (H 1024 2), (H 2048 2), (H1 8); try done; by apply Z.mod_divide.
Qed.

(** *** UTF-8 and UTF-16, the other direction *)
Definition utf8_encode (c : Z) : list Z :=
  if c <? 128 then [c]
  else if c <? 2048 then [192 + c / 64; 128 + c mod 64]
  else if c <? 65536 then [224 + c / 4096; 128 + c / 64 mod 64; 128 + c mod 64]
  else [240 + c / 262144; 128 + c / 4096 mod 64; 128 + c / 64 mod 64; 128 + c mod 64].
Definition utf16_encode (c : Z) : list Z :=
  if c <? 65536 then [c]
  else [55296 + (c - 65536) / 1024; 56320 + (c - 65536) mod 1024].

Lemma lor_shift6 u v : 0 ≤ u < 2 ^ 26 → 0 ≤ v < 64 → Z.lor (u32 (Z.shiftl u 6)) v = u * 64 + v.
Proof.
  intros Hu Hv. rewrite Z.shiftl_mul_pow2, u32_small by lia. change (2 ^ 6) with 64.
  rewrite <- Z.add_lor_land. replace (Z.land (u * 64) v) with 0; [lia|].
  symmetry. apply Z.bits_inj'. intros n Hn. rewrite Z.land_spec, Z.bits_0.
  change 64 with (2 ^ 6). rewrite <- Z.shiftl_mul_pow2 by lia.
  destruct (Z_lt_le_dec n 6).
  - by rewrite Z.shiftl_spec_low by lia.
  - replace (Z.testbit v n) with false; [apply andb_false_r|].
    symmetry. rewrite <- (Z.mod_small v (2 ^ 6)) by (change (2 ^ 6) with 64; lia).
    apply Z.mod_pow2_bits_high. lia.
Qed.

Lemma utf8_tail_step len p u v :
  0 ≤ u < 2 ^ 26 → 0 ≤ v < 64 → utf8_tail (S len) ((128 + v) :: p) u = utf8_tail len p (u * 64 + v).
Proof.
  intros Hu Hv. cbn [utf8_tail]. rewrite (proj2 (Z.ltb_ge (128 + v) 128)) by lia.
  assert (Z.land (128 + v) 63 = v) as ->.
  { change 63 with (2 ^ 6 - 1). rewrite land_ones_mod by lia. change (2 ^ 6) with 64.
    rewrite Z.add_mod by lia. change (128 mod 64) with 0. rewrite Z.add_0_l, !Z.mod_small by (rewrite ?Z.mod_small; lia). done. }
  by rewrite lor_shift6.
Qed.

Lemma lead_bits base k x : 0 ≤ k → 0 ≤ x < 2 ^ k → base mod 2 ^ k = 0 → Z.land (base + x) (2 ^ k - 1) = x.
Proof.
  intros Hk Hx Hb. rewrite land_ones_mod by done. rewrite Z.add_mod, Hb, Z.add_0_l by lia.
  rewrite !Z.mod_small by (rewrite ?Z.mod_small; lia). done.
Qed.

(** Decoding takes an encoded code point off the front. *)
Lemma utf8_decode_encode c rest :
  128 ≤ c ≤ 1114111 → fpx_utf8_decode (utf8_encode c ++ rest) 4 = Ok (c, rest).
Proof.
  intros Hc. unfold utf8_encode. rewrite (proj2 (Z.ltb_ge c 128)) by lia.
  pose proof (Z.div_mod c 64 ltac:(lia)). pose proof (Z.mod_pos_bound c 64 ltac:(lia)).
  pose proof (Z.div_mod (c / 64) 64 ltac:(lia)). pose proof (Z.mod_pos_bound (c / 64) 64 ltac:(lia)).
  pose proof (Z.div_mod (c / 4096) 64 ltac:(lia)). pose proof (Z.mod_pos_bound (c / 4096) 64 ltac:(lia)).
  assert (c / 64 / 64 = c / 4096) as E1 by (by rewrite Z.div_div by lia).
  assert (c / 4096 / 64 = c / 262144) as E2 by (by rewrite Z.div_div by lia).
  assert (0 ≤ c / 4096 ∧ 0 ≤ c / 262144) as [? ?] by (split; apply Z.div_pos; lia).
  unfold fpx_utf8_decode. change (u64 (4 - 1)) with 3.
  destruct (Z.ltb_spec c 2048); [|destruct (Z.ltb_spec c 65536)]; cbn [app].
  - rewrite (proj2 (Z.leb_gt 240 _)), (proj2 (Z.leb_gt 224 _)), (proj2 (Z.leb_le 194 _)) by lia.
    change 31 with (2 ^ 5 - 1). rewrite (lead_bits 192 5) by (try done; change (2 ^ 5) with 32; lia).
    change (3 <? Z.of_nat 1) with false. cbn iota. rewrite utf8_tail_step by lia.
    cbn [utf8_tail]. rewrite bind_ok. rewrite (proj2 (Z.ltb_lt 127 _)) by lia. do 2 f_equal. lia.
  - rewrite (proj2 (Z.leb_gt 240 _)), (proj2 (Z.leb_le 224 _)) by lia.
    change 15 with (2 ^ 4 - 1). rewrite (lead_bits 224 4) by (try done; change (2 ^ 4) with 16; lia).
    change (3 <? Z.of_nat 2) with false. cbn iota. rewrite !utf8_tail_step by lia.
    cbn [utf8_tail]. rewrite bind_ok. rewrite (proj2 (Z.ltb_lt 2047 _)) by lia. do 2 f_equal. lia.
  - rewrite (proj2 (Z.leb_le 240 _)) by lia.
    change 7 with (2 ^ 3 - 1). rewrite (lead_bits 240 3) by (try done; change (2 ^ 3) with 8; lia).
    change (3 <? Z.of_nat 3) with false. cbn iota. rewrite !utf8_tail_step by lia.
    cbn [utf8_tail]. rewrite bind_ok. rewrite (proj2 (Z.ltb_lt 65535 _)) by lia. do 2 f_equal. lia.
Qed.

Lemma utf8_encode_head c : 128 ≤ c ≤ 1114111 → ∃ b l, utf8_encode c = b :: l ∧ 128 ≤ b.
Proof.
  intros Hc. unfold utf8_encode. rewrite (proj2 (Z.ltb_ge c 128)) by lia.
  assert (0 ≤ c / 64 ∧ 0 ≤ c / 4096 ∧ 0 ≤ c / 262144) as (? & ? & ?) by (split_and!; apply Z.div_pos; lia).
  repeat case_match; eexists _, _; (split; [done|lia]).
Qed.

Definition utf16 (cs : list Z) : list Z := concat (utf16_encode <$> cs).
Definition utf8 (cs : list Z) : list Z := concat (utf8_encode <$> cs).

Lemma utf8_length cs : (length cs ≤ length (utf8 cs))%nat.
Proof.
  unfold utf8. induction cs as [|c cs IH]; [done|]. rewrite fmap_cons. cbn [concat].
  rewrite length_app. simpl. unfold utf8_encode at 1. repeat case_match; simpl; lia.
Qed.

Lemma utf16_encode_length c : (1 ≤ length (utf16_encode c) ≤ 2)%nat.
Proof. unfold utf16_encode. case_match; simpl; lia. Qed.

Lemma path_to_wchar_ok cs : ∀ fuel room rest out,
  Forall (λ c, 0 < c ≤ 1114111) cs → (length cs < fuel)%nat →
  Z.of_nat (length (utf16 cs)) + 2 ≤ room →
  path_to_wchar_loop fuel (utf8 cs ++ 0 :: rest) room out = Ok (Some (out ++ utf16 cs ++ [0])).
Proof.
  induction cs as [|c cs IH]; intros fuel room rest out Hcs Hf Hroom;
    (destruct fuel as [|fuel]; [simpl in Hf; lia|]).
  - cbn [path_to_wchar_loop]. rewrite (proj2 (Z.leb_gt _ _)) by (simpl in Hroom; lia). done.
  - apply Forall_cons in Hcs as [Hc Hcs]. unfold utf8, utf16 in *. rewrite !fmap_cons in *.
    cbn [concat] in *. rewrite length_app in Hroom. pose proof (utf16_encode_length c).
    cbn [path_to_wchar_loop]. rewrite (proj2 (Z.leb_gt _ _)) by lia. rewrite <- app_assoc.
    destruct (Z.ltb_spec c 128).
    + assert (utf8_encode c = [c]) as -> by (unfold utf8_encode; by rewrite (proj2 (Z.ltb_lt c 128)) by lia).
      assert (utf16_encode c = [c]) as E by (unfold utf16_encode; by rewrite (proj2 (Z.ltb_lt c 65536)) by lia).
      rewrite E in *. cbn [app].
      assert (∀ l, rd (c :: l) 0 = Ok c) as -> by done. rewrite bind_ok.
      rewrite (proj2 (Z.ltb_lt c 128)), (proj2 (Z.eqb_neq c 0)) by lia. cbn [drop]. rewrite drop_0.
      rewrite IH; [by rewrite <- app_assoc|done|simpl in Hf; lia|simpl length in Hroom; lia].
    + destruct (utf8_encode_head c ltac:(lia)) as (b & l & Hbl & Hb).
      assert (∀ m, rd (utf8_encode c ++ m) 0 = Ok b) as -> by (intros m; by rewrite Hbl).
      rewrite bind_ok, (proj2 (Z.ltb_ge b 128)), (proj2 (Z.eqb_neq room 1)) by lia.
      rewrite utf8_decode_encode, bind_ok by lia. rewrite (proj2 (Z.ltb_ge 1114111 c)) by lia.
      destruct (Z.ltb_spec c 65536).
      * assert (utf16_encode c = [c]) as E by (unfold utf16_encode; by rewrite (proj2 (Z.ltb_lt c 65536)) by lia).
        rewrite E in *. rewrite (proj2 (Z.ltb_ge 65535 c)) by lia. unfold u16. rewrite Z.mod_small by lia.
        rewrite IH; [by rewrite <- app_assoc|done|simpl in Hf; lia|simpl length in Hroom; lia].
      * assert (utf16_encode c = [55296 + (c - 65536) / 1024; 56320 + (c - 65536) mod 1024]) as E
          by (unfold utf16_encode; by rewrite (proj2 (Z.ltb_ge c 65536)) by lia).
        rewrite E in *. rewrite (proj2 (Z.ltb_lt 65535 c)) by lia.
        rewrite Z.shiftr_div_pow2 by lia. change (2 ^ 10) with 1024.
        change 1023 with (2 ^ 10 - 1). rewrite land_ones_mod by lia. change (2 ^ 10) with 1024.
        pose proof (Z.mod_pos_bound (c - 65536) 1024 ltac:(lia)).
        assert (0 ≤ (c - 65536) / 1024 < 1024) by (split; [apply Z.div_pos|apply Z.div_lt_upper_bound]; lia).
        unfold u16. rewrite !Z.mod_small by lia.
        rewrite IH; [by rewrite <- app_assoc|done|simpl in Hf; lia|simpl length in Hroom; lia].
Qed.

(** *** Paths *)
Lemma wildcard_ok s rest :
  text s → fpx_is_path_has_wildcard (s ++ 0 :: rest) = Ok (existsb (λ c, (c =? 63) || (c =? 42)) s).
Proof.
  induction s as [|c s IH]; intros Ht; [done|]. apply text_cons in Ht as [[Hc _] Ht].
  cbn [app fpx_is_path_has_wildcard existsb]. rewrite (proj2 (Z.eqb_neq _ _)) by done.
  destruct ((c =? 63) || (c =? 42)); [done|]. by apply IH.
Qed.

(** A directory path without its trailing separator. *)
Definition strip_with (sep : Z) (path : chars) : chars :=
  match last path with
  | Some c => if c =? sep then take (length path - 1) path else path
  | None => path
  end.
Definition strip_separator : chars → chars := strip_with 47.

Lemma full_path_with_ok sep cap path file :
  text path → text file → path ≠ [] → Z.of_nat (length path + length file) < 2 ^ 62 →
  let full := strip_with sep path ++ [sep] ++ file in
  full_path_with (λ c, c =? sep) sep cap (cstr path) (cstr file) =
    if Z.of_nat (length full) + 1 <=? cap then Ok (Z.of_nat (length full), cstr full) else UB.
Proof.
  intros Hp Hf Hne Hb full. unfold full_path_with, cstr.
  rewrite !strlen_app, !bind_ok by (done || lia).
  destruct (list_snoc_case path) as [->|(p & c & ->)]; [done|].
  rewrite <- app_assoc. change ([c] ++ [0]) with (c :: [0]).
  rewrite rd_last, bind_ok.
  unfold full, strip_with. rewrite last_snoc, length_app. simpl (length [c]).
  destruct (Z.eqb_spec c sep) as [->|Hc]; cbn iota.
  - replace (Z.of_nat (length p + 1) - 1) with (Z.of_nat (length p)) by lia.
    rewrite !read_bytes_app, !bind_ok. cbv zeta.
    rewrite Nat.add_sub, take_app_length, !length_app. simpl (length [sep]).
    replace (Z.of_nat (length p) + 1 + Z.of_nat (length file)) with
      (Z.of_nat (length p + (1 + length file))) by lia.
    destruct (_ <=? cap); [|done]. simpl. by rewrite <- app_assoc.
  - pose proof (read_bytes_app (p ++ [c]) [0]) as Hr. rewrite <- app_assoc, length_app in Hr.
    simpl (length [c]) in Hr. change ([c] ++ [0]) with (c :: [0]) in Hr.
    rewrite Hr, read_bytes_app, !bind_ok. cbv zeta. rewrite !length_app. simpl (length [_]).
    replace (Z.of_nat (length p + 1) + 1 + Z.of_nat (length file)) with
      (Z.of_nat (length p + 1 + (1 + length file))) by lia.
    destruct (_ <=? cap); [|done]. simpl. by rewrite <- !app_assoc.
Qed.

Lemma full_path_ok cap path file :
  text path → text file → path ≠ [] → Z.of_nat (length path + length file) < 2 ^ 62 →
  let full := strip_separator path ++ [47] ++ file in
  fpx_file_full_path cap (cstr path) (cstr file) =
    if Z.of_nat (length full) + 1 <=? cap then Ok (Z.of_nat (length full), cstr full) else UB.
Proof. apply full_path_with_ok. Qed.

(** ** Writing a whole buffer *)

(** What POSIX says of [write] to a regular file or pipe: it fails, or takes some
    of the bytes, at least one unless it is given none. [written w] is the sequence
    of bytes the system has taken so far. *)
Definition write_law {W} `{Posix W} (written : W → chars) : Prop :=
  ∀ w fd s, ∃ n w', sys_write w fd s = (n, w') ∧
    ((n = -1 ∧ written w' = written w) ∨
     (0 ≤ n ≤ Z.of_nat (length s) ∧ (s ≠ [] → 0 < n) ∧
      written w' = written w ++ take (Z.to_nat n) s)).

(** Seeking does not write. *)
Definition seek_law {W} `{Posix W} (written : W → chars) : Prop :=
  ∀ w fd off whence, written (sys_lseek w fd off whence).2 = written w.

(** The calls of [write] that pass [s] on to [fd]: each is given all that is left, and the
    last one either takes it or fails.  Whether it was taken, and the bytes taken. *)
Inductive transfer {W} `{Posix W} (fd : Z) : chars → W → bool → nat → W → Prop :=
  | transfer_failed s w w' : sys_write w fd s = (-1, w') → transfer fd s w false 0 w'
  | transfer_all s w w' : sys_write w fd s = (Z.of_nat (length s), w') → transfer fd s w true (length s) w'
  | transfer_part s w n w1 ok k w' :
      sys_write w fd s = (Z.of_nat n, w1) → (0 < n < length s)%nat →
      transfer fd (drop n s) w1 ok k w' → transfer fd s w ok (n + k) w'.

Lemma transfer_length {W} `{Posix W} fd s (w : W) ok k w' :
  transfer fd s w ok k w' → (k ≤ length s)%nat ∧ (ok = true → k = length s).
Proof.
  induction 1 as [| |s w n w1 ok k w' _ Hn _ [IH1 IH2]]; [split; [lia|done]|done|].
  rewrite length_drop in *. split; [lia|]. intros E. specialize (IH2 E). lia.
Qed.

Section Writing.
Context {W : Type} `{Posix W} (written : W → chars).
Hypothesis Hwrite : write_law written.

Lemma transfer_written fd s w ok k w' :
  transfer fd s w ok k w' → written w' = written w ++ take k s.
Proof using Hwrite.
  induction 1 as [s w w' E|s w w' E|s w n w1 ok k w' E Hn _ IH].
  - destruct (Hwrite w fd s) as (n & w1 & E1 & Hw). rewrite E in E1. injection E1 as <- <-.
    destruct Hw as [[_ ->]|(Hn & _)]; [|lia]. by rewrite take_0, app_nil_r.
  - destruct (Hwrite w fd s) as (n & w1 & E1 & Hw). rewrite E in E1. injection E1 as <- <-.
    destruct Hw as [[? _]|(_ & _ & ->)]; [lia|]. by rewrite Nat2Z.id.
  - destruct (Hwrite w fd s) as (m & w2 & E1 & Hw). rewrite E in E1. injection E1 as <- <-.
    destruct Hw as [[? _]|(_ & _ & Hw)]; [lia|]. rewrite IH, Hw, Nat2Z.id, <- app_assoc. f_equal.
    by rewrite take_take_drop.
Qed.

Lemma write_loop_ok buf : ∀ fuel w file size done_,
  0 ≤ size → 0 ≤ done_ → done_ + size ≤ Z.of_nat (length buf) → Z.of_nat (length buf) < 2 ^ 62 →
  (Z.to_nat size < fuel)%nat →
  ∃ file' (ok : bool) k w', write_loop fuel w file buf size done_ = Ok (if ok then done_ + size else -1, file', w') ∧
    transfer (f_fd file) (take (Z.to_nat size) (drop (Z.to_nat done_) buf)) w ok k w' ∧
    u64 (f_offset file') = u64 (f_offset file + Z.of_nat k).
Proof using Hwrite.
  induction fuel as [|fuel IH]; intros w file size done_ Hs Hd Hle Hb Hf; [lia|].
  cbn [write_loop]. unfold read_bytes. rewrite length_drop, (proj2 (Z.ltb_ge _ _)) by lia. rewrite bind_ok.
  set (s := take (Z.to_nat size) (drop (Z.to_nat done_) buf)).
  assert (length s = Z.to_nat size) as Hlen by (unfold s; rewrite length_take, length_drop; lia).
  destruct (Hwrite w (f_fd file) s) as (n & w1 & E & [[-> Hw]|(Hn & Hpos & Hw)]); rewrite E.
  - exists file, false, 0%nat, w1. split; [done|]. split; [by apply transfer_failed|]. f_equal. lia.
  - rewrite (proj2 (Z.eqb_neq n (-1))) by lia. rewrite ssize_result_ok, bind_ok by lia.
    rewrite (u64_small n) by lia. destruct (Z.eqb_spec n size) as [->|Hne].
    + eexists _, true, (length s), w1. split; [done|]. split; [apply transfer_all; rewrite E; repeat f_equal; lia|].
      cbn [f_offset]. rewrite Hlen, Z2Nat.id by lia. unfold u64. by rewrite Zmod_mod.
    + assert (s ≠ []) as Hs0 by (intros E0; rewrite E0 in Hlen, Hn; simpl in Hlen, Hn; lia).
      specialize (Hpos Hs0). rewrite (u64_small (size - n)) by lia.
      edestruct (IH w1 (File (f_fd file) (f_name file) (u64 (f_offset file + n))) (size - n) (done_ + n))
        as (file' & ok & k & w' & -> & Ht & Ho); try lia.
      exists file', ok, (Z.to_nat n + k)%nat, w'. split; [destruct ok; [do 3 f_equal; lia|done]|]. split.
      * eapply transfer_part; [rewrite E; f_equal; lia|lia|]. cbn [f_fd] in Ht.
        replace (drop (Z.to_nat n) s) with (take (Z.to_nat (size - n)) (drop (Z.to_nat (done_ + n)) buf)); [done|].
        unfold s. rewrite skipn_firstn_comm, drop_drop. f_equal; [lia|]. f_equal. lia.
      * rewrite Ho. cbn [f_offset]. rewrite u64_add_l. f_equal. lia.
Qed.
End Writing.

(** ** Properties *)

(** C23: [fpx_file_write] never stops halfway.  After the seek it passes the buffer on, in
    as many calls of [write] as the system needs, each with all that is left; it answers
    the full size when the system has taken exactly the buffer's bytes in order, and -1
    only after the seek or a call of [write] has failed, when the bytes taken by the calls
    before it have been written.  The position of the file moves by the bytes taken. *)
Theorem file_write_complete {W} `{Posix W} (written : W → chars) w file buf size offset :
  write_law written → seek_law written →
  0 ≤ size ≤ Z.of_nat (length buf) → Z.of_nat (length buf) < 2 ^ 62 →
  let '(pos, w1) := sys_lseek w (f_fd file) offset SEEK_SET in
  if pos =? -1 then fpx_file_write (S (Z.to_nat size)) w file buf size offset = Ok (-1, file, w1) ∧ written w1 = written w
  else ∃ r file' (ok : bool) k w', fpx_file_write (S (Z.to_nat size)) w file buf size offset = Ok (r, file', w') ∧
    transfer (f_fd file) (take (Z.to_nat size) buf) w1 ok k w' ∧
    u64 (f_offset file') = u64 (f_offset file + Z.of_nat k) ∧ written w' = written w ++ take k buf ∧
    if ok then r = size ∧ k = Z.to_nat size else r = -1.
Proof.
  intros Hw Hseek Hs Hb. unfold fpx_file_write.
  pose proof (Hseek w (f_fd file) offset SEEK_SET) as Hk.
  destruct (sys_lseek w (f_fd file) offset SEEK_SET) as [r w1]. simpl in Hk. destruct (r =? -1); [done|].
  destruct (write_loop_ok written Hw buf (S (Z.to_nat size)) w1 file size 0) as (file' & ok & k & w' & Hrun & Ht & Ho); [lia..|].
  change (drop (Z.to_nat 0) buf) with buf in Ht. destruct (transfer_length _ _ _ _ _ _ Ht) as [Hle Hall]. rewrite length_take in Hle, Hall.
  eexists _, file', ok, k, w'. split; [done|]. split; [done|]. split; [done|]. split.
  - rewrite (transfer_written written Hw _ _ _ _ _ _ Ht), Hk, take_take, Nat.min_l by lia. done.
  - destruct ok; [|done]. rewrite Hall by done. split; [done|]. lia.
Qed.

(** A system that takes at most three bytes at a time and has room for [room]. *)
Definition slow_posix (room : nat) : Posix chars := {|
  sys_errno w := 28; sys_open w p m a := (3, w); sys_close w fd := w;
  sys_lseek w fd off wh := (0, w); sys_read w fd n := (0, [], w);
  sys_write w fd s :=
    if decide (length w + length (take 3 s) ≤ room)%nat then (Z.of_nat (length (take 3 s)), w ++ take 3 s) else (-1, w);
  sys_stat w p := (None, w); sys_fstat w fd := (None, w); sys_opendir w p := (None, w);
  sys_readdir w h := (None, w); sys_closedir w h := w; sys_glob w p := (1, [], w)
|}.
Lemma slow_writes room : write_law (H := slow_posix room) (λ w, w) ∧ seek_law (H := slow_posix room) (λ w, w).
Proof.
  split; [|by intros w fd off wh]. intros w fd s. cbn. case_decide; [|by eexists _, _; split; [|left]].
  eexists _, _. split; [done|]. right. rewrite Nat2Z.id. split; [rewrite length_take; lia|]. split.
  - intros Hs. destruct s; [done|]. simpl. lia.
  - f_equal. symmetry. destruct s as [|a [|b [|c s]]]; reflexivity.
Qed.

(** Three calls that write all, and one call before the medium is full. *)
Lemma file_write_complete_witness :
  (∃ file' w', fpx_file_write (H := slow_posix 7) 8 [] (File 3 None 0) (chars_of "floppix") 7 0 = Ok (7, file', w') ∧
     w' = chars_of "floppix") ∧
  (∃ file' w' k, fpx_file_write (H := slow_posix 4) 8 [] (File 3 None 0) (chars_of "floppix") 7 0 = Ok (-1, file', w') ∧
     transfer (H := slow_posix 4) 3 (chars_of "floppix") [] false k w' ∧ w' = take k (chars_of "floppix")).
Proof.
  assert (∀ room, ∃ r file' (ok : bool) k w', fpx_file_write (H := slow_posix room) 8 [] (File 3 None 0) (chars_of "floppix") 7 0 = Ok (r, file', w') ∧
    transfer (H := slow_posix room) 3 (chars_of "floppix") [] ok k w' ∧
    u64 (f_offset file') = u64 (0 + Z.of_nat k) ∧ w' = take k (chars_of "floppix") ∧ if ok then r = 7 ∧ k = 7%nat else r = -1) as Hall
    by (intros room; exact (file_write_complete (H := slow_posix room) (λ w, w) [] (File 3 None 0) (chars_of "floppix") 7 0
      (proj1 (slow_writes room)) (proj2 (slow_writes room)) ltac:(vm_compute; split; discriminate) ltac:(by vm_compute))).
  split.
  - destruct (Hall 7%nat) as (r & file' & ok & k & w' & Hrun & _ & _ & Hw & Hok). vm_compute in Hrun. injection Hrun as <- <- <-.
    destruct ok; [|lia]. destruct Hok as [_ ->]. exists (File 3 None 7), (chars_of "floppix"). split; [by vm_compute|done].
  - destruct (Hall 4%nat) as (r & file' & ok & k & w' & Hrun & Ht & _ & Hw & Hok).
    assert (∃ f w1, fpx_file_write (H := slow_posix 4) 8 [] (File 3 None 0) (chars_of "floppix") 7 0 = Ok (-1, f, w1)) as (f & w1 & Hrun1)
      by (eexists _, _; vm_compute; reflexivity).
    destruct ok; [rewrite Hrun1 in Hrun; destruct Hok as [-> _]; discriminate|]. subst r.
    exists file', w', k. split; [exact Hrun|]. split; [exact Ht|exact Hw].
Defined.

(** The access word spreads the nine permission bits of [st_mode] over
    hexadecimal digits and moves the three special bits to the top, and the file
    type is the directory-entry type that the same mode stands for. *)
Theorem stat_bits_correct mode :
  0 ≤ mode →
  fpx_stat_get_access mode = access_value mode ∧
  (Z.shiftr (S_IFMT mode) 12 ∈ [8; 4; 2; 6; 1; 10; 12] →
   fpx_stat_get_file_type mode = Z.shiftr (S_IFMT mode) 12).
Proof.
  intros Hm. split.
  - rewrite access_mod, access_small, access_value_mod; [done|done| |done].
    apply Z.mod_pos_bound. lia.
  - unfold fpx_stat_get_file_type, S_ISREG, S_ISDIR, S_ISCHR, S_ISBLK, S_ISFIFO, S_ISLNK, S_ISSOCK.
    assert (∃ k, S_IFMT mode = k * 4096) as [k Hk].
    { exists (Z.shiftr (S_IFMT mode) 12). unfold S_IFMT.
      assert (Z.land mode 61440 mod 4096 = 0) as E.
      { change 4096 with (2 ^ 12). rewrite <- land_ones_mod, <- Z.land_assoc by lia.
        change (Z.land 61440 (2 ^ 12 - 1)) with 0. apply Z.land_0_r. }
      rewrite Z.shiftr_div_pow2 by lia. change (2 ^ 12) with 4096.
      pose proof (Z.div_mod (Z.land mode 61440) 4096 ltac:(lia)). lia. }
    rewrite Hk, Z.shiftr_div_pow2 by lia. change (2 ^ 12) with 4096. rewrite Z.div_mul by lia.
    rewrite !elem_of_cons, elem_of_nil.
    intros Hin. destruct_or! Hin; try done; subst k; reflexivity.
Qed.

Lemma stat_bits_correct_witness : fpx_stat_get_access 33188 = 1604 ∧ fpx_stat_get_file_type 33188 = 8.
Proof.
  destruct (stat_bits_correct 33188) as [H1 H2]; [lia|].
  split; [rewrite H1; by vm_compute|]. rewrite H2; [by vm_compute|]. vm_compute. by left.
Defined.

(** C38: Joining a directory and a file name gives the directory without a
    trailing slash, one slash and the name; the call overruns its buffer exactly
    when that text and its terminator do not fit.  A path has a wildcard exactly when
    it contains [?] or [*]. *)
Theorem paths_correct cap path file :
  text path → text file → path ≠ [] → Z.of_nat (length path + length file) < 2 ^ 62 →
  let full := strip_separator path ++ [47] ++ file in
  fpx_file_full_path cap (cstr path) (cstr file) =
    (if Z.of_nat (length full) + 1 <=? cap then Ok (Z.of_nat (length full), cstr full) else UB) ∧
  fpx_is_path_has_wildcard (cstr path) = Ok (existsb (λ c, (c =? 63) || (c =? 42)) path).
Proof. intros Hp Hf Hne Hb. split; [by apply full_path_ok|by apply wildcard_ok]. Qed.

Lemma paths_correct_witness :
  fpx_file_full_path 16 (cstr (chars_of "/etc/fpx/")) (cstr (chars_of "a.conf")) =
    Ok (15, cstr (chars_of "/etc/fpx/a.conf")) ∧
  fpx_is_path_has_wildcard (cstr (chars_of "/etc/fpx/*.conf")) = Ok true.
Proof.
  split.
  - refine (proj1 (paths_correct 16 (chars_of "/etc/fpx/") (chars_of "a.conf") _ _ _ _));
      [repeat constructor; vm_compute; congruence..|discriminate|by vm_compute].
  - refine (proj2 (paths_correct 16 (chars_of "/etc/fpx/*.conf") (chars_of "a.conf") _ _ _ _));
      [repeat constructor; vm_compute; congruence..|discriminate|by vm_compute].
Defined.

(** With room for two units more than needed, the conversion of a UTF-8 path
    yields the UTF-16 encoding of the same code points and a terminator, surrogate
    pairs included. *)
Theorem path_to_wchar_correct cs outlen rest :
  Forall (λ c, 0 < c ≤ 1114111) cs → Z.of_nat (length (utf16 cs)) + 2 ≤ outlen →
  fpx_path_to_wchar outlen (utf8 cs ++ 0 :: rest) = Ok (Some (utf16 cs ++ [0])).
Proof.
  intros Hcs Hout. unfold fpx_path_to_wchar.
  rewrite path_to_wchar_ok; [done|done| |done].
  pose proof (utf8_length cs).
  rewrite length_app. simpl. lia.
Qed.

Lemma path_to_wchar_correct_witness :
  fpx_path_to_wchar 8 (utf8 [67; 228; 8364; 128512] ++ [0]) = Ok (Some [67; 228; 8364; 55357; 56832; 0]).
Proof.
  refine (path_to_wchar_correct [67; 228; 8364; 128512] 8 [] _ _).
  - repeat constructor; vm_compute; congruence.
  - by vm_compute.
Defined.
