(* ===== verification/WinFiles.v ===== *)
(** * Files and paths on Windows: the second half of [src/src/system/filesys.c]

    The Windows API is the interface [WinFiles], one field per call.  Paths of the
    W functions are UTF-16, those of [FindFirstFile] are characters.  The 64-bit variant
    of [fpx_file_size] is the one modelled. *)

From S2P Require Import Prelude CInt Errno Str Filesys.
Open Scope Z_scope.

(** ** The Windows API *)

(** The fields of [BY_HANDLE_FILE_INFORMATION] that [WIN32_FILE_ATTRIBUTE_DATA] has too. *)
Record fpx_file_stat_t := Stat {
  dwFileAttributes : Z;
  ftCreationTime : Z;
  ftLastAccessTime : Z;
  ftLastWriteTime : Z;
  nFileSizeHigh : Z;
  nFileSizeLow : Z
}.

(** Handles are numbers, [INVALID_HANDLE_VALUE] is [-1]; a [BOOL] is [0] for failure.
    The offset of an overlapped read or write is the pair of its high and low half;
    [None] is the pointer [NULL]. *)
Class WinFiles (W : Type) := {
  win_errno : W → fpx_err_t;
  win_create_file : W → list Z → Z → Z → Z * W;
  win_read_file : W → Z → Z → option (Z * Z) → option chars * W;
  win_write_file : W → Z → chars → option (Z * Z) → option Z * W;
  win_file_size : W → Z → Z * Z * W;
  win_attributes : W → list Z → option fpx_file_stat_t * W;
  win_info_by_handle : W → Z → fpx_file_stat_t → Z * fpx_file_stat_t * W;
  win_close_handle : W → Z → W;
  win_find_first : W → chars → option (Z * chars) * W;
  win_find_next : W → Z → option chars * W;
  win_find_close : W → Z → W
}.

Definition INVALID_HANDLE_VALUE : Z := -1.
Definition FILE_ATTRIBUTE_DIRECTORY : Z := 16.
Definition E2BIG : fpx_err_t := 7.
Definition ERROR_NO_MORE_FILES : fpx_err_t := 18.

Definition FPX_INVALID_FILE : Z := INVALID_HANDLE_VALUE.
Definition FPX_MAX_PATH_LEN : Z := 260.
Definition FPX_PATH_SEPARATOR : Z := 92.
Definition fpx_is_path_separator (c : Z) : bool := c =? 92.
Definition FPX_FILE_TYPE_UNKFILE : Z := 0.
Definition FPX_FILE_TYPE_FILE : Z := 1.
Definition FPX_FILE_TYPE_DIR : Z := 2.

Definition fpx_stat_get_file_type (stat : fpx_file_stat_t) : Z :=
  let type := FPX_FILE_TYPE_UNKFILE in
  let type := if negb (Z.land (dwFileAttributes stat) FILE_ATTRIBUTE_DIRECTORY =? 0) then FPX_FILE_TYPE_DIR else type in
  if Z.land (dwFileAttributes stat) FILE_ATTRIBUTE_DIRECTORY =? 0 then FPX_FILE_TYPE_FILE else type.

(** [fpx_path_to_wchar(wpath, sizeof(wpath), path)]: the array has FPX_MAX_PATH_LEN units,
    its size in bytes is passed as the number of units.  The answer is not
    looked at: after [NULL] the array is not terminated. *)
Definition wide_path (path : chars) : res (list Z) :=
  r ← fpx_path_to_wchar (2 * FPX_MAX_PATH_LEN) (u8 <$> path);
  wpath ← of_option r;
  _ ← require (Z.of_nat (length wpath) <=? FPX_MAX_PATH_LEN);
  Ok wpath.

Record fpx_file_info_t := FileInfo { i_type : Z; i_access : Z; i_stat : fpx_file_stat_t }.
(** [finddata.cFileName]; 260 zeros after [fpx_memzero]. *)
Record fpx_dir_t := Dir { dir_handle : Z; dir_find : chars; dir_name : option chars; dir_type : Z }.
(** [last_res] always points to [finddata.cFileName]. *)
Record fpx_glob_t := Glob { gl_dir : Z; gl_find : chars; gl_pattern : chars; gl_done : bool; gl_prefix_len : Z }.

Section Calls.
Context {W : Type} `{WinFiles W}.

(** ** Files *)
Definition fpx_file_open (w : W) (path : chars) (mode create access : Z) : res (fpx_err_t * fpx_file_t * W) :=
  wpath ← wide_path path;
  let '(fd, w) := win_create_file w wpath mode create in
  if fd =? FPX_INVALID_FILE then Ok (win_errno w, File 0 None 0, w)
  else Ok (FPX_OK, File fd (Some path) 0, w).

(** [high] is what the member [OffsetHigh] of the local variable holds: it is not set. *)
Definition fpx_file_read (high : Z) (w : W) (file : fpx_file_t) (size offset : Z) : Z * chars * fpx_file_t * W :=
  let '(r, w) := win_read_file w (f_fd file) (u32 size) (Some (high, u32 offset)) in
  match r with
  | None => (-1, [], file, w)
  | Some bytes =>
      let n := Z.of_nat (length bytes) in
      (n, bytes, File (f_fd file) (f_name file) (u64 (f_offset file + n)), w)
  end.

Definition fpx_file_write (high : Z) (w : W) (file : fpx_file_t) (buf : chars) (size offset : Z)
    : res (Z * fpx_file_t * W) :=
  s ← read_bytes buf (u32 size);
  let '(r, w) := win_write_file w (f_fd file) s (Some (high, u32 offset)) in
  match r with
  | None => Ok (-1, file, w)
  | Some n =>
      if negb (n =? size) then Ok (-1, file, w)
      else Ok (n, File (f_fd file) (f_name file) (u64 (f_offset file + n)), w)
  end.

Definition fpx_file_size (w : W) (file : fpx_file_t) : Z * W :=
  let '(ok, size, w) := win_file_size w (f_fd file) in
  if negb (ok =? 1) then (-1, w) else (size, w).

Definition fpx_read_fd (w : W) (fd size : Z) : Z * chars * W :=
  let '(r, w) := win_read_file w fd (u32 size) None in
  match r with None => (-1, [], w) | Some bytes => (Z.of_nat (length bytes), bytes, w) end.
Definition fpx_write_fd (w : W) (fd : Z) (buf : chars) (size : Z) : res (Z * W) :=
  s ← read_bytes buf (u32 size);
  let '(r, w) := win_write_file w fd s None in
  match r with None => Ok (-1, w) | Some n => Ok (n, w) end.

(** [None]: nothing has been stored through [stat]. *)
Definition fpx_file_stat_by_path (w : W) (path : chars) : res (fpx_err_t * option fpx_file_stat_t * W) :=
  wpath ← wide_path path;
  let '(r, w) := win_attributes w wpath in
  match r with None => Ok (win_errno w, None, w) | Some attr => Ok (FPX_OK, Some attr, w) end.

Definition fpx_file_info_by_path (w : W) (path : chars) : res (fpx_err_t * option fpx_file_info_t * W) :=
  '(err, stat, w) ← fpx_file_stat_by_path w path;
  if negb (err =? FPX_OK) then Ok (err, None, w) else
  stat ← of_option stat;
  Ok (FPX_OK, Some (FileInfo (fpx_stat_get_file_type stat) 0 stat), w).

(** A failing call answers [0], which is not the [-1] the code compares with. *)
Definition fpx_file_info (w : W) (info : fpx_file_info_t) (file : fpx_file_t) : fpx_err_t * fpx_file_info_t * W :=
  let '(r, stat, w) := win_info_by_handle w (f_fd file) (i_stat info) in
  if r =? -1 then (win_errno w, FileInfo (i_type info) (i_access info) stat, w)
  else (FPX_OK, FileInfo (fpx_stat_get_file_type stat) 0 stat, w).

Definition fpx_file_close (w : W) (file : fpx_file_t) : fpx_file_t * W :=
  (File FPX_INVALID_FILE None 0, win_close_handle w (f_fd file)).

(** ** Paths *)
Definition fpx_file_full_path : Z → chars → chars → res (Z * chars) :=
  full_path_with fpx_is_path_separator FPX_PATH_SEPARATOR.

(** The two conditions of the code with their short circuits. *)
Definition char_is (path : chars) (i : Z) (p : Z → bool) (k : res bool) : res bool :=
  c ← rd path i; if p c then k else Ok false.
Definition fpx_check_absolute_path (path : chars) : res fpx_err_t :=
  drive ← char_is path 0 fpx_isalpha (char_is path 1 (Z.eqb 58) (char_is path 2 (Z.eqb 92) (Ok true)));
  if drive : bool then Ok FPX_OK else
  unc ← char_is path 0 (Z.eqb 92) (char_is path 1 (Z.eqb 92) (Ok true));
  Ok (if unc : bool then FPX_OK else FPX_ERR_FILESYS_ABS_PATH).

(** ** Directories *)
Definition fpx_dir_open (w : W) (path : chars) : res (fpx_err_t * fpx_dir_t * W) :=
  let dir := Dir 0 (replicate 260 0) None FPX_FILE_TYPE_UNKFILE in
  len ← fpx_strlen path;
  if FPX_MAX_PATH_LEN + 3 <=? len then Ok (E2BIG, dir, w) else
  s ← read_bytes path len;
  _ ← require (len + 2 <? FPX_MAX_PATH_LEN + 3);
  let '(r, w) := win_find_first w (s ++ [92; 42; 0]) in
  match r with
  | None =>
      let dir := Dir INVALID_HANDLE_VALUE (dir_find dir) (dir_name dir) (dir_type dir) in
      let err := win_errno w in
      if negb (err =? FPX_OK) then Ok (err, dir, w) else Ok (FPX_DONE, dir, w)
  | Some (h, name) => Ok (FPX_OK, Dir h name (Some path) (dir_type dir), w)
  end.

(** What [fpx_file_stat_by_path] answers is not looked at; [fstat] is then not set. *)
Definition fpx_dir_read (w : W) (dir : fpx_dir_t) : res (fpx_err_t * fpx_dir_t * W) :=
  let '(r, w) := win_find_next w (dir_handle dir) in
  match r with
  | None =>
      let err := win_errno w in
      if negb (err =? FPX_OK) && negb (err =? ERROR_NO_MORE_FILES) then Ok (err, dir, w) else Ok (FPX_DONE, dir, w)
  | Some name =>
      path ← of_option (dir_name dir);
      '(_, fullpath) ← fpx_file_full_path FPX_MAX_PATH_LEN path name;
      '(_, fstat, w) ← fpx_file_stat_by_path w fullpath;
      fstat ← of_option fstat;
      Ok (FPX_OK, Dir (dir_handle dir) name (dir_name dir) (fpx_stat_get_file_type fstat), w)
  end.

Definition fpx_dir_close (w : W) (dir : fpx_dir_t) : W := win_find_close w (dir_handle dir).
Definition fpx_dir_current_name (dir : fpx_dir_t) : chars := dir_find dir.

(** ** Patterns *)

(** [for (i = fpx_strlen(pattern); i >= 0; --i)] *)
Fixpoint last_backslash (pattern : chars) (i : nat) : res Z :=
  c ← rd pattern (Z.of_nat i);
  if c =? 92 then Ok (Z.of_nat i) else
  match i with O => Ok 0 | S i => last_backslash pattern i end.

(** [None]: nothing that is used later has been stored through [gl]. *)
Definition fpx_glob_open (w : W) (pattern : chars) : res (fpx_err_t * option fpx_glob_t * W) :=
  let '(r, w) := win_find_first w pattern in
  match r with
  | None => Ok (FPX_FAILED, None, w)
  | Some (h, name) =>
      n ← fpx_strlen pattern;
      len ← last_backslash pattern (Z.to_nat n);
      if len =? 0 then Ok (FPX_ERR_FILESYS_ABS_PATH, None, w) else
      Ok (FPX_OK, Some (Glob h name pattern false (len + 1)), w)
  end.

(** The path is copied to a buffer of FPX_MAX_PATH_LEN characters; [None] if it is not. *)
Definition fpx_glob_read (w : W) (gl : fpx_glob_t) : res (fpx_err_t * option chars * fpx_glob_t * W) :=
  if gl_done gl then Ok (FPX_DONE, None, gl, w) else
  temp ← fpx_strlen (gl_find gl);
  let len := gl_prefix_len gl + temp + 1 in
  if FPX_MAX_PATH_LEN <? len then Ok (FPX_ERR_FILESYS_LONG_PATH, None, gl, w) else
  s1 ← read_bytes (gl_pattern gl) (gl_prefix_len gl);
  s2 ← read_bytes (gl_find gl) (temp + 1);
  let finish find := Glob (gl_dir gl) find (gl_pattern gl) true (gl_prefix_len gl) in
  let '(r, w) := win_find_next w (gl_dir gl) in
  match r with
  | Some name =>
      let err := win_errno w in
      if negb (err =? FPX_OK) && negb (err =? ERROR_NO_MORE_FILES) then
        Ok (err, Some (s1 ++ s2), finish name, w)
      else Ok (FPX_OK, Some (s1 ++ s2), Glob (gl_dir gl) name (gl_pattern gl) false (gl_prefix_len gl), w)
  | None => Ok (FPX_OK, Some (s1 ++ s2), finish (gl_find gl), w)
  end.

Definition fpx_glob_close (w : W) (gl : fpx_glob_t) : W := win_find_close w (gl_dir gl).
End Calls.

(** ** Lemmas *)

(** More room changes no answer but [NULL]. *)
Lemma room_mono fuel : ∀ p room room' out r, room ≤ room' →
  path_to_wchar_loop fuel p room out = r → r ≠ Ok None → path_to_wchar_loop fuel p room' out = r.
Proof.
  induction fuel as [|fuel IH]; intros p room room' out r Hle Hr Hn; [done|]. cbn [path_to_wchar_loop] in *.
  destruct (Z.leb_spec room 0); [congruence|]. rewrite (proj2 (Z.leb_gt room' 0)) by lia.
  destruct (rd p 0) as [c| | |]; [|done..]. rewrite bind_ok in *.
  destruct (c <? 128); [destruct (c =? 0); [done|]; eapply IH; [|done|done]; lia|].
  destruct (Z.eqb_spec room 1); [congruence|]. rewrite (proj2 (Z.eqb_neq room' 1)) by lia.
  destruct (fpx_utf8_decode p 4) as [[v q]| | |]; [|done..]. rewrite bind_ok in *.
  destruct (1114111 <? v); [done|]. destruct (65535 <? v); (eapply IH; [|done|done]; lia).
Qed.

(** A path ends up in the array if its encoding and the terminator have room there;
    nothing stops the code before it has written behind the array, or left
    the array without a terminator. *)
Lemma wide_path_ok path cs rest :
  u8 <$> path = utf8 cs ++ 0 :: rest → Forall (λ c, 0 < c ≤ 1114111) cs →
  wide_path path = if Z.of_nat (length (utf16 cs)) <? FPX_MAX_PATH_LEN then Ok (utf16 cs ++ [0]) else UB.
Proof.
  intros Hp Hcs. unfold wide_path, fpx_path_to_wchar. rewrite Hp.
  set (len := Z.of_nat (length (utf16 cs))).
  assert (∀ room, len + 2 ≤ room → path_to_wchar_loop (S (length (utf8 cs ++ 0 :: rest))) (utf8 cs ++ 0 :: rest) room []
    = Ok (Some (utf16 cs ++ [0]))) as Hbig.
  { intros room Hroom. apply (path_to_wchar_ok cs _ room rest []); [done| |done].
    pose proof (utf8_length cs). rewrite length_app. simpl. lia. }
  unfold FPX_MAX_PATH_LEN in *. destruct (Z.ltb_spec len 260).
  - rewrite Hbig, bind_ok by lia. cbn [of_option]. rewrite bind_ok. unfold require.
    rewrite length_app. cbn [length]. rewrite (proj2 (Z.leb_le _ 260)) by (unfold len in *; lia). done.
  - destruct (path_to_wchar_loop _ _ (2 * 260) []) as [[out|]| | |] eqn:E; [|done|done|..].
    + eapply (room_mono _ _ _ (2 * 260 + len + 2)) in E; [|lia|done]. rewrite Hbig in E by lia.
      injection E as <-. rewrite bind_ok. cbn [of_option]. rewrite bind_ok. unfold require.
      rewrite length_app. cbn [length]. rewrite (proj2 (Z.leb_gt _ 260)) by (unfold len in *; lia). done.
    + eapply (room_mono _ _ _ (2 * 260 + len + 2)) in E; [|lia|done]. rewrite Hbig in E by lia. done.
    + eapply (room_mono _ _ _ (2 * 260 + len + 2)) in E; [|lia|done]. rewrite Hbig in E by lia. done.
Qed.

(** ASCII is its own encoding. *)
Definition ascii (s : chars) : Prop := Forall (λ c, 0 < c < 128) s.

Lemma ascii_below s : forallb (λ c, (0 <? c) && (c <? 128)) s = true → ascii s.
Proof.
  intros E. apply Forall_forall. intros c Hc. apply list_elem_of_In in Hc.
  rewrite List.forallb_forall in E. specialize (E c Hc). lia.
Qed.

Lemma ascii_text s : ascii s → text s.
Proof. intros H. eapply Forall_impl; [exact H|]. cbn. lia. Qed.

Lemma ascii_encoded s : ascii s → utf8 s = s ∧ utf16 s = s ∧ u8 <$> s = s.
Proof.
  unfold utf8, utf16. induction 1 as [|c s Hc _ (IH1 & IH2 & IH3)]; [done|]. rewrite !fmap_cons. cbn [concat].
  rewrite IH1, IH2, IH3. unfold utf8_encode, utf16_encode. rewrite (proj2 (Z.ltb_lt c 128)), (proj2 (Z.ltb_lt c 65536)) by lia.
  unfold u8. by rewrite Z.mod_small by lia.
Qed.

Lemma wide_path_ascii s : ascii s →
  wide_path (cstr s) = if Z.of_nat (length s) <? FPX_MAX_PATH_LEN then Ok (cstr s) else UB.
Proof.
  intros Hs. destruct (ascii_encoded s Hs) as (H1 & H2 & H3).
  rewrite (wide_path_ok _ s []); [by rewrite H2| |].
  - unfold cstr. by rewrite fmap_app, H1, H3.
  - eapply Forall_impl; [exact Hs|]. cbn. lia.
Qed.

(** The last backslash of a pattern. *)
Lemma last_backslash_ok dir wild rest k : 92 ∉ wild → (k ≤ S (length wild))%nat →
  last_backslash (dir ++ 92 :: wild ++ 0 :: rest) (length dir + k) = Ok (Z.of_nat (length dir)).
Proof.
  intros Hw. induction k as [|k IH]; intros Hk.
  - rewrite Nat.add_0_r. destruct (length dir) eqn:E; cbn [last_backslash]; rewrite <- E, rd_app_r, bind_ok; done.
  - rewrite Nat.add_succ_r. cbn [last_backslash].
    assert (∃ c, (wild ++ 0 :: rest) !! k = Some c ∧ c ≠ 92) as (c & Hc & Hne).
    { destruct (decide (k = length wild)) as [->|]; [exists 0; split; [by apply list_lookup_middle|done]|].
      destruct (lookup_lt_is_Some_2 wild k) as [c Hc]; [lia|]. exists c. split; [by apply lookup_app_l_Some|].
      intros ->. apply Hw. by apply list_elem_of_lookup_2 in Hc. }
    rewrite (rd_lookup _ _ c), bind_ok by (lia || (rewrite Nat2Z.id, lookup_app_r by lia;
      replace (S (length dir + k) - length dir)%nat with (S k) by lia; done)).
    rewrite (proj2 (Z.eqb_neq c 92)) by done. apply IH. lia.
Qed.

(** ** Listing *)

(** What the three calls promise of a directory that nobody changes: [matches] are the names
    that match a pattern, [left] those a search has not delivered yet.  At the end of a
    search the error is ERROR_NO_MORE_FILES; a successful call leaves the last error
    alone. *)
Record find_laws {W} `{WinFiles W} (matches : W → chars → list chars) (left : W → Z → list chars) : Prop := {
  fl_first w pattern : match win_find_first w pattern with
    | (None, _) => matches w pattern = []
    | (Some (h, name), w') => matches w pattern = name :: left w' h ∧ win_errno w' = win_errno w
    end;
  fl_next w h : match win_find_next w h with
    | (None, w') => left w h = [] ∧ win_errno w' = ERROR_NO_MORE_FILES
    | (Some name, w') => left w h = name :: left w' h ∧ win_errno w' = win_errno w
    end;
  fl_attributes w wpath h : left (win_attributes w wpath).2 h = left w h
}.

(** Reading until something else than FPX_OK is answered: the paths, and that answer. *)
Fixpoint glob_all {W} `{WinFiles W} (fuel : nat) (w : W) (gl : fpx_glob_t) : res (list chars * fpx_err_t * W) :=
  match fuel with
  | O => NoFuel
  | S fuel =>
      '(err, path, gl, w) ← fpx_glob_read w gl;
      if negb (err =? FPX_OK) then Ok ([], err, w) else
      path ← of_option path;
      '(paths, err, w) ← glob_all fuel w gl;
      Ok (path :: paths, err, w)
  end.
(** The same for the entries of a directory, each with its type. *)
Fixpoint dir_all {W} `{WinFiles W} (fuel : nat) (w : W) (dir : fpx_dir_t) : res (list (chars * Z) * fpx_err_t * W) :=
  match fuel with
  | O => NoFuel
  | S fuel =>
      '(err, dir, w) ← fpx_dir_read w dir;
      if negb (err =? FPX_OK) then Ok ([], err, w) else
      '(entries, err, w) ← dir_all fuel w dir;
      Ok ((fpx_dir_current_name dir, dir_type dir) :: entries, err, w)
  end.

(** Last errors that do not make a successful search look like a failed one. *)
Definition quiet (err : fpx_err_t) : Prop := err = FPX_OK ∨ err = ERROR_NO_MORE_FILES.

Section Listing.
Context {W : Type} `{WinFiles W} (matches : W → chars → list chars) (left : W → Z → list chars).
Hypothesis laws : find_laws matches left.

(** The state of a search in [dir\wild] whose current name is [name]. *)
Definition searching (h : Z) (dir wild name : chars) : fpx_glob_t :=
  Glob h (cstr name) (dir ++ 92 :: cstr wild) false (Z.of_nat (length dir) + 1).
Definition full (dir name : chars) : chars := cstr (dir ++ 92 :: name).
Definition name_fits (dir name : chars) : Prop :=
  text name ∧ Z.of_nat (length dir) + 1 + Z.of_nat (length name) < FPX_MAX_PATH_LEN.

Lemma glob_open_ok w dir wild h name w' :
  text dir → dir ≠ [] → text wild → 92 ∉ wild → Z.of_nat (length dir + length wild) < 2 ^ 62 →
  win_find_first w (dir ++ 92 :: cstr wild) = (Some (h, cstr name), w') →
  fpx_glob_open w (dir ++ 92 :: cstr wild) = Ok (FPX_OK, Some (searching h dir wild name), w').
Proof using.
  intros Hd Hne Hw Hb Hl Hf. unfold fpx_glob_open. rewrite Hf. unfold cstr.
  replace (dir ++ 92 :: wild ++ [0]) with ((dir ++ 92 :: wild) ++ 0 :: []) by (by rewrite <- app_assoc).
  rewrite strlen_app, bind_ok.
  2: { apply Forall_app; split; [done|]. apply Forall_cons. split; [cbn; lia|done]. }
  2: { rewrite length_app. simpl. lia. }
  rewrite Nat2Z.id, length_app. cbn [length]. rewrite <- app_assoc. cbn [app].
  rewrite last_backslash_ok, bind_ok by (done || lia).
  rewrite (proj2 (Z.eqb_neq _ 0)); [done|]. destruct dir; [done|]. simpl. lia.
Qed.

(** One read, up to the search for the next name. *)
Lemma glob_read_ok w h dir wild name : name_fits dir name →
  fpx_glob_read w (searching h dir wild name) =
    let '(r, w') := win_find_next w h in
    Ok (match r with
        | None => (FPX_OK, Some (full dir name), Glob h (cstr name) (dir ++ 92 :: cstr wild) true (Z.of_nat (length dir) + 1), w')
        | Some next =>
            if negb (win_errno w' =? FPX_OK) && negb (win_errno w' =? ERROR_NO_MORE_FILES)
            then (win_errno w', Some (full dir name), Glob h next (dir ++ 92 :: cstr wild) true (Z.of_nat (length dir) + 1), w')
            else (FPX_OK, Some (full dir name), Glob h next (dir ++ 92 :: cstr wild) false (Z.of_nat (length dir) + 1), w')
        end).
Proof using.
  intros [Ht Hl]. unfold FPX_MAX_PATH_LEN in Hl. unfold fpx_glob_read, searching. cbn [gl_done gl_find gl_prefix_len gl_pattern gl_dir].
  rewrite strlen_cstr, bind_ok by (done || lia). cbv zeta. unfold FPX_MAX_PATH_LEN. rewrite (proj2 (Z.ltb_ge 260 _)) by lia.
  replace (dir ++ 92 :: cstr wild) with ((dir ++ [92]) ++ cstr wild) by (by rewrite <- app_assoc).
  replace (Z.of_nat (length dir) + 1) with (Z.of_nat (length (dir ++ [92]))) by (rewrite length_app; simpl; lia).
  rewrite read_bytes_app, bind_ok.
  assert (read_bytes (cstr name) (Z.of_nat (length name) + 1) = Ok (cstr name)) as ->.
  { pose proof (read_bytes_app (cstr name) []) as Hr. rewrite app_nil_r in Hr. rewrite <- Hr. f_equal.
    unfold cstr. rewrite length_app. simpl. lia. }
  rewrite bind_ok. destruct (win_find_next w h) as [[next|] w']; unfold full, cstr; rewrite <- !app_assoc; [|done].
  by destruct (_ && _).
Qed.

Lemma glob_all_S fuel w gl : glob_all (S fuel) w gl =
  ('(err, path, gl, w) ← fpx_glob_read w gl;
   if negb (err =? FPX_OK) then Ok ([], err, w) else
   path ← of_option path;
   '(paths, err, w) ← glob_all fuel w gl;
   Ok (path :: paths, err, w)).
Proof using. done. Qed.

Lemma glob_all_ok h dir wild names : ∀ w name, Forall (name_fits dir) (name :: names) →
  left w h = cstr <$> names → quiet (win_errno w) →
  ∃ w', glob_all (S (S (length names))) w (searching h dir wild name) = Ok (full dir <$> name :: names, FPX_DONE, w').
Proof using laws.
  induction names as [|next names IH]; intros w name Hn Hl Hq; apply Forall_cons in Hn as [Hn Hns];
    rewrite glob_all_S, glob_read_ok by done; pose proof (fl_next _ _ laws w h) as Hx;
    destruct (win_find_next w h) as [[x|] w']; destruct Hx as [Hx He]; rewrite Hl in Hx; try done.
  - rewrite bind_ok. cbn [negb Z.eqb FPX_OK]. cbn. eauto.
  - cbn [fmap list_fmap] in Hx. injection Hx as <- Hx. rewrite He.
    assert (negb (win_errno w =? FPX_OK) && negb (win_errno w =? ERROR_NO_MORE_FILES) = false) as ->.
    { by destruct Hq as [-> | ->]. }
    rewrite bind_ok. change (negb (FPX_OK =? FPX_OK)) with false. cbn iota. cbn [of_option]. rewrite bind_ok.
    destruct (IH w' next Hns) as (w'' & Hrun); [done|by rewrite He|].
    change (Glob h (cstr next) (dir ++ 92 :: cstr wild) false (Z.of_nat (length dir) + 1)) with (searching h dir wild next).
    cbn [length]. rewrite Hrun, bind_ok. by exists w''.
Qed.

(** A name that does not fit stops the search for good: nothing changes. *)
Lemma glob_read_long w h dir wild name : text name → Z.of_nat (length name) < 2 ^ 62 →
  FPX_MAX_PATH_LEN ≤ Z.of_nat (length dir) + 1 + Z.of_nat (length name) →
  fpx_glob_read w (searching h dir wild name) = Ok (FPX_ERR_FILESYS_LONG_PATH, None, searching h dir wild name, w).
Proof using.
  intros Ht Hb Hl. unfold FPX_MAX_PATH_LEN in Hl. unfold fpx_glob_read. cbn [searching gl_done gl_find gl_prefix_len].
  rewrite strlen_cstr, bind_ok by (done || lia). unfold FPX_MAX_PATH_LEN. by rewrite (proj2 (Z.ltb_lt 260 _)) by lia.
Qed.

(** *** Directories *)
Lemma dir_open_eq w p : text p → Z.of_nat (length p) < 2 ^ 62 →
  let closed h := Dir h (replicate 260 0) None FPX_FILE_TYPE_UNKFILE in
  fpx_dir_open w (cstr p) =
    if FPX_MAX_PATH_LEN + 3 <=? Z.of_nat (length p) then Ok (E2BIG, closed 0, w)
    else if FPX_MAX_PATH_LEN <? Z.of_nat (length p) then UB
    else match win_find_first w (p ++ [92; 42; 0]) with
         | (None, w') => Ok (if win_errno w' =? FPX_OK then FPX_DONE else win_errno w', closed INVALID_HANDLE_VALUE, w')
         | (Some (h, name), w') => Ok (FPX_OK, Dir h name (Some (cstr p)) FPX_FILE_TYPE_UNKFILE, w')
         end.
Proof using.
  intros Ht Hl closed. unfold fpx_dir_open. rewrite strlen_cstr, bind_ok by (done || lia).
  destruct (_ <=? _); [done|]. rewrite (read_bytes_app p [0] : read_bytes (cstr p) _ = _), bind_ok. unfold require.
  destruct (Z.ltb_spec FPX_MAX_PATH_LEN (Z.of_nat (length p))).
  - by rewrite (proj2 (Z.ltb_ge _ _)) by lia.
  - rewrite (proj2 (Z.ltb_lt _ _)), bind_ok by lia. destruct (win_find_first _ _) as [[[h name]|] w']; [done|].
    by destruct (win_errno w' =? FPX_OK).
Qed.

Variable attributes : list Z → option fpx_file_stat_t.
Hypothesis fixed_attributes : ∀ w wpath, (win_attributes w wpath).1 = attributes wpath.

Definition entry_path (p name : chars) : chars := strip_with 92 p ++ 92 :: name.
(** An entry whose path fits and whose attributes can be read. *)
Definition entry_ok (p name : chars) : Prop :=
  ascii name ∧ Z.of_nat (length (entry_path p name)) < FPX_MAX_PATH_LEN ∧ is_Some (attributes (cstr (entry_path p name))).
Definition entry_of (p name : chars) : chars * Z :=
  (cstr name, match attributes (cstr (entry_path p name)) with
              | Some a => fpx_stat_get_file_type a | None => FPX_FILE_TYPE_UNKFILE end).

Lemma entry_path_ascii p name : ascii p → ascii name → ascii (entry_path p name).
Proof using.
  intros Hp Hn. unfold entry_path, ascii, strip_with. apply Forall_app. split.
  - destruct (last p) as [c|]; [|done]. destruct (c =? 92); [|done]. by apply Forall_take.
  - apply Forall_cons. split; [lia|done].
Qed.

Lemma dir_read_ok w h name0 p type0 name : ascii p → p ≠ [] → Z.of_nat (length p) < 2 ^ 61 → entry_ok p name →
  (win_find_next w h).1 = Some (cstr name) →
  let w1 := (win_find_next w h).2 in
  fpx_dir_read w (Dir h name0 (Some (cstr p)) type0) =
    Ok (FPX_OK, Dir h (cstr name) (Some (cstr p)) (entry_of p name).2, (win_attributes w1 (cstr (entry_path p name))).2).
Proof using fixed_attributes.
  intros Hp Hne Hl (Hn & Hfit & [a Ha]) Hx w1. unfold fpx_dir_read, entry_of. cbn [dir_handle dir_name snd].
  unfold w1. destruct (win_find_next w h) as [o w']. cbn [fst snd] in *. subst o. cbn [of_option]. rewrite bind_ok.
  pose proof (entry_path_ascii p name Hp Hn) as Hasc.
  assert (Z.of_nat (length name) ≤ Z.of_nat (length (entry_path p name))) as Hlen
    by (unfold entry_path; rewrite length_app; simpl; lia).
  unfold fpx_file_full_path. unfold FPX_MAX_PATH_LEN in *.
  pose proof (full_path_with_ok 92 260 p name (ascii_text _ Hp) (ascii_text _ Hn) Hne ltac:(lia)) as Hfull.
  change fpx_is_path_separator with (λ c, c =? 92). change FPX_PATH_SEPARATOR with 92. rewrite Hfull. clear Hfull.
  change (strip_with 92 p ++ [92] ++ name) with (entry_path p name).
  rewrite (proj2 (Z.leb_le _ 260)), bind_ok by lia.
  unfold fpx_file_stat_by_path. rewrite wide_path_ascii by done. unfold FPX_MAX_PATH_LEN.
  rewrite (proj2 (Z.ltb_lt _ 260)) by lia. rewrite bind_assoc, bind_ok.
  pose proof (fixed_attributes w' (cstr (entry_path p name))) as Hat.
  destruct (win_attributes w' _) as [o w'']. cbn [fst snd] in *. by rewrite Hat, Ha.
Qed.

Lemma dir_all_S fuel w dir : dir_all (S fuel) w dir =
  ('(err, dir, w) ← fpx_dir_read w dir;
   if negb (err =? FPX_OK) then Ok ([], err, w) else
   '(entries, err, w) ← dir_all fuel w dir;
   Ok ((fpx_dir_current_name dir, dir_type dir) :: entries, err, w)).
Proof using. done. Qed.

Lemma dir_all_ok h p names : ascii p → p ≠ [] → Z.of_nat (length p) < 2 ^ 61 → ∀ w name0 type0,
  Forall (entry_ok p) names → left w h = cstr <$> names →
  ∃ w', dir_all (S (length names)) w (Dir h name0 (Some (cstr p)) type0) = Ok (entry_of p <$> names, FPX_DONE, w').
Proof using laws fixed_attributes.
  intros Hp Hne Hpl. induction names as [|name names IH]; intros w name0 type0 Hns Hl; rewrite dir_all_S;
    pose proof (fl_next _ _ laws w h) as Hx.
  - unfold fpx_dir_read. cbn [dir_handle]. destruct (win_find_next w h) as [[x|] w']; destruct Hx as [Hx He]; [by rewrite Hl in Hx|].
    rewrite He. cbn. eauto.
  - apply Forall_cons in Hns as [Hn Hns].
    destruct (win_find_next w h) as [[x|] w'] eqn:E; destruct Hx as [Hx He]; rewrite Hl in Hx; [|done].
    cbn [fmap list_fmap] in Hx. injection Hx as Hx1 Hx2. subst x.
    rewrite (dir_read_ok _ _ _ _ _ name) by (done || by rewrite E). rewrite E. cbn [snd]. rewrite bind_ok.
    change (negb (FPX_OK =? FPX_OK)) with false. cbn iota.
    destruct (IH (win_attributes w' (cstr (entry_path p name))).2 (cstr name) (entry_of p name).2) as (w'' & Hrun); [done| |].
    { by rewrite (fl_attributes _ _ laws). }
    cbn [length]. rewrite Hrun, bind_ok. by exists w''.
Qed.
End Listing.

(** ** Properties *)

(** C36: The limits of paths.  A file is opened by the UTF-16 form of its name if that
    has less than 260 units; of longer names the code writes behind its array or
    passes it on without a terminator, although the conversion has a test for the
    end of the array.  Directories of 263 characters or more are refused, those
    of 261 and 262 overrun the buffer.  A match of a pattern that is too long is refused,
    but the search stays where it is: reading until the search is done never ends. *)
Theorem win_path_limits {W} `{WinFiles W} w path cs rest p mode create access h dir wild name n :
  u8 <$> path = utf8 cs ++ 0 :: rest → Forall (λ c, 0 < c ≤ 1114111) cs →
  text p → Z.of_nat (length p) < 2 ^ 62 →
  text name → Z.of_nat (length name) < 2 ^ 62 →
  (fpx_file_open w path mode create access =
     if Z.of_nat (length (utf16 cs)) <? 260
     then let '(fd, w') := win_create_file w (utf16 cs ++ [0]) mode create in
          Ok (if fd =? -1 then (win_errno w', File 0 None 0, w') else (FPX_OK, File fd (Some path) 0, w'))
     else UB) ∧
  (263 ≤ Z.of_nat (length p) → ∃ d, fpx_dir_open w (cstr p) = Ok (E2BIG, d, w)) ∧
  (260 < Z.of_nat (length p) < 263 → fpx_dir_open w (cstr p) = UB) ∧
  (Z.of_nat (length p) ≤ 260 → ∃ r, fpx_dir_open w (cstr p) = Ok r) ∧
  (260 ≤ Z.of_nat (length dir) + 1 + Z.of_nat (length name) →
   Nat.iter n (λ r, '(_, _, gl, w) ← r; fpx_glob_read w gl)
     (fpx_glob_read w (searching h dir wild name))
   = Ok (FPX_ERR_FILESYS_LONG_PATH, None, searching h dir wild name, w)).
Proof.
  intros Hpath Hcs Hp Hpl Hn Hnl. split_and!.
  - unfold fpx_file_open. rewrite (wide_path_ok path cs rest) by done. unfold FPX_MAX_PATH_LEN.
    destruct (_ <? 260); [|done]. rewrite bind_ok. destruct (win_create_file _ _ _ _) as [fd w'].
    unfold FPX_INVALID_FILE, INVALID_HANDLE_VALUE. by destruct (fd =? -1).
  - intros Hl. rewrite dir_open_eq by done. unfold FPX_MAX_PATH_LEN.
    rewrite (proj2 (Z.leb_le (260 + 3) _)) by lia. by eexists.
  - intros Hl. rewrite dir_open_eq by done. unfold FPX_MAX_PATH_LEN.
    by rewrite (proj2 (Z.leb_gt (260 + 3) _)), (proj2 (Z.ltb_lt 260 _)) by lia.
  - intros Hl. rewrite dir_open_eq by done. unfold FPX_MAX_PATH_LEN.
    rewrite (proj2 (Z.leb_gt (260 + 3) _)), (proj2 (Z.ltb_ge 260 _)) by lia.
    destruct (win_find_first _ _) as [[[? ?]|] ?]; by eexists.
  - intros Hl. pose proof (glob_read_long w h dir wild name Hn Hnl Hl) as E.
    induction n as [|n IH]; [done|]. cbn [Nat.iter nat_rect]. unfold Nat.iter in IH. by rewrite IH, bind_ok.
Qed.

(** C37: Listing.  The matches of a pattern are delivered one by one, all of them, in the
    order of the system, each with the directory of the pattern in front; but when
    the last error is one of an earlier call, the search ends with that error after its
    first match.  The entries of a directory are delivered with their types,
    all but the first one, which was found by opening the directory and is skipped. *)
Theorem win_listing {W} `{WinFiles W} matches left attributes w dir wild p name names :
  find_laws matches left → (∀ w wpath, (win_attributes w wpath).1 = attributes wpath) →
  (matches w (dir ++ 92 :: cstr wild) = cstr <$> name :: names →
   text dir → dir ≠ [] → text wild → 92 ∉ wild → Z.of_nat (length dir + length wild) < 2 ^ 62 →
   Forall (name_fits dir) (name :: names) →
   ∃ gl w1, fpx_glob_open w (dir ++ 92 :: cstr wild) = Ok (FPX_OK, Some gl, w1) ∧
     (quiet (win_errno w) → ∃ w2,
        glob_all (S (S (length names))) w1 gl = Ok (full dir <$> name :: names, FPX_DONE, w2)) ∧
     (¬ quiet (win_errno w) → names ≠ [] → ∃ gl' w2,
        fpx_glob_read w1 gl = Ok (win_errno w, Some (full dir name), gl', w2) ∧
        fpx_glob_read w2 gl' = Ok (FPX_DONE, None, gl', w2))) ∧
  (matches w (p ++ [92; 42; 0]) = cstr <$> name :: names →
   ascii p → p ≠ [] → Z.of_nat (length p) ≤ 260 → Forall (entry_ok attributes p) names →
   ∃ d w1 w2, fpx_dir_open w (cstr p) = Ok (FPX_OK, d, w1) ∧
     dir_all (S (length names)) w1 d = Ok (entry_of attributes p <$> names, FPX_DONE, w2)).
Proof.
  intros laws Hattr. split.
  - intros Hm Hd Hne Hw Hb Hl Hf. pose proof (fl_first _ _ laws w (dir ++ 92 :: cstr wild)) as Hx.
    destruct (win_find_first w _) as [[[h x]|] w1] eqn:E; [destruct Hx as [Hx He]|]; rewrite Hm in Hx; [|done].
    cbn [fmap list_fmap] in Hx. injection Hx as <- Hx.
    exists (searching h dir wild name), w1. split; [by apply glob_open_ok|]. split.
    + intros Hq. eapply glob_all_ok; [done..|by rewrite He].
    + intros Hq Hne'. apply Forall_cons in Hf as [Hf _]. rewrite (glob_read_ok w1) by done.
      pose proof (fl_next _ _ laws w1 h) as Hn. rewrite <- Hx in Hn.
      destruct (win_find_next w1 h) as [[y|] w2]; destruct Hn as [Hn He2]; [|by destruct names].
      rewrite He2, He.
      rewrite (proj2 (Z.eqb_neq (win_errno w) FPX_OK)) by (intros Hq'; apply Hq; by left).
      rewrite (proj2 (Z.eqb_neq (win_errno w) ERROR_NO_MORE_FILES)) by (intros Hq'; apply Hq; by right).
      eexists _, w2. by split.
  - intros Hm Hp Hne Hl Hns. rewrite dir_open_eq by (by apply ascii_text || lia). unfold FPX_MAX_PATH_LEN.
    rewrite (proj2 (Z.leb_gt (260 + 3) _)), (proj2 (Z.ltb_ge 260 _)) by lia.
    pose proof (fl_first _ _ laws w (p ++ [92; 42; 0])) as Hx.
    destruct (win_find_first w _) as [[[h x]|] w1]; [destruct Hx as [Hx He]|]; rewrite Hm in Hx; [|done].
    cbn [fmap list_fmap] in Hx. injection Hx as <- Hx.
    edestruct (dir_all_ok matches left laws attributes Hattr h p names Hp Hne ltac:(lia) w1 (cstr name) FPX_FILE_TYPE_UNKFILE) as (w2 & Hrun);
      [done..|]. eexists _, w1, w2. split; [done|exact Hrun].
Qed.

(** *** A system with a single directory *)
Record demo := Demo { dm_left : list chars; dm_error : fpx_err_t }.
#[local] Instance demo_files : WinFiles demo := {
  win_errno := dm_error;
  win_create_file w _ _ _ := (5, w);
  win_read_file w _ _ _ := (None, w);
  win_write_file w _ _ _ := (None, w);
  win_file_size w _ := (0, 0, w);
  win_attributes w wpath := (Some (Stat (if Z.of_nat (length wpath) <? 8 then 16 else 32) 0 0 0 0 0), w);
  win_info_by_handle w _ s := (0, s, w);
  win_close_handle w _ := w;
  win_find_first w _ := match dm_left w with
                        | [] => (None, w)
                        | n :: l => (Some (7, n), Demo l (dm_error w))
                        end;
  win_find_next w _ := match dm_left w with
                       | [] => (None, Demo [] ERROR_NO_MORE_FILES)
                       | n :: l => (Some n, Demo l (dm_error w))
                       end;
  win_find_close w _ := w
}.
Definition demo_attributes (wpath : list Z) : option fpx_file_stat_t :=
  Some (Stat (if Z.of_nat (length wpath) <? 8 then 16 else 32) 0 0 0 0 0).

Lemma demo_laws : find_laws (λ w _, dm_left w) (λ w _, dm_left w).
Proof.
  split; intros w; [intros pattern|intros h|done]; simpl; by destruct (dm_left w).
Qed.

Lemma win_path_limits_witness :
  let long := replicate 300 97 in
  fpx_file_open (Demo [] 0) (cstr long) 0 3 0 = UB ∧
  fpx_glob_read (Demo [] 0) (searching 7 [67; 58] [42] long) =
    Ok (FPX_ERR_FILESYS_LONG_PATH, None, searching 7 [67; 58] [42] long, Demo [] 0).
Proof.
  intros long.
  destruct (win_path_limits (Demo [] 0) (cstr long) long [] [67] 0 3 0 7 [67; 58] [42] long 0)
    as (H1 & _ & _ & _ & H2).
  - vm_compute. reflexivity.
  - apply Forall_replicate. lia.
  - by repeat constructor.
  - by vm_compute.
  - apply Forall_replicate. lia.
  - by vm_compute.
  - split; [exact H1|]. apply H2. by vm_compute.
Defined.

Lemma win_listing_witness :
  let names := chars_of <$> ["."; ".."; "b"; "site.conf"]%string in
  (∃ gl w1 w2, fpx_glob_open (Demo (cstr <$> names) 0) (chars_of "C:\x\*" ++ [0]) = Ok (FPX_OK, Some gl, w1) ∧
     glob_all 5 w1 gl = Ok (full (chars_of "C:\x") <$> names, FPX_DONE, w2)) ∧
  (∃ d w1 w2, fpx_dir_open (Demo (cstr <$> names) 0) (cstr (chars_of "C:\x")) = Ok (FPX_OK, d, w1) ∧
     dir_all 4 w1 d = Ok ([(chars_of ".." ++ [0], 1); (chars_of "b" ++ [0], 2); (chars_of "site.conf" ++ [0], 1)], FPX_DONE, w2)).
Proof.
  intros names.
  destruct (win_listing (λ w _, dm_left w) (λ w _, dm_left w) demo_attributes (Demo (cstr <$> names) 0)
    (chars_of "C:\x") (chars_of "*") (chars_of "C:\x") (chars_of ".") (chars_of <$> [".."; "b"; "site.conf"]%string)
    demo_laws (λ _ _, eq_refl)) as [Hg Hd].
  split.
  - destruct Hg as (gl & w1 & Ho & Hr & _); [done|by apply ascii_text, ascii_below|done|by apply ascii_text, ascii_below|apply (bool_decide_unpack _); by vm_compute|by vm_compute| |].
    + repeat (apply Forall_cons; split; [split; [by apply ascii_text, ascii_below|by vm_compute]|]). apply Forall_nil_2.
    + destruct Hr as (w2 & Hr); [by left|]. exists gl, w1, w2. split; [exact Ho|exact Hr].
  - destruct Hd as (d & w1 & w2 & Ho & Hr); [done|by apply ascii_below|done|by vm_compute| |].
    + repeat (apply Forall_cons; split; [split; [by apply ascii_below|split; [by vm_compute|by eexists]]|]). apply Forall_nil_2.
    + exists d, w1, w2. split; [exact Ho|exact Hr].
Defined.
