(* ===== verification/Config.v ===== *)
(** * The configuration: [src/src/core/command.c], [include/floppix/core/command.h]

    A configuration file is scanned character by character into directives, each a
    name with at most seven arguments; the directives of a configuration are then
    matched against the commands of the loaded modules and their handlers called.

    [fpx_list_t] is the sequence of its elements, which is what DList.v shows the
    list operations to implement.  The machine state [M] is the pool the code
    allocates from together with the operating system.  A directive keeps the
    address of its structure, because the code reads a file name out of the list
    header, where it finds the address of the last directive's list node. *)

From S2P Require Import Prelude CInt Errno Str Parse Filesys.
Open Scope Z_scope.

(** ** Data *)
Record fpx_directive_t := Directive {
  d_addr : Z;
  d_name : chars;
  d_argc : Z;
  d_argv : list chars;
  d_filename : option Z;
  d_line : Z
}.
Definition SIZEOF_DIRECTIVE : Z := 56.
Definition OFFSETOF_LIST_NODE : Z := 40.

(** The lists of directives and of the files read, the latter with the fields the
    code keeps open for them. *)
Record fpx_config_t := Config { conf_list : list fpx_directive_t; conf_files : list fpx_file_t }.

Definition FPX_MAX_TAKES : Z := 8.
Definition FPX_TAKE0 : Z := 1.
Definition FPX_TAKE1 : Z := 2.
Definition FPX_TAKE2 : Z := 4.
Definition FPX_TAKE3 : Z := 8.
Definition FPX_TAKE4 : Z := 16.
Definition FPX_TAKE5 : Z := 32.
Definition FPX_TAKE6 : Z := 64.
Definition FPX_TAKE7 : Z := 128.
Definition fpx_takes : list Z :=
  [FPX_TAKE0; FPX_TAKE1; FPX_TAKE2; FPX_TAKE3; FPX_TAKE4; FPX_TAKE5; FPX_TAKE6; FPX_TAKE7].

(** ** Reading a file *)
Section Reading.
Context {M : Type} `{PoolAlloc M} `{PoolCleanup M} `{Posix M}.

Definition fpx_config_save_directive (config : fpx_config_t) (pool : M) (name : chars) (argc : Z)
    (argv : list (option chars)) (filename : option Z) (line : Z)
    : res (fpx_err_t * fpx_config_t * M) :=
  '(directive, pool) ← palloc pool SIZEOF_DIRECTIVE;
  match directive with
  | None => Ok (sys_errno pool, config, pool)
  | Some addr =>
      '(mem, pool) ← palloc pool (u64 (argc * 8));
      match mem with
      | None => Ok (sys_errno pool, config, pool)
      | Some _ =>
          args ← of_option (mapM id (take (Z.to_nat argc) argv));
          let d := Directive addr name argc args filename line in
          Ok (FPX_OK, Config (conf_list config ++ [d]) (conf_files config), pool)
      end
  end.

(** The local variables of [fpx_config_parse] that survive an iteration. *)
Record scan := Scan {
  s_begin : option Z;
  s_end : option Z;
  s_str : option chars;
  s_argc : Z;
  s_argv : list (option chars);
  s_found : bool;
  s_comment : bool;
  s_in_directive : bool;
  s_line : Z
}.
Definition scan_init : scan :=
  Scan None None None 0 (replicate 8 None) false false false 1.

Definition set_word (s : scan) (i : Z) : scan :=
  match s_begin s with
  | None => s
  | Some b => Scan (Some b) (Some i) (s_str s) (s_argc s) (s_argv s) true (s_comment s)
                (s_in_directive s) (s_line s)
  end.
Definition set_comment (s : scan) (v : bool) : scan :=
  Scan (s_begin s) (s_end s) (s_str s) (s_argc s) (s_argv s) (s_found s) v (s_in_directive s) (s_line s).
Definition set_begin (s : scan) (i : Z) : scan :=
  Scan (Some i) (s_end s) (s_str s) (s_argc s) (s_argv s) (s_found s) (s_comment s) (s_in_directive s) (s_line s).

(** The [switch]: [end_file], [end_line] and the variables, or [None] for a
    syntax error. *)
Definition scan_char (c i : Z) (s : scan) : option (bool * bool * scan) :=
  if c =? FPX_NULL then Some (true, false, s)
  else if (c =? FPX_TAB) || (c =? FPX_SPACE) then Some (false, false, set_word s i)
  else if (c =? FPX_LF) || (c =? FPX_CR) then Some (false, true, set_word (set_comment s false) i)
  else if c =? 35 then
    match s_begin s with Some _ => None | None => Some (false, false, set_comment s true) end
  else if negb (fpx_isascii c) then None
  else match s_begin s with
       | None => if s_comment s then Some (false, false, s) else Some (false, false, set_begin s i)
       | Some _ => Some (false, false, s)
       end.

(** [if (found)]: a word ends.  [inl]: the function returns this; when [fpx_pstrndup] has
    answered [NULL] it is [errno], whatever that is. *)
Definition end_word (pool : M) (file_buf : chars) (s : scan) : res ((fpx_err_t + scan) * M) :=
  if negb (s_found s) then Ok (inr s, pool) else
  b ← of_option (s_begin s);
  e ← of_option (s_end s);
  '(alloc_str, pool) ← fpx_pstrndup pool (drop (Z.to_nat b) file_buf) (u64 (e - b));
  match alloc_str with
  | None => Ok (inl (sys_errno pool), pool)
  | Some (_, str) =>
      if negb (s_in_directive s) then
        Ok (inr (Scan None None (Some str) (s_argc s) (s_argv s) false (s_comment s) true (s_line s)), pool)
      else
        _ ← require (s_argc s <? FPX_MAX_TAKES);
        let argv := <[Z.to_nat (s_argc s) := Some str]> (s_argv s) in
        let argc := s_argc s + 1 in
        if FPX_MAX_TAKES <=? argc then Ok (inl FPX_ERR_CONFIG_SYNTAX, pool)
        else
          Ok (inr (Scan None None (s_str s) argc argv false (s_comment s) (s_in_directive s) (s_line s)), pool)
  end.

(** [if (end_line)]: the result of [fpx_config_save_directive] is not used. *)
Definition end_of_line (config : fpx_config_t) (pool : M) (filename : option Z) (s : scan)
    : res (fpx_config_t * scan * M) :=
  '(config, pool) ←
    (if s_in_directive s then
       str ← of_option (s_str s);
       '(_, config, pool) ← fpx_config_save_directive config pool str (s_argc s) (s_argv s) filename (s_line s);
       Ok (config, pool)
     else Ok (config, pool));
  Ok (config, Scan (s_begin s) (s_end s) (s_str s) 0 (s_argv s) (s_found s) (s_comment s) false
        (u64 (s_line s + 1)), pool).

(** [for (i = 0; ; ++i)]; [rest] is the buffer from [i] on. *)
Fixpoint parse_loop (filename : option Z) (file_buf rest : chars) (i : Z) (config : fpx_config_t)
    (pool : M) (s : scan) : res (fpx_err_t * fpx_config_t * M) :=
  match rest with
  | [] => UB
  | c :: rest =>
      match scan_char c i s with
      | None => Ok (FPX_ERR_CONFIG_SYNTAX, config, pool)
      | Some (end_file, end_line, s) =>
          '(r, pool) ← end_word pool file_buf s;
          match r with
          | inl err => Ok (err, config, pool)
          | inr s =>
              '(config, s, pool) ← (if end_line : bool then end_of_line config pool filename s
                                    else Ok (config, s, pool));
              if end_file : bool then Ok (FPX_OK, config, pool)
              else parse_loop filename file_buf rest (i + 1) config pool s
          end
      end
  end.

(** [file = fpx_list_data(&config->conf_files, fpx_file_t, list_node)]: the header
    of [conf_files] is taken for the [list_node] of a file.  [list_node] is the field
    at offset 24 of [fpx_file_t] and [conf_files] the field at offset 24 of
    [fpx_config_t], so that [file->name] is the word at offset 8 of the
    configuration: [conf_list.tail]. *)
Definition header_name (config : fpx_config_t) : option Z :=
  (λ d, d_addr d + OFFSETOF_LIST_NODE) <$> last (conf_list config).

Definition fpx_config_parse (config : fpx_config_t) (pool : M) (file_buf : chars)
    : res (fpx_err_t * fpx_config_t * M) :=
  parse_loop (header_name config) file_buf file_buf 0 config pool scan_init.

(** The part of [fpx_config_read] and [fpx_config_read_included_file] that is the
    same.  The second [palloc] gets its size from a signed file size. *)
Definition FPX_FILE_CLOSE_HANDLER : Z := 1.
Definition read_file (config : fpx_config_t) (pool : M) (filename : chars)
    : res (fpx_err_t * fpx_config_t * M) :=
  '(mem, pool) ← palloc pool 40;
  match mem with
  | None => Ok (sys_errno pool, config, pool)
  | Some file_addr =>
      let '(err, file, pool) := fpx_file_open pool filename FPX_FILE_RDONLY FPX_FILE_OPEN FPX_FILE_DEFAULT_ACCESS in
      if negb (err =? FPX_OK) then Ok (err, config, pool) else
      pool ← pcleanup_add pool file_addr FPX_FILE_CLOSE_HANDLER;
      let '(file_size, pool) := fpx_file_size pool file in
      if file_size =? -1 then Ok (sys_errno pool, config, pool) else
      '(buf, pool) ← palloc pool (u64 (file_size + 1));
      match buf with
      | None => Ok (sys_errno pool, config, pool)
      | Some _ =>
          let '(bytes_read, bytes, file, pool) := fpx_file_read pool file (u64 file_size) 0 in
          if bytes_read =? -1 then Ok (sys_errno pool, config, pool) else
          _ ← require (bytes_read <=? file_size);
          let config := Config (conf_list config) (conf_files config ++ [file]) in
          fpx_config_parse config pool (bytes ++ [0])
      end
  end.
Definition fpx_config_read_included_file : fpx_config_t → M → chars → res (fpx_err_t * fpx_config_t * M) :=
  read_file.
Definition fpx_config_read (pool : M) (filename : chars) : res (fpx_err_t * fpx_config_t * M) :=
  read_file (Config [] []) pool filename.

(** ** Included files *)

Definition is_dot (fname : chars) : res bool :=
  r1 ← fpx_strcmp fname (chars_of "." ++ [0]);
  r2 ← fpx_strcmp fname (chars_of ".." ++ [0]);
  Ok ((r1 =? 0) || (r2 =? 0)).

(** The loop over the entries of an open directory; [walk] is the recursive
    call.  [fuel] bounds the number of entries. *)
Fixpoint walk_entries (walk : fpx_config_t → M → chars → res (fpx_err_t * fpx_config_t * M))
    (fuel : nat) (config : fpx_config_t) (pool : M) (dir : fpx_dir_t) (path : chars)
    : res (fpx_err_t * fpx_config_t * M) :=
  match fuel with
  | O => NoFuel
  | S fuel =>
      '(err, dir, pool) ← fpx_dir_read pool dir;
      if negb (err =? FPX_OK) then pool ← fpx_dir_close pool dir; Ok (FPX_OK, config, pool) else
      fname ← fpx_dir_current_name dir;
      dot ← is_dot fname;
      if dot : bool then walk_entries walk fuel config pool dir path else
      '(_, fullpath) ← fpx_file_full_path FPX_MAX_PATH_LEN path fname;
      '(err, config, pool) ← (if fpx_dir_current_is_file dir
                              then fpx_config_read_included_file config pool fullpath
                              else walk config pool fullpath);
      if negb (err =? FPX_OK) then pool ← fpx_dir_close pool dir; Ok (err, config, pool)
      else walk_entries walk fuel config pool dir path
  end.

Fixpoint fpx_config_walkdir_nonwildcard (fuel : nat) (config : fpx_config_t) (pool : M) (path : chars)
    : res (fpx_err_t * fpx_config_t * M) :=
  match fuel with
  | O => NoFuel
  | S fuel =>
      let '(err, dir, pool) := fpx_dir_open pool path in
      if negb (err =? FPX_DONE) then Ok (err, config, pool)
      else walk_entries (fpx_config_walkdir_nonwildcard fuel) fuel config pool dir path
  end.

(** [while (fpx_glob_read(&glob, fullpath) != FPX_DONE)]: what the two calls answer
    is stored in [err] and not looked at.  [info] is a local variable: it keeps the
    value of the previous iteration when a call of [stat] fails. *)
Fixpoint walk_glob (fuel : nat) (config : fpx_config_t) (pool : M) (glob : fpx_glob_t)
    (info : option fpx_file_info_t) : res (fpx_err_t * fpx_config_t * M) :=
  match fuel with
  | O => NoFuel
  | S fuel' =>
      '(err, fullpath, glob) ← fpx_glob_read glob FPX_MAX_PATH_LEN;
      match fullpath with
      | None => Ok (FPX_OK, config, pool)
      | Some fullpath =>
          dot ← is_dot fullpath;
          if dot : bool then walk_glob fuel' config pool glob info else
          let '(_, new_info, pool) := fpx_file_info_by_path pool fullpath in
          let info := match new_info with Some _ => new_info | None => info end in
          i ← of_option info;
          '(_, config, pool) ← (if i_type i =? FPX_FILE_TYPE_FILE
                                then fpx_config_read_included_file config pool fullpath
                                else fpx_config_walkdir_nonwildcard fuel' config pool fullpath);
          walk_glob fuel' config pool glob info
      end
  end.

Definition fpx_config_walkdir_wildcard (fuel : nat) (config : fpx_config_t) (pool : M) (path : chars)
    : res (fpx_err_t * fpx_config_t * M) :=
  let '(err, glob, pool) := fpx_glob_open pool path in
  match glob with
  | None => Ok (err, config, pool)
  | Some glob => walk_glob fuel config pool glob None   (* then fpx_glob_close *)
  end.

Definition fpx_config_read_included (fuel : nat) (config : fpx_config_t) (pool : M) (path : chars)
    : res (fpx_err_t * fpx_config_t * M) :=
  err ← fpx_check_absolute_path path;
  if negb (err =? FPX_OK) then Ok (err, config, pool) else
  wild ← fpx_is_path_has_wildcard path;
  if negb wild then
    let '(_, info, pool) := fpx_file_info_by_path pool path in
    i ← of_option info;
    if i_type i =? FPX_FILE_TYPE_FILE then fpx_config_read_included_file config pool path
    else fpx_config_walkdir_nonwildcard fuel config pool path
  else fpx_config_walkdir_wildcard fuel config pool path.
End Reading.

(** ** Commands and handlers *)

(** The context structure a command's handler writes to: its fields by offset. *)
Inductive cval :=
  | VBool (b : bool)
  | VInt (n : Z)
  | VSsize (n : Z)
  | VStr (s : chars).
Abbreviation cntx_t := (gmap Z cval) (only parsing).

(** [cmd->takes] against the number of arguments; [i] and the two bounds are the
    variables of the loop. *)
Fixpoint takes_loop (takes : list Z) (cmd_takes : Z) (i min_takes max_takes : Z) : Z * Z :=
  match takes with
  | [] => (min_takes, max_takes)
  | t :: takes =>
      let '(min_takes, max_takes) :=
        if fpx_bit_is_set cmd_takes t then
          (if min_takes =? 0 then i else min_takes, if max_takes <? i then i else max_takes)
        else (min_takes, max_takes) in
      takes_loop takes cmd_takes (i + 1) min_takes max_takes
  end.
Definition fpx_check_directive_arguments (argc cmd_takes : Z) : fpx_err_t :=
  let argc := u32 argc in
  let '(min_takes, max_takes) := takes_loop fpx_takes cmd_takes 0 0 0 in
  if negb ((argc =? min_takes) || ((argc <=? max_takes) && (min_takes <=? argc)))
  then FPX_ERR_CONFIG_SYNTAX else FPX_OK.

(** The four generic handlers: the error and the context after the call. *)
Definition arg0 (argv : list chars) : res chars := of_option (argv !! 0%nat).

Definition fpx_handler_flag (offset : Z) (data : cntx_t) (argv : list chars) : res (fpx_err_t * cntx_t) :=
  a ← arg0 argv;
  on ← fpx_strcasecmp a (chars_of "on" ++ [0]);
  if on =? 0 then Ok (FPX_OK, <[offset := VBool true]> data) else
  off ← fpx_strcasecmp a (chars_of "off" ++ [0]);
  if off =? 0 then Ok (FPX_OK, <[offset := VBool false]> data)
  else Ok (FPX_ERR_CONFIG_SYNTAX, data).

Definition fpx_handler_str (offset : Z) (data : cntx_t) (argv : list chars) : res (fpx_err_t * cntx_t) :=
  a ← arg0 argv; Ok (FPX_OK, <[offset := VStr a]> data).

Definition fpx_handler_size (offset : Z) (data : cntx_t) (argv : list chars) : res (fpx_err_t * cntx_t) :=
  a ← arg0 argv;
  n ← fpx_config_parse_size a;
  if n =? -1 then Ok (FPX_ERR_CONFIG_SYNTAX, data) else Ok (FPX_OK, <[offset := VSsize n]> data).

(** [n] is an [int]: the size is converted before it is tested. *)
Definition fpx_handler_uint (offset : Z) (data : cntx_t) (argv : list chars) : res (fpx_err_t * cntx_t) :=
  a ← arg0 argv;
  size ← fpx_config_parse_size a;
  let n := s32 size in
  if n =? -1 then Ok (FPX_ERR_CONFIG_SYNTAX, data) else Ok (FPX_OK, <[offset := VInt n]> data).

(** A command names its handler; [Sv] is the server, modules included, and
    [call_handler] the call through the function pointer. *)
Record fpx_command_t (Hd : Type) := Command {
  c_name : chars;
  c_takes : Z;
  c_handler : Hd;
  c_offset : Z
}.
Arguments Command {Hd}.
Arguments c_name {Hd}.
Arguments c_takes {Hd}.
Arguments c_handler {Hd}.
Arguments c_offset {Hd}.

Section Processing.
Context {Hd Sv : Type}.
(** The command tables of the modules in list order, and the call of a handler
    with [params], for the command of the module with that index. *)
Variable modules_of : Sv → list (list (fpx_command_t Hd)).
Variable call_handler : Sv → fpx_config_t → nat → fpx_command_t Hd → fpx_directive_t →
  res (fpx_err_t * fpx_config_t * Sv).

Fixpoint find_in_table (cmds : list (fpx_command_t Hd)) (cmd_name : chars) : res (option (fpx_command_t Hd)) :=
  match cmds with
  | [] => Ok None
  | c :: cmds =>
      r ← fpx_strcmp (c_name c) cmd_name;
      if r =? 0 then Ok (Some c) else find_in_table cmds cmd_name
  end.
Fixpoint find_in_modules (mods : list (list (fpx_command_t Hd))) (i : nat) (cmd_name : chars)
    : res (option (nat * fpx_command_t Hd)) :=
  match mods with
  | [] => Ok None
  | m :: mods =>
      r ← find_in_table m cmd_name;
      match r with
      | Some c => Ok (Some (i, c))
      | None => find_in_modules mods (S i) cmd_name
      end
  end.
Definition fpx_find_command_in_modules (server : Sv) (cmd_name : chars) : res (option (fpx_command_t Hd)) :=
  r ← find_in_modules (modules_of server) 0 cmd_name; Ok (option_map snd r).
Definition fpx_find_module_by_command (server : Sv) (cmd_name : chars) : res (option nat) :=
  r ← find_in_modules (modules_of server) 0 cmd_name; Ok (option_map fst r).

(** [fpx_list_foreach]: the node after the current one is looked up when the
    handler has returned, so that directives it has appended are visited too.
    [only_include] distinguishes [fpx_config_check] from [fpx_config_process]. *)
Fixpoint process_loop (only_include : bool) (fuel : nat) (k : nat) (config : fpx_config_t) (server : Sv)
    : res (fpx_err_t * fpx_config_t * Sv) :=
  match fuel with
  | O => NoFuel
  | S fuel =>
      match conf_list config !! k with
      | None => Ok (FPX_OK, config, server)
      | Some directive =>
          cmd ← fpx_find_command_in_modules server (d_name directive);
          match cmd with
          | None => Ok (FPX_ERR_CONFIG_SYNTAX, config, server)
          | Some cmd =>
              if negb (fpx_check_directive_arguments (d_argc directive) (c_takes cmd) =? FPX_OK)
              then Ok (FPX_ERR_CONFIG_SYNTAX, config, server) else
              skip ← (if only_include then
                        incl ← fpx_strcmp (d_name directive) (chars_of "include" ++ [0]); Ok (negb (incl =? 0))
                      else Ok false);
              if skip : bool then process_loop only_include fuel (S k) config server else
              module ← fpx_find_module_by_command server (d_name directive);
              match module with
              | None => Ok (FPX_FAILED, config, server)
              | Some m =>
                  '(err, config, server) ← call_handler server config m cmd directive;
                  if negb (err =? FPX_OK) then Ok (err, config, server)
                  else process_loop only_include fuel (S k) config server
              end
          end
      end
  end.
Definition fpx_config_check (fuel : nat) (config : fpx_config_t) (server : Sv) :=
  process_loop true fuel 0 config server.
Definition fpx_config_process (fuel : nat) (config : fpx_config_t) (server : Sv) :=
  process_loop false fuel 0 config server.
End Processing.

(** ** The language of configuration files *)

Definition is_sep (c : Z) : bool := (c =? FPX_TAB) || (c =? FPX_SPACE).
Definition is_eol (c : Z) : bool := (c =? FPX_LF) || (c =? FPX_CR).
Definition is_nil {A} (l : list A) : bool := match l with [] => true | _ => false end.

(** The words of a line, [cur] being the characters of the word in progress: words
    are separated by blanks; a [#] in front of a word starts a comment, within one it
    is an error; so is a character beyond ASCII, in a comment too. *)
Fixpoint words_of (cur l : chars) : option (list chars) :=
  match l with
  | [] => Some (if is_nil cur then [] else [cur])
  | c :: l =>
      if is_sep c then (if is_nil cur then words_of [] l else option_map (cons cur) (words_of [] l))
      else if c =? 35 then (if is_nil cur && forallb fpx_isascii l then Some [] else None)
      else if fpx_isascii c then words_of (cur ++ [c]) l else None
  end.

(** A line: no terminator within. *)
Definition line_text (l : chars) : Prop := Forall (λ c, c ≠ 0 ∧ is_eol c = false) l.

(** What a directive says, without the address of its structure. *)
Definition entry : Type := chars * Z * list chars * option Z * Z.
Definition entry_of (d : fpx_directive_t) : entry :=
  (d_name d, d_argc d, d_argv d, d_filename d, d_line d).
Definition line_entry (filename : option Z) (line : Z) (ws : list chars) : list entry :=
  match ws with
  | [] => []
  | w :: args => [(cstr w, Z.of_nat (length args), cstr <$> args, filename, line)]
  end.
Definition extends (config config' : fpx_config_t) (es : list entry) : Prop :=
  entry_of <$> conf_list config' = (entry_of <$> conf_list config) ++ es ∧
  conf_files config' = conf_files config.

Lemma extends_refl config : extends config config [].
Proof. split; [by rewrite app_nil_r|done]. Qed.
Lemma extends_trans c1 c2 c3 e1 e2 : extends c1 c2 e1 → extends c2 c3 e2 → extends c1 c3 (e1 ++ e2).
Proof. intros [H1 H2] [H3 H4]. split; [by rewrite H3, H1, app_assoc|congruence]. Qed.

(** The variables after [pre] has been scanned: the word in progress, the words
    of the line, the line number. *)
Record scanning (pre cur : chars) (ws : list chars) (n : Z) (s : scan) : Prop := {
  sc_word : ∃ pre0, pre = pre0 ++ cur;
  sc_begin : s_begin s = if is_nil cur then None else Some (Z.of_nat (length pre - length cur));
  sc_found : s_found s = false;
  sc_directive : s_in_directive s = negb (is_nil ws);
  sc_argc : s_argc s = Z.of_nat (length ws - 1);
  sc_str : ∀ w args, ws = w :: args → s_str s = Some (cstr w) ∧
             take (length args) (s_argv s) = (λ a, Some (cstr a)) <$> args;
  sc_argv : length (s_argv s) = 8%nat;
  sc_words : (length ws ≤ 8)%nat;
  sc_line : s_line s = n
}.

Section ParseProofs.
Context {M : Type} `{PoolAlloc M} `{PoolCleanup M} `{Posix M}.
Hypothesis Hpalloc : ∀ (p : M) n, ∃ a p', palloc p n = Ok (Some a, p').

Lemma pstrndup_ok pool s rest :
  ∃ a pool', fpx_pstrndup pool (s ++ rest) (Z.of_nat (length s)) = Ok (Some (a, cstr s), pool').
Proof using Hpalloc.
  unfold fpx_pstrndup. destruct (Hpalloc pool (u64 (Z.of_nat (length s) + 1))) as (a & pool' & ->).
  rewrite bind_ok. cbn beta iota zeta. rewrite read_bytes_app, bind_ok. eauto.
Qed.

Lemma drop_at (pre0 cur rest : chars) : drop (length (pre0 ++ cur) - length cur) ((pre0 ++ cur) ++ rest) = cur ++ rest.
Proof using.
  rewrite length_app, Nat.add_sub, <- app_assoc. apply drop_app_length.
Qed.

(** A finished word becomes the name or the next argument. *)
Lemma end_word_ok pool buf pre cur rest ws n s i :
  scanning pre cur ws n s → cur ≠ [] → buf = pre ++ rest → i = Z.of_nat (length pre) →
  Z.of_nat (length buf) < 2 ^ 62 →
  ∃ r pool', end_word pool buf (set_word s i) = Ok (r, pool') ∧
    if (length ws <? 8)%nat
    then ∃ s', r = inr s' ∧ s_comment s' = s_comment s ∧ (∀ c, scanning (pre ++ [c]) [] (ws ++ [cur]) n s')
    else r = inl FPX_ERR_CONFIG_SYNTAX.
Proof using Hpalloc.
  intros [[pre0 Hpre] Hbeg Hfound Hdir Hargc Hstr Hlen Hws Hline] Hne -> -> Hb.
  assert (is_nil cur = false) as Hnil by by destruct cur. rewrite Hnil in Hbeg.
  unfold set_word. rewrite Hbeg. unfold end_word. cbn [s_found negb s_begin s_end of_option].
  rewrite !bind_ok. rewrite Nat2Z.id.
  assert (length cur ≤ length pre)%nat as Hcl by (rewrite Hpre, length_app; lia).
  assert (drop (length pre - length cur) (pre ++ rest) = cur ++ rest) as ->
    by (rewrite Hpre; apply drop_at).
  replace (Z.of_nat (length pre) - Z.of_nat (length pre - length cur)) with (Z.of_nat (length cur)) by lia.
  rewrite length_app in Hb. rewrite u64_small by lia.
  destruct (pstrndup_ok pool cur rest) as (a & pool' & ->). rewrite bind_ok.
  cbn [s_in_directive s_argc s_argv s_str s_comment s_line]. rewrite Hdir.
  destruct ws as [|w args]; cbn [is_nil negb].
  - eexists _, _. split; [done|]. cbn [length Nat.ltb Nat.leb]. eexists. split; [done|]. split; [done|].
    intros c. split; cbn; try done.
    + exists (pre ++ [c]). by rewrite app_nil_r.
    + intros w args [= <- <-]. done.
    + lia.
  - rewrite Hargc. cbn [length] in Hws |- *. replace (S (length args) - 1)%nat with (length args) by lia.
    rewrite (proj2 (Z.ltb_lt _ _)) by (unfold FPX_MAX_TAKES; lia). cbn [require]. rewrite bind_ok. cbv zeta.
    rewrite Nat2Z.id. destruct (Hstr w args eq_refl) as [Hs Hav].
    destruct (Nat.ltb_spec (S (length args)) 8); destruct (Z.leb_spec FPX_MAX_TAKES (Z.of_nat (length args) + 1));
      unfold FPX_MAX_TAKES in *; try lia.
    + eexists _, _. split; [done|]. eexists. split; [done|]. split; [done|]. intros c. split; cbn; try done.
      * exists (pre ++ [c]). by rewrite app_nil_r.
      * rewrite length_app. simpl. lia.
      * intros w' args' [= <- <-]. split; [done|]. rewrite fmap_app, length_app. cbn [length fmap list_fmap].
        rewrite Nat.add_1_r. rewrite <- Hav.
        rewrite (take_S_r _ _ (Some (cstr cur))).
        -- by rewrite take_insert_ge.
        -- apply list_lookup_insert_eq. lia.
      * by rewrite length_insert.
      * rewrite length_app. simpl. lia.
    + by eexists _, _.
Qed.

Lemma mapM_some {A} (l : list A) : mapM id (Some <$> l) = Some l.
Proof using. induction l as [|x l IH]; [done|]. rewrite fmap_cons. cbn [mapM]. simpl. by rewrite IH. Qed.

Lemma save_directive_ok config pool w args (argv : list (option chars)) fn line :
  take (length args) argv = (λ a, Some (cstr a)) <$> args →
  ∃ config' pool', fpx_config_save_directive config pool (cstr w) (Z.of_nat (length args)) argv fn line =
                   Ok (FPX_OK, config', pool') ∧
    extends config config' (line_entry fn line (w :: args)).
Proof using Hpalloc.
  intros Hav. unfold fpx_config_save_directive.
  destruct (Hpalloc pool SIZEOF_DIRECTIVE) as (a & p1 & ->). rewrite bind_ok. cbn beta iota zeta.
  destruct (Hpalloc p1 (u64 (Z.of_nat (length args) * 8))) as (b & p2 & ->). rewrite bind_ok. cbn beta iota zeta.
  rewrite Nat2Z.id, Hav.
  assert (mapM id ((λ a, Some (cstr a)) <$> args) = Some (cstr <$> args)) as ->.
  { replace ((λ a, Some (cstr a)) <$> args) with (Some <$> (cstr <$> args)); [apply mapM_some|].
    by rewrite <- list_fmap_compose. }
  cbn [of_option]. rewrite bind_ok. eexists _, _. split; [done|].
  split; simpl; [|done]. by rewrite fmap_app.
Qed.

(** The loop, one character further. *)
Lemma parse_loop_cons fn buf c rest i config pool s :
  parse_loop fn buf (c :: rest) i config pool s =
  match scan_char c i s with
  | None => Ok (FPX_ERR_CONFIG_SYNTAX, config, pool)
  | Some (end_file, end_line, s) =>
      '(r, pool) ← end_word pool buf s;
      match r with
      | inl err => Ok (err, config, pool)
      | inr s =>
          '(config, s, pool) ← (if end_line : bool then end_of_line config pool fn s else Ok (config, s, pool));
          if end_file : bool then Ok (FPX_OK, config, pool)
          else parse_loop fn buf rest (i + 1) config pool s
      end
  end.
Proof using. done. Qed.

Lemma end_word_idle pool buf s : s_found s = false → end_word pool buf s = Ok (inr s, pool).
Proof using. intros Hf. unfold end_word. by rewrite Hf. Qed.

(** A blank line, or the end of a line: what has been collected is saved. *)
Lemma end_line_ok config pool fn pre ws n s t :
  scanning pre [] ws n s → t < 2 ^ 64 → n + 1 = t → 0 ≤ n →
  ∃ config' s' pool', end_of_line config pool fn s = Ok (config', s', pool') ∧
    extends config config' (line_entry fn n ws) ∧ s_comment s' = s_comment s ∧
    scanning pre [] [] t s'.
Proof using Hpalloc.
  intros [Hw Hbeg Hfound Hdir Hargc Hstr Hlen Hws Hline] Ht <- Hn. unfold end_of_line. rewrite Hdir.
  destruct ws as [|w args]; cbn [is_nil negb].
  - rewrite bind_ok. eexists _, _, _. split; [done|]. split; [apply extends_refl|]. split; [done|].
    split; cbn; try done; try lia. rewrite Hline. apply u64_small. lia.
  - destruct (Hstr w args eq_refl) as [-> Hav]. cbn [of_option]. rewrite bind_ok, Hargc.
    replace (length (w :: args) - 1)%nat with (length args) by (simpl; lia).
    destruct (save_directive_ok config pool w args (s_argv s) fn (s_line s) Hav) as (config' & pool' & -> & Hext).
    rewrite !bind_ok. eexists _, _, _. split; [done|]. rewrite Hline in Hext. split; [done|]. split; [done|].
    split; cbn; try done; try lia. rewrite Hline. apply u64_small. lia.
Qed.

(** Dropping or adding a character that belongs to no word. *)
Lemma scanning_skip pre ws n s c : scanning pre [] ws n s → scanning (pre ++ [c]) [] ws n s.
Proof using.
  intros [Hw Hbeg Hfound Hdir Hargc Hstr Hlen Hws Hline]. split; try done.
  exists (pre ++ [c]). by rewrite app_nil_r.
Qed.
Lemma scanning_comment pre cur ws n s v : scanning pre cur ws n s → scanning pre cur ws n (set_comment s v).
Proof using. intros []. by split. Qed.

(** In a comment nothing but characters beyond ASCII matters. *)
Lemma scan_comment fn buf l : ∀ pre ws n s config pool rest,
  scanning pre [] ws n s → s_comment s = true → line_text l →
  if forallb fpx_isascii l then
    scanning (pre ++ l) [] ws n s ∧
    parse_loop fn buf (l ++ rest) (Z.of_nat (length pre)) config pool s =
      parse_loop fn buf rest (Z.of_nat (length (pre ++ l))) config pool s
  else parse_loop fn buf (l ++ rest) (Z.of_nat (length pre)) config pool s =
       Ok (FPX_ERR_CONFIG_SYNTAX, config, pool).
Proof using.
  induction l as [|c l IH]; intros pre ws n s config pool rest Hsc Hc Hl; simpl.
  - rewrite app_nil_r. done.
  - apply Forall_cons in Hl as [[Hc0 Heol] Hl].
    pose proof (sc_found _ _ _ _ _ Hsc) as Hfound. pose proof (sc_begin _ _ _ _ _ Hsc) as Hbeg. simpl in Hbeg.
    assert (scan_char c (Z.of_nat (length pre)) s =
            if fpx_isascii c then Some (false, false, s) else None) as Hchar.
    { unfold scan_char, set_word. rewrite Hbeg, Hc. change FPX_NULL with 0. rewrite (proj2 (Z.eqb_neq c 0)) by done.
      unfold is_eol in Heol. rewrite Heol.
      destruct ((c =? FPX_TAB) || (c =? FPX_SPACE)) eqn:Esep.
      { assert (fpx_isascii c = true) as ->; [|done].
        unfold FPX_TAB, FPX_SPACE in Esep. apply orb_prop in Esep as [E|E]; apply Z.eqb_eq in E; by subst. }
      destruct (Z.eqb_spec c 35) as [->|].
      { f_equal. destruct s; simpl in *. by subst. }
      by destruct (fpx_isascii c). }
    rewrite Hchar. destruct (fpx_isascii c); simpl; [|done].
    rewrite end_word_idle by done. rewrite !bind_ok.
    replace (Z.of_nat (length pre) + 1) with (Z.of_nat (length (pre ++ [c]))) by (rewrite length_app; simpl; lia).
    pose proof (IH (pre ++ [c]) ws n s config pool rest (scanning_skip _ _ _ _ c Hsc) Hc Hl) as IH'.
    replace (pre ++ c :: l) with ((pre ++ [c]) ++ l) by by rewrite <- app_assoc. exact IH'.
Qed.

Definition syntax_error (r : res (fpx_err_t * fpx_config_t * M)) (config : fpx_config_t) : Prop :=
  ∃ pool', r = Ok (FPX_ERR_CONFIG_SYNTAX, config, pool').

Lemma is_nil_app {A} (l : list A) x : is_nil (l ++ [x]) = false.
Proof using. by destruct l. Qed.

(** The loop at a character of a line, which is no end of anything. *)
Lemma parse_loop_text fn buf c rest pre config pool s :
  c ≠ 0 → is_eol c = false →
  parse_loop fn buf (c :: rest) (Z.of_nat (length pre)) config pool s =
  match (if is_sep c then Some (set_word s (Z.of_nat (length pre)))
         else if c =? 35 then
           match s_begin s with Some _ => None | None => Some (set_comment s true) end
         else if negb (fpx_isascii c) then None
         else match s_begin s with
              | None => Some (if s_comment s then s else set_begin s (Z.of_nat (length pre)))
              | Some _ => Some s
              end) with
  | None => Ok (FPX_ERR_CONFIG_SYNTAX, config, pool)
  | Some s =>
      '(r, pool) ← end_word pool buf s;
      match r with
      | inl err => Ok (err, config, pool)
      | inr s => parse_loop fn buf rest (Z.of_nat (length (pre ++ [c]))) config pool s
      end
  end.
Proof using.
  intros Hc0 Heol. rewrite parse_loop_cons. unfold scan_char.
  change FPX_NULL with 0. rewrite (proj2 (Z.eqb_neq c 0)) by done.
  change ((c =? FPX_TAB) || (c =? FPX_SPACE)) with (is_sep c).
  change ((c =? FPX_LF) || (c =? FPX_CR)) with (is_eol c). rewrite Heol.
  replace (Z.of_nat (length pre) + 1) with (Z.of_nat (length (pre ++ [c]))) by (rewrite length_app; simpl; lia).
  destruct (is_sep c); [|destruct (c =? 35), (fpx_isascii c)]; cbn [negb];
    try (destruct (s_begin s), (s_comment s)); try done;
    by destruct (end_word _ _ _) as [[[err|s1] p1]| |].
Qed.

(** A blank ends the word in progress; the ninth word of a directive is one too
    many. *)
Lemma scan_blank fn buf c rest cur pre ws n s config pool :
  scanning pre cur ws n s → c ≠ 0 → is_eol c = false → is_sep c = true →
  buf = pre ++ c :: rest → Z.of_nat (length buf) < 2 ^ 62 →
  let run := parse_loop fn buf (c :: rest) (Z.of_nat (length pre)) config pool s in
  let word := if is_nil cur then [] else [cur] in
  (∃ pool' s', scanning (pre ++ [c]) [] (ws ++ word) n s' ∧ s_comment s' = s_comment s ∧
     run = parse_loop fn buf rest (Z.of_nat (length (pre ++ [c]))) config pool' s') ∨
  ((8 < length (ws ++ word))%nat ∧ syntax_error run config).
Proof using Hpalloc.
  intros Hsc Hc0 Heol Hsep Hbuf Hb run word. unfold run, word. clear run word.
  rewrite parse_loop_text, Hsep by done.
  pose proof (sc_begin _ _ _ _ _ Hsc) as Hbeg.
  destruct cur as [|x cur0]; cbn [is_nil].
  - left. unfold set_word. simpl in Hbeg. rewrite Hbeg, end_word_idle, bind_ok, app_nil_r
      by apply (sc_found _ _ _ _ _ Hsc).
    exists pool, s. split; [by apply scanning_skip|done].
  - destruct (end_word_ok pool buf pre (x :: cur0) (c :: rest) ws n s (Z.of_nat (length pre)) Hsc)
      as (r & pool' & -> & Hout); [done|exact Hbuf|done|done|].
    rewrite bind_ok. destruct (Nat.ltb_spec (length ws) 8).
    + destruct Hout as (s' & -> & Hcm & Hsc'). left. by exists pool', s'.
    + subst r. right. split; [rewrite length_app; simpl; lia|]. by exists pool'.
Qed.

(** A character of a word, its first or a further one. *)
Lemma scan_word_char fn buf c rest cur pre ws n s config pool :
  scanning pre cur ws n s → s_comment s = false → c ≠ 0 → is_eol c = false →
  is_sep c = false → c ≠ 35 → fpx_isascii c = true →
  ∃ s', scanning (pre ++ [c]) (cur ++ [c]) ws n s' ∧ s_comment s' = false ∧
    parse_loop fn buf (c :: rest) (Z.of_nat (length pre)) config pool s =
    parse_loop fn buf rest (Z.of_nat (length (pre ++ [c]))) config pool s'.
Proof using.
  intros Hsc Hcm Hc0 Heol Hsep Hh Hasc.
  rewrite parse_loop_text, Hsep, (proj2 (Z.eqb_neq c 35) Hh), Hasc, Hcm by done. cbn [negb].
  pose proof (sc_begin _ _ _ _ _ Hsc) as Hbeg. pose proof (sc_found _ _ _ _ _ Hsc) as Hfound.
  destruct cur as [|x cur0]; simpl in Hbeg; rewrite Hbeg, end_word_idle, bind_ok by done.
  - exists (set_begin s (Z.of_nat (length pre))). split; [|done].
    destruct Hsc. split; try done; [by exists pre|]. cbn. f_equal. rewrite length_app. simpl. lia.
  - exists s. split; [|done]. destruct Hsc as [[pre0 ->]]. split; try done.
    + exists pre0. by rewrite app_assoc.
    + rewrite is_nil_app, Hbeg. f_equal. rewrite !length_app. simpl. lia.
Qed.

(** A [#] opens a comment, but not within a word. *)
Lemma scan_hash fn buf l rest cur pre ws n s config pool :
  scanning pre cur ws n s → line_text l →
  let run := parse_loop fn buf (35 :: l ++ rest) (Z.of_nat (length pre)) config pool s in
  if is_nil cur && forallb fpx_isascii l then
    ∃ s', scanning (pre ++ 35 :: l) [] ws n s' ∧
      run = parse_loop fn buf rest (Z.of_nat (length (pre ++ 35 :: l))) config pool s'
  else syntax_error run config.
Proof using.
  intros Hsc Hl run. unfold run. clear run. rewrite parse_loop_text by done. change (is_sep 35) with false.
  pose proof (sc_begin _ _ _ _ _ Hsc) as Hbeg. pose proof (sc_found _ _ _ _ _ Hsc) as Hfound.
  destruct cur as [|x cur0]; simpl in Hbeg; rewrite Hbeg; [|by exists pool].
  cbn [is_nil andb Z.eqb Pos.eqb]. rewrite end_word_idle, bind_ok by done.
  pose proof (scan_comment fn buf l (pre ++ [35]) ws n (set_comment s true) config pool rest
    (scanning_comment _ _ _ _ _ _ (scanning_skip _ _ _ _ _ Hsc)) eq_refl Hl) as Hco.
  rewrite <- app_assoc in Hco. destruct (forallb fpx_isascii l); [|by exists pool].
  exists (set_comment s true). exact Hco.
Qed.

(** The characters of a line; the word at its end is still in progress. *)
Lemma scan_words_ok fn l : ∀ buf cur pre ws n s config pool rest,
  scanning pre cur ws n s → s_comment s = false → line_text l →
  buf = pre ++ l ++ rest → Z.of_nat (length buf) < 2 ^ 62 →
  let run := parse_loop fn buf (l ++ rest) (Z.of_nat (length pre)) config pool s in
  match words_of cur l with
  | None => syntax_error run config
  | Some ws' =>
      (∃ pool' s' cur' ws1, ws' = ws1 ++ (if is_nil cur' then [] else [cur']) ∧
         scanning (pre ++ l) cur' (ws ++ ws1) n s' ∧
         run = parse_loop fn buf rest (Z.of_nat (length (pre ++ l))) config pool' s') ∨
      ((8 < length (ws ++ ws'))%nat ∧ syntax_error run config)
  end.
Proof using Hpalloc.
  induction l as [|c l IH]; intros buf cur pre ws n s config pool rest Hsc Hcm Hl Hbuf Hb run.
  { left. exists pool, s, cur, []. rewrite !app_nil_r. done. }
  apply Forall_cons in Hl as [[Hc0 Heol] Hl]. simpl words_of. unfold run. clear run. cbn [app].
  assert (pre ++ c :: l = (pre ++ [c]) ++ l) as Hpl by by rewrite <- app_assoc.
  assert (buf = (pre ++ [c]) ++ l ++ rest) as Hbuf' by by rewrite Hbuf, <- app_assoc.
  destruct (is_sep c) eqn:Esep; [|destruct (Z.eqb_spec c 35) as [->|Hh]; [|destruct (fpx_isascii c) eqn:Easc]].
  - set (word := if is_nil cur then [] else [cur]).
    assert ((if is_nil cur then words_of [] l else option_map (cons cur) (words_of [] l)) =
            app word <$> words_of [] l) as -> by (unfold word; by destruct cur, (words_of [] l)).
    destruct (scan_blank fn buf c (l ++ rest) cur pre ws n s config pool Hsc)
      as [(pool' & s' & Hsc' & Hcm' & ->)|[Hlong Herr]]; [done..| |].
    + pose proof (IH buf [] (pre ++ [c]) (ws ++ word) n s' config pool' rest Hsc'
        ltac:(congruence) Hl Hbuf' Hb) as IH'. cbv zeta in IH'.
      destruct (words_of [] l) as [ws'|]; simpl; [|done]. rewrite Hpl.
      destruct IH' as [(p' & s'' & cur' & ws1 & -> & Hs'' & Hrun)|[Hlong Herr]].
      * left. exists p', s'', cur', (word ++ ws1). rewrite !app_assoc in *. done.
      * right. by rewrite app_assoc.
    + fold word in Hlong. destruct (words_of [] l) as [ws'|]; simpl; [|done]. right. split; [|done].
      rewrite app_assoc, length_app. lia.
  - pose proof (scan_hash fn buf l rest cur pre ws n s config pool Hsc Hl) as Hhash. cbv zeta in Hhash.
    destruct (is_nil cur && forallb fpx_isascii l); [|done]. destruct Hhash as (s' & Hs' & Hrun).
    left. exists pool, s', [], []. rewrite (app_nil_r ws). done.
  - destruct (scan_word_char fn buf c (l ++ rest) cur pre ws n s config pool) as (s' & Hs' & Hcm' & ->);
      [done..|]. rewrite Hpl. by apply IH.
  - rewrite parse_loop_text, Esep, (proj2 (Z.eqb_neq c 35) Hh), Easc by done.
    simpl. by exists pool.
Qed.

(** The character that ends a line. *)
Lemma scan_eol fn buf pre cur ws n s config pool t rest :
  scanning pre cur ws n s → is_eol t = true → buf = pre ++ t :: rest → Z.of_nat (length buf) < 2 ^ 62 →
  0 ≤ n < 2 ^ 62 →
  let ws' := ws ++ (if is_nil cur then [] else [cur]) in
  let run := parse_loop fn buf (t :: rest) (Z.of_nat (length pre)) config pool s in
  if (length ws' <=? 8)%nat then
    ∃ config' pool' s', extends config config' (line_entry fn n ws') ∧
      scanning (pre ++ [t]) [] [] (n + 1) s' ∧ s_comment s' = false ∧
      run = parse_loop fn buf rest (Z.of_nat (length (pre ++ [t]))) config' pool' s'
  else syntax_error run config.
Proof using Hpalloc.
  intros Hsc Ht Hbuf Hb Hn ws' run. unfold run. rewrite parse_loop_cons. unfold scan_char.
  change ((t =? FPX_LF) || (t =? FPX_CR)) with (is_eol t). rewrite Ht.
  assert ((t =? FPX_NULL) = false ∧ (t =? FPX_TAB) || (t =? FPX_SPACE) = false) as [-> ->].
  { unfold is_eol, FPX_LF, FPX_CR, FPX_NULL, FPX_TAB, FPX_SPACE in *. lia. }
  replace (Z.of_nat (length pre) + 1) with (Z.of_nat (length (pre ++ [t]))) by (rewrite length_app; simpl; lia).
  pose proof (scanning_comment _ _ _ _ _ false Hsc) as Hsc0. set (s0 := set_comment s false) in *.
  assert (s_comment s0 = false) as Hc0 by done.
  destruct cur as [|x cur0]; cbn [is_nil] in ws'.
  - pose proof (sc_begin _ _ _ _ _ Hsc0) as Hbeg. cbn [is_nil] in Hbeg. unfold set_word. rewrite Hbeg.
    rewrite end_word_idle, bind_ok by apply Hsc0.
    unfold ws'. rewrite app_nil_r. pose proof (sc_words _ _ _ _ _ Hsc).
    rewrite (proj2 (Nat.leb_le _ _)) by lia.
    destruct (end_line_ok config pool fn (pre ++ [t]) ws n s0 (n + 1) (scanning_skip _ _ _ _ t Hsc0))
      as (config' & s' & pool' & -> & Hext & Hcm & Hsc'); [lia|done|lia|].
    rewrite bind_ok. exists config', pool', s'. rewrite Hcm. done.
  - destruct (end_word_ok pool buf pre (x :: cur0) (t :: rest) ws n s0 (Z.of_nat (length pre)) Hsc0)
      as (r & pool' & Hew & Hout); [done|done|done|done|].
    rewrite Hew, bind_ok. unfold ws'. rewrite length_app. cbn [length]. destruct (Nat.ltb_spec (length ws) 8).
    + rewrite (proj2 (Nat.leb_le _ _)) by lia. destruct Hout as (s' & -> & Hcm' & Hsc').
      destruct (end_line_ok config pool' fn (pre ++ [t]) (ws ++ [x :: cur0]) n s' (n + 1) (Hsc' t))
        as (config' & s'' & pool'' & -> & Hext & Hcm & Hsc''); [lia|done|lia|].
      rewrite bind_ok. exists config', pool'', s''. rewrite Hcm, Hcm'. done.
    + rewrite (proj2 (Nat.leb_gt _ _)) by lia. subst r. by exists pool'.
Qed.

(** The end of the file: a word in progress, and a directive without an end of
    line, are forgotten. *)
Lemma scan_eof fn buf pre cur ws n s config pool rest :
  scanning pre cur ws n s →
  parse_loop fn buf (0 :: rest) (Z.of_nat (length pre)) config pool s = Ok (FPX_OK, config, pool).
Proof using.
  intros Hsc. rewrite parse_loop_cons. unfold scan_char. change (0 =? FPX_NULL) with true. cbn iota.
  rewrite end_word_idle, !bind_ok by apply Hsc. done.
Qed.

(** ** The reference: lines with their terminators, and what is behind the last *)
Fixpoint parse_spec (fn : option Z) (n : Z) (lines : list (chars * Z)) (tail : chars)
    : fpx_err_t * list entry :=
  match lines with
  | [] => match words_of [] tail with
          | None => (FPX_ERR_CONFIG_SYNTAX, [])
          | Some _ => (FPX_OK, [])
          end
  | (l, _) :: lines =>
      match words_of [] l with
      | None => (FPX_ERR_CONFIG_SYNTAX, [])
      | Some ws =>
          if (8 <? length ws)%nat then (FPX_ERR_CONFIG_SYNTAX, [])
          else let '(err, es) := parse_spec fn (n + 1) lines tail in (err, line_entry fn n ws ++ es)
      end
  end.
Definition file_text (lines : list (chars * Z)) (tail : chars) : chars :=
  concat ((λ lt, lt.1 ++ [lt.2]) <$> lines) ++ tail.

Lemma parse_lines_ok fn lines : ∀ buf pre n s config pool tail rest,
  scanning pre [] [] n s → s_comment s = false →
  Forall (λ lt, line_text lt.1 ∧ is_eol lt.2 = true) lines → line_text tail →
  match words_of [] tail with Some ws => (length ws ≤ 8)%nat | None => True end →
  buf = pre ++ file_text lines tail ++ 0 :: rest → Z.of_nat (length buf) < 2 ^ 61 →
  0 ≤ n ≤ 1 + Z.of_nat (length pre) →
  ∃ config' pool' err es, parse_spec fn n lines tail = (err, es) ∧
    parse_loop fn buf (file_text lines tail ++ 0 :: rest) (Z.of_nat (length pre)) config pool s =
      Ok (err, config', pool') ∧ extends config config' es.
Proof using Hpalloc.
  induction lines as [|[l t] lines IH]; intros buf pre n s config pool tail rest Hsc Hcm Hls Htl Htw Hbuf Hb Hn.
  - unfold file_text in *. cbn [fmap list_fmap concat app] in *. simpl parse_spec.
    pose proof (scan_words_ok fn tail buf [] pre [] n s config pool (0 :: rest) Hsc Hcm Htl Hbuf ltac:(lia)) as Hw.
    cbv zeta in Hw. destruct (words_of [] tail) as [ws|].
    + destruct Hw as [(p' & s' & cur' & ws1 & _ & Hsc' & ->)|[Hlong _]]; [|simpl in Hlong; lia].
      rewrite (scan_eof fn buf _ _ _ _ _ config p' rest Hsc').
      exists config, p', FPX_OK, []. split; [done|]. split; [done|]. apply extends_refl.
    + destruct Hw as [p' ->]. exists config, p', FPX_ERR_CONFIG_SYNTAX, []. split; [done|]. split; [done|]. apply extends_refl.
  - apply Forall_cons in Hls as [[Hl Ht] Hls]. cbn [fst snd] in Hl, Ht. simpl parse_spec.
    assert (file_text ((l, t) :: lines) tail ++ 0 :: rest = l ++ t :: file_text lines tail ++ 0 :: rest) as Ht2.
    { unfold file_text. rewrite fmap_cons. cbn [concat fst snd]. by rewrite <- !app_assoc. }
    rewrite Ht2 in *. set (rest2 := file_text lines tail ++ 0 :: rest) in *.
    pose proof (scan_words_ok fn l buf [] pre [] n s config pool (t :: rest2) Hsc Hcm Hl Hbuf ltac:(lia)) as Hw.
    cbv zeta in Hw. destruct (words_of [] l) as [ws|].
    2:{ destruct Hw as [p' ->]. exists config, p', FPX_ERR_CONFIG_SYNTAX, []. split; [done|]. split; [done|]. apply extends_refl. }
    destruct Hw as [(p' & s' & cur' & ws1 & -> & Hsc' & ->)|[Hlong [p' Herr]]].
    2:{ cbn [app] in Hlong. rewrite (proj2 (Nat.ltb_lt _ _)) by exact Hlong. rewrite Herr.
        exists config, p', FPX_ERR_CONFIG_SYNTAX, []. split; [done|]. split; [done|]. apply extends_refl. }
    rewrite Hbuf, !length_app in Hb. cbn [length] in Hb.
    assert (buf = (pre ++ l) ++ t :: rest2) as Hbuf2 by by rewrite Hbuf, <- app_assoc.
    pose proof (scan_eol fn buf (pre ++ l) cur' ws1 n s' config p' t rest2 Hsc' Ht Hbuf2
      ltac:(rewrite Hbuf, !length_app; simpl; lia) ltac:(lia)) as He. cbv zeta in He.
    set (ws := ws1 ++ (if is_nil cur' then [] else [cur'])) in *.
    destruct (Nat.leb_spec (length ws) 8).
    + rewrite (proj2 (Nat.ltb_ge _ _)) by lia.
      destruct He as (config' & p2 & s2 & Hext & Hsc2 & Hcm2 & ->).
      destruct (IH buf ((pre ++ l) ++ [t]) (n + 1) s2 config' p2 tail rest Hsc2 Hcm2 Hls Htl Htw)
        as (config2 & p3 & err & es & Hspec & Hrun & Hext2).
      * rewrite Hbuf2. by rewrite <- (app_assoc (pre ++ l) [t]).
      * rewrite Hbuf, !length_app. simpl. lia.
      * rewrite !length_app. simpl. lia.
      * exists config2, p3, err, (line_entry fn n ws ++ es). rewrite Hspec. split; [done|].
        split; [exact Hrun|]. by eapply extends_trans.
    + rewrite (proj2 (Nat.ltb_lt _ _)) by lia. destruct He as [p2 ->].
      exists config, p2, FPX_ERR_CONFIG_SYNTAX, []. split; [done|]. split; [done|]. apply extends_refl.
Qed.

Lemma config_parse_ok config pool lines tail rest :
  Forall (λ lt, line_text lt.1 ∧ is_eol lt.2 = true) lines → line_text tail →
  match words_of [] tail with Some ws => (length ws ≤ 8)%nat | None => True end →
  Z.of_nat (length (file_text lines tail ++ 0 :: rest)) < 2 ^ 61 →
  ∃ config' pool' err es, parse_spec (header_name config) 1 lines tail = (err, es) ∧
    fpx_config_parse config pool (file_text lines tail ++ 0 :: rest) = Ok (err, config', pool') ∧
    extends config config' es.
Proof using Hpalloc.
  intros Hls Htl Htw Hb. unfold fpx_config_parse.
  apply (parse_lines_ok (header_name config) lines _ [] 1 scan_init config pool tail rest); try done.
  split; try done; [by exists []|simpl; lia].
Qed.
End ParseProofs.

(** *** Printing *)

(** A word: printable characters other than blanks and [#]. *)
Definition word_char (c : Z) : bool :=
  fpx_isascii c && negb (c =? 0) && negb (is_sep c) && negb (is_eol c) && negb (c =? 35).
Definition word (w : chars) : Prop := w ≠ [] ∧ forallb word_char w = true.

(** One space between the words of a line. *)
Fixpoint print_words (ws : list chars) : chars :=
  match ws with
  | [] => []
  | [w] => w
  | w :: ws => w ++ FPX_SPACE :: print_words ws
  end.

Lemma words_of_word w cur rest :
  forallb word_char w = true → words_of cur (w ++ rest) = words_of (cur ++ w) rest.
Proof.
  revert cur. induction w as [|c w IH]; intros cur; simpl; [by rewrite app_nil_r|].
  intros [Hc Hw]%andb_prop. unfold word_char in Hc.
  destruct (fpx_isascii c), (is_sep c), (c =? 35); rewrite ?andb_false_r in Hc; try done.
  rewrite IH by done. by rewrite <- app_assoc.
Qed.

Lemma words_of_print ws : Forall word ws → words_of [] (print_words ws) = Some ws.
Proof.
  induction ws as [|w ws IH]; intros Hws; [done|]. apply Forall_cons in Hws as [[Hne Hw] Hws].
  assert (is_nil w = false) as Hnil by by destruct w.
  destruct ws as [|w2 ws].
  - simpl. rewrite <- (app_nil_r w) at 1. rewrite words_of_word by done. simpl. by rewrite Hnil.
  - change (print_words (w :: w2 :: ws)) with (w ++ FPX_SPACE :: print_words (w2 :: ws)).
    rewrite words_of_word by done. cbn [app words_of]. change (is_sep FPX_SPACE) with true. cbn iota.
    rewrite Hnil, (IH Hws). done.
Qed.

Lemma print_words_line ws : Forall word ws → line_text (print_words ws).
Proof.
  assert (∀ w, forallb word_char w = true → line_text w) as Hw.
  { intros w H. apply Forall_forall. intros c Hc. apply forallb_forall with (x := c) in H; [|by apply list_elem_of_In].
    unfold word_char in H. destruct (Z.eqb_spec c 0), (is_eol c); rewrite ?andb_false_r in H; done. }
  induction ws as [|w ws IH]; intros Hws; [constructor|]. apply Forall_cons in Hws as [[_ Hww] Hws].
  destruct ws as [|w2 ws]; [by apply Hw|].
  change (print_words (w :: w2 :: ws)) with (w ++ FPX_SPACE :: print_words (w2 :: ws)).
  apply Forall_app. split; [by apply Hw|]. constructor; [done|]. by apply IH.
Qed.

(** The entries of a file with one directive per line. *)
Fixpoint entries_from (fn : option Z) (n : Z) (dirs : list (list chars)) : list entry :=
  match dirs with
  | [] => []
  | ws :: dirs => line_entry fn n ws ++ entries_from fn (n + 1) dirs
  end.
Definition print_lines (dirs : list (list chars)) : list (chars * Z) :=
  (λ ws, (print_words ws, FPX_LF)) <$> dirs.

Lemma parse_spec_print fn dirs : ∀ n,
  Forall (λ ws, Forall word ws ∧ (length ws ≤ 8)%nat) dirs →
  parse_spec fn n (print_lines dirs) [] = (FPX_OK, entries_from fn n dirs).
Proof.
  induction dirs as [|ws dirs IH]; intros n Hd; [done|]. apply Forall_cons in Hd as [[Hw Hl] Hd].
  unfold print_lines in *. rewrite fmap_cons. cbn [parse_spec]. rewrite words_of_print by done.
  rewrite (proj2 (Nat.ltb_ge _ _)) by lia. by rewrite IH.
Qed.

(** *** Argument counts *)
Definition takes_bits : list Z := seqZ 0 8.
Definition takes_pos (takes : Z) : list Z := List.filter (λ i, Z.testbit takes i && (0 <? i)) takes_bits.

(** The counts a command accepts, as the code computes them: from its least
    positive count to its greatest. *)
Definition accepts (takes argc : Z) : bool :=
  match head (takes_pos takes) with
  | None => argc =? 0
  | Some lo => (lo <=? argc) && (argc <=? default lo (last (takes_pos takes)))
  end.

Lemma bit_is_set_low takes i :
  0 ≤ takes → 0 ≤ i < 8 → fpx_bit_is_set takes (2 ^ i) = Z.testbit (takes mod 256) i.
Proof.
  intros Ht Hi. unfold fpx_bit_is_set. change 256 with (2 ^ 8). rewrite Z.mod_pow2_bits_low by lia.
  destruct (Z.testbit takes i) eqn:E.
  - apply negb_true_iff, Z.eqb_neq. intros Hz.
    assert (Z.testbit (Z.land takes (2 ^ i)) i = true) as Hb by (rewrite Z.land_spec, E, Z.pow2_bits_true; lia).
    by rewrite Hz, Z.bits_0 in Hb.
  - apply negb_false_iff, Z.eqb_eq, Z.bits_inj'. intros n Hn. rewrite Z.land_spec, Z.bits_0.
    destruct (Z.eq_dec n i) as [->|Hne]; [by rewrite E|].
    rewrite Z.pow2_bits_false by lia. apply andb_false_r.
Qed.

Lemma takes_small :
  forallb (λ t, forallb (λ a, fpx_check_directive_arguments a t =?
                              (if accepts t a then FPX_OK else FPX_ERR_CONFIG_SYNTAX)) (seqZ 0 8)) (seqZ 0 256) = true.
Proof. vm_compute. reflexivity. Qed.

Lemma takes_loop_low takes i mn mx :
  0 ≤ takes → takes_loop fpx_takes takes i mn mx = takes_loop fpx_takes (takes mod 256) i mn mx.
Proof.
  intros Ht. assert (0 ≤ takes mod 256) as Hm by (apply Z.mod_pos_bound; lia).
  assert (∀ k, 0 ≤ k < 8 → fpx_bit_is_set takes (2 ^ k) = fpx_bit_is_set (takes mod 256) (2 ^ k)) as Hb.
  { intros k Hk. rewrite !bit_is_set_low by done. by rewrite Z.mod_mod by lia. }
  unfold fpx_takes. cbn [takes_loop].
  change FPX_TAKE0 with (2 ^ 0). change FPX_TAKE1 with (2 ^ 1). change FPX_TAKE2 with (2 ^ 2).
  change FPX_TAKE3 with (2 ^ 3). change FPX_TAKE4 with (2 ^ 4). change FPX_TAKE5 with (2 ^ 5).
  change FPX_TAKE6 with (2 ^ 6). change FPX_TAKE7 with (2 ^ 7).
  rewrite !Hb by lia. reflexivity.
Qed.

Lemma accepts_low takes argc : 0 ≤ takes → accepts (takes mod 256) argc = accepts takes argc.
Proof.
  intros Ht. unfold accepts. assert (takes_pos (takes mod 256) = takes_pos takes) as ->; [|done].
  unfold takes_pos, takes_bits. apply List.filter_ext_in. intros i Hi%list_elem_of_In%elem_of_seqZ.
  change 256 with (2 ^ 8). by rewrite Z.mod_pow2_bits_low by lia.
Qed.

Lemma check_arguments_eq takes argc :
  0 ≤ takes → 0 ≤ argc < 8 →
  fpx_check_directive_arguments argc takes = if accepts takes argc then FPX_OK else FPX_ERR_CONFIG_SYNTAX.
Proof.
  intros Ht Ha. rewrite <- accepts_low by done. unfold fpx_check_directive_arguments.
  rewrite takes_loop_low by done.
  pose proof takes_small as H. rewrite forallb_forall in H.
  specialize (H (takes mod 256)). rewrite forallb_forall in H.
  assert (0 ≤ takes mod 256 < 256) by (apply Z.mod_pos_bound; lia).
  apply Z.eqb_eq. apply (H ltac:(apply list_elem_of_In, elem_of_seqZ; lia) argc).
  apply list_elem_of_In, elem_of_seqZ. lia.
Qed.

(** ** Properties *)

(** C10: For a pool with memory, scanning a configuration is splitting it into
    lines at LF and CR, each line into words, and recording the non-empty ones in
    order, with their line numbers, as a name and its arguments; the first line with
    a misplaced [#], a character beyond ASCII or more than eight words stops it with
    a syntax error after the directives in front of it.  A last line without an end
    of line is checked but not recorded (one of more than eight words is left aside),
    and every directive is given the address of the last directive recorded before
    the file as its file name. *)
Theorem config_parse_correct {M} `{PoolAlloc M} `{PoolCleanup M} `{Posix M} config (pool : M) lines tail rest :
  (∀ (p : M) n, ∃ a p', palloc p n = Ok (Some a, p')) →
  Forall (λ lt, line_text lt.1 ∧ is_eol lt.2 = true) lines → line_text tail →
  match words_of [] tail with Some ws => (length ws ≤ 8)%nat | None => True end →
  Z.of_nat (length (file_text lines tail ++ 0 :: rest)) < 2 ^ 61 →
  ∃ config' pool' err es, parse_spec (header_name config) 1 lines tail = (err, es) ∧
    fpx_config_parse config pool (file_text lines tail ++ 0 :: rest) = Ok (err, config', pool') ∧
    extends config config' es.
Proof. intros Hpal. by apply config_parse_ok. Qed.

#[local] Instance ex_alloc : PoolAlloc Z := λ p n, Ok (Some p, p + n).
#[local] Instance ex_cleanup : PoolCleanup Z := λ p _ _, Ok p.
Definition ex_posix : Posix Z := {|
  sys_errno w := 2; sys_open w p m a := (-1, w); sys_close w fd := w;
  sys_lseek w fd off wh := (-1, w); sys_read w fd n := (-1, [], w); sys_write w fd s := (-1, w);
  sys_stat w p := (Some 16877, w); sys_fstat w fd := (None, w); sys_opendir w p := (Some 3, w);
  sys_readdir w h := (None, w); sys_closedir w h := w; sys_glob w p := (1, [], w)
|}.

Lemma config_parse_correct_witness :
  ∃ config' pool', fpx_config_parse (M := Z) (H1 := ex_posix) (Config [] []) 4096
      (chars_of "listen 80 # port" ++ [10; 10] ++ chars_of "daemon on" ++ [13] ++ chars_of "user x" ++ [0]) =
    Ok (FPX_OK, config', pool') ∧
    entry_of <$> conf_list config' =
      [(cstr (chars_of "listen"), 1, [cstr (chars_of "80")], None, 1);
       (cstr (chars_of "daemon"), 1, [cstr (chars_of "on")], None, 3)].
Proof.
  destruct (config_parse_correct (M := Z) (H1 := ex_posix) (Config [] []) 4096
    [(chars_of "listen 80 # port", 10); ([], 10); (chars_of "daemon on", 13)] (chars_of "user x") [])
    as (config' & pool' & err & es & Hspec & Hrun & [He _]).
  - intros p n. by eexists _, _.
  - repeat constructor; vm_compute; congruence.
  - repeat constructor; vm_compute; congruence.
  - vm_compute. lia.
  - by vm_compute.
  - exists config', pool'. vm_compute in Hspec. injection Hspec as <- <-. split; [exact Hrun|]. exact He.
Defined.

(** C26: Directives printed one per line, words separated by single spaces, are
    read back as exactly those directives, in order, numbered from line 1. *)
Theorem config_roundtrip {M} `{PoolAlloc M} `{PoolCleanup M} `{Posix M} config (pool : M) dirs rest :
  (∀ (p : M) n, ∃ a p', palloc p n = Ok (Some a, p')) →
  Forall (λ ws, Forall word ws ∧ (length ws ≤ 8)%nat) dirs →
  let text := file_text (print_lines dirs) [] in
  Z.of_nat (length (text ++ 0 :: rest)) < 2 ^ 61 →
  ∃ config' pool', fpx_config_parse config pool (text ++ 0 :: rest) = Ok (FPX_OK, config', pool') ∧
    extends config config' (entries_from (header_name config) 1 dirs).
Proof.
  intros Hpal Hd text Hb.
  destruct (config_parse_ok Hpal config pool (print_lines dirs) [] rest) as (config' & pool' & err & es & Hs & Hr & He).
  - unfold print_lines. apply Forall_fmap. eapply Forall_impl; [exact Hd|]. intros ws [Hw _].
    split; [by apply print_words_line|done].
  - constructor.
  - simpl. lia.
  - exact Hb.
  - rewrite parse_spec_print in Hs by done. injection Hs as <- <-. by exists config', pool'.
Qed.

Lemma config_roundtrip_witness :
  ∃ config' pool', fpx_config_parse (M := Z) (H1 := ex_posix) (Config [] []) 4096
      (file_text (print_lines [[chars_of "log"; chars_of "stdout"; chars_of "warn"]]) [] ++ [0]) =
    Ok (FPX_OK, config', pool') ∧
    extends (Config [] []) config' [(cstr (chars_of "log"), 2, [cstr (chars_of "stdout"); cstr (chars_of "warn")], None, 1)].
Proof.
  refine (config_roundtrip (M := Z) (H1 := ex_posix) (Config [] []) 4096
    [[chars_of "log"; chars_of "stdout"; chars_of "warn"]] [] _ _ _).
  - intros p n. by eexists _, _.
  - repeat constructor; vm_compute; congruence.
  - by vm_compute.
Defined.

(** A directive's argument count is accepted exactly when it lies between the
    command's least positive count and its greatest: counts between two declared
    ones are accepted, and none is accepted only by a command that takes no
    arguments at all, so that FPX_TAKE0 together with another count rejects it. *)
Theorem takes_correct takes argc :
  0 ≤ takes → 0 ≤ argc < 8 →
  fpx_check_directive_arguments argc takes = (if accepts takes argc then FPX_OK else FPX_ERR_CONFIG_SYNTAX) ∧
  (takes_pos takes ≠ [] → fpx_check_directive_arguments 0 takes = FPX_ERR_CONFIG_SYNTAX).
Proof.
  intros Ht Ha. split; [by apply check_arguments_eq|]. intros Hne.
  rewrite check_arguments_eq by (done || lia). unfold accepts.
  destruct (takes_pos takes) as [|lo l] eqn:E; [done|]. cbn [head].
  assert (0 < lo) as Hlo.
  { assert (In lo (takes_pos takes)) as Hin by (rewrite E; by left).
    unfold takes_pos in Hin. apply List.filter_In in Hin as [_ Hin]. lia. }
  by rewrite (proj2 (Z.leb_gt lo 0)) by lia.
Qed.

Lemma takes_correct_witness :
  fpx_check_directive_arguments 2 (Z.lor FPX_TAKE1 FPX_TAKE3) = FPX_OK ∧
  fpx_check_directive_arguments 0 (Z.lor FPX_TAKE0 FPX_TAKE1) = FPX_ERR_CONFIG_SYNTAX.
Proof.
  split.
  - etransitivity; [apply (takes_correct (Z.lor FPX_TAKE1 FPX_TAKE3) 2); vm_compute; [discriminate|by split]|by vm_compute].
  - apply (takes_correct (Z.lor FPX_TAKE0 FPX_TAKE1) 1); [vm_compute; discriminate|lia|vm_compute; discriminate].
Defined.

(** Case-insensitive equality with a keyword. *)
Definition same_word (s : chars) (w : string) : bool := bool_decide (lower <$> s = lower <$> chars_of w).

Lemma strcasecmp_keyword s w :
  text s → text (chars_of w) →
  ∃ r, fpx_strcasecmp (cstr s) (chars_of w ++ [0]) = Ok r ∧ (r =? 0) = same_word s w.
Proof.
  intros Hs Hw. exists (case_diff s (chars_of w)). split; [by apply strcasecmp_diff|].
  pose proof (case_diff_zero s (chars_of w) Hs Hw) as H. unfold same_word.
  case_bool_decide as E; [apply Z.eqb_eq|apply Z.eqb_neq]; tauto.
Qed.

(** The generic handlers: a flag is [on] or [off] in any case and anything
    else is refused; a size stores the number of bytes its argument denotes; an
    integer directive stores that number reduced to 32 bits, so that values from
    2^31 on change silently, and 4294967295 is refused. *)
Theorem handlers_correct offset data s argv :
  text s → Z.of_nat (length s) < 2 ^ 63 →
  let bytes := match size_value s with Some v => if v <=? FPX_SSIZE_T_MAX then v else -1 | None => -1 end in
  fpx_handler_flag offset data (cstr s :: argv) =
    Ok (if same_word s "on" then (FPX_OK, <[offset := VBool true]> data)
        else if same_word s "off" then (FPX_OK, <[offset := VBool false]> data)
        else (FPX_ERR_CONFIG_SYNTAX, data)) ∧
  fpx_handler_str offset data (cstr s :: argv) = Ok (FPX_OK, <[offset := VStr (cstr s)]> data) ∧
  fpx_handler_size offset data (cstr s :: argv) =
    Ok (if bytes =? -1 then (FPX_ERR_CONFIG_SYNTAX, data) else (FPX_OK, <[offset := VSsize bytes]> data)) ∧
  fpx_handler_uint offset data (cstr s :: argv) =
    Ok (if s32 bytes =? -1 then (FPX_ERR_CONFIG_SYNTAX, data) else (FPX_OK, <[offset := VInt (s32 bytes)]> data)) ∧
  (0 ≤ bytes < 2 ^ 31 → s32 bytes = bytes) ∧
  (2 ^ 31 ≤ bytes → s32 bytes ≠ bytes).
Proof.
  intros Ht Hb bytes. pose proof (parse_size_eq s [] Ht Hb) as Hsize. fold bytes in Hsize.
  change (s ++ [0]) with (cstr s) in Hsize.
  split; [|split; [|split; [|split; [|split]]]].
  - unfold fpx_handler_flag, arg0. cbn [lookup list_lookup of_option]. rewrite bind_ok.
    destruct (strcasecmp_keyword s "on" Ht) as (r & -> & Hr); [repeat constructor; vm_compute; congruence|].
    rewrite bind_ok, Hr. destruct (same_word s "on"); [done|].
    destruct (strcasecmp_keyword s "off" Ht) as (r' & -> & Hr'); [repeat constructor; vm_compute; congruence|].
    rewrite bind_ok, Hr'. by destruct (same_word s "off").
  - done.
  - unfold fpx_handler_size, arg0. cbn [lookup list_lookup of_option]. rewrite bind_ok, Hsize, bind_ok.
    by destruct (bytes =? -1).
  - unfold fpx_handler_uint, arg0. cbn [lookup list_lookup of_option]. rewrite bind_ok, Hsize, bind_ok. cbv zeta.
    by destruct (s32 bytes =? -1).
  - intros H. apply s32_small. lia.
  - intros H. pose proof (s32_range bytes). lia.
Qed.

Lemma handlers_correct_witness :
  fpx_handler_flag 0 ∅ [cstr (chars_of "OFF")] = Ok (FPX_OK, <[0 := VBool false]> ∅) ∧
  fpx_handler_uint 0 ∅ [cstr (chars_of "2G")] = Ok (FPX_OK, <[0 := VInt (- 2147483648)]> ∅).
Proof.
  split.
  - etransitivity; [apply (handlers_correct 0 ∅ (chars_of "OFF") [])|by vm_compute];
      [repeat constructor; vm_compute; congruence|by vm_compute].
  - etransitivity; [apply (handlers_correct 0 ∅ (chars_of "2G") [])|by vm_compute];
      [repeat constructor; vm_compute; congruence|by vm_compute].
Defined.

(** Including a directory includes nothing: the walk compares the result of
    opening the directory with FPX_DONE, which it never is, and returns at once,
    reporting success when the directory could be opened (and leaving it open). *)
Theorem include_directory_ignored {M} `{PoolAlloc M} `{PoolCleanup M} `{Posix M}
    fuel config (pool : M) path mode pool1 h pool2 :
  text path → head path = Some 47 → existsb (λ c, (c =? 63) || (c =? 42)) path = false →
  sys_stat pool (cstr path) = (Some mode, pool1) → fpx_stat_get_file_type mode ≠ FPX_FILE_TYPE_FILE →
  sys_opendir pool1 (cstr path) = (h, pool2) → 0 ≤ sys_errno pool2 →
  fpx_config_read_included (S fuel) config pool (cstr path) =
    Ok (match h with Some _ => FPX_OK | None => sys_errno pool2 end, config, pool2).
Proof.
  intros Ht Hhd Hw Hst Hmode Hod Herr. unfold fpx_config_read_included.
  destruct path as [|c0 path0]; [done|]. injection Hhd as ->. set (path := 47 :: path0) in *.
  unfold fpx_check_absolute_path. assert (rd (cstr path) 0 = Ok 47) as -> by done. rewrite !bind_ok.
  change (47 =? 47) with true. cbn iota. change (negb (FPX_OK =? FPX_OK)) with false. cbn iota.
  assert (fpx_is_path_has_wildcard (cstr path) = Ok false) as -> by (unfold cstr; by rewrite wildcard_ok, Hw).
  rewrite bind_ok. cbn [negb].
  unfold fpx_file_info_by_path. rewrite Hst. cbn beta iota zeta. cbn [of_option]. rewrite bind_ok. cbn [i_type].
  rewrite (proj2 (Z.eqb_neq _ _)) by done. cbn [fpx_config_walkdir_nonwildcard].
  unfold fpx_dir_open. rewrite Hod. destruct h as [h|].
  - done.
  - rewrite (proj2 (Z.eqb_neq (sys_errno pool2) FPX_DONE)) by (unfold FPX_DONE; lia). done.
Qed.

Lemma include_directory_ignored_witness :
  fpx_config_read_included (M := Z) (H1 := ex_posix) 1 (Config [] []) 4096 (cstr (chars_of "/etc/fpx.d")) =
  Ok (FPX_OK, Config [] [], 4096).
Proof.
  refine (include_directory_ignored (M := Z) (H1 := ex_posix) 0 (Config [] []) 4096 (chars_of "/etc/fpx.d")
    16877 4096 (Some 3) 4096 _ _ _ _ _ _ _).
  - repeat constructor; vm_compute; congruence.
  - reflexivity.
  - reflexivity.
  - reflexivity.
  - vm_compute. discriminate.
  - reflexivity.
  - vm_compute. discriminate.
Defined.
