(* ===== verification/Strerror.v ===== *)
(** * Error messages: [src/src/system/errno.c]

    [fpx_strerror] writes a message into the caller's buffer: that of the
    operating system for the codes below 20000, one of its own table otherwise.  The
    variant for Windows is Module [Windows]. *)

From S2P Require Import Prelude CInt Errno Str.
Open Scope Z_scope.

Definition FPX_ERR_UNKNOW : fpx_err_t := 2147483647.

Definition error_list : list (fpx_err_t * chars) := (λ e, (e.1, chars_of e.2)) <$>
  [(FPX_OK, "OK"); (FPX_FAILED, "Internal server error"); (FPX_BUSY, "Resource is busy");
   (FPX_DONE, "Operation is done"); (FPX_ABORT, "Operation aborted");
   (FPX_DECLINED, "Operation declined"); (FPX_NOT_FOUND, "Resource not found");
   (FPX_ERR_CONFIG_SYNTAX, "Error of configuration file syntax");
   (FPX_ERR_FILESYS_ABS_PATH, "Specified path is not absolute");
   (FPX_ERR_FILESYS_LONG_PATH, "Result path is too long");
   (FPX_ERR_SSL_INIT, "Failed to initialize SSL library");
   (FPX_ERR_UNKNOW, "Unknown error code")]%string.

(** What the C library's [strerror] answers, without its terminator. *)
Class OsStrerror := strerror : fpx_err_t → chars.

(** The copy at the end of both functions: the bytes stored from [buf] on. *)
Definition copy_message (str : chars) (bufsize : Z) : res chars :=
  len ← fpx_strlen str;
  if len <? bufsize then s ← read_bytes str len; Ok (s ++ [0])
  else
    s ← read_bytes str bufsize;
    _ ← require (0 <? bufsize);
    Ok (<[Z.to_nat (bufsize - 1) := 0]> s).

Section Messages.
Context `{OsStrerror}.

Definition fpx_os_strerror (err : fpx_err_t) (bufsize : Z) : res chars :=
  copy_message (cstr (strerror err)) bufsize.

(** The loop over the table; it ends at FPX_ERR_UNKNOW at the latest. *)
Fixpoint strerror_loop (l : list (fpx_err_t * chars)) (err : fpx_err_t) (bufsize : Z) : res chars :=
  match l with
  | [] => UB
  | (code, message) :: l =>
      if (code =? err) || (code =? FPX_ERR_UNKNOW) then copy_message (cstr message) bufsize
      else strerror_loop l err bufsize
  end.

(** [fpx_os_strerror] never answers [NULL] on POSIX systems. *)
Definition fpx_strerror (err : fpx_err_t) (bufsize : Z) : res chars :=
  if (0 <? err) && (err <? FPX_ERROR_DOMAIN_BASE) then fpx_os_strerror err bufsize
  else strerror_loop error_list err bufsize.

(** The message that belongs to a code. *)
Definition own_message (err : fpx_err_t) : chars :=
  match List.find (λ e, e.1 =? err) error_list with
  | Some e => e.2
  | None => chars_of "Unknown error code"
  end.
Definition message_of (err : fpx_err_t) : chars :=
  if (0 <? err) && (err <? FPX_ERROR_DOMAIN_BASE) then strerror err else own_message err.

Lemma insert_last_take (s : chars) n v : n = length s → n ≠ 0%nat →
  <[(n - 1)%nat := v]> s = take (n - 1) s ++ [v].
Proof using.
  intros -> Hn. destruct (list_snoc_case s) as [->|(s' & x & ->)]; [done|].
  rewrite length_app. simpl. replace (length s' + 1 - 1)%nat with (length s') by lia.
  rewrite insert_app_r_alt by lia. rewrite Nat.sub_diag. simpl. by rewrite take_app_length.
Qed.

Lemma copy_message_ok s bufsize :
  text s → Z.of_nat (length s) < 2 ^ 63 → 0 < bufsize →
  copy_message (cstr s) bufsize = Ok (cstr (take (Z.to_nat (bufsize - 1)) s)).
Proof using.
  intros Hs Hl Hb. unfold copy_message. rewrite strlen_cstr, bind_ok by (done || lia).
  destruct (Z.ltb_spec (Z.of_nat (length s)) bufsize).
  - unfold cstr at 1. rewrite read_bytes_app, bind_ok. unfold cstr. by rewrite take_ge by lia.
  - unfold read_bytes, cstr. rewrite length_app, (proj2 (Z.ltb_ge (Z.of_nat (length s + length [0])) bufsize)) by (simpl; lia). rewrite bind_ok.
    unfold require. rewrite (proj2 (Z.ltb_lt 0 bufsize)), bind_ok by lia. f_equal.
    rewrite take_app_le by lia.
    replace (Z.to_nat (bufsize - 1)) with (Z.to_nat bufsize - 1)%nat by lia.
    rewrite insert_last_take by (rewrite ?length_take; lia). rewrite take_take. do 2 f_equal. lia.
Qed.

Lemma text_all_below s : forallb (λ c, (0 <? c) && (c <? 128)) s = true → text s.
Proof using.
  intros E. unfold text. apply Forall_forall. intros c Hc. apply list_elem_of_In in Hc.
  rewrite List.forallb_forall in E. specialize (E c Hc). lia.
Qed.

Lemma own_message_text err : text (own_message err) ∧ (length (own_message err) < 100)%nat.
Proof using.
  unfold own_message. destruct (List.find _ error_list) as [e|] eqn:E.
  - apply List.find_some in E as [Hin _]. clear err.
    assert (forallb (λ e : fpx_err_t * chars, forallb (λ c, (0 <? c) && (c <? 128)) e.2 &&
      (Z.of_nat (length e.2) <? 100)) error_list = true) as Hall by by vm_compute.
    rewrite List.forallb_forall in Hall. specialize (Hall e Hin).
    apply andb_true_iff in Hall as [H1 H2]. split; [by apply text_all_below|lia].
  - split; [by apply text_all_below; vm_compute|vm_compute; lia].
Qed.

Lemma strerror_loop_ok l err bufsize :
  0 < bufsize → (∃ l' m, l = l' ++ [(FPX_ERR_UNKNOW, m)] ∧ Forall (λ e, e.1 ≠ FPX_ERR_UNKNOW) l') →
  Forall (λ e, text e.2 ∧ (length e.2 < 100)%nat) l →
  ∃ m, strerror_loop l err bufsize = Ok (cstr (take (Z.to_nat (bufsize - 1)) m)) ∧
    m = match List.find (λ e, e.1 =? err) l with Some e => e.2 | None =>
          match last l with Some e => e.2 | None => [] end end.
Proof using.
  intros Hb (l' & m & -> & Hl') Ht. induction l' as [|[code msg] l' IH]; cbn [app strerror_loop List.find fst snd] in *.
  - apply Forall_cons in Ht as [[Ht Hlen] _]. change (FPX_ERR_UNKNOW =? FPX_ERR_UNKNOW) with true.
    rewrite orb_true_r. exists m. split; [apply copy_message_ok; [done|cbn [snd] in Hlen; lia|done]|].
    by destruct (FPX_ERR_UNKNOW =? err).
  - apply Forall_cons in Ht as [[Ht Hlen] Htl]. apply Forall_cons in Hl' as [Hc Hl']. cbn [fst snd] in *.
    rewrite (proj2 (Z.eqb_neq code FPX_ERR_UNKNOW)), orb_false_r by exact Hc. destruct (code =? err) eqn:E.
    + exists msg. split; [apply copy_message_ok; [done|lia|done]|done].
    + destruct (IH Hl' Htl) as (m' & Hrun & Hm'). exists m'. split; [done|].
      rewrite Hm'. destruct (List.find _ (l' ++ _)); [done|].
      change ((code, msg) :: l' ++ ?x) with (((code, msg) :: l') ++ x). by rewrite !last_snoc.
Qed.

(** The buffer always receives a terminated message, cut to its size. *)
Lemma strerror_ok err bufsize :
  (∀ e, text (strerror e) ∧ Z.of_nat (length (strerror e)) < 2 ^ 63) → 0 < bufsize →
  fpx_strerror err bufsize = Ok (cstr (take (Z.to_nat (bufsize - 1)) (message_of err))).
Proof using.
  intros Hs Hb. unfold fpx_strerror, message_of.
  destruct ((0 <? err) && (err <? FPX_ERROR_DOMAIN_BASE)).
  - destruct (Hs err). by apply copy_message_ok.
  - destruct (strerror_loop_ok error_list err bufsize Hb) as (m & -> & ->).
    + eexists (take 11 error_list), _. split; [reflexivity|].
      repeat (apply Forall_cons; split; [by vm_compute|]). apply Forall_nil_2.
    + unfold error_list. apply Forall_fmap.
      repeat (apply Forall_cons; split; [split; [by apply text_all_below; vm_compute|vm_compute; lia]|]).
      apply Forall_nil_2.
    + unfold own_message. by destruct (List.find _ error_list).
Qed.
End Messages.

(** ** Windows *)
Module Windows.
(** [FormatMessage] for a code, a language and the size of the buffer: the characters in
    front of the terminator; none when it fails. *)
Class FormatMessage := format_message : fpx_err_t → Z → Z → chars.

(** [MAKELANGID(LANG_ENGLISH, SUBLANG_ENGLISH_US)] *)
Definition english : Z := 1033.
Definition is_end (c : Z) : bool := (c =? 0) || (c =? 13) || (c =? 10) || (c =? 46).
(** One turn of the loop that removes [".\r\n\0"]; [len] is a [DWORD]. *)
Definition strip_step (s : chars * Z) : res ((chars * Z) + chars) :=
  let '(buf, len) := s in
  c ← rd buf len;
  Ok (if is_end c then inl (<[Z.to_nat len := 0]> buf, u32 (len - 1)) else inr buf).

Section Messages.
Context `{FormatMessage}.

(** [None] is [NULL]. *)
Definition fpx_os_strerror (err : fpx_err_t) (bufsize : Z) : res (option chars) :=
  if bufsize =? 0 then Ok None else
  let lang := english in
  let s := format_message err lang (u32 bufsize) in
  let s := if (length s =? 0)%nat && negb (lang =? 0) then format_message err 0 (u32 bufsize) else s in
  if (length s =? 0)%nat then Ok None else
  buf ← while (S (S (length s))) strip_step (s ++ [0], Z.of_nat (length s));
  Ok (Some buf).

Definition fpx_strerror (err : fpx_err_t) (bufsize : Z) : res chars :=
  if (0 <? err) && (err <? FPX_ERROR_DOMAIN_BASE) then
    str ← fpx_os_strerror err bufsize;
    match str with
    | None => strerror_loop error_list FPX_ERR_UNKNOW bufsize
    | Some str => Ok str
    end
  else strerror_loop error_list err bufsize.

Lemma insert_middle (l l' : chars) x v : <[length l := v]> (l ++ x :: l') = l ++ v :: l'.
Proof using. by rewrite <- (Nat.add_0_r (length l)), insert_app_r. Qed.

(** What is behind the last character of a message that is not to be removed is
    replaced by terminators. *)
Lemma strip_ok t c junk : ∀ k fuel, is_end c = false → forallb is_end junk = true → (length junk < fuel)%nat →
  Z.of_nat (length t + length junk) < 2 ^ 32 →
  while fuel strip_step (t ++ c :: junk ++ replicate k 0, Z.of_nat (length t + length junk)) =
    Ok (t ++ c :: replicate (length junk + k) 0).
Proof using.
  induction junk as [|x junk IH] using rev_ind; intros k [|fuel] Hc Hj Hf Hl; [simpl in Hf; lia| |lia|]; cbn [while strip_step].
  - simpl (length []). rewrite Nat.add_0_r, rd_app_r, bind_ok, Hc. by rewrite bind_ok.
  - rewrite forallb_app in Hj. apply andb_true_iff in Hj as [Hj Hx]. cbn in Hx. rewrite andb_true_r in Hx.
    rewrite length_app in *. simpl (length [x]) in *. rewrite <- app_assoc. cbn [app].
    pose proof (rd_app_r (t ++ c :: junk) x (replicate k 0)) as Hr. rewrite length_app in Hr. cbn [length] in Hr.
    rewrite <- app_assoc in Hr. cbn [app] in Hr.
    replace (length t + (length junk + 1))%nat with (length t + S (length junk))%nat by lia.
    rewrite Hr, bind_ok, Hx, bind_ok, Nat2Z.id.
    replace (<[(length t + S (length junk))%nat := 0]> (t ++ c :: junk ++ x :: replicate k 0))
      with (t ++ c :: junk ++ replicate (S k) 0).
    2: { pose proof (insert_middle (t ++ c :: junk) (replicate k 0) x 0) as Hi. rewrite length_app, <- !app_assoc in Hi.
         by symmetry. }
    rewrite u32_small by lia. replace (Z.of_nat (length t + S (length junk)) - 1) with (Z.of_nat (length t + length junk)) by lia.
    rewrite IH by (done || lia). by replace (length junk + S k)%nat with (length junk + 1 + k)%nat by lia.
Qed.

(** The message of the system without its line end and full stop; the second
    language is tried when the first has no message. *)
Lemma os_strerror_ok err bufsize t c junk :
  0 < bufsize → is_end c = false → forallb is_end junk = true → Z.of_nat (length (t ++ c :: junk)) + 1 < 2 ^ 32 →
  format_message err english (u32 bufsize) = t ++ c :: junk ∨
  (format_message err english (u32 bufsize) = [] ∧ format_message err 0 (u32 bufsize) = t ++ c :: junk) →
  fpx_os_strerror err bufsize = Ok (Some (t ++ c :: replicate (S (length junk)) 0)).
Proof using.
  intros Hb Hc Hj Hl Hs. unfold fpx_os_strerror. rewrite (proj2 (Z.eqb_neq bufsize 0)) by lia. cbv zeta.
  assert (((length (t ++ c :: junk) =? 0)%nat) = false) as Hne by (rewrite length_app; simpl; apply Nat.eqb_neq; lia).
  assert ((if (length (format_message err english (u32 bufsize)) =? 0)%nat && negb (english =? 0)
           then format_message err 0 (u32 bufsize) else format_message err english (u32 bufsize)) = t ++ c :: junk) as ->.
  { destruct Hs as [-> | [-> ->]]; [by rewrite Hne|done]. }
  rewrite Hne, length_app in *. cbn [length] in Hl.
  replace ((t ++ c :: junk) ++ [0]) with (t ++ c :: (junk ++ [0]) ++ replicate 0 0)
    by (cbn [replicate]; by rewrite app_nil_r, <- app_assoc).
  replace (Z.of_nat (length t + length (c :: junk))) with (Z.of_nat (length t + length (junk ++ [0])))
    by (rewrite length_app; simpl; lia).
  rewrite strip_ok, bind_ok; [|done|by rewrite forallb_app, Hj|rewrite length_app; simpl; lia|rewrite length_app; simpl; lia].
  rewrite length_app. cbn [length]. by replace (length junk + 1 + 0)%nat with (S (length junk)) by lia.
Qed.

(** A message of nothing but line ends and full stops: the index wraps around and the
    loop reads behind the buffer. *)
Lemma strip_wraps junk : ∀ k fuel, forallb is_end junk = true → (length junk < fuel)%nat → junk ≠ [] →
  Z.of_nat (length junk + k) < 2 ^ 32 - 1 →
  while fuel strip_step (junk ++ replicate k 0, Z.of_nat (length junk) - 1) = UB.
Proof using.
  induction junk as [|x junk IH] using rev_ind; intros k [|fuel] Hj Hf Hne Hl; [done|done|lia|]. cbn [while strip_step].
  rewrite forallb_app in Hj. apply andb_true_iff in Hj as [Hj Hx]. cbn in Hx. rewrite andb_true_r in Hx.
  rewrite length_app in *. simpl (length [x]) in *. rewrite <- app_assoc. cbn [app].
  replace (Z.of_nat (length junk + 1) - 1) with (Z.of_nat (length junk)) by lia.
  rewrite rd_app_r, bind_ok, Hx, bind_ok, Nat2Z.id, insert_middle.
  destruct (decide (junk = [])) as [-> | Hj0].
  - destruct fuel as [|fuel]; [simpl in Hf; lia|]. cbn [while strip_step length].
    change (u32 (Z.of_nat 0 - 1)) with (2 ^ 32 - 1). cbn [app]. simpl length in Hl.
    assert (rd (0 :: replicate k 0) (2 ^ 32 - 1) = UB) as ->; [|done].
    unfold rd. rewrite (proj2 (Z.ltb_ge _ 0)) by lia. rewrite lookup_ge_None_2; [done|].
    cbn [length]. rewrite length_replicate. lia.
  - assert (1 ≤ length junk)%nat by (destruct junk; [done|simpl; lia]).
    rewrite u32_small by lia. change (0 :: replicate k 0) with (replicate (S k) 0). apply IH; [done|lia|done|lia].
Qed.
End Messages.
End Windows.
