(* ===== verification/Log.v ===== *)
(** * The logger: [src/src/core/log.c], [fpx_localtime] of [src/src/system/time.c]

    Threads that log deposit their messages in a ring of 32 slots; a worker takes
    them out, formats one line per message and hands it to every log.  Two counting
    semaphores and two mutexes synchronise them.  Section [Concurrency] has one step
    per synchronisation operation or access to the shared memory, for any number of
    threads; a thread is a list of calls of [fpx_log_error] still to be made, with
    its position in the current one, and, for a worker, its position in the loop of
    [fpx_logger_worker].

    A write error in the worker is itself logged, through the same ring: the worker
    then has a call of [fpx_log_error] to make before it goes on. *)

From S2P Require Import Prelude CInt Errno Str Parse Filesys Strerror.
Open Scope Z_scope.

(** ** Formatting (the C library's [printf] family, for the formats used) *)
Definition print_int (v : Z) : chars := if v <? 0 then 45 :: print_dec (- v) else print_dec v.
(** [%02d] *)
Definition print_02d (v : Z) : chars :=
  let s := print_int v in if Z.of_nat (length s) <? 2 then 48 :: s else s.

(** [snprintf(buf, n, ...)] with the output [s]: the buffer afterwards and the
    result. *)
Definition snprintf (buf : chars) (n : Z) (s : chars) : chars * Z :=
  let k := Nat.min (length s) (Z.to_nat (n - 1)) in
  (if n <=? 0 then buf else take k s ++ 0 :: drop (S k) buf, Z.of_nat (length s)).

(** What [%s] prints. *)
Fixpoint c_string (buf : chars) : res chars :=
  match buf with
  | [] => UB
  | c :: buf => if c =? 0 then Ok [] else s ← c_string buf; Ok (c :: s)
  end.

(** ** Data *)
Definition FPX_MAX_LOG_SLOTS : Z := 32.
Definition FPX_LOG_STR_SIZE : Z := 1000.
Definition FPX_LOG_TIMESTR_SIZE : Z := 24.
Definition FPX_LOG_TOTAL_STR_SIZE : Z := FPX_LOG_STR_SIZE + FPX_LOG_TIMESTR_SIZE.
Definition FPX_ERRNO_STR_SIZE : Z := 1024.
Definition FPX_LOG_ERROR : Z := 1.
Definition FPX_LOG_DEBUG : Z := 4.
Definition FPX_STDOUT : Z := 1.
Definition FPX_STDERR : Z := 2.

Record fpx_log_message_t := Message { m_level : Z; m_time : chars; m_str : chars }.
(** [handler] is [fpx_write_to_log] in every log that exists. *)
Record fpx_log_t := Log { l_level : Z; l_file : fpx_file_t; l_size : Z }.
(** The semaphores are their counts, the mutexes their owners. *)
Record fpx_logger_t := Logger {
  lg_logs : list fpx_log_t;
  lg_messages : list fpx_log_message_t;
  lg_running : bool;
  lg_front : Z;
  lg_rear : Z;
  lg_sem_empty : Z;
  lg_sem_full : Z;
  lg_deposit : option nat;
  lg_fetch : option nat
}.

Record fpx_tm_t := Tm { tm_mday : Z; tm_mon : Z; tm_year : Z; tm_hour : Z; tm_min : Z; tm_sec : Z }.

(** What the logger uses of the pool, the threads and the system besides Posix.
    [show_ptr] is the text [%p] prints for the worker's line buffer. *)
Class LoggerEnv (M : Type) := {
  env_pool_create : M → fpx_err_t * M;
  env_pool_destroy : M → M;
  env_sem_init : M → Z → fpx_err_t * M;
  env_mutex_init : M → fpx_err_t * M;
  env_thread_init : M → fpx_err_t * M;
  env_thread_cancel : M → M;
  sys_fsync : M → Z → M;
  sys_localtime : M → fpx_tm_t;
  show_ptr : chars
}.

Section Logger.
Context {M : Type} `{PoolAlloc M} `{PoolCleanup M} `{Posix M} `{LoggerEnv M} `{OsStrerror}.

Definition fpx_localtime (w : M) : fpx_tm_t :=
  let tm := sys_localtime w in
  Tm (tm_mday tm) (tm_mon tm + 1) (tm_year tm + 1900) (tm_hour tm) (tm_min tm) (tm_sec tm).

(** ** Creation *)
Definition FPX_SEMAPHORE_FINI : Z := 2.
Definition FPX_MUTEX_FINI : Z := 3.
Definition FPX_THREAD_FINI : Z := 4.
Definition SIZEOF_LOG_MESSAGE : Z := 1028.
Definition SIZEOF_MUTEX : Z := 40.
Definition SIZEOF_SEMAPHORE : Z := 32.

(** One of the four initialisations with the registration of its clean-up; the
    first failure destroys the pool. *)
Definition init_sync (init : M → fpx_err_t * M) (addr fini : Z) (pool : M)
    (next : M → res (fpx_err_t * option fpx_logger_t * M)) : res (fpx_err_t * option fpx_logger_t * M) :=
  let '(err, pool) := init pool in
  if negb (err =? FPX_OK) then Ok (err, None, env_pool_destroy pool)
  else pool ← pcleanup_add pool addr fini; next pool.

(** [messages] is what the memory of the slots contains.  When the pool cannot be
    created, [failed:] tests a pointer that has not been initialised. *)
Definition fpx_logger_init (messages : list fpx_log_message_t) (w : M)
    : res (fpx_err_t * option fpx_logger_t * M) :=
  let '(err, pool) := env_pool_create w in
  if negb (err =? FPX_OK) then UB else
  '(new_logger, pool) ← palloc pool 96;
  match new_logger with
  | None => Ok (sys_errno pool, None, env_pool_destroy pool)
  | Some _ =>
      let mem_size := SIZEOF_LOG_MESSAGE * FPX_MAX_LOG_SLOTS + SIZEOF_MUTEX * 2 + SIZEOF_SEMAPHORE * 2 in
      '(mem, pool) ← palloc pool mem_size;
      match mem with
      | None => Ok (sys_errno pool, None, env_pool_destroy pool)
      | Some mem =>
          let mutex_deposit := mem + SIZEOF_LOG_MESSAGE * FPX_MAX_LOG_SLOTS in
          let mutex_fetch := mutex_deposit + SIZEOF_MUTEX in
          let sem_empty := mutex_fetch + SIZEOF_MUTEX in
          let sem_full := sem_empty + SIZEOF_SEMAPHORE in
          init_sync (λ p, env_sem_init p FPX_MAX_LOG_SLOTS) sem_empty FPX_SEMAPHORE_FINI pool (λ pool,
          init_sync (λ p, env_sem_init p 0) sem_full FPX_SEMAPHORE_FINI pool (λ pool,
          init_sync env_mutex_init mutex_deposit FPX_MUTEX_FINI pool (λ pool,
          init_sync env_mutex_init mutex_fetch FPX_MUTEX_FINI pool (λ pool,
          Ok (FPX_OK, Some (Logger [] messages false 0 0 FPX_MAX_LOG_SLOTS 0 None None), pool)))))
      end
  end.

Definition set_logs (logger : fpx_logger_t) (logs : list fpx_log_t) : fpx_logger_t :=
  Logger logs (lg_messages logger) (lg_running logger) (lg_front logger) (lg_rear logger)
    (lg_sem_empty logger) (lg_sem_full logger) (lg_deposit logger) (lg_fetch logger).

(** The two allocations both functions begin with. *)
Definition alloc_log (logger : fpx_logger_t) (pool : M)
    (next : Z → M → res (fpx_err_t * fpx_logger_t * M)) : res (fpx_err_t * fpx_logger_t * M) :=
  if lg_running logger then Ok (FPX_FAILED, logger, pool) else
  '(log, pool) ← palloc pool 48;
  match log with
  | None => Ok (sys_errno pool, logger, pool)
  | Some _ =>
      '(file, pool) ← palloc pool 40;
      match file with
      | None => Ok (sys_errno pool, logger, pool)
      | Some file => next file pool
      end
  end.

(** [file]: the allocated structure, of which only [fd] is stored. *)
Definition fpx_logger_add_log_fd (file : fpx_file_t) (logger : fpx_logger_t) (level fd : Z) (pool : M)
    : res (fpx_err_t * fpx_logger_t * M) :=
  alloc_log logger pool (λ _ pool,
    let log := Log level (File fd (f_name file) (f_offset file)) 0 in
    Ok (FPX_OK, set_logs logger (lg_logs logger ++ [log]), pool)).

(** O_WRONLY, O_CREAT | O_APPEND | O_WRONLY and the access of the owner. *)
Definition FPX_FILE_WRONLY : Z := 1.
Definition FPX_FILE_CREATE_OR_APPEND : Z := 1089.
Definition FPX_FILE_OWNER_ACCESS : Z := 384.
Definition fpx_logger_add_log_file (logger : fpx_logger_t) (level : Z) (fname : chars) (size : Z) (pool : M)
    : res (fpx_err_t * fpx_logger_t * M) :=
  alloc_log logger pool (λ addr pool,
    let '(err, file, pool) :=
      fpx_file_open pool fname FPX_FILE_WRONLY FPX_FILE_CREATE_OR_APPEND FPX_FILE_OWNER_ACCESS in
    if negb (err =? FPX_OK) then Ok (err, logger, pool) else
    pool ← pcleanup_add pool addr 1;
    let '(file_size, pool) := fpx_file_size pool file in
    if file_size =? -1 then Ok (sys_errno pool, logger, pool) else
    let offset := if negb (size =? 0) then (if size <=? u64 file_size then 0 else file_size)
                  else f_offset file in
    let log := Log level (File (f_fd file) (f_name file) offset) size in
    Ok (FPX_OK, set_logs logger (lg_logs logger ++ [log]), pool)).

Definition set_running (logger : fpx_logger_t) : fpx_logger_t :=
  Logger (lg_logs logger) (lg_messages logger) true (lg_front logger) (lg_rear logger)
    (lg_sem_empty logger) (lg_sem_full logger) (lg_deposit logger) (lg_fetch logger).

(** The variant with a thread; [running] stays set when it cannot be created. *)
Definition fpx_logger_start (logger : fpx_logger_t) (pool : M) : res (fpx_err_t * fpx_logger_t * M) :=
  let logger := set_running logger in
  '(tid, pool) ← palloc pool 8;
  match tid with
  | None => Ok (sys_errno pool, logger, pool)
  | Some tid =>
      let '(err, pool) := env_thread_init pool in
      if negb (err =? FPX_OK) then Ok (err, logger, pool) else
      pool ← pcleanup_add pool tid FPX_THREAD_FINI;
      Ok (FPX_OK, logger, pool)
  end.

Definition fpx_logger_destroy (logger : fpx_logger_t) (pool : M) : M :=
  env_pool_destroy (if lg_running logger then env_thread_cancel pool else pool).

(** ** Writing a line *)

(** [fpx_write_to_log] up to the write: the log, and the write's result unless the
    level is filtered out. *)
Definition write_line (w : M) (log : fpx_log_t) (level : Z) (buf : chars) (len : Z)
    : res (fpx_log_t * option (Z * M)) :=
  if l_level log <? level then Ok (log, None) else
  let log :=
    if negb (l_size log =? 0) && (l_size log <? u64 (f_offset (l_file log) + len))
    then Log (l_level log) (File (f_fd (l_file log)) (f_name (l_file log)) 0) (l_size log)
    else log in
  s ← read_bytes buf len;
  Ok (log, Some (fpx_write_fd w (f_fd (l_file log)) s)).

Definition fpx_write_to_log (w : M) (log : fpx_log_t) (level : Z) (buf : chars) (len : Z)
    : res (fpx_log_t * M) :=
  '(log, r) ← write_line w log level buf len;
  match r with
  | None => Ok (log, w)
  | Some (_, w) => Ok (log, sys_fsync w (f_fd (l_file log)))
  end.

(** ** Messages *)

(** A call [fpx_log_error(level, logger, err, fmt, ...)]: [lc_text] is what [fmt]
    and its arguments print, [lc_tm] the local time at the call. *)
Record log_call := LogCall { lc_level : Z; lc_err : fpx_err_t; lc_text : chars; lc_tm : fpx_tm_t }.

Definition time_text (tm : fpx_tm_t) : chars :=
  [91] ++ print_02d (tm_mday tm) ++ [46] ++ print_02d (tm_mon tm) ++ [46] ++ print_02d (tm_year tm) ++
  [93; 32; 91] ++ print_02d (tm_hour tm) ++ [58] ++ print_02d (tm_min tm) ++ [58] ++ print_02d (tm_sec tm) ++ [93].

Definition compose_str (str : chars) (c : log_call) : res chars :=
  let '(str, len) := snprintf str FPX_LOG_STR_SIZE (lc_text c) in
  if negb (lc_err c =? FPX_OK) && (len <? FPX_LOG_STR_SIZE) then
    errstr ← fpx_strerror (lc_err c) FPX_ERRNO_STR_SIZE;
    msg ← c_string errstr;
    let '(tail, _) := snprintf (drop (Z.to_nat len) str) (FPX_LOG_STR_SIZE - len)
                        ([32; 40] ++ print_int (lc_err c) ++ [58; 32] ++ msg ++ [41]) in
    Ok (take (Z.to_nat len) str ++ tail)
  else Ok str.
Definition compose_time (time : chars) (c : log_call) : chars :=
  (snprintf time FPX_LOG_TIMESTR_SIZE (time_text (lc_tm c))).1.

(** [fpx_snprintf(buf, ..., "%s [%s] %s\n", ...)]: the text it prints. *)
Definition line_text_of (m : fpx_log_message_t) : res chars :=
  time ← c_string (m_time m);
  prio ← of_option (fpx_log_prio !! Z.to_nat (m_level m));
  prio ← c_string prio;
  str ← c_string (m_str m);
  Ok (time ++ [32; 91] ++ prio ++ [93; 32] ++ str ++ [10]).

(** ** [fpx_log_console] *)

(** The bytes it writes: [logstr] is its buffer, the length the untruncated one. *)
Definition console_bytes (logstr : chars) (err : fpx_err_t) (text : chars) : res chars :=
  let '(logstr, len) := snprintf logstr FPX_LOG_STR_SIZE text in
  '(logstr, len) ←
    (if len <? FPX_LOG_STR_SIZE then
       suffix ← (if negb (err =? FPX_OK) then
                   errstr ← fpx_strerror err FPX_ERRNO_STR_SIZE;
                   msg ← c_string errstr;
                   Ok ([32; 40] ++ print_int err ++ [58; 32] ++ msg ++ [41; 10])
                 else Ok [10]);
       let '(tail, n) := snprintf (drop (Z.to_nat len) logstr) (FPX_LOG_STR_SIZE - len) suffix in
       Ok (take (Z.to_nat len) logstr ++ tail, len + n)
     else Ok (<[Z.to_nat (FPX_LOG_STR_SIZE - 1) := 10]> logstr, len));
  read_bytes logstr len.
(** ** Concurrency *)

(** Positions in [fpx_log_error]: before the wait, holding a unit of [sem_empty],
    in the critical section before the slot is taken, then with the slot's number
    before the text, the time and the level are stored, before the unlock, before
    the post. *)
Inductive ppc := PIdle | PWaited | PLocked | PStr (i : Z) | PTime (i : Z) | PLevel (i : Z) | PUnlock | PPost.

(** Positions in the loop of [fpx_logger_worker]; [k] is the number of the log the
    line goes to next. *)
Inductive wpc :=
  WIdle | WWaited | WLocked | WFormat (i : Z) | WHandle (i len : Z) (k : nat) | WSync (i len : Z) (k : nat) |
  WUnlock | WPost.

(** [t_buf] is the worker's line buffer. *)
Record thread := Thread { t_todo : list log_call; t_prod : ppc; t_work : option wpc; t_buf : chars }.

(** The shared state.  The last three fields are history: the calls in the order
    they were given a slot, with the thread that made them, the number of slots
    fetched and the lines formatted. *)
Record shared := Shared {
  s_logger : fpx_logger_t;
  s_world : M;
  s_dep : list (nat * log_call);
  s_fetched : nat;
  s_lines : list chars
}.

Definition set_sems (l : fpx_logger_t) (sem_empty sem_full : Z) : fpx_logger_t :=
  Logger (lg_logs l) (lg_messages l) (lg_running l) (lg_front l) (lg_rear l) sem_empty sem_full
    (lg_deposit l) (lg_fetch l).
Definition set_mutexes (l : fpx_logger_t) (deposit fetch : option nat) : fpx_logger_t :=
  Logger (lg_logs l) (lg_messages l) (lg_running l) (lg_front l) (lg_rear l) (lg_sem_empty l) (lg_sem_full l)
    deposit fetch.
Definition set_indices (l : fpx_logger_t) (front rear : Z) : fpx_logger_t :=
  Logger (lg_logs l) (lg_messages l) (lg_running l) front rear (lg_sem_empty l) (lg_sem_full l)
    (lg_deposit l) (lg_fetch l).
Definition set_message (l : fpx_logger_t) (i : Z) (m : fpx_log_message_t) : fpx_logger_t :=
  Logger (lg_logs l) (<[Z.to_nat i := m]> (lg_messages l)) (lg_running l) (lg_front l) (lg_rear l)
    (lg_sem_empty l) (lg_sem_full l) (lg_deposit l) (lg_fetch l).
Definition with_logger (s : shared) (l : fpx_logger_t) : shared :=
  Shared l (s_world s) (s_dep s) (s_fetched s) (s_lines s).
Definition next_slot (i : Z) : Z := u32 (i + 1) mod FPX_MAX_LOG_SLOTS.

Definition at_prod (t : thread) (p : ppc) : thread := Thread (t_todo t) p (t_work t) (t_buf t).
Definition at_work (t : thread) (p : wpc) : thread := Thread (t_todo t) (t_prod t) (Some p) (t_buf t).

(** A step of [fpx_log_error], called as [c], by thread [j]; [None] when it has to
    wait. *)
Definition log_error_step (j : nat) (s : shared) (t : thread) (c : log_call) (rest : list log_call)
    : res (option (shared * thread)) :=
  let l := s_logger s in
  match t_prod t with
  | PIdle =>
      if lg_sem_empty l <=? 0 then Ok None
      else Ok (Some (with_logger s (set_sems l (lg_sem_empty l - 1) (lg_sem_full l)), at_prod t PWaited))
  | PWaited =>
      match lg_deposit l with
      | Some _ => Ok None
      | None => Ok (Some (with_logger s (set_mutexes l (Some j) (lg_fetch l)), at_prod t PLocked))
      end
  | PLocked =>
      let l' := set_indices l (lg_front l) (next_slot (lg_rear l)) in
      Ok (Some (Shared l' (s_world s) (s_dep s ++ [(j, c)]) (s_fetched s) (s_lines s), at_prod t (PStr (lg_rear l))))
  | PStr i =>
      m ← of_option (lg_messages l !! Z.to_nat i);
      str ← compose_str (m_str m) c;
      Ok (Some (with_logger s (set_message l i (Message (m_level m) (m_time m) str)), at_prod t (PTime i)))
  | PTime i =>
      m ← of_option (lg_messages l !! Z.to_nat i);
      Ok (Some (with_logger s (set_message l i (Message (m_level m) (compose_time (m_time m) c) (m_str m))),
                at_prod t (PLevel i)))
  | PLevel i =>
      m ← of_option (lg_messages l !! Z.to_nat i);
      Ok (Some (with_logger s (set_message l i (Message (lc_level c) (m_time m) (m_str m))), at_prod t PUnlock))
  | PUnlock => Ok (Some (with_logger s (set_mutexes l None (lg_fetch l)), at_prod t PPost))
  | PPost =>
      Ok (Some (with_logger s (set_sems l (lg_sem_empty l) (lg_sem_full l + 1)),
                Thread rest PIdle (t_work t) (t_buf t)))
  end.

(** The call a failing write of the worker makes. *)
Definition write_failed (w : M) (fd len : Z) : log_call :=
  LogCall FPX_LOG_ERROR (sys_errno w)
    (chars_of "write(" ++ print_int fd ++ chars_of ", " ++ show_ptr ++ chars_of ", " ++ print_dec len ++
     chars_of ") failed") (fpx_localtime w).

(** A write with [fpx_write_fd] and the call of [fpx_log_error1] it makes when it fails. *)
Definition write_reported (w : M) (fd : Z) (s : chars) : option log_call * M :=
  let '(rv, w) := fpx_write_fd w fd s in
  (if rv =? -1 then Some (write_failed w fd (Z.of_nat (length s))) else None, w).
(** [fpx_log_console]: the call is made on the global logger, or on the console again;
    [Console] follows it there. *)
Definition fpx_log_console (logstr : chars) (w : M) (fd : Z) (err : fpx_err_t) (text : chars)
    : res (option log_call * M) :=
  s ← console_bytes logstr err text;
  Ok (write_reported w fd s).

(** A step of [fpx_logger_worker]. *)
Definition worker_step (j : nat) (s : shared) (t : thread) (p : wpc) : res (option (shared * thread)) :=
  let l := s_logger s in
  match p with
  | WIdle =>
      if lg_sem_full l <=? 0 then Ok None
      else Ok (Some (with_logger s (set_sems l (lg_sem_empty l) (lg_sem_full l - 1)), at_work t WWaited))
  | WWaited =>
      match lg_fetch l with
      | Some _ => Ok None
      | None => Ok (Some (with_logger s (set_mutexes l (lg_deposit l) (Some j)), at_work t WLocked))
      end
  | WLocked =>
      let l' := set_indices l (next_slot (lg_front l)) (lg_rear l) in
      Ok (Some (Shared l' (s_world s) (s_dep s) (S (s_fetched s)) (s_lines s), at_work t (WFormat (lg_front l))))
  | WFormat i =>
      m ← of_option (lg_messages l !! Z.to_nat i);
      line ← line_text_of m;
      let '(buf, len) := snprintf (t_buf t) FPX_LOG_TOTAL_STR_SIZE line in
      Ok (Some (Shared l (s_world s) (s_dep s) (s_fetched s) (s_lines s ++ [line]),
                Thread (t_todo t) (t_prod t) (Some (WHandle i len 0)) buf))
  | WHandle i len k =>
      match lg_logs l !! k with
      | None => Ok (Some (s, at_work t WUnlock))
      | Some log =>
          m ← of_option (lg_messages l !! Z.to_nat i);
          '(log, r) ← write_line (s_world s) log (m_level m) (t_buf t) len;
          let l' := set_logs l (<[k := log]> (lg_logs l)) in
          match r with
          | None => Ok (Some (with_logger s l', at_work t (WHandle i len (S k))))
          | Some (rv, w) =>
              let todo := if rv =? -1 then [write_failed w (f_fd (l_file log)) len] else [] in
              Ok (Some (Shared l' w (s_dep s) (s_fetched s) (s_lines s),
                        Thread todo (t_prod t) (Some (WSync i len k)) (t_buf t)))
          end
      end
  | WSync i len k =>
      log ← of_option (lg_logs l !! k);
      Ok (Some (Shared l (sys_fsync (s_world s) (f_fd (l_file log))) (s_dep s) (s_fetched s) (s_lines s),
                at_work t (WHandle i len (S k))))
  | WUnlock => Ok (Some (with_logger s (set_mutexes l (lg_deposit l) None), at_work t WPost))
  | WPost => Ok (Some (with_logger s (set_sems l (lg_sem_empty l + 1) (lg_sem_full l)), at_work t WIdle))
  end.

(** One step of thread [j]; a thread with a call to make makes it first. *)
Definition thread_step (j : nat) (s : shared) (t : thread) : res (option (shared * thread)) :=
  match t_todo t with
  | c :: rest => log_error_step j s t c rest
  | [] => match t_work t with
          | Some p => worker_step j s t p
          | None => Ok None
          end
  end.

Definition sys : Type := shared * list thread.
Inductive step : sys → sys → Prop :=
  | step_thread j s ths t s' t' :
      ths !! j = Some t → thread_step j s t = Ok (Some (s', t')) → step (s, ths) (s', <[j := t']> ths).
(** Everything a system can come to, in any interleaving of its threads. *)
Definition steps : sys → sys → Prop := rtc step.
End Logger.

(** ** What a call means *)
Section Meaning.
Context `{OsStrerror}.

Definition err_suffix (err : fpx_err_t) : chars :=
  if err =? FPX_OK then []
  else [32; 40] ++ print_int err ++ [58; 32] ++ take 1023 (message_of err) ++ [41].
(** The text of a message: 999 characters at most. *)
Definition call_str (c : log_call) : chars := take 999 (lc_text c ++ err_suffix (lc_err c)).
Definition call_time (c : log_call) : chars := take 23 (time_text (lc_tm c)).
Definition level_name (level : Z) : chars :=
  default [] ((chars_of <$> ["emerg"; "error"; "warn"; "info"; "debug"]%string) !! Z.to_nat level).
(** The line a call should produce. *)
Definition call_line (c : log_call) : chars :=
  call_time c ++ [32; 91] ++ level_name (lc_level c) ++ [93; 32] ++ call_str c ++ [10].
Definition valid_call (c : log_call) : Prop := text (lc_text c) ∧ 0 ≤ lc_level c < 5.
Definition holds (m : fpx_log_message_t) (c : log_call) : Prop :=
  m_level m = lc_level c ∧ c_string (m_time m) = Ok (call_time c) ∧ c_string (m_str m) = Ok (call_str c).
Definition slot_sized (m : fpx_log_message_t) : Prop := length (m_time m) = 24%nat ∧ length (m_str m) = 1000%nat.

Hypothesis os_text : ∀ e, text (strerror e) ∧ Z.of_nat (length (strerror e)) < 2 ^ 63.

Lemma text_app s s' : text (s ++ s') ↔ text s ∧ text s'.
Proof using. unfold text. apply Forall_app. Qed.
Lemma text_take n s : text s → text (take n s).
Proof using. apply Forall_take. Qed.
Lemma text_digits s : forallb fpx_isdigit s = true → text s.
Proof using.
  intros E. apply text_all_below. rewrite List.forallb_forall in *. intros c Hc.
  specialize (E c Hc). apply isdigit_range in E. lia.
Qed.
Lemma text_print_int v : text (print_int v).
Proof using.
  unfold print_int. destruct (Z.ltb_spec v 0).
  - apply text_cons. split; [lia|]. apply text_digits, print_dec_ok. lia.
  - apply text_digits, print_dec_ok. lia.
Qed.
Lemma text_02d v : text (print_02d v).
Proof using.
  unfold print_02d. case_match; [apply text_cons; split; [lia|]|]; apply text_print_int.
Qed.
Lemma text_time tm : text (time_text tm).
Proof using.
  unfold time_text. rewrite !text_app.
  repeat split; try apply text_02d; repeat constructor; lia.
Qed.
Lemma text_message err : text (message_of err).
Proof using os_text.
  unfold message_of. destruct (_ && _); [apply os_text|apply own_message_text].
Qed.
Lemma text_err_suffix err : text (err_suffix err).
Proof using os_text.
  unfold err_suffix. case_match; [constructor|].
  rewrite !text_app. repeat split; try apply text_print_int; try apply text_take, text_message;
    repeat constructor; lia.
Qed.

Lemma c_string_app s rest : text s → c_string (s ++ 0 :: rest) = Ok s.
Proof using.
  induction s as [|c s IH]; intros Hs; [done|]. apply text_cons in Hs as [[Hc _] Hs].
  cbn [app c_string]. by rewrite (proj2 (Z.eqb_neq c 0)), IH.
Qed.

Lemma snprintf_ok buf n s :
  0 < n → Z.to_nat n = length buf →
  ∃ junk, snprintf buf n s = (take (Z.to_nat (n - 1)) s ++ 0 :: junk, Z.of_nat (length s)) ∧
    length (take (Z.to_nat (n - 1)) s ++ 0 :: junk) = length buf.
Proof using.
  intros Hn Hb. unfold snprintf. rewrite (proj2 (Z.leb_gt n 0)) by done.
  eexists. split.
  - f_equal. f_equal. destruct (Nat.min_spec (length s) (Z.to_nat (n - 1))) as [[Hl ->]|[Hl ->]]; [|done].
    rewrite !take_ge by lia. done.
  - rewrite length_app, length_take. cbn [length]. rewrite length_drop. lia.
Qed.

Lemma snprintf_text buf n s :
  0 < n → Z.to_nat n = length buf → text s →
  c_string (snprintf buf n s).1 = Ok (take (Z.to_nat (n - 1)) s) ∧ length (snprintf buf n s).1 = length buf.
Proof using.
  intros Hn Hb Hs. destruct (snprintf_ok buf n s Hn Hb) as (junk & -> & Hl). cbn [fst].
  split; [|done]. apply c_string_app. by apply text_take.
Qed.

Lemma compose_time_ok time c :
  length time = 24%nat →
  c_string (compose_time time c) = Ok (call_time c) ∧ length (compose_time time c) = 24%nat.
Proof using.
  intros Hl. rewrite <- Hl. unfold compose_time, call_time.
  change 23%nat with (Z.to_nat (FPX_LOG_TIMESTR_SIZE - 1)).
  apply snprintf_text; [done|by rewrite Hl|apply text_time].
Qed.

Lemma take_drop_text (n : nat) (s rest : chars) : (n ≤ length s)%nat → take n (s ++ rest) = take n s.
Proof using. intros. by rewrite take_app_le. Qed.

Lemma compose_str_ok str c :
  length str = 1000%nat → text (lc_text c) →
  ∃ str', compose_str str c = Ok str' ∧ length str' = 1000%nat ∧ c_string str' = Ok (call_str c).
Proof using os_text.
  intros Hl Ht. unfold compose_str, call_str, err_suffix.
  destruct (snprintf_ok str FPX_LOG_STR_SIZE (lc_text c)) as (junk & -> & Hlen); [done|by rewrite Hl|].
  change (Z.to_nat (FPX_LOG_STR_SIZE - 1)) with 999%nat in *. unfold FPX_LOG_STR_SIZE.
  destruct (lc_err c =? FPX_OK) eqn:Ee; cbn [negb andb].
  { eexists. split; [done|]. rewrite app_nil_r. split; [by rewrite Hlen|].
    by apply c_string_app, text_take. }
  destruct (Z.ltb_spec (Z.of_nat (length (lc_text c))) 1000) as [Hs|Hs].
  2: { eexists. split; [done|]. split; [by rewrite Hlen|]. rewrite take_drop_text by lia.
       by apply c_string_app, text_take. }
  rewrite strerror_ok by done. rewrite bind_ok. change (Z.to_nat (FPX_ERRNO_STR_SIZE - 1)) with 1023%nat.
  unfold cstr at 1. rewrite c_string_app by apply text_take, text_message. rewrite bind_ok.
  rewrite (take_ge (lc_text c) 999) in * by lia. rewrite Nat2Z.id, drop_app_length, take_app_length.
  rewrite length_app in Hlen. cbn [length] in Hlen.
  pose proof (text_err_suffix (lc_err c)) as Hsuf. unfold err_suffix in Hsuf. rewrite Ee in Hsuf.
  set (suffix := [32; 40] ++ _) in *.
  destruct (snprintf_ok (0 :: junk) (1000 - Z.of_nat (length (lc_text c))) suffix) as (junk' & -> & Hlen');
    [lia|cbn [length]; lia|].
  replace (Z.to_nat (1000 - Z.of_nat (length (lc_text c)) - 1)) with (999 - length (lc_text c))%nat in * by lia.
  eexists. split; [done|]. split; [rewrite length_app, Hlen'; cbn [length]; lia|].
  rewrite app_assoc, c_string_app by (apply text_app; split; [done|by apply text_take]).
  by rewrite take_app, (take_ge (lc_text c) 999) by lia.
Qed.

Lemma level_name_ok level :
  0 ≤ level < 5 →
  (prio ← of_option (fpx_log_prio !! Z.to_nat level); c_string prio) = Ok (level_name level) ∧
  (length (level_name level) ≤ 5)%nat.
Proof using.
  intros Hl. assert (level = 0 ∨ level = 1 ∨ level = 2 ∨ level = 3 ∨ level = 4) as Hcase by lia.
  destruct_or! Hcase; subst level; (split; [reflexivity|vm_compute; lia]).
Qed.

Lemma line_text_ok m c : valid_call c → holds m c → line_text_of m = Ok (call_line c).
Proof using.
  intros [_ Hlev] (Hl & Ht & Hs). unfold line_text_of, call_line. rewrite Ht, Hs, Hl, bind_ok.
  destruct (level_name_ok (lc_level c) Hlev) as [Hn _]. apply bind_inv in Hn as (p & -> & Hp).
  by rewrite bind_ok, Hp, !bind_ok.
Qed.
End Meaning.

(** ** The ring: where the threads are *)

#[export] Instance ppc_eq_dec : EqDecision ppc.
Proof. solve_decision. Defined.
#[export] Instance wpc_eq_dec : EqDecision wpc.
Proof. solve_decision. Defined.
#[export] Instance fpx_tm_eq_dec : EqDecision fpx_tm_t.
Proof. solve_decision. Defined.
#[export] Instance log_call_eq_dec : EqDecision log_call.
Proof. solve_decision. Defined.

(** The slot of the [k]-th call. *)
Definition slot (k : nat) : nat := (k mod 32)%nat.

Lemma slot_lt k : (slot k < 32)%nat.
Proof. apply Nat.mod_upper_bound. lia. Qed.
Lemma slot_inj a b : (a ≤ b < a + 32)%nat → slot a = slot b → a = b.
Proof.
  unfold slot. intros Hab E. pose proof (Nat.div_mod a 32 ltac:(lia)). pose proof (Nat.div_mod b 32 ltac:(lia)).
  rewrite E in *. lia.
Qed.
Lemma slot_next k : next_slot (Z.of_nat (slot k)) = Z.of_nat (slot (S k)).
Proof.
  pose proof (slot_lt k). unfold next_slot, FPX_MAX_LOG_SLOTS. rewrite u32_small by lia. unfold slot in *.
  replace (Z.of_nat (k mod 32) + 1) with (Z.of_nat (S (k mod 32))) by lia. change 32 with (Z.of_nat 32) at 1.
  rewrite <- Nat2Z.inj_mod. f_equal.
  rewrite <- (Nat.add_1_r k), <- (Nat.add_1_r (k mod 32)). apply Nat.Div0.add_mod_idemp_l.
Qed.

(** The number of threads for which [f] counts one. *)
Definition tsum (f : thread → nat) (ths : list thread) : nat := sum_list (f <$> ths).
Lemma tsum_update f ths j t t' :
  ths !! j = Some t → (tsum f (<[j:=t']> ths) + f t = tsum f ths + f t')%nat.
Proof.
  unfold tsum. revert j. induction ths as [|t0 ths IH]; intros [|j] Hj; simplify_eq/=; [lia|].
  specialize (IH j Hj). lia.
Qed.
Lemma tsum_ge f ths j t : ths !! j = Some t → (f t ≤ tsum f ths)%nat.
Proof.
  unfold tsum. revert j. induction ths as [|t0 ths IH]; intros [|j] Hj; simplify_eq/=; [lia|].
  specialize (IH j Hj). lia.
Qed.

(** Threads that hold a unit of [sem_empty] but no slot, that have a slot which is
    not yet announced; that hold a unit of [sem_full] but no slot, that are reading
    one; that have fetched a slot and not formatted it. *)
Definition reserving (t : thread) : nat := match t_prod t with PWaited | PLocked => 1 | _ => 0 end.
Definition depositing (t : thread) : nat :=
  match t_prod t with PStr _ | PTime _ | PLevel _ | PUnlock | PPost => 1 | _ => 0 end.
Definition claiming (t : thread) : nat := match t_work t with Some (WWaited | WLocked) => 1 | _ => 0 end.
Definition reading (t : thread) : nat :=
  match t_work t with
  | Some (WFormat _ | WHandle _ _ _ | WSync _ _ _ | WUnlock | WPost) => 1
  | _ => 0
  end.
Definition formatting (t : thread) : nat := match t_work t with Some (WFormat _) => 1 | _ => 0 end.

Definition in_deposit (t : thread) : bool :=
  match t_prod t with PLocked | PStr _ | PTime _ | PLevel _ | PUnlock => true | _ => false end.
Definition in_fetch (t : thread) : bool :=
  match t_work t with
  | Some (WLocked | WFormat _ | WHandle _ _ _ | WSync _ _ _ | WUnlock) => true
  | _ => false
  end.
Definition write_slot (t : thread) : option Z :=
  match t_prod t with PStr i | PTime i | PLevel i => Some i | _ => None end.
Definition read_slot (t : thread) : option Z :=
  match t_work t with Some (WFormat i | WHandle i _ _ | WSync i _ _) => Some i | _ => None end.

Definition each (P : nat → thread → Prop) (ths : list thread) : Prop := ∀ j t, ths !! j = Some t → P j t.
Lemma each_insert (P : nat → thread → Prop) ths j t' :
  P j t' → (∀ j' t, j' ≠ j → ths !! j' = Some t → P j' t) → each P (<[j:=t']> ths).
Proof.
  intros Hj Ho j' t Hl. destruct (decide (j' = j)) as [->|Hne].
  - apply list_lookup_insert_Some in Hl as [(_ & <- & _)|[? _]]; done.
  - rewrite list_lookup_insert_ne in Hl by done. by apply Ho.
Qed.

(** The cases of a step, with the new state written out. *)
Ltac step_cases Hs :=
  unfold thread_step in Hs;
  match type of Hs with
  | match t_todo ?t with _ => _ end = _ =>
      destruct (t_todo t) as [|c rest] eqn:Et;
      [ destruct (t_work t) as [p|] eqn:Ew; [|discriminate Hs];
        unfold worker_step in Hs; destruct p
      | unfold log_error_step in Hs; destruct (t_prod t) eqn:Ep ]
  end; cbv zeta in Hs;
  repeat match type of Hs with
  | (if ?b then _ else _) = _ => destruct b eqn:?
  | match ?x with _ => _ end = _ => destruct x eqn:?
  | (let '(_, _) := ?x in _) = _ => destruct x eqn:?
  | (_ ≫= _) = _ => let a := fresh "a" in let Ha := fresh "Ha" in
                    apply bind_inv in Hs; destruct Hs as (a & Ha & Hs); cbv zeta in Hs
  end;
  try discriminate Hs; injection Hs as <- <-.

Section Ring.
Context {M : Type} `{Posix M} `{LoggerEnv M} `{OsStrerror}.
Implicit Types (s : shared (M := M)) (ths : list thread).

Definition deposits s : nat := length (s_dep s).

Record counted s ths : Prop := {
  c_front : lg_front (s_logger s) = Z.of_nat (slot (s_fetched s));
  c_rear : lg_rear (s_logger s) = Z.of_nat (slot (deposits s));
  c_empty : 0 ≤ lg_sem_empty (s_logger s);
  c_full : 0 ≤ lg_sem_full (s_logger s);
  c_slots : lg_sem_empty (s_logger s) + Z.of_nat (tsum reserving ths) + Z.of_nat (deposits s)
            - Z.of_nat (s_fetched s) + Z.of_nat (tsum reading ths) = 32;
  c_calls : Z.of_nat (deposits s) - Z.of_nat (s_fetched s) =
            lg_sem_full (s_logger s) + Z.of_nat (tsum claiming ths) + Z.of_nat (tsum depositing ths);
  c_lines : (length (s_lines s) + tsum formatting ths = s_fetched s)%nat
}.

(** A mutex is owned by the thread that is in its critical section. *)
Definition owned s ths : Prop :=
  each (λ j t, (in_deposit t = true ↔ lg_deposit (s_logger s) = Some j) ∧
               (in_fetch t = true ↔ lg_fetch (s_logger s) = Some j)) ths.

(** A thread that writes a slot writes that of the latest call, its own. *)
Definition placed s ths : Prop :=
  each (λ j t,
    (t_prod t = PIdle ∨ t_todo t ≠ []) ∧
    (∀ i, write_slot t = Some i → i = Z.of_nat (slot (deposits s - 1)) ∧
       ∃ dep c rest, s_dep s = dep ++ [(j, c)] ∧ t_todo t = c :: rest) ∧
    (∀ i, read_slot t = Some i → i = Z.of_nat (slot (s_fetched s - 1)) ∧ (1 ≤ s_fetched s)%nat)) ths.

Lemma counted_step j s ths t s' t' :
  counted s ths → ths !! j = Some t → thread_step j s t = Ok (Some (s', t')) →
  counted s' (<[j:=t']> ths).
Proof.
  intros [Hf Hr He Hfu Hsl Hc Hl] Hj Hs.
  pose proof (tsum_update reserving ths j t t' Hj) as U1. pose proof (tsum_update depositing ths j t t' Hj) as U2.
  pose proof (tsum_update claiming ths j t t' Hj) as U3. pose proof (tsum_update reading ths j t t' Hj) as U4.
  pose proof (tsum_update formatting ths j t t' Hj) as U5.
  cut (∀ n1 n2 n3 n4 n5 : nat,
    (n1 + reserving t = tsum reserving ths + reserving t')%nat →
    (n2 + depositing t = tsum depositing ths + depositing t')%nat →
    (n3 + claiming t = tsum claiming ths + claiming t')%nat →
    (n4 + reading t = tsum reading ths + reading t')%nat →
    (n5 + formatting t = tsum formatting ths + formatting t')%nat →
    lg_front (s_logger s') = Z.of_nat (slot (s_fetched s')) ∧
    lg_rear (s_logger s') = Z.of_nat (slot (deposits s')) ∧
    0 ≤ lg_sem_empty (s_logger s') ∧ 0 ≤ lg_sem_full (s_logger s') ∧
    lg_sem_empty (s_logger s') + Z.of_nat n1 + Z.of_nat (deposits s') - Z.of_nat (s_fetched s') + Z.of_nat n4 = 32 ∧
    Z.of_nat (deposits s') - Z.of_nat (s_fetched s') =
      lg_sem_full (s_logger s') + Z.of_nat n3 + Z.of_nat n2 ∧
    (length (s_lines s') + n5 = s_fetched s')%nat).
  { intros HP. destruct (HP _ _ _ _ _ U1 U2 U3 U4 U5) as (? & ? & ? & ? & ? & ? & ?). by split. }
  clear U1 U2 U3 U4 U5. revert Hsl Hc Hl.
  generalize (tsum reserving ths), (tsum depositing ths), (tsum claiming ths), (tsum reading ths), (tsum formatting ths).
  intros m1 m2 m3 m4 m5 Hsl Hc Hl n1 n2 n3 n4 n5.
  step_cases Hs.
  all: unfold reserving, depositing, claiming, reading, formatting, deposits in *;
    cbn [t_prod t_work at_prod at_work with_logger s_logger s_dep s_fetched s_lines set_sems set_mutexes
      set_indices set_message set_logs lg_front lg_rear lg_sem_empty lg_sem_full] in *;
    rewrite ?Ep, ?Ew, ?length_app in *; cbn [length].
  all: intros; split_and!; try done; try lia.
  all: rewrite ?Hf, ?Hr, slot_next, ?Nat.add_1_r; done.
Qed.

(** Reduce the fields of the new state and of the new thread. *)
Ltac fields :=
  cbn [t_prod t_work t_todo t_buf at_prod at_work with_logger s_logger s_dep s_fetched s_lines s_world
       set_sems set_mutexes set_indices set_message set_logs lg_front lg_rear lg_sem_empty lg_sem_full
       lg_deposit lg_fetch lg_messages lg_logs] in *.

Lemma owned_step j s ths t s' t' :
  owned s ths → ths !! j = Some t → thread_step j s t = Ok (Some (s', t')) →
  owned s' (<[j:=t']> ths).
Proof.
  intros Ho Hj Hs. pose proof (Ho j t Hj) as [Hd Hf].
  apply each_insert.
  - unfold in_deposit, in_fetch in *. step_cases Hs; fields; rewrite ?Ep, ?Ew in *; try done;
      naive_solver.
  - intros j' t0 Hne Hj'. pose proof (Ho j' t0 Hj') as [Hd' Hf'].
    revert Hd' Hf'. generalize (in_deposit t0), (in_fetch t0). intros b1 b2 Hd' Hf'.
    unfold in_deposit, in_fetch in *. step_cases Hs; fields; rewrite ?Ep, ?Ew in *; try done; naive_solver.
Qed.

Lemma write_slot_deposit t i : write_slot t = Some i → in_deposit t = true.
Proof. unfold write_slot, in_deposit. by destruct (t_prod t). Qed.
Lemma read_slot_fetch t i : read_slot t = Some i → in_fetch t = true.
Proof. unfold read_slot, in_fetch. by destruct (t_work t) as [[]|]. Qed.

(** Two threads in the same critical section are one. *)
Lemma one_writer s ths j t j' t' :
  owned s ths → ths !! j = Some t → ths !! j' = Some t' → in_deposit t = true → in_deposit t' = true → j' = j.
Proof. intros Ho Hj Hj' H1' H2'. apply (Ho j t Hj) in H1'. apply (Ho j' t' Hj') in H2'. congruence. Qed.
Lemma one_reader s ths j t j' t' :
  owned s ths → ths !! j = Some t → ths !! j' = Some t' → in_fetch t = true → in_fetch t' = true → j' = j.
Proof. intros Ho Hj Hj' H1' H2'. apply (Ho j t Hj) in H1'. apply (Ho j' t' Hj') in H2'. congruence. Qed.

(** The history grows only in the critical sections. *)
Lemma step_history j s ths t s' t' :
  ths !! j = Some t → thread_step j s t = Ok (Some (s', t')) →
  (s_dep s' = s_dep s ∨ in_deposit t = true ∧ write_slot t = None ∧ ∃ c rest, t_todo t = c :: rest ∧
     s_dep s' = s_dep s ++ [(j, c)]) ∧
  (s_fetched s' = s_fetched s ∨ in_fetch t = true ∧ read_slot t = None ∧ s_fetched s' = S (s_fetched s)).
Proof.
  intros Hj Hs. unfold in_deposit, in_fetch, write_slot, read_slot.
  step_cases Hs; fields; rewrite ?Ep, ?Ew;
    (split; first [by left | right; split_and!; first [done | by eexists _, _]]).
Qed.

Lemma placed_step j s ths t s' t' :
  counted s ths → owned s ths → placed s ths → ths !! j = Some t → thread_step j s t = Ok (Some (s', t')) →
  placed s' (<[j:=t']> ths).
Proof.
  intros Hc Ho Hp Hj Hs. pose proof (step_history j s ths t s' t' Hj Hs) as [Hdep Hfet].
  pose proof (Hp j t Hj) as (P1 & P2 & P3). apply each_insert.
  - pose proof (c_front s ths Hc) as Hfr. pose proof (c_rear s ths Hc) as Hre. clear Hc Ho Hp Hj Hdep Hfet.
    split; [|split].
    + clear P2 P3. step_cases Hs; fields; rewrite ?Et in *;
        first [by right | by left | destruct P1; [by left|done]].
    + clear P3. unfold write_slot, deposits in *.
      step_cases Hs; fields; rewrite ?Ep, ?Et in *; try done; intros i0 Hi0; simplify_eq;
        try (destruct P1 as [P1|P1]; [rewrite P1 in Hi0|]; done); try by apply P2.
      rewrite length_app, Hre. cbn [length]. rewrite Nat.add_sub. split; [done|by eexists _, _, _].
    + clear P2. unfold read_slot in *.
      step_cases Hs; fields; rewrite ?Ew in *; try done; intros i0 Hi0; simplify_eq; try by apply P3.
      rewrite Hfr, Nat.sub_succ, Nat.sub_0_r. split; [done|lia].
  - intros j' t0 Hne Hj'. pose proof (Hp j' t0 Hj') as (Q1 & Q2 & Q3). split; [done|]. split.
    + intros i Hi. destruct Hdep as [Hdep|(Hin & _)].
      * unfold deposits. rewrite Hdep. by apply Q2.
      * destruct Hne. eapply (one_writer s ths j t j' t0); eauto using write_slot_deposit.
    + intros i Hi. destruct Hfet as [->|(Hin & _)]; [by apply Q3|].
      destruct Hne. eapply (one_reader s ths j t j' t0); eauto using read_slot_fetch.
Qed.

(** ** What the slots contain *)
Hypothesis os_text : ∀ e, text (strerror e) ∧ Z.of_nat (length (strerror e)) < 2 ^ 63.
Hypothesis ptr_text : text show_ptr.

Record sized s ths : Prop := {
  z_slots : length (lg_messages (s_logger s)) = 32%nat;
  z_slot : Forall slot_sized (lg_messages (s_logger s));
  z_buf : each (λ _ t, t_work t ≠ None → length (t_buf t) = 1024%nat) ths
}.
Record valid s ths : Prop := {
  v_todo : each (λ _ t, Forall valid_call (t_todo t)) ths;
  v_dep : Forall (λ jc, valid_call jc.2) (s_dep s)
}.

Definition writing ths : Prop := ∃ j t, ths !! j = Some t ∧ write_slot t ≠ None.
Definition stored_at s (k : nat) (c : log_call) : Prop :=
  ∃ m, lg_messages (s_logger s) !! slot k = Some m ∧ holds m c.
Record stored s ths : Prop := {
  (* the slots between the two indices, except one that is being written *)
  r_ready : ∀ k jc, (s_fetched s ≤ k)%nat → s_dep s !! k = Some jc →
    (k = (deposits s - 1)%nat → ¬ writing ths) → stored_at s k jc.2;
  r_writer : each (λ _ t, ∀ c rest i, t_todo t = c :: rest →
    (t_prod t = PTime i → ∃ m, lg_messages (s_logger s) !! Z.to_nat i = Some m ∧
       c_string (m_str m) = Ok (call_str c)) ∧
    (t_prod t = PLevel i → ∃ m, lg_messages (s_logger s) !! Z.to_nat i = Some m ∧
       c_string (m_str m) = Ok (call_str c) ∧ c_string (m_time m) = Ok (call_time c))) ths;
  r_reader : each (λ _ t, read_slot t ≠ None →
    ∃ jc, s_dep s !! (s_fetched s - 1)%nat = Some jc ∧ stored_at s (s_fetched s - 1) jc.2) ths
}.

Lemma valid_write_failed w fd len : 0 ≤ len → valid_call (write_failed w fd len).
Proof using ptr_text.
  intros Hl. split; [|unfold write_failed, FPX_LOG_ERROR; cbn [lc_level]; lia]. unfold write_failed. cbn [lc_text].
  rewrite !text_app. repeat split; try apply text_print_int; try apply ptr_text;
    try (apply text_digits, print_dec_ok; done); by apply text_all_below; vm_compute.
Qed.

(** The line a worker is handing out is the latest formatted. *)
Definition handling (lines : list chars) (t : thread) : Prop := ∀ i len k,
  t_work t = Some (WHandle i len k) ∨ t_work t = Some (WSync i len k) →
  ∃ line buf0, last lines = Some line ∧ len = Z.of_nat (length line) ∧
    length buf0 = 1024%nat ∧ t_buf t = (snprintf buf0 FPX_LOG_TOTAL_STR_SIZE line).1.
Record handled s ths : Prop := {
  h_lines : s_lines s = call_line <$> take (length (s_lines s)) ((s_dep s).*2);
  h_thread : each (λ _ t, handling (s_lines s) t) ths
}.

Lemma valid_step j s ths t s' t' :
  handled s ths → valid s ths → ths !! j = Some t → thread_step j s t = Ok (Some (s', t')) →
  valid s' (<[j:=t']> ths).
Proof using ptr_text.
  intros Hh [Hv Hd] Hj Hs. pose proof (Hv j t Hj) as Hv'. cbn beta in Hv'.
  pose proof (h_thread s ths Hh j t Hj) as Hha. cbn beta in Hha. unfold handling in Hha. split.
  - apply each_insert; [|intros; by eapply Hv].
    step_cases Hs; fields; rewrite ?Et in *; try done; try (apply Forall_cons in Hv'; tauto).
    case_match; [|constructor]. apply Forall_singleton, valid_write_failed.
    destruct (Hha _ _ _ (or_introl eq_refl)) as (line & _ & _ & -> & _). lia.
  - step_cases Hs; fields; rewrite ?Et in *; try done.
    apply Forall_cons in Hv' as [Hc _]. apply Forall_app. split; [done|]. by apply Forall_singleton.
Qed.

Lemma sized_step j s ths t s' t' :
  valid s ths → sized s ths → ths !! j = Some t → thread_step j s t = Ok (Some (s', t')) →
  sized s' (<[j:=t']> ths).
Proof using os_text.
  intros [Hv _] [Hl Hz Hb] Hj Hs. pose proof (Hv j t Hj) as Hv'. cbn beta in Hv'.
  pose proof (Hb j t Hj) as Hb'. cbn beta in Hb'. split.
  - step_cases Hs; fields; by rewrite ?length_insert.
  - step_cases Hs; fields; try done; apply Forall_insert; try done;
      res_inv; (assert (slot_sized a) as [Z1 Z2] by (eapply Forall_lookup_1; eauto)); split; cbn [m_time m_str]; try done.
    + rewrite ?Et in Hv'. apply Forall_cons in Hv' as [[Hc _] _].
      destruct (compose_str_ok os_text (m_str a) c Z2 Hc) as (str' & Hstr & Hlen & _). congruence.
    + by apply compose_time_ok.
  - apply each_insert; [|intros; by eapply Hb].
    step_cases Hs; fields; rewrite ?Ew in *; try done; intros _; try by apply Hb'.
    assert (length (t_buf t) = 1024%nat) as Hbt by by apply Hb'.
    destruct (snprintf_ok (t_buf t) FPX_LOG_TOTAL_STR_SIZE a0) as (junk & E & Hlen); [done|by rewrite Hbt|].
    simplify_eq. congruence.
Qed.

Lemma tsum_single f ths j t :
  ths !! j = Some t → (∀ j' t', ths !! j' = Some t' → j' ≠ j → f t' = 0%nat) → tsum f ths = f t.
Proof using.
  unfold tsum. revert j. induction ths as [|t0 ths IH]; intros [|j] Hj Hz; simplify_eq/=.
  - replace (sum_list (f <$> ths)) with 0%nat; [lia|]. clear IH.
    assert (∀ j' t', ths !! j' = Some t' → f t' = 0%nat) as Hz' by (intros j' t' Hj'; by apply (Hz (S j'))).
    clear Hz. induction ths as [|t1 ths IH]; [done|]. simpl. rewrite (Hz' 0%nat t1) by done.
    apply IH. intros j' t'. by apply (Hz' (S j')).
  - rewrite (Hz 0%nat t0) by done. apply (IH j Hj). intros j' t' Hj' Hne. apply (Hz (S j')); [done|congruence].
Qed.

Lemma formatting_fetch t : formatting t ≠ 0%nat → in_fetch t = true.
Proof using. unfold formatting, in_fetch. by destruct (t_work t) as [[]|]. Qed.

(** The worker that formats is at the next line. *)
Lemma format_line s ths j t i :
  counted s ths → owned s ths → ths !! j = Some t → t_work t = Some (WFormat i) →
  s_fetched s = S (length (s_lines s)).
Proof using.
  intros Hc Ho Hj Hw. pose proof (c_lines s ths Hc) as Hl.
  rewrite (tsum_single formatting ths j t Hj) in Hl.
  - unfold formatting in Hl. rewrite Hw in Hl. lia.
  - intros j' t' Hj' Hne. destruct (formatting t') eqn:E; [done|]. destruct Hne.
    apply (one_reader s ths j t j' t'); try done; [unfold in_fetch; by rewrite Hw|].
    apply formatting_fetch. lia.
Qed.

Lemma fetched_le s ths : counted s ths → (s_fetched s ≤ deposits s)%nat.
Proof using. intros Hc. pose proof (c_calls s ths Hc). pose proof (c_full s ths Hc). lia. Qed.

Lemma step_lines j s t s' t' :
  thread_step j s t = Ok (Some (s', t')) →
  s_lines s' = s_lines s ∨
  ∃ i m line buf, t_work t = Some (WFormat i) ∧ lg_messages (s_logger s) !! Z.to_nat i = Some m ∧
    line_text_of m = Ok line ∧ s_lines s' = s_lines s ++ [line] ∧ s_dep s' = s_dep s ∧
    t' = Thread (t_todo t) (t_prod t) (Some (WHandle i (Z.of_nat (length line)) 0)) buf ∧
    buf = (snprintf (t_buf t) FPX_LOG_TOTAL_STR_SIZE line).1.
Proof using.
  intros Hs. step_cases Hs; try by left.
  right. res_inv. exists i, a, a0, l. fields. rewrite Heqp.
  unfold snprintf in Heqp. simplify_eq. by rewrite Et.
Qed.

Lemma handled_step j s ths t s' t' :
  counted s ths → owned s ths → placed s ths → sized s ths → valid s ths → stored s ths → handled s ths →
  ths !! j = Some t → thread_step j s t = Ok (Some (s', t')) →
  handled s' (<[j:=t']> ths).
Proof using.
  intros Hc Ho Hp Hz Hv Hst [Hl Ht] Hj Hs. pose proof (step_lines j s t s' t' Hs) as Hln.
  pose proof (fetched_le s ths Hc) as Hle. pose proof (c_lines s ths Hc) as Hcl.
  destruct Hln as [Hln|(i & m & line & buf & Hw & Hm & Hline & Hln & Hdep & -> & ->)].
  - split.
    + rewrite Hln. pose proof (step_history j s ths t s' t' Hj Hs) as [[->|(_ & _ & c & rest & _ & ->)] _]; [done|].
      rewrite fmap_app, take_app_le by (rewrite length_fmap; unfold deposits in Hle; lia). done.
    + rewrite Hln. apply each_insert; [|intros; by eapply Ht].
      pose proof (Ht j t Hj) as Hth. cbn beta in Hth. unfold handling in *. clear -Hs Hth Hln.
      step_cases Hs; fields; try done; intros i' len' k' [E|E]; simplify_eq;
        try (by apply (Hth _ _ _ (or_introl eq_refl))); try (by apply (Hth _ _ _ (or_intror eq_refl)));
        try (by eapply Hth; eauto).
      apply (f_equal length) in Hln. rewrite length_app in Hln. simpl in Hln. lia.
  - pose proof (format_line s ths j t i Hc Ho Hj Hw) as HF.
    assert (read_slot t = Some i) as Hrs by (unfold read_slot; by rewrite Hw).
    destruct (r_reader s ths Hst j t Hj) as ([j0 c] & Hjc & m' & Hm' & Hh); [congruence|].
    destruct (Hp j t Hj) as (_ & _ & P3). destruct (P3 i Hrs) as [-> _]. rewrite Nat2Z.id in Hm.
    simplify_eq. replace (s_fetched s - 1)%nat with (length (s_lines s)) in * by lia. cbn [snd] in *.
    assert (valid_call c) as Hvc by apply (Forall_lookup_1 _ _ _ _ (v_dep s ths Hv) Hjc).
    rewrite (line_text_ok m c Hvc Hh) in Hline. injection Hline as <-. split.
    + rewrite Hln, Hdep, length_app. cbn [length]. rewrite Nat.add_1_r.
      rewrite (take_S_r _ _ c) by (by rewrite list_lookup_fmap, Hjc). rewrite fmap_app. cbn [fmap list_fmap].
      by rewrite <- Hl.
    + rewrite Hln. apply each_insert.
      * intros i' len' k' [E|E]; fields; simplify_eq. exists (call_line c), (t_buf t).
        rewrite last_snoc. split_and!; try done. apply (z_buf s ths Hz j t Hj). congruence.
      * intros j' t0 Hne Hj' i' len' k' Hw'. destruct Hne.
        apply (one_reader s ths j t j' t0); try done; unfold in_fetch; [by rewrite Hw|].
        by destruct Hw' as [->| ->].
Qed.

(** The effect of a step on the slots: none, or one field of the slot of the thread
    that writes. *)
Definition writes s t s' t' : Prop := ∃ i m m' c rest,
  t_todo t = c :: rest ∧ write_slot t = Some i ∧ lg_messages (s_logger s) !! Z.to_nat i = Some m ∧
  lg_messages (s_logger s') = <[Z.to_nat i := m']> (lg_messages (s_logger s)) ∧
  s_dep s' = s_dep s ∧ s_fetched s' = s_fetched s ∧ t_work t' = t_work t ∧ t_todo t' = t_todo t ∧
  (t_prod t = PStr i ∧ t_prod t' = PTime i ∧ c_string (m_str m') = Ok (call_str c) ∨
   t_prod t = PTime i ∧ t_prod t' = PLevel i ∧ m_str m' = m_str m ∧ c_string (m_time m') = Ok (call_time c) ∨
   t_prod t = PLevel i ∧ t_prod t' = PUnlock ∧ m_str m' = m_str m ∧ m_time m' = m_time m ∧
     m_level m' = lc_level c).

Lemma step_messages j s ths t s' t' :
  valid s ths → sized s ths → placed s ths → ths !! j = Some t → thread_step j s t = Ok (Some (s', t')) →
  (lg_messages (s_logger s') = lg_messages (s_logger s) ∧ write_slot t = None ∧
   ∀ i, t_prod t' ≠ PTime i ∧ t_prod t' ≠ PLevel i) ∨
  writes s t s' t'.
Proof using os_text.
  intros [Hv _] [_ Hz _] Hp Hj Hs. pose proof (Hv j t Hj) as Hv'. pose proof (Hp j t Hj) as [P1 _].
  cbn beta in Hv'. unfold writes. clear Hv Hp Hj.
  step_cases Hs; fields; unfold write_slot; rewrite ?Ep, ?Et in *;
    try (left; split_and!; done);
    try (left; destruct P1 as [P1|P1]; [|done]; rewrite ?P1; split_and!; done);
    right; res_inv; pose proof (Forall_lookup_1 _ _ _ _ Hz Ha) as [Z1 Z2]; eexists i, a, _, c, rest;
    (do 8 (split; [done|])).
  - left. apply Forall_cons in Hv' as [[Hc _] _].
    destruct (compose_str_ok os_text (m_str a) c Z2 Hc) as (str' & Hstr & _ & Hcs).
    split_and!; [done|done|]. cbn [m_str]. congruence.
  - right. left. split_and!; try done. by apply compose_time_ok.
  - right. right. done.
Qed.

Lemma step_read j s ths t s' t' :
  ths !! j = Some t → thread_step j s t = Ok (Some (s', t')) → read_slot t' ≠ None →
  read_slot t ≠ None ∧ s_fetched s' = s_fetched s ∨
  s_fetched s' = S (s_fetched s) ∧ claiming t = 1%nat ∧ s_dep s' = s_dep s ∧
  lg_messages (s_logger s') = lg_messages (s_logger s).
Proof using.
  intros Hj Hs. unfold read_slot, claiming.
  step_cases Hs; fields; rewrite ?Ew; intros Hr; try done; first [by left | by right].
Qed.

(** The slot written is none of those that are read or still to be read. *)
Lemma other_slot s ths j t i k :
  counted s ths → placed s ths → ths !! j = Some t → write_slot t = Some i →
  k ≠ (deposits s - 1)%nat → (s_fetched s - 1 ≤ k < deposits s)%nat →
  (k = (s_fetched s - 1)%nat → (1 ≤ s_fetched s)%nat ∧ (1 ≤ tsum reading ths)%nat ∨ (s_fetched s ≤ k)%nat) →
  slot k ≠ Z.to_nat i.
Proof using.
  intros Hc Hp Hj Hw Hk Hb Hrd. destruct (Hp j t Hj) as (_ & P2 & _).
  destruct (P2 i Hw) as [-> _]. rewrite Nat2Z.id. intros E. apply Hk, slot_inj; [|done].
  pose proof (c_slots s ths Hc). pose proof (c_empty s ths Hc).
  destruct (decide (k = (s_fetched s - 1)%nat)) as [Hk'|]; [destruct (Hrd Hk'); lia|lia].
Qed.

Lemma read_slot_reading t : read_slot t ≠ None → reading t = 1%nat.
Proof using. unfold read_slot, reading. by destruct (t_work t) as [[]|]. Qed.
Lemma write_slot_depositing t : write_slot t ≠ None → depositing t = 1%nat.
Proof using. unfold write_slot, depositing. by destruct (t_prod t). Qed.

Lemma stored_unchanged s s' k c :
  lg_messages (s_logger s') = lg_messages (s_logger s) → stored_at s k c → stored_at s' k c.
Proof using. unfold stored_at. by intros ->. Qed.

(** A slot in use keeps its contents while another one is written. *)
Lemma stored_written s ths j t s' t' k c :
  counted s ths → placed s ths → ths !! j = Some t → writes s t s' t' →
  k ≠ (deposits s - 1)%nat → (s_fetched s - 1 ≤ k < deposits s)%nat →
  (k = (s_fetched s - 1)%nat → (1 ≤ s_fetched s)%nat ∧ (1 ≤ tsum reading ths)%nat ∨ (s_fetched s ≤ k)%nat) →
  stored_at s k c → stored_at s' k c.
Proof using.
  intros Hc Hp Hj (i & m & m' & c0 & rest & _ & Hw & _ & Hm' & _) Hk Hb Hrd (m0 & Hm0 & Hh).
  exists m0. split; [|done]. rewrite Hm', list_lookup_insert_ne; [done|].
  pose proof (other_slot s ths j t i k Hc Hp Hj Hw Hk Hb Hrd). congruence.
Qed.

Lemma writing_insert ths j t t' :
  ths !! j = Some t → writing ths → write_slot t = None → writing (<[j:=t']> ths).
Proof using.
  intros Hj (j' & t0 & Hj' & Hw) Hn. exists j', t0. split; [|done].
  rewrite list_lookup_insert_ne; [done|]. intros <-. congruence.
Qed.

Lemma in_deposit_not_writing s ths j t :
  owned s ths → ths !! j = Some t → in_deposit t = true → write_slot t = None → ¬ writing ths.
Proof using.
  intros Ho Hj Hin Hn (j' & t0 & Hj' & Hw). destruct (write_slot t0) as [i|] eqn:E; [|done].
  pose proof (one_writer s ths j t j' t0 Ho Hj Hj' Hin (write_slot_deposit _ _ E)) as ->. congruence.
Qed.

Lemma ready_step j s ths t s' t' :
  counted s ths → owned s ths → placed s ths → stored s ths → ths !! j = Some t →
  thread_step j s t = Ok (Some (s', t')) →
  (lg_messages (s_logger s') = lg_messages (s_logger s) ∧ write_slot t = None) ∨ writes s t s' t' →
  ∀ k jc, (s_fetched s' ≤ k)%nat → s_dep s' !! k = Some jc →
    (k = (deposits s' - 1)%nat → ¬ writing (<[j:=t']> ths)) → stored_at s' k jc.2.
Proof using.
  intros Hc Ho Hp [Hr Hw Hrd] Hj Hs Hm k jc Hk Hjc Hnw.
  destruct (step_history j s ths t s' t' Hj Hs) as [Hd Hf].
  assert (s_fetched s ≤ k)%nat as Hk0 by (destruct Hf as [Hf|(_ & _ & Hf)]; lia).
  destruct Hm as [[Hm Hn]|Hwr].
  - apply (stored_unchanged s); [done|]. destruct Hd as [Hd|(Hin & _ & c1 & rest1 & Htodo & Hd)].
    + apply Hr; [done|congruence|]. intros Hlast Hwi. apply Hnw; [unfold deposits in *; congruence|].
      by apply (writing_insert ths j t).
    + rewrite Hd in Hjc. assert (k ≠ deposits s) as Hne.
      { intros ->. apply Hnw; [unfold deposits; rewrite Hd, length_app; simpl; lia|].
        exists j, t'. rewrite list_lookup_insert_eq by (by eapply lookup_lt_Some). split; [done|].
        unfold write_slot, in_deposit in *. clear -Hs Hd Hin.
        step_cases Hs; fields; rewrite ?Ep in *; try done;
          apply (f_equal length) in Hd; rewrite length_app in Hd; simpl in Hd; lia. }
      assert (k < deposits s)%nat as Hlt.
      { apply lookup_lt_Some in Hjc. rewrite length_app in Hjc. simpl in Hjc. unfold deposits in *. lia. }
      rewrite lookup_app_l in Hjc by done. apply Hr; [done|done|]. intros _.
      by apply (in_deposit_not_writing s ths j t).
  - pose proof Hwr as (i & m & m' & c & rest & Htodo & Hws & Hmi & Hm' & Hd' & Hf' & _ & _ & Hcase).
    rewrite Hd' in Hjc. assert (k < deposits s)%nat as Hlt by by apply lookup_lt_Some in Hjc.
    destruct (decide (k = (deposits s - 1)%nat)) as [Hlast|Hlast].
    + destruct (Hp j t Hj) as (_ & P2 & _). destruct (P2 i Hws) as [Hi (dep & c' & rest' & Hdep & Htodo')].
      rewrite Htodo in Htodo'. injection Htodo' as <- <-. subst i k. assert (jc = (j, c)) as ->.
      { unfold deposits in Hjc. rewrite Hdep, length_app in Hjc. simpl in Hjc.
        replace (length dep + 1 - 1)%nat with (length dep) in Hjc by lia.
        rewrite lookup_app_r, Nat.sub_diag in Hjc by lia. by simplify_eq/=. }
      assert (write_slot t' = None) as Hwt'.
      { destruct (write_slot t') eqn:E; [|done]. destruct Hnw; [unfold deposits in *; congruence|].
        exists j, t'. rewrite list_lookup_insert_eq by (by eapply lookup_lt_Some). split; [done|congruence]. }
      destruct Hcase as [(_ & E & _)|[(_ & E & _)|(E & _ & Hs1 & Ht1 & Hl1)]];
        [unfold write_slot in Hwt'; by rewrite E in Hwt'..|].
      exists m'. split.
      * rewrite Hm', Nat2Z.id, list_lookup_insert_eq; [done|]. rewrite Nat2Z.id in Hmi. by eapply lookup_lt_Some.
      * destruct (proj2 (Hw j t Hj c rest _ Htodo) E) as (m1 & Hm1 & Hm2 & Hm3).
        assert (m1 = m) as -> by congruence. unfold holds. cbn [snd]. rewrite Hs1, Ht1, Hl1. by split_and!.
    + eapply stored_written; try done; [lia|lia|]. by apply Hr.
Qed.

Lemma reader_keeps j s ths t s' t' j0 t0 :
  counted s ths → placed s ths → stored s ths → ths !! j = Some t → thread_step j s t = Ok (Some (s', t')) →
  lg_messages (s_logger s') = lg_messages (s_logger s) ∨ writes s t s' t' →
  ths !! j0 = Some t0 → read_slot t0 ≠ None → s_fetched s' = s_fetched s →
  ∃ jc, s_dep s' !! (s_fetched s' - 1)%nat = Some jc ∧ stored_at s' (s_fetched s' - 1) jc.2.
Proof using.
  intros Hc Hp Hst Hj Hs Hm Hj0 Hr HF. destruct (r_reader s ths Hst j0 t0 Hj0 Hr) as (jc & Hjc & Hat).
  rewrite HF. exists jc. split.
  - destruct (step_history j s ths t s' t' Hj Hs) as [[->|(_ & _ & c & rest & _ & ->)] _]; [done|].
    by apply lookup_app_l_Some.
  - destruct Hm as [Hm|Hw]; [by apply (stored_unchanged s)|].
    pose proof (tsum_ge reading ths j0 t0 Hj0) as Hrd. rewrite (read_slot_reading t0 Hr) in Hrd.
    pose proof Hw as (i & m & m' & c & rest & _ & Hws & _).
    pose proof (tsum_ge depositing ths j t Hj) as Hdp. rewrite (write_slot_depositing t) in Hdp by congruence.
    pose proof (c_calls s ths Hc) as Hcc. pose proof (c_full s ths Hc).
    destruct (Hp j0 t0 Hj0) as (_ & _ & P3). destruct (read_slot t0) as [i0|] eqn:E; [|done].
    destruct (P3 i0 eq_refl) as [_ HF1].
    apply (stored_written s ths j t s' t'); try done; [lia|lia|]. intros _. left. lia.
Qed.

Lemma reader_step j s ths t s' t' :
  counted s ths → owned s ths → placed s ths → stored s ths →
  ths !! j = Some t → thread_step j s t = Ok (Some (s', t')) →
  (lg_messages (s_logger s') = lg_messages (s_logger s) ∧ write_slot t = None ∧
     ∀ i, t_prod t' ≠ PTime i ∧ t_prod t' ≠ PLevel i) ∨ writes s t s' t' →
  each (λ _ t, read_slot t ≠ None →
    ∃ jc, s_dep s' !! (s_fetched s' - 1)%nat = Some jc ∧ stored_at s' (s_fetched s' - 1) jc.2) (<[j:=t']> ths).
Proof using.
  intros Hc Ho Hp Hst Hj Hs Hm.
  assert (lg_messages (s_logger s') = lg_messages (s_logger s) ∨ writes s t s' t') as Hm'
    by (destruct Hm as [[? _]|?]; [by left|by right]).
  apply each_insert.
  - intros Hr. destruct (step_read j s ths t s' t' Hj Hs Hr) as [[Hr0 HF]|(HF & Hcl & Hdep & Hmsg)].
    + by apply (reader_keeps j s ths t s' t' j t).
    + pose proof (tsum_ge claiming ths j t Hj) as Hge. rewrite Hcl in Hge.
      pose proof (c_calls s ths Hc) as Hcc. pose proof (c_full s ths Hc).
      rewrite HF, Nat.sub_succ, Nat.sub_0_r, Hdep.
      destruct (lookup_lt_is_Some_2 (s_dep s) (s_fetched s)) as [jc Hjc]; [unfold deposits in *; lia|].
      exists jc. split; [done|]. apply (stored_unchanged s); [done|].
      apply (r_ready s ths Hst); [lia|done|]. intros Hlast (j1 & t1 & Hj1 & Hw1).
      pose proof (tsum_ge depositing ths j1 t1 Hj1) as Hdp. rewrite (write_slot_depositing t1 Hw1) in Hdp. lia.
  - intros j' t0 Hne Hj' Hr. destruct (step_history j s ths t s' t' Hj Hs) as [_ [HF|(Hin & _)]].
    + by apply (reader_keeps j s ths t s' t' j' t0).
    + destruct Hne. destruct (read_slot t0) as [i|] eqn:E; [|done].
      apply (one_reader s ths j t j' t0); try done. by apply (read_slot_fetch t0 i).
Qed.

Lemma stored_step j s ths t s' t' :
  counted s ths → owned s ths → placed s ths → sized s ths → valid s ths → stored s ths →
  ths !! j = Some t → thread_step j s t = Ok (Some (s', t')) →
  stored s' (<[j:=t']> ths).
Proof using os_text.
  intros Hc Ho Hp Hz Hv Hst Hj Hs.
  pose proof (step_messages j s ths t s' t' Hv Hz Hp Hj Hs) as Hm. split.
  - apply (ready_step j s ths t); try done. destruct Hm as [(? & ? & _)|]; [by left|by right].
  - apply each_insert.
    + destruct Hm as [(_ & _ & Hn)|(i & m & m' & c & rest & Htodo & _ & Hmi & Hm' & _ & _ & _ & Htodo' & Hcase)].
      * intros c rest i _. destruct (Hn i). done.
      * intros c0 rest0 i0 E. rewrite Htodo', Htodo in E. injection E as <- <-.
        pose proof (lookup_lt_Some _ _ _ Hmi) as Hlt. rewrite Hm'.
        destruct Hcase as [(_ & E & Hc1)|[(E0 & E & Hc1 & Hc2)|(_ & E & _)]]; rewrite E.
        -- split; [|done]. intros [= <-]. exists m'. by rewrite list_lookup_insert_eq.
        -- split; [done|]. intros [= <-]. exists m'. rewrite list_lookup_insert_eq by done.
           destruct (proj1 (r_writer s ths Hst j t Hj c rest i Htodo) E0) as (m0 & Hm0 & Hm1).
           rewrite Hc1. by simplify_eq.
        -- done.
    + intros j' t0 Hne Hj' c rest i Htodo.
      pose proof (r_writer s ths Hst j' t0 Hj' c rest i Htodo) as [W1 W2].
      destruct Hm as [(-> & _)|(i' & m & m' & c' & rest' & _ & Hws & _)]; [done|].
      apply write_slot_deposit in Hws.
      assert (in_deposit t0 = true → j' = j) as Hone by (intros; by apply (one_writer s ths j t j' t0)).
      unfold in_deposit in Hone. split; intros E; rewrite E in Hone; by destruct Hne; apply Hone.
  - by apply (reader_step j s ths t).
Qed.

(** ** Everything together *)

(** The logger as [fpx_logger_init] leaves it, with any logs, the memory of the
    slots in any state, and threads that are about to begin their calls. *)
Definition initial s ths : Prop :=
  s_logger s = Logger (lg_logs (s_logger s)) (lg_messages (s_logger s)) (lg_running (s_logger s))
                 0 0 FPX_MAX_LOG_SLOTS 0 None None ∧
  s_dep s = [] ∧ s_fetched s = 0%nat ∧ s_lines s = [] ∧
  length (lg_messages (s_logger s)) = 32%nat ∧ Forall slot_sized (lg_messages (s_logger s)) ∧
  each (λ _ t, t_prod t = PIdle ∧ (t_work t = None ∨ t_work t = Some WIdle ∧ length (t_buf t) = 1024%nat) ∧
               Forall valid_call (t_todo t)) ths.

Record ring_ok s ths : Prop := {
  k_counted : counted s ths; k_owned : owned s ths; k_placed : placed s ths; k_sized : sized s ths;
  k_valid : valid s ths; k_stored : stored s ths; k_handled : handled s ths
}.

Lemma tsum_zero f ths : each (λ _ t, f t = 0%nat) ths → tsum f ths = 0%nat.
Proof using.
  unfold tsum. induction ths as [|t ths IH]; intros Hz; [done|]. simpl. rewrite (Hz 0%nat t) by done.
  apply IH. intros j t' Hj. by apply (Hz (S j)).
Qed.
Lemma tsum_le f g ths : (∀ t, f t ≤ g t)%nat → (tsum f ths ≤ tsum g ths)%nat.
Proof using.
  intros Hle. unfold tsum. induction ths as [|t ths IH]; [done|].
  rewrite !fmap_cons. cbn [sum_list_with id]. specialize (Hle t). unfold id in *. lia.
Qed.

Lemma initial_ok s ths : initial s ths → ring_ok s ths.
Proof using.
  intros (Hl & Hd & Hf & Hln & Hlen & Hz & Ht).
  assert (∀ f : thread → nat, (∀ t, t_prod t = PIdle → (t_work t = None ∨ t_work t = Some WIdle) → f t = 0%nat) →
    tsum f ths = 0%nat) as Hsum.
  { intros f Hf0. apply tsum_zero. intros j t Hj. destruct (Ht j t Hj) as (? & Hw & _). apply Hf0; [done|]. tauto. }
  split.
  - assert (tsum reserving ths = 0%nat) as E1 by (apply Hsum; intros t E _; unfold reserving; by rewrite E).
    assert (tsum depositing ths = 0%nat) as E2 by (apply Hsum; intros t E _; unfold depositing; by rewrite E).
    assert (tsum claiming ths = 0%nat) as E3 by (apply Hsum; intros t _ [E|E]; unfold claiming; by rewrite E).
    assert (tsum reading ths = 0%nat) as E4 by (apply Hsum; intros t _ [E|E]; unfold reading; by rewrite E).
    assert (tsum formatting ths = 0%nat) as E5 by (apply Hsum; intros t _ [E|E]; unfold formatting; by rewrite E).
    split; unfold deposits; rewrite ?E1, ?E2, ?E3, ?E4, ?E5, ?Hf, ?Hd, ?Hln; try rewrite Hl; done.
  - intros j t Hj. destruct (Ht j t Hj) as (E & Hw & _). rewrite Hl. unfold in_deposit, in_fetch. rewrite E.
    destruct Hw as [->|[-> _]]; done.
  - intros j t Hj. destruct (Ht j t Hj) as (E & Hw & _). unfold write_slot, read_slot. rewrite E.
    split; [by left|]. split; [done|]. destruct Hw as [->|[-> _]]; done.
  - split; [done|done|]. intros j t Hj Hne. destruct (Ht j t Hj) as (_ & [?|[_ ?]] & _); done.
  - split; [|rewrite Hd; constructor]. intros j t Hj. apply (Ht j t Hj).
  - split.
    + rewrite Hd. done.
    + intros j t Hj c rest i _. destruct (Ht j t Hj) as (E & _). by rewrite E.
    + intros j t Hj. destruct (Ht j t Hj) as (_ & Hw & _). unfold read_slot. destruct Hw as [->|[-> _]]; done.
  - split; [by rewrite Hln|]. intros j t Hj i len k Hw. destruct (Ht j t Hj) as (_ & Hw' & _).
    destruct Hw, Hw' as [|[]]; congruence.
Qed.

Lemma ring_step j s ths t s' t' :
  ring_ok s ths → ths !! j = Some t → thread_step j s t = Ok (Some (s', t')) → ring_ok s' (<[j:=t']> ths).
Proof using os_text ptr_text.
  intros [] Hj Hs. split.
  - by apply (counted_step j s ths t).
  - by apply (owned_step j s ths t).
  - by apply (placed_step j s ths t).
  - by apply (sized_step j s ths t).
  - by apply (valid_step j s ths t).
  - by apply (stored_step j s ths t).
  - by apply (handled_step j s ths t).
Qed.

Lemma steps_ind (P : sys (M := M) → Prop) x y :
  steps x y → P x →
  (∀ j s ths t s' t', P (s, ths) → ths !! j = Some t → thread_step j s t = Ok (Some (s', t')) →
     P (s', <[j:=t']> ths)) → P y.
Proof using. intros Hxy Hx Hstep. induction Hxy as [|x y z Hs _ IH]; [done|]. destruct Hs. eauto. Qed.

Lemma ring_reachable s0 ths0 s ths : initial s0 ths0 → steps (s0, ths0) (s, ths) → ring_ok s ths.
Proof using os_text ptr_text.
  intros Hi Hst. apply (steps_ind (λ x, ring_ok x.1 x.2) _ _ Hst); [by apply initial_ok|].
  intros. by eapply ring_step.
Qed.

(** The calls of thread [j] that have been given a slot, in order, and those that
    have not. *)
Definition calls_of (j : nat) (dep : list (nat * log_call)) : list log_call :=
  (filter (λ jc, jc.1 = j) dep).*2.
Definition pending t : list log_call :=
  match depositing t with 0%nat => t_todo t | _ => tail (t_todo t) end.

Definition in_order ths0 s ths : Prop := each (λ j t, ∀ t0, ths0 !! j = Some t0 → t_work t0 = None →
  t_work t = None ∧ t_todo t0 = calls_of j (s_dep s) ++ pending t) ths.

Lemma in_order_step ths0 j s ths t s' t' :
  placed s ths → in_order ths0 s ths → ths !! j = Some t → thread_step j s t = Ok (Some (s', t')) →
  in_order ths0 s' (<[j:=t']> ths).
Proof using.
  intros Hp Hio Hj Hs. apply each_insert.
  - intros t0 Ht0 Hw0. destruct (Hio j t Hj t0 Ht0 Hw0) as [Hw Htodo]. rewrite Htodo. clear Hp Hio Htodo.
    unfold calls_of, pending, depositing in *.
    step_cases Hs; fields; rewrite ?Et, ?Ep, ?Hw in *; split; try done.
    rewrite filter_app, fmap_app, <- app_assoc. f_equal. rewrite filter_cons_True by done. done.
  - intros j' t1 Hne Hj' t0 Ht0 Hw0. destruct (Hio j' t1 Hj' t0 Ht0 Hw0) as [Hw Htodo].
    split; [done|]. rewrite Htodo. f_equal.
    destruct (step_history j s ths t s' t' Hj Hs) as [[->|(_ & _ & c & rest & _ & ->)] _]; [done|].
    unfold calls_of. rewrite filter_app, fmap_app, filter_cons_False by (by simpl; congruence).
    by rewrite filter_nil, app_nil_r.
Qed.

Lemma in_order_reachable s0 ths0 s ths : initial s0 ths0 → steps (s0, ths0) (s, ths) → in_order ths0 s ths.
Proof using os_text ptr_text.
  intros Hi Hst. apply (steps_ind (λ x, ring_ok x.1 x.2 ∧ in_order ths0 x.1 x.2) _ _ Hst).
  - split; [by apply initial_ok|]. intros j t Hj t0 Ht0 Hw. simplify_eq/=.
    destruct Hi as (_ & Hd & _ & _ & _ & _ & Ht). destruct (Ht j t Hj) as (E & _).
    split; [done|]. unfold calls_of, pending, depositing. by rewrite Hd, E.
  - intros j s1 ths1 t s' t' [Hr Hio] Hj Hs. split; [by eapply ring_step|].
    eapply in_order_step; eauto. apply Hr.
Qed.

(** ** Progress *)

(** With writes that never fail the only calls of its own a worker makes are those in
    front of its loop. *)
Definition fits (c : log_call) : Prop := (length (call_line c) ≤ 1024)%nat.
Record quiet s ths : Prop := {
  q_deposit : ∀ j, lg_deposit (s_logger s) = Some j → is_Some (ths !! j);
  q_fetch : ∀ j, lg_fetch (s_logger s) = Some j → is_Some (ths !! j);
  q_fits : Forall (λ jc, fits jc.2) (s_dep s);
  q_thread : each (λ _ t, Forall fits (t_todo t) ∧
    (∀ p, t_work t = Some p → t_todo t = [] ∨ p = WIdle) ∧
    (∀ i len k, t_work t = Some (WSync i len k) → is_Some (lg_logs (s_logger s) !! k))) ths
}.

(** A worker without the call a failing write leads to. *)
Definition trim t : thread :=
  match t_work t with
  | None | Some WIdle => t
  | Some _ => Thread [] (t_prod t) (t_work t) (t_buf t)
  end.

Lemma write_line_no_fail w log level buf len log' rv w' :
  (∀ w fd bytes, (sys_write w fd bytes).1 ≠ -1) →
  write_line w log level buf len = Ok (log', Some (rv, w')) → (rv =? -1) = false.
Proof using.
  intros no_fail. unfold write_line. case_match; [done|]. intros E. res_inv.
  unfold fpx_write_fd in *.
  match goal with E : context [sys_write ?a ?b ?c] |- _ => pose proof (no_fail a b c); destruct (sys_write a b c) end.
  simpl in *. case_match; simplify_eq; lia.
Qed.

Lemma write_line_ok w log level buf len :
  length buf = 1024%nat → len ≤ 1024 → ∃ r, write_line w log level buf len = Ok r.
Proof using.
  intros Hb Hl. unfold write_line. case_match; [by eexists|]. unfold read_bytes.
  rewrite (proj2 (Z.ltb_ge (Z.of_nat (length buf)) len)), bind_ok by lia. by eexists.
Qed.

Lemma quiet_trim_step j s ths t s' t' :
  quiet s ths → ths !! j = Some t → thread_step j s t = Ok (Some (s', t')) → quiet s' (<[j:=trim t']> ths).
Proof using.
  intros [Hqd Hqf Hfit Hq] Hj Hs. pose proof (Hq j t Hj) as (Q1 & Q2 & Q3).
  assert (∀ j', is_Some (ths !! j') → is_Some (<[j:=trim t']> ths !! j')) as Hin.
  { intros j' Hj'. apply lookup_lt_is_Some in Hj'. apply lookup_lt_is_Some. by rewrite length_insert. }
  assert (∀ k : nat, is_Some (lg_logs (s_logger s) !! k) → is_Some (lg_logs (s_logger s') !! k)) as Hlogs.
  { intros k Hk. apply lookup_lt_is_Some in Hk. apply lookup_lt_is_Some. clear -Hs Hk.
    step_cases Hs; fields; rewrite ?length_insert; done. }
  split.
  - intros j' Hd. apply Hin. clear Hin Hlogs Q1 Q2 Q3.
    step_cases Hs; fields; try (by apply Hqd); by simplify_eq.
  - intros j' Hd. apply Hin. clear Hin Hlogs Q1 Q2 Q3.
    step_cases Hs; fields; try (by apply Hqf); by simplify_eq.
  - clear Hin Hlogs. step_cases Hs; fields; try done. rewrite ?Et in *. apply Forall_cons in Q1 as [Q1 _].
    apply Forall_app. split; [done|]. by apply Forall_singleton.
  - apply each_insert.
    + clear Hin. unfold trim. step_cases Hs; fields; rewrite ?Et in *;
        try (split_and!; [constructor|by left|]; intros i' len' k' E'; simplify_eq; try done; by eapply Q3; eauto).
      1: { split_and!; [constructor|by left|]. intros i' len' k' E'. simplify_eq.
           by apply Hlogs, lookup_lt_is_Some, lookup_lt_Some with f. }
      all: destruct (t_work t) as [p|] eqn:Ew; [destruct (Q2 p eq_refl) as [?| ->]; [done|]|]; fields.
      all: try (rewrite Et, Ew; split_and!; [done|intros p' E'; simplify_eq; by right|done]).
      all: apply Forall_cons in Q1 as [_ Q1]; (split_and!; [done|intros p' E'; simplify_eq; by right|done]).
    + intros j' t0 _ Hj'. destruct (Hq j' t0 Hj') as (? & ? & Q). split_and!; try done. intros. by eapply Hlogs, Q.
Qed.

(** While writes succeed there is no such call. *)
Lemma trim_step j s ths t s' t' :
  (∀ w fd bytes, (sys_write w fd bytes).1 ≠ -1) →
  quiet s ths → ths !! j = Some t → thread_step j s t = Ok (Some (s', t')) → trim t' = t'.
Proof using.
  intros no_fail Hq Hj Hs. destruct (q_thread s ths Hq j t Hj) as (_ & Q2 & _). unfold trim.
  step_cases Hs; fields; rewrite ?Et; try done.
  all: try by rewrite (write_line_no_fail _ _ _ _ _ _ _ _ no_fail Ha0).
  all: try (unfold at_work; by rewrite Et).
  all: destruct (t_work t) as [p|] eqn:Ew; [by destruct (Q2 p eq_refl) as [?| ->]|done].
Qed.
Lemma quiet_step j s ths t s' t' :
  (∀ w fd bytes, (sys_write w fd bytes).1 ≠ -1) →
  quiet s ths → ths !! j = Some t → thread_step j s t = Ok (Some (s', t')) → quiet s' (<[j:=t']> ths).
Proof using.
  intros Hnf Hq Hj Hs. rewrite <- (trim_step j s ths t s' t') by done. by eapply quiet_trim_step.
Qed.

Lemma prod_can j s ths t c rest :
  ring_ok s ths → ths !! j = Some t → t_todo t = c :: rest →
  (t_prod t = PIdle → 0 < lg_sem_empty (s_logger s)) → (t_prod t = PWaited → lg_deposit (s_logger s) = None) →
  ∃ x, thread_step j s t = Ok (Some x).
Proof using os_text.
  intros [Hc Ho Hp Hz Hv Hst Hh] Hj Ht Hidle Hwait. unfold thread_step. rewrite Ht. unfold log_error_step.
  assert (∀ i, write_slot t = Some i → ∃ m, lg_messages (s_logger s) !! Z.to_nat i = Some m ∧ slot_sized m) as Hm.
  { intros i Hi. destruct (Hp j t Hj) as (_ & P2 & _). destruct (P2 i Hi) as [-> _]. rewrite Nat2Z.id.
    destruct (lookup_lt_is_Some_2 (lg_messages (s_logger s)) (slot (deposits s - 1))) as [m Hm].
    - rewrite (z_slots s ths Hz). apply slot_lt.
    - exists m. split; [done|]. by apply (Forall_lookup_1 _ _ _ _ (z_slot s ths Hz) Hm). }
  unfold write_slot in Hm. destruct (t_prod t) as [| | |i|i|i| |]; cbv zeta; try by eexists.
  - rewrite (proj2 (Z.leb_gt _ _)) by auto. by eexists.
  - rewrite Hwait by done. by eexists.
  - destruct (Hm i eq_refl) as (m & -> & [_ Hs]). cbn [of_option]. rewrite bind_ok.
    pose proof (v_todo s ths Hv j t Hj) as Hvc. cbn beta in Hvc. rewrite Ht in Hvc. apply Forall_cons in Hvc as [[Hvc _] _].
    destruct (compose_str_ok os_text (m_str m) c Hs Hvc) as (str & -> & _). rewrite bind_ok. by eexists.
  - destruct (Hm i eq_refl) as (m & -> & _). by eexists.
  - destruct (Hm i eq_refl) as (m & -> & _). by eexists.
Qed.

Lemma work_can j s ths t p :
  ring_ok s ths → quiet s ths → ths !! j = Some t → t_todo t = [] → t_work t = Some p →
  (p = WIdle → 0 < lg_sem_full (s_logger s)) → (p = WWaited → lg_fetch (s_logger s) = None) →
  ∃ x, thread_step j s t = Ok (Some x).
Proof using.
  intros [Hc Ho Hp Hz Hv Hst Hh] Hq Hj Ht Hw Hidle Hwait. unfold thread_step. rewrite Ht, Hw. unfold worker_step.
  assert (∀ i, read_slot t = Some i → ∃ m jc, lg_messages (s_logger s) !! Z.to_nat i = Some m ∧
    holds m jc.2 ∧ s_dep s !! (s_fetched s - 1)%nat = Some jc) as Hm.
  { intros i Hi. destruct (Hp j t Hj) as (_ & _ & P3). destruct (P3 i Hi) as [-> _]. rewrite Nat2Z.id.
    destruct (r_reader s ths Hst j t Hj) as (jc & Hjc & m & Hm & Hh'); [congruence|]. by exists m, jc. }
  unfold read_slot in Hm. rewrite Hw in Hm.
  destruct p as [| | |i|i len k|i len k| |]; cbv zeta; try by eexists.
  - rewrite (proj2 (Z.leb_gt _ _)) by auto. by eexists.
  - rewrite Hwait by done. by eexists.
  - destruct (Hm i eq_refl) as (m & jc & -> & Hh' & Hjc). cbn [of_option]. rewrite bind_ok.
    rewrite (line_text_ok m jc.2), bind_ok; [by eexists| |done]. by apply (Forall_lookup_1 _ _ _ _ (v_dep s ths Hv) Hjc).
  - destruct (lg_logs (s_logger s) !! k) as [log|]; [|by eexists].
    destruct (Hm i eq_refl) as (m & jc & -> & _). cbn [of_option]. rewrite bind_ok.
    destruct (h_thread s ths Hh j t Hj i len k) as (line & buf0 & Hlast & -> & _ & _); [by left|].
    destruct (write_line_ok (s_world s) log (m_level m) (t_buf t) (Z.of_nat (length line))) as ([log' [[rv w]|]] & ->).
    + apply (z_buf s ths Hz j t Hj). congruence.
    + assert (line ∈ s_lines s) as Hin by (by apply last_Some_elem_of).
      rewrite (h_lines s ths Hh) in Hin. apply list_elem_of_fmap in Hin as (c & -> & Hin).
      apply elem_of_take in Hin as (n & Hn & _). rewrite list_lookup_fmap in Hn.
      apply fmap_Some in Hn as (jc' & Hjc' & ->).
      pose proof (Forall_lookup_1 _ _ _ _ (q_fits s ths Hq) Hjc') as Hf. unfold fits in Hf. cbn beta in Hf. lia.
    + rewrite bind_ok. by eexists.
    + rewrite bind_ok. by eexists.
  - destruct (q_thread s ths Hq j t Hj) as (_ & _ & Q). destruct (Q i len k Hw) as [log ->]. by eexists.
Qed.

Definition has_worker ths : Prop := ∃ j t p, ths !! j = Some t ∧ t_work t = Some p.
Lemma has_worker_step j s ths t s' t' :
  has_worker ths → ths !! j = Some t → thread_step j s t = Ok (Some (s', t')) → has_worker (<[j:=t']> ths).
Proof using.
  intros (j0 & t0 & p & Hj0 & Hp) Hj Hs. destruct (decide (j = j0)) as [->|Hne].
  - assert (∃ p', t_work t' = Some p') as [p' Hp'].
    { assert (t0 = t) as -> by congruence. assert (t_work t ≠ None) as Hw by congruence. clear -Hs Hw. step_cases Hs; fields; try (by eexists); (destruct (t_work t); [by eexists|done]). }
    exists j0, t', p'. split; [|done]. rewrite list_lookup_insert_eq; [done|by eapply lookup_lt_Some].
  - exists j0, t0, p. split; [|done]. by rewrite list_lookup_insert_ne.
Qed.

(** The work left: a call costs its own eight steps and the worker's steps for its
    line, two for every log. *)
Definition calls_left (L : nat) t : nat :=
  match t_todo t with
  | [] => 0
  | _ :: rest => length rest * (16 + 2 * L) +
      (16 + 2 * L - match t_prod t with
                    | PIdle => 0 | PWaited => 1 | PLocked => 2 | PStr _ => 3 | PTime _ => 4 | PLevel _ => 5
                    | PUnlock => 6 | PPost => 7
                    end)
  end%nat.
Definition line_left (L : nat) t : nat :=
  match t_work t with
  | None | Some WIdle => 0
  | Some WWaited => 7 + 2 * L
  | Some WLocked => 6 + 2 * L
  | Some (WFormat _) => 5 + 2 * L
  | Some (WHandle _ _ k) => 4 + 2 * (L - k)
  | Some (WSync _ _ k) => 3 + 2 * (L - k)
  | Some WUnlock => 2
  | Some WPost => 1
  end%nat.
Definition work_left s ths : nat :=
  let L := length (lg_logs (s_logger s)) in
  (tsum (calls_left L) ths + Z.to_nat (lg_sem_full (s_logger s)) * (8 + 2 * L) + tsum (line_left L) ths)%nat.

Lemma work_trim_step j s ths t s' t' :
  ring_ok s ths → quiet s ths → ths !! j = Some t → thread_step j s t = Ok (Some (s', t')) →
  (work_left s' (<[j:=trim t']> ths) < work_left s ths)%nat.
Proof using.
  intros Hr Hq Hj Hs. destruct (q_thread s ths Hq j t Hj) as (_ & Q2 & Q3).
  pose proof (c_full s ths (k_counted s ths Hr)) as Hfull.
  unfold work_left.
  assert (length (lg_logs (s_logger s')) = length (lg_logs (s_logger s))) as ->.
  { clear -Hs. step_cases Hs; fields; rewrite ?length_insert; done. }
  assert (∀ k log, lg_logs (s_logger s) !! k = Some log → k < length (lg_logs (s_logger s)))%nat as Hlt
    by (intros; by eapply lookup_lt_Some).
  revert Q3 Hlt. generalize (length (lg_logs (s_logger s))). intros L Q3 Hlt.
  pose proof (tsum_update (calls_left L) ths j t (trim t') Hj) as U1.
  pose proof (tsum_update (line_left L) ths j t (trim t') Hj) as U2.
  revert U1 U2. generalize (tsum (calls_left L) (<[j:=trim t']> ths)), (tsum (line_left L) (<[j:=trim t']> ths)),
    (tsum (calls_left L) ths), (tsum (line_left L) ths).
  intros n1 n2 m1 m2 U1 U2. clear Hr Hq Hj ths. unfold calls_left, line_left, trim in *.
  step_cases Hs; fields; rewrite ?Et, ?Ew, ?Ep in *; cbn [length] in *;
    try (destruct (t_work t) as [p|] eqn:Ew'; [destruct (Q2 p eq_refl) as [?| ->]; [done|]|]; fields; rewrite ?Et, ?Ew' in *; cbn [length] in *);
    try match goal with E : (_ <=? _) = false |- _ => apply Z.leb_gt in E end;
    try match goal with E : lg_logs _ !! _ = Some _ |- _ => apply Hlt in E end;
    try match goal with E : write_line _ _ _ _ _ = Ok (_, Some _) |- _ => idtac end; try nia.
  1: res_inv; apply Hlt in Ha; lia.
  all: replace (Z.to_nat (lg_sem_full (s_logger s) + 1)) with (S (Z.to_nat (lg_sem_full (s_logger s)))) by lia;
    destruct rest; cbn [length] in *; nia.
Qed.
Lemma work_step j s ths t s' t' :
  (∀ w fd bytes, (sys_write w fd bytes).1 ≠ -1) →
  ring_ok s ths → quiet s ths → ths !! j = Some t → thread_step j s t = Ok (Some (s', t')) →
  (work_left s' (<[j:=t']> ths) < work_left s ths)%nat.
Proof using.
  intros Hnf Hr Hq Hj Hs. rewrite <- (trim_step j s ths t s' t') at 1 by done. by apply (work_trim_step j s ths t s').
Qed.

Lemma stuck_prod s ths j t :
  ring_ok s ths → (∀ y, ¬ step (s, ths) y) → ths !! j = Some t → t_prod t ≠ PIdle ∨ t_todo t ≠ [] →
  (t_prod t = PIdle ∧ lg_sem_empty (s_logger s) ≤ 0) ∨ (t_prod t = PWaited ∧ is_Some (lg_deposit (s_logger s))).
Proof using os_text.
  intros Hr Hst Hj Hne. destruct (k_placed s ths Hr j t Hj) as [P1 _].
  destruct (t_todo t) as [|c rest] eqn:Et; [by destruct P1, Hne|].
  destruct (decide (t_prod t = PIdle ∧ lg_sem_empty (s_logger s) ≤ 0)) as [|H2]; [by left|].
  destruct (lg_deposit (s_logger s)) as [o|] eqn:Ed.
  - destruct (t_prod t) eqn:Ep; try (by right; split; [|eexists]); exfalso;
      (destruct (prod_can j s ths t c rest Hr Hj Et) as [[s' t'] Hx];
       [rewrite Ep; intros; try done; apply Z.nle_gt; naive_solver|by rewrite Ep|]; by eapply Hst, step_thread).
  - exfalso. destruct (prod_can j s ths t c rest Hr Hj Et) as [[s' t'] Hx]; [intros; apply Z.nle_gt; tauto|done|].
    by eapply Hst, step_thread.
Qed.

Lemma stuck_work s ths j t p :
  ring_ok s ths → quiet s ths → (∀ y, ¬ step (s, ths) y) → ths !! j = Some t → t_work t = Some p →
  (p = WIdle ∧ (t_todo t = [] → lg_sem_full (s_logger s) ≤ 0)) ∨ (p = WWaited ∧ is_Some (lg_fetch (s_logger s))).
Proof using.
  intros Hr Hq Hst Hj Hw. destruct (decide (t_todo t = [])) as [Htd|Htd].
  2: { destruct (q_thread s ths Hq j t Hj) as (_ & Q2 & _). destruct (Q2 p Hw) as [?| ->]; [done|by left]. }
  destruct (decide (p = WIdle ∧ lg_sem_full (s_logger s) ≤ 0)) as [[-> ?]|H2]; [by left|].
  destruct (lg_fetch (s_logger s)) as [o|] eqn:Ed.
  - destruct (decide (p = WWaited)) as [->|Hn]; [right; split; [done|by eexists]|].
    exfalso. destruct (work_can j s ths t p Hr Hq Hj Htd Hw) as [[s' t'] Hx]; [intros; apply Z.nle_gt; tauto|done|].
    by eapply Hst, step_thread.
  - exfalso. destruct (work_can j s ths t p Hr Hq Hj Htd Hw) as [[s' t'] Hx]; [intros; apply Z.nle_gt; tauto|done|].
    by eapply Hst, step_thread.
Qed.

(** The calls that have a slot and those to come. *)
Definition all_calls s ths : nat := (deposits s + tsum (λ t, length (pending t)) ths)%nat.

(** No worker makes calls, or there are too few of them to fill the ring. *)
Definition room s ths : Prop :=
  each (λ _ t, ∀ p, t_work t = Some p → t_todo t = []) ths ∨ (all_calls s ths ≤ 32)%nat.

Lemma room_step j s ths t s' t' :
  (∀ w fd bytes, (sys_write w fd bytes).1 ≠ -1) → placed s ths →
  room s ths → ths !! j = Some t → thread_step j s t = Ok (Some (s', t')) → room s' (<[j:=t']> ths).
Proof using.
  intros Hnf Hp [Hr|Hr] Hj Hs; [left|right].
  - apply each_insert; [|intros j' t0 _ Hj'; by apply (Hr j' t0)]. specialize (Hr j t Hj).
    step_cases Hs; fields; rewrite ?Et; try done.
    all: try by rewrite (write_line_no_fail _ _ _ _ _ _ _ _ Hnf Ha0).
    all: intros p E; specialize (Hr p E); congruence.
  - pose proof (tsum_update (λ t, length (pending t)) ths j t t' Hj) as U. cbv beta in U.
    cut (deposits s' + length (pending t') ≤ deposits s + length (pending t))%nat;
      [unfold all_calls in *; lia|]. clear Hr U.
    unfold pending, depositing, deposits. step_cases Hs; fields; rewrite ?Et, ?Ep, ?length_app; cbn [length tail]; try lia.
    all: try (rewrite (write_line_no_fail _ _ _ _ _ _ _ _ Hnf Ha0)); cbn [length tail]; case_match; simpl; lia.
Qed.

Lemma initial_quiet s ths :
  initial s ths → each (λ _ t, Forall fits (t_todo t)) ths →
  quiet s ths ∧ all_calls s ths = tsum (λ t, length (t_todo t)) ths.
Proof using.
  intros (Hl & Hd & _ & _ & _ & _ & Ht) Hfit. split.
  - split; [by rewrite Hl|by rewrite Hl|by rewrite Hd|]. intros j t Hj. split; [by apply (Hfit j t)|].
    destruct (Ht j t Hj) as (_ & [E|[E _]] & _); rewrite E; split; intros; simplify_eq; by right.
  - unfold all_calls, deposits. rewrite Hd. cbn [length Nat.add]. unfold tsum. f_equal. apply list_fmap_ext.
    intros j t Hj. destruct (Ht j t Hj) as (E & _). unfold pending, depositing. by rewrite E.
Qed.

(** Where nobody is in the middle of anything the slots are all accounted for, and
    what stops the threads decides the rest. *)
Lemma stuck_lines s ths jw tw pw :
  ring_ok s ths → room s ths → ths !! jw = Some tw → t_work tw = Some pw →
  (∀ j t, ths !! j = Some t → t_prod t = PIdle ∧ (t_todo t ≠ [] → lg_sem_empty (s_logger s) ≤ 0)) →
  (∀ j t p, ths !! j = Some t → t_work t = Some p → p = WIdle ∧ (t_todo t = [] → lg_sem_full (s_logger s) ≤ 0)) →
  each (λ _ t, t_todo t = []) ths ∧ s_lines s = call_line <$> (s_dep s).*2.
Proof using.
  intros Hr Hro Hjw Hpw Hp Hw. destruct (k_counted s ths Hr) as [_ _ He Hfu Hs Hc Hl].
  rewrite (tsum_zero reserving), (tsum_zero reading) in Hs.
  2,3: intros j t Ht; unfold reserving, reading; try rewrite (proj1 (Hp j t Ht)); try done;
       (destruct (t_work t) as [p|] eqn:Ew; [by destruct (Hw j t p Ht Ew) as [-> _]|done]).
  rewrite (tsum_zero claiming), (tsum_zero depositing) in Hc.
  2,3: intros j t Ht; unfold depositing, claiming; try rewrite (proj1 (Hp j t Ht)); try done;
       (destruct (t_work t) as [p|] eqn:Ew; [by destruct (Hw j t p Ht Ew) as [-> _]|done]).
  rewrite (tsum_zero formatting) in Hl.
  2: { intros j t Ht; unfold formatting. destruct (t_work t) as [p|] eqn:Ew; [|done].
       by destruct (Hw j t p Ht Ew) as [-> _]. }
  assert (each (λ _ t, t_todo t = []) ths) as Htd.
  { intros j t Ht. destruct (Hp j t Ht) as [Hid Ht0]. destruct (t_todo t) as [|c rest] eqn:Et; [done|]. exfalso.
    specialize (Ht0 ltac:(done)). destruct Hro as [Hro|Hro].
    - destruct (Hw jw tw pw Hjw Hpw) as [_ Hf0]. specialize (Hf0 (Hro jw tw Hjw pw Hpw)). lia.
    - pose proof (tsum_ge (λ t, length (pending t)) ths j t Ht) as Hge. cbv beta in Hge. unfold all_calls in Hro.
      assert (length (pending t) ≠ 0)%nat by (unfold pending, depositing; rewrite Hid, Et; done). lia. }
  split; [exact Htd|]. destruct (Hw jw tw pw Hjw Hpw) as [_ Hf0]. specialize (Hf0 (Htd jw tw Hjw)).
  rewrite (h_lines s ths (k_handled s ths Hr)). f_equal. apply take_ge. rewrite length_fmap. unfold deposits in *. lia.
Qed.

Lemma stuck_done s ths :
  ring_ok s ths → quiet s ths → room s ths → has_worker ths → (∀ y, ¬ step (s, ths) y) →
  each (λ _ t, t_todo t = []) ths ∧ s_lines s = call_line <$> (s_dep s).*2.
Proof using os_text.
  intros Hr Hq Hro (jw & tw & pw & Hjw & Hpw) Hst.
  assert (lg_deposit (s_logger s) = None) as Hdn.
  { destruct (lg_deposit (s_logger s)) as [o|] eqn:Ed; [exfalso|done].
    destruct (q_deposit s ths Hq o Ed) as [t Ht]. destruct (k_owned s ths Hr o t Ht) as [[_ Hin] _].
    specialize (Hin Ed). unfold in_deposit in Hin.
    destruct (stuck_prod s ths o t Hr Hst Ht) as [[E _]|[E _]]; [left; intros E|..]; by rewrite E in Hin. }
  assert (lg_fetch (s_logger s) = None) as Hfn.
  { destruct (lg_fetch (s_logger s)) as [o|] eqn:Ed; [exfalso|done].
    destruct (q_fetch s ths Hq o Ed) as [t Ht]. destruct (k_owned s ths Hr o t Ht) as [_ [_ Hin]].
    specialize (Hin Ed). unfold in_fetch in Hin. destruct (t_work t) as [p|] eqn:Ew; [|done].
    by destruct (stuck_work s ths o t p Hr Hq Hst Ht Ew) as [[-> _]|[-> _]]. }
  assert (∀ j t, ths !! j = Some t → t_prod t = PIdle ∧ (t_todo t ≠ [] → lg_sem_empty (s_logger s) ≤ 0)) as Hp.
  { intros j t Ht. destruct (decide (t_prod t = PIdle ∧ t_todo t = [])) as [[E1 E2]|Hne]; [by rewrite E1, E2|].
    destruct (stuck_prod s ths j t Hr Hst Ht) as [[-> ?]|[_ Hs]]; [|done|rewrite Hdn in Hs; by destruct Hs].
    destruct (decide (t_prod t = PIdle)); [right; naive_solver|by left]. }
  assert (∀ j t p, ths !! j = Some t → t_work t = Some p → p = WIdle ∧ (t_todo t = [] → lg_sem_full (s_logger s) ≤ 0)) as Hw.
  { intros j t p Ht Ew. destruct (stuck_work s ths j t p Hr Hq Hst Ht Ew) as [?|[_ Hs]]; [done|].
    rewrite Hfn in Hs. by destruct Hs. }
  by apply (stuck_lines s ths jw tw pw).
Qed.
End Ring.


(** A schedule: the threads that make the steps, in order. *)
Fixpoint run {M} `{Posix M} `{LoggerEnv M} `{OsStrerror} (sched : list nat) (x : sys (M := M)) : option sys :=
  match sched with
  | [] => Some x
  | j :: sched =>
      match x.2 !! j with
      | None => None
      | Some t =>
          match thread_step j x.1 t with
          | Ok (Some (s, t)) => run sched (s, <[j := t]> x.2)
          | _ => None
          end
      end
  end.
Definition blocked {M} `{Posix M} `{LoggerEnv M} `{OsStrerror} (x : sys (M := M)) : bool :=
  forallb (λ jt, match thread_step jt.1 x.1 jt.2 with Ok None => true | _ => false end)
    (zip (seq 0 (length x.2)) x.2).

Section Schedules.
Context {M : Type} `{Posix M} `{LoggerEnv M} `{OsStrerror}.

Lemma run_steps sched : ∀ x y : sys (M := M), run sched x = Some y → steps x y.
Proof using.
  induction sched as [|j sched IH]; intros [s ths] y; simpl; [intros [= <-]; apply rtc_refl|].
  intros E. destruct (ths !! j) as [t|] eqn:Hj; [|done].
  destruct (thread_step j s t) as [[[s' t']|]| | |] eqn:Hs; try done.
  eapply rtc_l; [by eapply step_thread|]. by apply IH.
Qed.

Lemma blocked_ok (x : sys (M := M)) : blocked x = true → ∀ y, ¬ step x y.
Proof using.
  intros Hb y Hst. destruct Hst as [j s ths t s' t' Hj Hs]. unfold blocked in Hb. cbn [fst snd] in Hb.
  rewrite List.forallb_forall in Hb. specialize (Hb (j, t)). cbn [fst snd] in Hb. rewrite Hs in Hb.
  assert (In (j, t) (zip (seq 0 (length ths)) ths)); [|by specialize (Hb ltac:(done))].
  apply list_elem_of_In, list_elem_of_lookup. exists j. apply lookup_zip_with_Some. exists j, t.
  split; [done|]. split; [|done]. apply lookup_seq. split; [done|]. by eapply lookup_lt_Some.
Qed.
(** Without a worker no line is ever formatted. *)
Lemma log_error_silent j (s s' : shared (M := M)) t t' c rest :
  log_error_step j s t c rest = Ok (Some (s', t')) → s_lines s' = s_lines s ∧ t_work t' = t_work t.
Proof using.
  intros Hr. unfold log_error_step in Hr. destruct (t_prod t); try (res_inv; split; reflexivity).
  - destruct (_ <=? 0); [done|]. res_inv. by split.
  - destruct (lg_deposit _); [done|]. res_inv. by split.
Qed.
Lemma silent_run (x y : sys (M := M)) :
  each (λ _ t, t_work t = None) x.2 → steps x y →
  s_lines y.1 = s_lines x.1 ∧ each (λ _ t, t_work t = None) y.2.
Proof using.
  intros Hn Hst. induction Hst as [x|x y z Hs _ IH]; [done|]. destruct Hs as [j s1 ths1 t s2 t' Hj Hs].
  cbn [fst snd] in *. unfold thread_step in Hs. pose proof (Hn j t Hj) as Hw. cbn beta in Hw. rewrite Hw in Hs.
  destruct (t_todo t) as [|c rest]; [done|]. destruct (log_error_silent _ _ _ _ _ _ _ Hs) as [El Ew].
  destruct IH as [E1 E2]; [|split; [congruence|done]].
  apply each_insert; [congruence|]. intros j' t1 _ Hj'. by apply (Hn j').
Qed.
End Schedules.

(** A system whose files are lists of writes, and where descriptor 9 is broken. *)
Definition demo_posix : Posix (list (Z * chars)) := {|
  sys_errno w := 5; sys_open w p m a := (3, w); sys_close w fd := w;
  sys_lseek w fd off wh := (0, w); sys_read w fd n := (0, [], w);
  sys_write w fd s := if fd =? 9 then (-1, w) else (Z.of_nat (length s), w ++ [(fd, s)]);
  sys_stat w p := (None, w); sys_fstat w fd := (None, w); sys_opendir w p := (None, w);
  sys_readdir w h := (None, w); sys_closedir w h := w; sys_glob w p := (1, [], w)
|}.
Definition demo_env : LoggerEnv (list (Z * chars)) := {|
  env_pool_create w := (0, w); env_pool_destroy w := w; env_sem_init w v := (0, w); env_mutex_init w := (0, w);
  env_thread_init w := (0, w); env_thread_cancel w := w; sys_fsync w fd := w;
  sys_localtime w := Tm 5 10 124 12 0 7; show_ptr := chars_of "0x7f"
|}.
Definition demo_strerror : OsStrerror := λ e, chars_of "I/O error".
#[local] Existing Instances demo_posix demo_env demo_strerror.
Definition demo_call (level err : Z) (s : string) : log_call :=
  LogCall level err (chars_of s) (Tm 5 11 2024 12 0 7).
Definition demo_shared (fd : Z) : shared (M := list (Z * chars)) :=
  Shared (Logger [Log 2 (File fd None 0) 0] (replicate 32 (Message 0 (replicate 24 0) (replicate 1000 0))) true
            0 0 32 0 None None) [] [] 0 [].
Definition caller (calls : list log_call) : thread := Thread calls PIdle None [].
Definition worker (calls : list log_call) : thread := Thread calls PIdle (Some WIdle) (replicate 1024 0).

Lemma demo_text : ∀ e, text (strerror e) ∧
  Z.of_nat (length (strerror e)) < 2 ^ 63.
Proof. intros e. split; [by apply text_all_below; vm_compute|by vm_compute]. Qed.

(** A boolean check of [valid_call], and the initial states built from calls. *)
Definition valid_callb (c : log_call) : bool :=
  forallb (λ c, (0 <? c) && (c <? 128)) (lc_text c) && (0 <=? lc_level c) && (lc_level c <? 5).
Lemma valid_callb_ok calls : forallb valid_callb calls = true → Forall valid_call calls.
Proof.
  intros E. rewrite List.forallb_forall in E. apply Forall_forall. intros c Hc. apply list_elem_of_In in Hc.
  specialize (E c Hc). unfold valid_callb in E. apply andb_true_iff in E as [E1 E2].
  apply andb_true_iff in E1 as [E0 E1]. split; [by apply text_all_below|lia].
Qed.
Lemma demo_initial fd c1 c2 :
  forallb valid_callb c1 = true → forallb valid_callb c2 = true →
  initial (demo_shared fd) [caller c1; worker c2].
Proof.
  intros H1 H2. repeat (split; [done|]). split.
  - apply Forall_replicate. by split.
  - intros [|[|j]] t Hj; simplify_eq/=; (split; [done|]); (split; [|by apply valid_callb_ok]); [by left|by right].
Qed.

(** ** Properties of the logger *)

(** C4: The ring neither loses, repeats, reorders nor mixes up messages, in any
    interleaving of any number of threads and workers: the lines formatted so far
    are, in order and unaltered, those of the first calls that were given a slot; a
    worker hands out exactly the latest of them; at most 32 calls wait; the
    semaphores never exceed 32; and the calls of every thread are given slots in the
    order it makes them. *)
Theorem logger_fifo {M} `{Posix M} `{LoggerEnv M} `{OsStrerror} (s0 s : shared (M := M)) ths0 ths :
  (∀ e, text (strerror e) ∧ Z.of_nat (length (strerror e)) < 2 ^ 63) → text show_ptr →
  initial s0 ths0 → steps (s0, ths0) (s, ths) →
  s_lines s = call_line <$> take (length (s_lines s)) (s_dep s).*2 ∧
  (length (s_lines s) ≤ length (s_dep s) ≤ length (s_lines s) + 32)%nat ∧
  0 ≤ lg_sem_empty (s_logger s) ≤ 32 ∧ 0 ≤ lg_sem_full (s_logger s) ≤ 32 ∧
  each (λ _ t, handling (s_lines s) t) ths ∧
  each (λ j t, ∀ t0, ths0 !! j = Some t0 → t_work t0 = None →
    t_todo t0 = calls_of j (s_dep s) ++ pending t) ths.
Proof.
  intros Hos Hptr Hi Hst. destruct (ring_reachable Hos Hptr s0 ths0 s ths Hi Hst) as [Hc Ho Hp Hz Hv Hso Hh].
  pose proof Hc as [_ _ He Hf Hs Hcl Hl]. unfold deposits in *.
  assert (tsum formatting ths ≤ tsum reading ths)%nat as Hle.
  { apply tsum_le. intros t. unfold formatting, reading. by destruct (t_work t) as [[]|]; lia. }
  split; [apply Hh|]. split; [lia|]. split; [lia|]. split; [lia|]. split; [apply Hh|].
  intros j t Hj t0 Ht0 Hw. by apply (in_order_reachable Hos Hptr s0 ths0 s ths Hi Hst j t Hj t0 Ht0 Hw).
Qed.

Lemma logger_fifo_witness :
  ∃ s ths, steps
      (demo_shared 1, [caller [demo_call 2 5 "disk full"]; worker []]) (s, ths) ∧
    s_world s = [(1, chars_of "[05.11.2024] [12:00:07] [warn] disk full (5: I/O error)" ++ [10])] ∧
    s_lines s = [chars_of "[05.11.2024] [12:00:07] [warn] disk full (5: I/O error)" ++ [10]].
Proof.
  destruct (run ((replicate 8 0 ++ replicate 9 1)%nat)
    (demo_shared 1, [caller [demo_call 2 5 "disk full"]; worker []])) as [[s ths]|] eqn:E.
  2: { exfalso. vm_compute in E. discriminate E. }
  exists s, ths. pose proof (run_steps _ _ _ E) as Hst. split; [exact Hst|].
  destruct (logger_fifo _ s _ ths demo_text
    ltac:(by apply text_all_below; vm_compute) (demo_initial 1 [demo_call 2 5 "disk full"] []
    ltac:(by vm_compute) ltac:(by vm_compute)) Hst) as [Hl _].
  assert (s_world s = [(1, chars_of "[05.11.2024] [12:00:07] [warn] disk full (5: I/O error)" ++ [10])] ∧
    length (s_lines s) = 1%nat ∧ s_dep s = [(0%nat, demo_call 2 5 "disk full")]) as (Hw & Hlen & Hd).
  { vm_compute in E. injection E as <- _. by vm_compute. }
  split; [exact Hw|]. rewrite Hl, Hlen, Hd. by vm_compute.
Defined.

(** C5: While writes succeed the logger cannot deadlock or run for ever, for any number
    of callers and at least one worker, provided that lines fit the line buffer and that
    either the workers make no calls of their own or all calls together, with those in
    which the workers announce themselves, are at most 32, so that the ring cannot fill:
    a run has at most as many steps as the work that was to be done, and ends only when
    every call has been made and every line has been formatted. *)
Theorem logger_progress {M} `{Posix M} `{LoggerEnv M} `{OsStrerror} (s0 : shared (M := M)) ths0 :
  (∀ e, text (strerror e) ∧ Z.of_nat (length (strerror e)) < 2 ^ 63) → text show_ptr →
  (∀ w fd bytes, (sys_write w fd bytes).1 ≠ -1) →
  initial s0 ths0 → has_worker ths0 → each (λ _ t, Forall fits (t_todo t)) ths0 →
  each (λ _ t, ∀ p, t_work t = Some p → t_todo t = []) ths0 ∨ (tsum (λ t, length (t_todo t)) ths0 ≤ 32)%nat →
  (∀ n s ths, nsteps step n (s0, ths0) (s, ths) → (n ≤ work_left s0 ths0)%nat) ∧
  (∀ s ths, steps (s0, ths0) (s, ths) → (∀ y, ¬ step (s, ths) y) →
     each (λ _ t, t_todo t = []) ths ∧ s_lines s = call_line <$> (s_dep s).*2).
Proof.
  intros Hos Hptr Hnf Hi Hw Hfit Hroom.
  assert (ring_ok s0 ths0 ∧ quiet s0 ths0 ∧ room s0 ths0 ∧ has_worker ths0) as H0k.
  { split; [by apply initial_ok|]. destruct (initial_quiet s0 ths0 Hi Hfit) as [Hq Hall].
    split; [done|]. split; [|done]. destruct Hroom as [?|?]; [by left|right; by rewrite Hall]. }
  split.
  - intros n. clear Hi Hw Hfit Hroom. revert s0 ths0 H0k.
    induction n as [|n IH]; intros s0 ths0 (Hr & Hq & Hro & Hw) s ths Hn; [lia|].
    inversion Hn as [|? ? y ? Hst Hrest]; subst. inversion Hst as [j s1 ths1 t s' t' Hj Hs]; subst.
    specialize (IH s' (<[j:=t']> ths0)). pose proof (work_step j s0 ths0 t s' t' Hnf Hr Hq Hj Hs) as Hlt.
    apply IH in Hrest; [lia|].
    split_and!; [by eapply ring_step|by eapply quiet_step|by eapply room_step; [|apply Hr|..]|by eapply has_worker_step].
  - intros s ths Hst Hstuck.
    assert (ring_ok s ths ∧ quiet s ths ∧ room s ths ∧ has_worker ths) as (Hr & Hq' & Hro' & Hw').
    { apply (steps_ind (λ x, ring_ok x.1 x.2 ∧ quiet x.1 x.2 ∧ room x.1 x.2 ∧ has_worker x.2) _ _ Hst); [done|].
      intros j s1 ths1 t s' t' (Hr1 & ? & ? & ?) Hj Hs.
      split_and!; [by eapply ring_step|by eapply quiet_step|by eapply room_step; [|apply Hr1|..]|by eapply has_worker_step]. }
    by apply (stuck_done Hos s ths Hr Hq' Hro' Hw').
Qed.

(** A system in which every write succeeds. *)
Definition sound_posix : Posix (list (Z * chars)) := {|
  sys_errno w := 5; sys_open w p m a := (3, w); sys_close w fd := w;
  sys_lseek w fd off wh := (0, w); sys_read w fd n := (0, [], w);
  sys_write w fd s := (Z.of_nat (length s), w ++ [(fd, s)]);
  sys_stat w p := (None, w); sys_fstat w fd := (None, w); sys_opendir w p := (None, w);
  sys_readdir w h := (None, w); sys_closedir w h := w; sys_glob w p := (1, [], w)
|}.

(** Two calls, and a worker that announces itself: a run that cannot be continued has
    formatted all three lines. *)
Lemma logger_progress_witness :
  let x0 := (demo_shared 1, [caller (replicate 2 (demo_call 2 0 "x")); worker [demo_call 4 0 "started"]]) in
  ∃ s ths, rtc (step (H1 := sound_posix)) x0 (s, ths) ∧ (∀ y, ¬ step (H1 := sound_posix) (s, ths) y) ∧
    each (λ _ t, t_todo t = []) ths ∧
    s_lines s = call_line <$> [demo_call 2 0 "x"; demo_call 4 0 "started"; demo_call 2 0 "x"].
Proof.
  intros x0. destruct (run (H := sound_posix) (replicate 8 0 ++ replicate 8 1 ++ replicate 8 0 ++ replicate 26 1)%nat x0)
    as [[s ths]|] eqn:E.
  2: { exfalso. vm_compute in E. discriminate E. }
  exists s, ths. pose proof (run_steps (H := sound_posix) _ _ _ E) as Hst.
  assert (∀ y, ¬ step (H1 := sound_posix) (s, ths) y) as Hstuck.
  { apply (blocked_ok (H := sound_posix)). vm_compute in E. injection E as <- <-. by vm_compute. }
  split; [exact Hst|]. split; [exact Hstuck|].
  assert (each (λ _ t, Forall fits (t_todo t)) x0.2) as Hfit.
  { intros [|[|j]] t Hj; [injection Hj as <-|injection Hj as <-|discriminate Hj];
      repeat constructor; unfold fits; vm_compute; lia. }
  assert (has_worker x0.2) as Hw by exact (ex_intro _ 1%nat (ex_intro _ (worker [demo_call 4 0 "started"])
    (ex_intro _ WIdle (conj eq_refl eq_refl)))).
  pose proof (demo_initial 1 (replicate 2 (demo_call 2 0 "x")) [demo_call 4 0 "started"] ltac:(by vm_compute) ltac:(by vm_compute)) as Hi.
  assert (text show_ptr) as Hptr by (by apply text_all_below; vm_compute).
  assert (∀ (w : list (Z * chars)) fd bytes, (sys_write (Posix := sound_posix) w fd bytes).1 ≠ -1) as Hnf
    by (intros w fd bytes; cbn [sys_write sound_posix fst]; lia).
  assert (tsum (λ t, length (t_todo t)) x0.2 ≤ 32)%nat as Hfew by (apply Nat.leb_le; by vm_compute).
  destruct (proj2 (logger_progress (H := sound_posix) x0.1 x0.2 demo_text Hptr Hnf Hi Hw Hfit (or_intror Hfew))
    s ths Hst Hstuck) as [H1 H2].
  split; [exact H1|]. rewrite H2. f_equal. vm_compute in E. injection E as <- _. by vm_compute.
Defined.

(** ** The ring that waits for itself *)
Section Jam.
Context {M : Type} `{Posix M} `{LoggerEnv M} `{OsStrerror}.
Implicit Types (s : shared (M := M)) (ths : list thread).

(** Every slot is in use, by a message that waits or one that a worker handles, and
    every worker is about to make a call. *)
Record jammed s ths : Prop := {
  jm_full : (deposits s + tsum reading ths = s_fetched s + 32)%nat;
  jm_workers : each (λ _ t, ∀ p, t_work t = Some p → t_prod t = PIdle ∧ t_todo t ≠ []) ths
}.

(** The steps left of a call that has its slot. *)
Definition finishing (t : thread) : nat :=
  match t_prod t with PStr _ => 5 | PTime _ => 4 | PLevel _ => 3 | PUnlock => 2 | PPost => 1 | _ => 0 end.

Lemma jammed_step j s ths t s' t' :
  ring_ok s ths → jammed s ths → ths !! j = Some t → thread_step j s t = Ok (Some (s', t')) →
  jammed s' (<[j:=t']> ths) ∧ t_work t = None ∧ (finishing t' < finishing t)%nat ∧
  s_dep s' = s_dep s ∧ s_fetched s' = s_fetched s ∧ s_lines s' = s_lines s.
Proof using.
  intros Hr [Hfull Hw] Hj Hs. destruct (k_counted s ths Hr) as [_ _ He _ Hsl _ _].
  assert (lg_sem_empty (s_logger s) ≤ 0 ∧ reserving t = 0%nat) as [He0 Hres].
  { pose proof (tsum_ge reserving ths j t Hj). lia. }
  assert (t_work t = None ∧ t_work t' = None ∧ (finishing t' < finishing t)%nat ∧
    s_dep s' = s_dep s ∧ s_fetched s' = s_fetched s ∧ s_lines s' = s_lines s) as (Hn & Hn' & Hf & Hd & Hfe & Hl).
  { specialize (Hw j t Hj). unfold reserving, finishing in *. destruct (t_work t) as [p|] eqn:Hwk.
    - destruct (Hw p eq_refl) as [Hid Hne]. exfalso. unfold thread_step, log_error_step in Hs. rewrite Hid in Hs.
      destruct (t_todo t); [done|]. cbv zeta in Hs. by rewrite (proj2 (Z.leb_le _ _)) in Hs by lia.
    - step_cases Hs; cbn; rewrite ?Hwk, ?Ep in *; try done;
        try match goal with E : (_ <=? _) = false |- _ => apply Z.leb_gt in E end; try lia; split_and!; try done; lia. }
  split; [|done]. split.
  { pose proof (tsum_update reading ths j t t' Hj) as U. unfold reading in U at 2 4. rewrite Hn, Hn' in U.
    unfold deposits in *. rewrite Hd, Hfe. lia. }
  apply each_insert; [by rewrite Hn'|]. intros j' t0 _ Hj'. by apply (Hw j' t0).
Qed.

Lemma jammed_run n : ∀ s ths s' ths',
  (∀ e, text (strerror e) ∧ Z.of_nat (length (strerror e)) < 2 ^ 63) → text show_ptr →
  ring_ok s ths → jammed s ths → nsteps step n (s, ths) (s', ths') →
  (n ≤ tsum finishing ths)%nat ∧ s_dep s' = s_dep s ∧ s_fetched s' = s_fetched s ∧ s_lines s' = s_lines s ∧
  ∀ j t p, ths !! j = Some t → t_work t = Some p → ths' !! j = Some t.
Proof using.
  induction n as [|n IH]; intros s ths s' ths' Hos Hptr Hr Hja Hn.
  - inversion Hn; subst. split_and!; try done. lia.
  - inversion Hn as [|? ? y ? Hst Hrest]; subst. inversion Hst as [j s1 ths1 t s2 t2 Hj Hs]; subst.
    destruct (jammed_step j s ths t s2 t2 Hr Hja Hj Hs) as (Hja2 & Hwn & Hf & Hd & Hfe & Hl).
    destruct (IH s2 _ s' ths' Hos Hptr ltac:(by eapply (ring_step Hos Hptr)) Hja2 Hrest) as (Hn' & -> & -> & -> & Hk).
    pose proof (tsum_update finishing ths j t t2 Hj). split_and!; [lia|done..|].
    intros j' t0 p Hj' Hp. apply (Hk j' t0 p); [|done]. rewrite list_lookup_insert_ne; [done|]. intros <-. congruence.
Qed.
End Jam.

(** C27: The worker deadlocks with its own ring.  Whatever state the logger has come to:
    if all 32 slots are in use, by messages that wait or are being handled, and every
    worker is about to make a call of its own (the worker logs its own start after a
    second's sleep, and logs each of its writes that fails), the workers wait for a free
    slot that only they could provide.  From there only the calls that have their slots
    already are finished; every run ends, and no worker moves, no message is taken out
    and no line is written in it. *)
Theorem logger_self_deadlock {M} `{Posix M} `{LoggerEnv M} `{OsStrerror} (s0 s : shared (M := M)) ths0 ths :
  (∀ e, text (strerror e) ∧ Z.of_nat (length (strerror e)) < 2 ^ 63) → text show_ptr →
  initial s0 ths0 → steps (s0, ths0) (s, ths) →
  (length (s_dep s) + tsum reading ths = s_fetched s + 32)%nat →
  each (λ _ t, ∀ p, t_work t = Some p → t_prod t = PIdle ∧ t_todo t ≠ []) ths →
  (∀ n s' ths', nsteps step n (s, ths) (s', ths') →
     (n ≤ tsum finishing ths)%nat ∧ s_dep s' = s_dep s ∧ s_fetched s' = s_fetched s ∧ s_lines s' = s_lines s ∧
     ∀ j t p, ths !! j = Some t → t_work t = Some p → ths' !! j = Some t) ∧
  (each (λ _ t, t_prod t = PIdle) ths → ∀ y, ¬ step (s, ths) y).
Proof.
  intros Hos Hptr Hi Hst Hfull Hw. pose proof (ring_reachable Hos Hptr s0 ths0 s ths Hi Hst) as Hr.
  assert (jammed s ths) as Hja by by split.
  split; [intros n s' ths'; by apply jammed_run|]. intros Hid [s' ths'] Hy.
  destruct (jammed_run 1 s ths s' ths' Hos Hptr Hr Hja (nsteps_once _ _ Hy)) as [Hn _].
  rewrite (tsum_zero finishing) in Hn; [lia|]. intros j t Hj. unfold finishing. by rewrite (Hid j t Hj).
Qed.

(** Two ways into it: the worker announces itself after 32 calls of the program; and it
    reports the write of a line to a closed descriptor while the program has filled the
    ring behind it. *)
Lemma logger_self_deadlock_witness :
  (∃ s ths, steps (demo_shared 1, [caller (replicate 33 (demo_call 2 0 "x")); worker [demo_call 4 0 "started"]]) (s, ths) ∧
     (∀ y, ¬ step (s, ths) y) ∧ s_lines s = [] ∧ length (s_dep s) = 32%nat) ∧
  (∃ s ths, steps (demo_shared 9, [caller (replicate 40 (demo_call 2 0 "x")); worker []]) (s, ths) ∧
     (∀ y, ¬ step (s, ths) y) ∧ length (s_lines s) = 1%nat ∧ length (s_dep s) = 32%nat).
Proof.
  assert (text show_ptr) as Hptr by (by apply text_all_below; vm_compute). split.
  - destruct (run (replicate 256 0%nat) (demo_shared 1,
      [caller (replicate 33 (demo_call 2 0 "x")); worker [demo_call 4 0 "started"]])) as [[s ths]|] eqn:E.
    2: { exfalso. vm_compute in E. discriminate E. }
    exists s, ths. pose proof (run_steps (replicate 256 0%nat) _ _ E) as Hst. split; [exact Hst|].
    pose proof (logger_self_deadlock (demo_shared 1) s _ ths demo_text Hptr
      (demo_initial 1 (replicate 33 (demo_call 2 0 "x")) [demo_call 4 0 "started"] ltac:(by vm_compute) ltac:(by vm_compute)) Hst) as HT.
    vm_compute in E. injection E as <- <-. split; [|split; by vm_compute]. apply HT; [by vm_compute|..].
    + intros [|[|j]] t Hj; [injection Hj as <-; done|injection Hj as <-; done|discriminate Hj].
    + intros [|[|j]] t Hj; [injection Hj as <-; done|injection Hj as <-; done|discriminate Hj].
  - destruct (run (replicate 8 0 ++ replicate 5 1 ++ replicate 248 0)%nat (demo_shared 9,
      [caller (replicate 40 (demo_call 2 0 "x")); worker []])) as [[s ths]|] eqn:E.
    2: { exfalso. vm_compute in E. discriminate E. }
    exists s, ths. pose proof (run_steps _ _ _ E) as Hst. split; [exact Hst|].
    pose proof (logger_self_deadlock (demo_shared 9) s _ ths demo_text Hptr
      (demo_initial 9 (replicate 40 (demo_call 2 0 "x")) [] ltac:(by vm_compute) ltac:(by vm_compute)) Hst) as HT.
    vm_compute in E. injection E as <- <-. split; [|split; by vm_compute]. apply HT; [by vm_compute|..].
    + intros [|[|j]] t Hj; [injection Hj as <-; done|injection Hj as <-; done|discriminate Hj].
    + intros [|[|j]] t Hj; [injection Hj as <-; done|injection Hj as <-; done|discriminate Hj].
Defined.

(** Reading as many bytes as the text has, of a buffer of [n] that it was cut to. *)
Lemma read_cut (n : Z) (line junk : chars) :
  0 < n → length (take (Z.to_nat (n - 1)) line ++ 0 :: junk) = Z.to_nat n →
  let len := Z.of_nat (length line) in
  read_bytes (take (Z.to_nat (n - 1)) line ++ 0 :: junk) len =
    (if len <? n then Ok line
     else if len =? n then Ok (take (Z.to_nat (n - 1)) line ++ [0]) else UB).
Proof.
  intros Hn Hl len. unfold read_bytes, len. rewrite Hl, Nat2Z.id. rewrite length_app, length_take in Hl.
  cbn [length] in Hl. rewrite Z2Nat.id by lia. destruct (Z.ltb_spec (Z.of_nat (length line)) n) as [Hlt|Hge].
  - rewrite (proj2 (Z.ltb_ge n (Z.of_nat (length line)))) by lia. by rewrite (take_ge line), take_app_length by lia.
  - destruct (Z.eqb_spec (Z.of_nat (length line)) n) as [He|Hne].
    + rewrite (proj2 (Z.ltb_ge n (Z.of_nat (length line)))) by lia. f_equal.
      destruct junk as [|x junk]; [|simpl in Hl; lia]. apply take_ge. rewrite length_app, length_take. simpl. lia.
    + by rewrite (proj2 (Z.ltb_lt n (Z.of_nat (length line)))) by lia.
Qed.

(** The bytes of [fpx_log_console] with a buffer of 1000. *)
Lemma console_bytes_ok `{OsStrerror} logstr err txt :
  (∀ e, text (strerror e) ∧ Z.of_nat (length (strerror e)) < 2 ^ 63) → length logstr = 1000%nat →
  let full := txt ++ err_suffix err ++ [10] in
  let len := Z.of_nat (length full) in
  (Z.of_nat (length txt) < 1000 →
     console_bytes logstr err txt =
       if len <? 1000 then Ok full
       else if len =? 1000 then Ok (take 999 full ++ [0]) else UB) ∧
  (1000 ≤ Z.of_nat (length txt) →
     console_bytes logstr err txt =
       if Z.of_nat (length txt) =? 1000 then Ok (take 999 txt ++ [10]) else UB).
Proof.
  intros Hos Hs full len. split.
  - intros Hl. unfold console_bytes.
    destruct (snprintf_ok logstr FPX_LOG_STR_SIZE txt) as (junk & -> & Hlen); [done|by rewrite Hs|].
    change (Z.to_nat (FPX_LOG_STR_SIZE - 1)) with 999%nat in *. unfold FPX_LOG_STR_SIZE.
    rewrite (proj2 (Z.ltb_lt (Z.of_nat (length txt)) 1000)) by done.
    rewrite (take_ge txt 999) in * by lia. rewrite length_app in Hlen. cbn [length] in Hlen.
    assert ((if negb (err =? FPX_OK) then errstr ← fpx_strerror err FPX_ERRNO_STR_SIZE; msg ← c_string errstr;
             Ok ([32; 40] ++ print_int err ++ [58; 32] ++ msg ++ [41; 10]) else Ok [10]) = Ok (err_suffix err ++ [10])) as ->.
    { unfold err_suffix. destruct (err =? FPX_OK); cbn [negb]; [done|].
      rewrite strerror_ok by done. rewrite bind_ok. change (Z.to_nat (FPX_ERRNO_STR_SIZE - 1)) with 1023%nat.
      unfold cstr. rewrite c_string_app by (apply text_take, text_message, Hos). rewrite bind_ok, <- !app_assoc. done. }
    rewrite bind_ok, Nat2Z.id, drop_app_length, take_app_length.
    destruct (snprintf_ok (0 :: junk) (1000 - Z.of_nat (length txt)) (err_suffix err ++ [10])) as (junk' & -> & Hlen');
      [lia|cbn [length]; lia|].
    replace (Z.to_nat (1000 - Z.of_nat (length txt) - 1)) with (999 - length txt)%nat in * by lia.
    assert (take (Z.to_nat (1000 - 1)) full ++ 0 :: junk' =
            txt ++ take (999 - length txt) (err_suffix err ++ [10]) ++ 0 :: junk') as <-.
    { unfold full. rewrite take_app, (take_ge txt), <- app_assoc by lia. done. }
    rewrite bind_ok. replace (Z.of_nat (length txt) + Z.of_nat (length (err_suffix err ++ [10]))) with len
      by (unfold len, full; rewrite length_app; lia).
    unfold len. rewrite read_cut; [|done|].
    + done.
    + rewrite length_app, length_take in *. cbn [length] in *.
      unfold full. rewrite length_app. lia.
  - intros Hl. unfold console_bytes.
    destruct (snprintf_ok logstr FPX_LOG_STR_SIZE txt) as (junk & -> & Hlen); [done|by rewrite Hs|].
    change (Z.to_nat (FPX_LOG_STR_SIZE - 1)) with 999%nat in *. unfold FPX_LOG_STR_SIZE.
    rewrite (proj2 (Z.ltb_ge (Z.of_nat (length txt)) 1000)), bind_ok by done.
    rewrite length_app, length_take in Hlen. cbn [length] in Hlen.
    destruct junk as [|x junk]; [|cbn [length] in Hlen; lia].
    change (Z.to_nat (1000 - 1)) with 999%nat. cbn [length] in Hlen.
    rewrite insert_app_r_alt by (rewrite length_take; lia). rewrite length_take, Nat.min_l, Nat.sub_diag by lia.
    change (<[0%nat:=10]> [0]) with [10]. unfold read_bytes. rewrite length_app, length_take. cbn [length].
    destruct (Z.eqb_spec (Z.of_nat (length txt)) 1000) as [He|Hne].
    + rewrite (proj2 (Z.ltb_ge (Z.of_nat (Nat.min 999 (length txt) + 1)) (Z.of_nat (length txt)))) by lia.
      f_equal. apply take_ge. rewrite length_app, length_take. cbn [length]. lia.
    + by rewrite (proj2 (Z.ltb_lt (Z.of_nat (Nat.min 999 (length txt) + 1)) (Z.of_nat (length txt)))) by lia.
Qed.

Lemma console_ok {M} `{Posix M} `{LoggerEnv M} `{OsStrerror} (w : M) logstr fd err txt :
  (∀ e, text (strerror e) ∧ Z.of_nat (length (strerror e)) < 2 ^ 63) → length logstr = 1000%nat →
  let full := txt ++ err_suffix err ++ [10] in
  let len := Z.of_nat (length full) in
  (Z.of_nat (length txt) < 1000 →
     fpx_log_console logstr w fd err txt =
       if len <? 1000 then Ok (write_reported w fd full)
       else if len =? 1000 then Ok (write_reported w fd (take 999 full ++ [0])) else UB) ∧
  (1000 ≤ Z.of_nat (length txt) →
     fpx_log_console logstr w fd err txt =
       if Z.of_nat (length txt) =? 1000 then Ok (write_reported w fd (take 999 txt ++ [10])) else UB).
Proof.
  intros Hos Hs full len. unfold fpx_log_console. destruct (console_bytes_ok logstr err txt Hos Hs) as [Hb1 Hb2].
  split; intros Hl.
  - rewrite Hb1 by done. unfold len, full. by destruct (_ <? 1000), (_ =? 1000).
  - rewrite Hb2 by done. destruct (Z.of_nat (length txt) =? 1000); [by rewrite bind_ok|done].
Qed.

(** C39: What reaches a file.  A log drops the lines above its level and writes every
    other line whole, wherever its size limit and offset are: the limit never takes
    effect.  The number of bytes written is the untruncated length of the line, so
    that a line of 1024 characters loses its line end to a zero byte and a longer one
    makes the write run past the line buffer; the same holds for
    [fpx_log_console] and messages of 1000 characters, and there the line end already
    goes when the message alone has 1000.  A write of the console that fails is
    reported. *)
Theorem line_output {M} `{Posix M} `{LoggerEnv M} `{OsStrerror} (w : M) log level buf line logstr fd err txt :
  (∀ e, text (strerror e) ∧ Z.of_nat (length (strerror e)) < 2 ^ 63) →
  length buf = 1024%nat → length logstr = 1000%nat →
  let n := Z.of_nat (length line) in
  let put bytes := let file := f_fd (l_file log) in sys_fsync (fpx_write_fd w file bytes).2 file in
  let full := txt ++ err_suffix err ++ [10] in
  let len := Z.of_nat (length full) in
  (l_level log < level →
     fpx_write_to_log w log level (snprintf buf FPX_LOG_TOTAL_STR_SIZE line).1 n = Ok (log, w)) ∧
  (level ≤ l_level log →
     snd <$> fpx_write_to_log w log level (snprintf buf FPX_LOG_TOTAL_STR_SIZE line).1 n =
       if n <? 1024 then Ok (put line) else if n =? 1024 then Ok (put (take 1023 line ++ [0])) else UB) ∧
  (Z.of_nat (length txt) < 1000 →
     fpx_log_console logstr w fd err txt =
       if len <? 1000 then Ok (write_reported w fd full)
       else if len =? 1000 then Ok (write_reported w fd (take 999 full ++ [0])) else UB) ∧
  (1000 ≤ Z.of_nat (length txt) →
     fpx_log_console logstr w fd err txt =
       if Z.of_nat (length txt) =? 1000 then Ok (write_reported w fd (take 999 txt ++ [10])) else UB).
Proof.
  intros Hos Hb Hs n put full len. split; [|split; [|split]].
  - intros Hl. unfold fpx_write_to_log, write_line. by rewrite (proj2 (Z.ltb_lt _ _)) by done.
  - intros Hl. unfold fpx_write_to_log, write_line. rewrite (proj2 (Z.ltb_ge _ _)) by done.
    destruct (snprintf_ok buf FPX_LOG_TOTAL_STR_SIZE line) as (junk & -> & Hlen); [done|by rewrite Hb|]. cbn [fst].
    change FPX_LOG_TOTAL_STR_SIZE with 1024 in *. unfold n. rewrite read_cut by (done || by rewrite Hlen, Hb).
    fold n.
    destruct (n <? 1024); [|destruct (n =? 1024); [|done]]; rewrite !bind_ok; cbn beta iota;
      unfold put; cbv zeta; match goal with |- context [if ?b then Log _ _ _ else _] => destruct b end;
      cbn [l_file f_fd]; by destruct (fpx_write_fd _ _ _).
  - apply (console_ok w logstr fd err txt Hos Hs).
  - apply (console_ok w logstr fd err txt Hos Hs).
Qed.

Definition long_line : chars := call_line (LogCall 2 0 (replicate 1000 120) (Tm 5 11 2024 12 0 7)).

Lemma line_output_witness :
  length long_line = 1031%nat ∧
  snd <$> fpx_write_to_log [] (Log 2 (File 1 None 0) 0) 2
    (snprintf (replicate 1024 0) FPX_LOG_TOTAL_STR_SIZE long_line).1 1031 = UB ∧
  snd <$> fpx_write_to_log [] (Log 2 (File 1 None 100) 3) 1
    (snprintf (replicate 1024 0) FPX_LOG_TOTAL_STR_SIZE (chars_of "full")).1 4 = Ok [(1, chars_of "full")] ∧
  fpx_log_console (replicate 1000 0) [] 2 (-1) (chars_of "bad") =
    Ok (None, [(2, chars_of "bad (-1: Internal server error)" ++ [10])]).
Proof.
  split; [by vm_compute|]. split; [|split].
  - etransitivity; [apply (line_output [] (Log 2 (File 1 None 0) 0) 2 (replicate 1024 0) long_line (replicate 1000 0)
      2 0 [] demo_text)|by vm_compute]; [reflexivity|reflexivity|cbn [l_level]; lia].
  - etransitivity; [apply (line_output [] (Log 2 (File 1 None 100) 3) 1 (replicate 1024 0) (chars_of "full")
      (replicate 1000 0) 2 0 [] demo_text)|by vm_compute]; [reflexivity|reflexivity|cbn [l_level]; lia].
  - etransitivity; [refine (proj1 (proj2 (proj2 (line_output [] (Log 2 (File 1 None 0) 0) 2 (replicate 1024 0) []
      (replicate 1000 0) 2 (-1) (chars_of "bad") demo_text _ _))) _)|by vm_compute]; [reflexivity|reflexivity|by vm_compute].
Defined.
