(* ===== verification/LogQueue.v ===== *)
(** * The logger as a bounded queue

    What the ring of [src/src/core/log.c] promises to its callers: a queue of at most
    [FPX_MAX_LOG_SLOTS] messages, first in, first out.  [queue_step] is that
    specification; a forward simulation shows that the semaphores, mutexes, indices
    and slots of [Log] implement it, for any number of threads. *)

From S2P Require Import Prelude CInt Errno Str Parse Filesys Strerror Log.
Open Scope Z_scope.

(** ** The specification *)

(** The messages that wait, and those that have been taken out. *)
Record queue := Queue { q_waiting : list log_call; q_taken : list log_call }.
Inductive queue_step : queue → queue → Prop :=
  | enqueue c waiting taken :
      Z.of_nat (length waiting) < FPX_MAX_LOG_SLOTS →
      queue_step (Queue waiting taken) (Queue (waiting ++ [c]) taken)
  | dequeue c waiting taken :
      queue_step (Queue (c :: waiting) taken) (Queue waiting (taken ++ [c])).
(** A step of the ring is a step of the queue, or invisible. *)
Definition queue_step_or_stay (a a' : queue) : Prop := a = a' ∨ queue_step a a'.

Section Refinement.
Context {M : Type} `{Posix M} `{LoggerEnv M} `{OsStrerror}.
Hypothesis os_text : ∀ e, text (strerror e) ∧ Z.of_nat (length (strerror e)) < 2 ^ 63.
Hypothesis ptr_text : text show_ptr.

(** The queue a state of the ring stands for. *)
Definition queue_of (s : shared (M := M)) : queue :=
  Queue (drop (s_fetched s) (s_dep s).*2) (take (s_fetched s) (s_dep s).*2).

Lemma queue_length (s : shared (M := M)) ths : ring_ok s ths →
  Z.of_nat (length (q_waiting (queue_of s))) ≤ FPX_MAX_LOG_SLOTS ∧ (s_fetched s ≤ length (s_dep s))%nat.
Proof using.
  intros Hr. destruct (k_counted _ _ Hr) as [_ _ He Hf Hs Hc _]. unfold deposits in *. cbn [queue_of q_waiting].
  rewrite length_drop, length_fmap. unfold FPX_MAX_LOG_SLOTS. lia.
Qed.

(** What a step does to the calls that have a slot and to the number fetched. *)
Lemma step_queue j (s s' : shared (M := M)) t t' : thread_step j s t = Ok (Some (s', t')) →
  (s_dep s' = s_dep s ∧ s_fetched s' = s_fetched s) ∨
  (∃ c, s_dep s' = s_dep s ++ [(j, c)] ∧ s_fetched s' = s_fetched s) ∨
  (s_dep s' = s_dep s ∧ s_fetched s' = S (s_fetched s)).
Proof using.
  intros Hs. step_cases Hs; cbn; eauto.
Qed.

(** The forward simulation. *)
Lemma ring_simulates j (s s' : shared (M := M)) ths t t' :
  ring_ok s ths → ths !! j = Some t → thread_step j s t = Ok (Some (s', t')) →
  queue_step_or_stay (queue_of s) (queue_of s').
Proof using os_text ptr_text.
  intros Hr Hj Hs. pose proof (ring_step os_text ptr_text j s ths t s' t' Hr Hj Hs) as Hr'.
  destruct (queue_length _ _ Hr) as [Hlen Hle]. destruct (queue_length _ _ Hr') as [Hlen' Hle'].
  unfold queue_of in *. cbn [q_waiting] in *.
  destruct (step_queue _ _ _ _ _ Hs) as [[-> ->]|[(c & Hd & Hf)|[Hd Hf]]]; [by left|right..].
  - rewrite Hd, Hf in *. rewrite fmap_app in *. cbn [fmap list_fmap snd] in *.
    rewrite drop_app_le, take_app_le in * by (rewrite length_fmap; lia).
    constructor. rewrite length_app in Hlen'. cbn in Hlen'. lia.
  - rewrite Hd, Hf in *. destruct (lookup_lt_is_Some_2 (s_dep s).*2 (s_fetched s)) as [c Hc]; [rewrite length_fmap; lia|].
    rewrite (drop_S _ c) by done. rewrite (take_S_r _ _ c) by done. constructor.
Qed.

(** A run of the ring is a run of the queue. *)
Lemma run_simulates s0 ths0 (s : shared (M := M)) ths : initial s0 ths0 → steps (s0, ths0) (s, ths) →
  rtc queue_step (Queue [] []) (queue_of s).
Proof using os_text ptr_text.
  intros Hi Hst. pose proof (initial_ok _ _ Hi) as Hr0.
  assert (queue_of s0 = Queue [] []) as Hq0 by (destruct Hi as (_ & Hd & Hf & _); unfold queue_of; by rewrite Hd, Hf).
  apply (steps_ind (λ x, ring_ok x.1 x.2 ∧ rtc queue_step (Queue [] []) (queue_of x.1)) _ _ Hst).
  { split; [done|]. cbn [fst]. by rewrite Hq0. }
  intros j s1 ths1 t s' t' [Hr Hq] Hj Hs. cbn [fst snd] in *. split; [by eapply (ring_step os_text ptr_text)|].
  destruct (ring_simulates j s1 s' ths1 t t' Hr Hj Hs) as [<-|Hstep]; [done|]. by eapply rtc_r.
Qed.

(** The lines are those of the messages taken out, but for those being formatted. *)
Lemma lines_taken (s : shared (M := M)) ths : ring_ok s ths →
  ∃ rest, call_line <$> q_taken (queue_of s) = s_lines s ++ rest ∧ length rest = tsum formatting ths.
Proof using.
  intros Hr.
  destruct (queue_length _ _ Hr) as [_ Hle]. pose proof (c_lines _ _ (k_counted _ _ Hr)) as Hl.
  pose proof (h_lines _ _ (k_handled _ _ Hr)) as Hlines. cbn [queue_of q_taken].
  exists (call_line <$> drop (length (s_lines s)) (take (s_fetched s) (s_dep s).*2)). split.
  - rewrite Hlines at 1. rewrite <- fmap_app. f_equal.
    rewrite <- (take_drop (length (s_lines s)) (take (s_fetched s) (s_dep s).*2)) at 1.
    rewrite take_take. f_equal. f_equal. lia.
  - rewrite length_fmap, length_drop, length_take, length_fmap. lia.
Qed.

(** C6: The ring implements a queue of at most 32 messages, first in, first out: every
    step of every thread is a step of the queue or invisible to it, so that every run
    of the ring is a run of the queue; and the lines written are those of the messages
    taken out of it, in that order, all of them when no worker is about to format
    one. *)
Theorem logger_refines_queue s0 ths0 (s : shared (M := M)) ths : initial s0 ths0 → steps (s0, ths0) (s, ths) →
  rtc queue_step (Queue [] []) (queue_of s) ∧
  (∀ j t s' t', ths !! j = Some t → thread_step j s t = Ok (Some (s', t')) →
     queue_step_or_stay (queue_of s) (queue_of s')) ∧
  (∃ rest, call_line <$> q_taken (queue_of s) = s_lines s ++ rest ∧ length rest = tsum formatting ths).
Proof using os_text ptr_text.
  intros Hi Hst. pose proof (ring_reachable os_text ptr_text _ _ _ _ Hi Hst) as Hr.
  split; [by eapply run_simulates|]. split; [intros j t s' t' Hj Hs; by eapply ring_simulates|].
  by apply lines_taken.
Qed.
End Refinement.

(** Two calls, of which one has been taken out and formatted. *)
#[local] Existing Instances demo_posix demo_env demo_strerror.
Lemma logger_refines_queue_witness :
  let c := demo_call 2 0 "x" in
  let x0 := (demo_shared 1, [caller [c; c]; worker []]) in
  ∃ s ths, steps x0 (s, ths) ∧ queue_of s = Queue [c] [c] ∧ s_lines s = [call_line c] ∧
    rtc queue_step (Queue [] []) (queue_of s).
Proof.
  intros c x0. destruct (run (replicate 16 0 ++ replicate 4 1)%nat x0) as [[s ths]|] eqn:E.
  2: { exfalso. vm_compute in E. discriminate E. }
  exists s, ths. pose proof (run_steps _ _ _ E) as Hst.
  assert (text show_ptr) as Hptr by (by apply text_all_below; vm_compute).
  pose proof (demo_initial 1 [c; c] [] ltac:(by vm_compute) ltac:(by vm_compute)) as Hi.
  destruct (logger_refines_queue demo_text Hptr _ _ s ths Hi Hst) as (Hq & _ & rest & Hl & Hn).
  assert (queue_of s = Queue [c] [c] ∧ tsum formatting ths = O) as [Hqs Hf].
  { vm_compute in E. injection E as <- <-. split; vm_compute; reflexivity. }
  rewrite Hf in Hn. destruct rest; [|discriminate Hn]. rewrite Hqs, app_nil_r in Hl.
  split; [exact Hst|]. split; [exact Hqs|]. split; [symmetry; exact Hl|exact Hq].
Defined.
