(* ===== verification/Console.v ===== *)
(** * The console and the macros of the log: [include/floppix/core/log.h],
      [fpx_log_console] of [src/src/core/log.c], [fpx_write_fd] of [src/src/system/filesys.c]

    While no logger is global, as during the whole start of the program and for ever
    in a log process, every message goes to the console: [fpx_log_error1] calls
    [fpx_log_console], which writes with [fpx_write_fd], which reports a write that
    fails with [fpx_log_error1].  The three are one recursion, here with fuel; the
    theorem says exactly when it ends. *)

From S2P Require Import Prelude CInt Errno Str Parse Filesys Strerror Log.
Open Scope Z_scope.

Section Console.
Context {M : Type} `{Posix M} `{LoggerEnv M} `{OsStrerror}.
(** What the buffer of [fpx_log_console] contains. *)
Variable logstr : chars.

(** [fpx_write_fd] with the macro [fpx_log_error1] as an argument: the result and the
    call of [fpx_log_error] it leads to where a logger is global.  Level, [errno] and
    text of the report are those of [write_failed]. *)
Definition write_fd (report : M → fpx_err_t → chars → res (option log_call * M)) (w : M) (fd : Z) (buf : chars)
    : res (Z * option log_call * M) :=
  let '(rv, w) := sys_write w fd buf in
  if rv =? -1 then
    let c := write_failed w fd (Z.of_nat (length buf)) in
    '(call, w) ← report w (lc_err c) (lc_text c);
    Ok (-1, call, w)
  else Ok (rv, None, w).

(** [fpx_log_console] while no logger is global. *)
Fixpoint log_console (fuel : nat) (w : M) (fd : Z) (err : fpx_err_t) (text : chars) : res M :=
  match fuel with
  | O => NoFuel
  | S fuel =>
      s ← console_bytes logstr err text;
      '(_, _, w) ← write_fd (λ w err text, w ← log_console fuel w FPX_STDERR err text; Ok (None, w)) w fd s;
      Ok w
  end.

(** The macros.  [global]: whether there is a global logger; the call of
    [fpx_log_error] that is then made on it is the first component. *)
Definition fpx_log_error1 (global : bool) (fuel : nat) (level : Z) (w : M) (err : fpx_err_t) (text : chars)
    : res (option log_call * M) :=
  if global then Ok (Some (LogCall level err text (fpx_localtime w)), w)
  else w ← log_console fuel w FPX_STDERR err text; Ok (None, w).
(** [debug]: FPX_DEBUG, without which nothing is written to the console. *)
Definition fpx_log_debug1 (debug global : bool) (fuel : nat) (w : M) (err : fpx_err_t) (text : chars)
    : res (option log_call * M) :=
  if global then Ok (Some (LogCall FPX_LOG_DEBUG err text (fpx_localtime w)), w)
  else if debug then w ← log_console fuel w FPX_STDOUT err text; Ok (None, w)
  else Ok (None, w).

(** [fpx_write_fd] as it is. *)
Definition fpx_write_fd1 (global : bool) (fuel : nat) : M → Z → chars → res (Z * option log_call * M) :=
  write_fd (fpx_log_error1 global fuel FPX_LOG_ERROR).

(** ** The chain of writes *)

(** What is written about a write of [s] to [fd] that has failed. *)
Definition report_line (w : M) (fd : Z) (s : chars) : chars :=
  let c := write_failed w fd (Z.of_nat (length s)) in lc_text c ++ err_suffix (lc_err c) ++ [10].

(** The state, descriptor and bytes of the [k]-th write, where all before it fail. *)
Fixpoint attempt (k : nat) (w : M) (fd : Z) (s : chars) : M * Z * chars :=
  match k with
  | O => (w, fd, s)
  | S k => let w := (sys_write w fd s).2 in attempt k w FPX_STDERR (report_line w fd s)
  end.
Definition written (x : M * Z * chars) : M := (sys_write x.1.1 x.1.2 x.2).2.
Definition fails (x : M * Z * chars) : bool := (sys_write x.1.1 x.1.2 x.2).1 =? -1.

(** ** Lemmas *)

(** The library's messages are short, [errno] is an [int] and [%p] prints little. *)
Record short_messages : Prop := {
  sm_text : ∀ e, text (strerror e) ∧ Z.of_nat (length (strerror e)) < 256;
  sm_errno : ∀ w : M, - 2 ^ 31 < sys_errno w < 2 ^ 31;
  sm_ptr : (length show_ptr < 64)%nat
}.
Hypothesis Hshort : short_messages.
Lemma os_messages e : text (strerror e) ∧ Z.of_nat (length (strerror e)) < 2 ^ 63.
Proof using Hshort. destruct (sm_text Hshort e). split; [done|lia]. Qed.

Lemma print_int_short v : - 2 ^ 31 < v < 2 ^ 31 → (length (print_int v) ≤ 33)%nat.
Proof using.
  intros Hv. unfold print_int. case_match; cbn [length].
  - pose proof (print_dec_short (- v) ltac:(lia)). lia.
  - pose proof (print_dec_short v ltac:(lia)). lia.
Qed.

Lemma own_message_short e : (length (own_message e) < 100)%nat.
Proof using.
  unfold own_message. destruct (List.find _ error_list) as [x|] eqn:E; [|vm_compute; lia].
  apply List.find_some in E as [Hin _]. revert x Hin.
  assert (Forall (λ x : fpx_err_t * chars, (length x.2 < 100)%nat) error_list) as Hall.
  { unfold error_list. rewrite Forall_fmap. repeat constructor; vm_compute; lia. }
  intros x Hin. rewrite List.Forall_forall in Hall. by apply Hall.
Qed.

Lemma err_suffix_short e : - 2 ^ 31 < e < 2 ^ 31 → (length (err_suffix e) ≤ 300)%nat.
Proof using Hshort.
  intros He. unfold err_suffix. case_match; [cbn; lia|].
  rewrite !length_app, length_take. cbn [length]. pose proof (print_int_short e He).
  assert (length (message_of e) < 256)%nat; [|lia].
  unfold message_of. case_match; [destruct (sm_text Hshort e); lia|]. pose proof (own_message_short e). lia.
Qed.

(** The report of a failed write fits the buffer whole. *)
Lemma failed_short w fd len : - 2 ^ 31 < fd < 2 ^ 31 → 0 ≤ len < 2 ^ 31 →
  let c := write_failed w fd len in
  Z.of_nat (length (lc_text c ++ err_suffix (lc_err c) ++ [10])) < 1000.
Proof using Hshort.
  intros Hfd Hs. unfold write_failed. cbn [lc_text lc_err]. rewrite !length_app.
  pose proof (err_suffix_short _ (sm_errno Hshort w)). pose proof (print_int_short fd Hfd).
  pose proof (print_dec_short len ltac:(lia)). pose proof (sm_ptr Hshort).
  change (length (chars_of "write(")) with 6%nat. change (length (chars_of ") failed")) with 8%nat.
  change (length (chars_of ", ")) with 2%nat. change (length [10]) with 1%nat. lia.
Qed.
Lemma report_short w fd s : - 2 ^ 31 < fd < 2 ^ 31 → Z.of_nat (length s) < 2 ^ 31 →
  Z.of_nat (length (report_line w fd s)) < 1000.
Proof using Hshort. intros Hfd Hs. apply failed_short; [done|lia]. Qed.

Hypothesis Hbuf : length logstr = 1000%nat.

(** One turn of the recursion. *)
Lemma log_console_S fuel w fd err txt :
  Z.of_nat (length (txt ++ err_suffix err ++ [10])) < 1000 →
  let full := txt ++ err_suffix err ++ [10] in
  log_console (S fuel) w fd err txt =
    if fails (w, fd, full) then
      let w := written (w, fd, full) in
      let c := write_failed w fd (Z.of_nat (length full)) in
      log_console fuel w FPX_STDERR (lc_err c) (lc_text c)
    else Ok (written (w, fd, full)).
Proof using Hshort Hbuf.
  intros Hl full. cbn [log_console].
  rewrite (proj1 (console_bytes_ok logstr err txt os_messages Hbuf)) by (rewrite length_app in Hl; lia).
  fold full. rewrite (proj2 (Z.ltb_lt _ _)), bind_ok by done. unfold write_fd, fails, written. cbn [fst snd].
  destruct (sys_write w fd full) as [rv w']. cbn [fst snd]. destruct (rv =? -1); [|by rewrite bind_ok].
  cbv zeta. rewrite !bind_assoc. by destruct (log_console _ _ _ _ _).
Qed.

(** The next message is the report of the write that has failed. *)
Lemma log_console_failed fuel w fd err txt :
  - 2 ^ 31 < fd < 2 ^ 31 → Z.of_nat (length (txt ++ err_suffix err ++ [10])) < 1000 →
  let full := txt ++ err_suffix err ++ [10] in
  fails (w, fd, full) = true →
  let w1 := written (w, fd, full) in
  let c := write_failed w1 fd (Z.of_nat (length full)) in
  log_console (S fuel) w fd err txt = log_console fuel w1 FPX_STDERR (lc_err c) (lc_text c) ∧
  lc_text c ++ err_suffix (lc_err c) ++ [10] = report_line w1 fd full ∧
  Z.of_nat (length (report_line w1 fd full)) < 1000.
Proof using Hshort Hbuf.
  intros Hfd Hl full Hf w1 c. rewrite log_console_S by done. fold full. rewrite Hf.
  split; [done|]. split; [done|]. apply report_short; [done|]. fold full in Hl. lia.
Qed.

Lemma log_console_ends k : ∀ w fd err txt fuel,
  - 2 ^ 31 < fd < 2 ^ 31 → Z.of_nat (length (txt ++ err_suffix err ++ [10])) < 1000 →
  let at_ i := attempt i w fd (txt ++ err_suffix err ++ [10]) in
  (∀ i, (i < k)%nat → fails (at_ i) = true) → fails (at_ k) = false →
  log_console (S (k + fuel)) w fd err txt = Ok (written (at_ k)).
Proof using Hshort Hbuf.
  induction k as [|k IH]; intros w fd err txt fuel Hfd Hl at_ Hk Hok.
  - rewrite log_console_S by done. cbv zeta. unfold at_ in Hok. cbn [attempt] in Hok. by rewrite Hok.
  - pose proof (Hk 0%nat ltac:(lia)) as H0'. unfold at_ in H0'. cbn [attempt] in H0'.
    cbn [Nat.add].
    destruct (log_console_failed (S (k + fuel)) w fd err txt Hfd Hl H0') as (-> & Hr & Hr').
    specialize (IH (written (w, fd, txt ++ err_suffix err ++ [10])) FPX_STDERR _ _ fuel
      ltac:(unfold FPX_STDERR; lia) ltac:(rewrite Hr; exact Hr')). cbv zeta in IH. rewrite Hr in IH.
    apply IH; [|exact Hok]. intros i Hi. apply (Hk (S i)). lia.
Qed.

Lemma log_console_never fuel : ∀ w fd err txt,
  - 2 ^ 31 < fd < 2 ^ 31 → Z.of_nat (length (txt ++ err_suffix err ++ [10])) < 1000 →
  (∀ k, (k < fuel)%nat → fails (attempt k w fd (txt ++ err_suffix err ++ [10])) = true) →
  log_console fuel w fd err txt = NoFuel.
Proof using Hshort Hbuf.
  induction fuel as [|fuel IH]; intros w fd err txt Hfd Hl Hall; [done|].
  destruct (log_console_failed fuel w fd err txt Hfd Hl (Hall 0%nat ltac:(lia))) as (-> & Hr & Hr').
  apply IH; [unfold FPX_STDERR; lia|by rewrite Hr|]. intros k Hk. rewrite Hr. apply (Hall (S k)). lia.
Qed.

(** Where standard error is broken, so is every write after the first. *)
Lemma attempt_broken k : ∀ w fd s,
  (∀ w s, (sys_write w FPX_STDERR s).1 = -1) → fails (w, fd, s) = true → fails (attempt k w fd s) = true.
Proof using.
  induction k as [|k IH]; intros w fd s Hb Hf; [done|]. cbn [attempt]. apply IH; [done|].
  unfold fails. cbn [fst snd]. by rewrite Hb.
Qed.

(** C9: A message to the console ends with the first write that succeeds: each write
    that fails is reported by one to standard error, about the descriptor, the length
    and the error of the one before, and the recursion of [fpx_log_console],
    [fpx_write_fd] and [fpx_log_error1] returns exactly if one of these writes
    succeeds, in the state after it.  If none does it never returns; in particular
    every message is fatal to a process whose descriptor for it and whose standard
    error are both broken. *)
Theorem console_termination w fd err txt :
  - 2 ^ 31 < fd < 2 ^ 31 → Z.of_nat (length (txt ++ err_suffix err ++ [10])) < 1000 →
  let at_ k := attempt k w fd (txt ++ err_suffix err ++ [10]) in
  (∀ k fuel, (∀ i, (i < k)%nat → fails (at_ i) = true) → fails (at_ k) = false → (k < fuel)%nat →
     log_console fuel w fd err txt = Ok (written (at_ k))) ∧
  ((∀ k, fails (at_ k) = true) → ∀ fuel, log_console fuel w fd err txt = NoFuel) ∧
  ((∃ fuel w', log_console fuel w fd err txt = Ok w') ↔ ∃ k, fails (at_ k) = false) ∧
  ((∀ w s, (sys_write w FPX_STDERR s).1 = -1) → fails (at_ 0%nat) = true →
     ∀ fuel, log_console fuel w fd err txt = NoFuel).
Proof using Hshort Hbuf.
  intros Hfd Hl at_.
  assert (∀ k fuel, (∀ i, (i < k)%nat → fails (at_ i) = true) → fails (at_ k) = false → (k < fuel)%nat →
     log_console fuel w fd err txt = Ok (written (at_ k))) as Hends.
  { intros k fuel Hk Hok Hlt. replace fuel with (S (k + (fuel - S k)))%nat by lia. by apply log_console_ends. }
  split; [exact Hends|]. split; [intros Hall fuel; apply log_console_never; [done..|]; intros k _; apply Hall|]. split.
  - split.
    + intros (fuel & w' & E). destruct (first_false (λ k, fails (at_ k)) fuel) as [(k & _ & Hk & _)|Hall]; [by exists k|].
      by rewrite log_console_never in E.
    + intros [k Hk]. destruct (first_false (λ k, fails (at_ k)) (S k)) as [(k' & _ & Hk' & Hb)|Hall].
      * exists (S k'), (written (at_ k')). apply Hends; [done|done|lia].
      * by rewrite Hall in Hk by lia.
  - intros Hb Hf fuel. apply log_console_never; [done..|]. intros k _. by apply attempt_broken.
Qed.

(** One turn of it is [fpx_log_console] of [Log], whose report goes to standard error. *)
Lemma log_console_turn fuel w fd err txt :
  Z.of_nat (length (txt ++ err_suffix err ++ [10])) < 1000 →
  log_console (S fuel) w fd err txt =
    ('(c, w) ← fpx_log_console logstr w fd err txt;
     match c with Some c => log_console fuel w FPX_STDERR (lc_err c) (lc_text c) | None => Ok w end).
Proof using Hshort Hbuf.
  intros Hl. rewrite log_console_S by done. cbv zeta. unfold fpx_log_console.
  rewrite (proj1 (console_bytes_ok logstr err txt os_messages Hbuf)) by (rewrite length_app in Hl; lia).
  rewrite (proj2 (Z.ltb_lt _ _)), !bind_ok by done. unfold fails, written, write_reported, fpx_write_fd. cbn [fst snd].
  destruct (sys_write w fd _) as [rv w']. cbn [fst snd]. by destruct (rv =? -1) eqn:E; rewrite ?E.
Qed.
End Console.

(** With a global logger a failing write becomes the call that the worker of [Log]
    makes. *)
Lemma write_fd_global {M} `{Posix M} `{LoggerEnv M} `{OsStrerror} logstr fuel (w : M) fd buf :
  fpx_write_fd1 logstr true fuel w fd buf =
    let '(rv, w) := fpx_write_fd w fd buf in
    Ok (rv, if rv =? -1 then Some (write_failed w fd (Z.of_nat (length buf))) else None, w).
Proof.
  unfold fpx_write_fd1, write_fd, fpx_write_fd. destruct (sys_write w fd buf) as [rv w'].
  by destruct (rv =? -1) eqn:E; cbn [fpx_log_error1]; rewrite ?bind_ok, ?E.
Qed.

(** A system in which the descriptors in [broken] cannot be written to. *)
Definition broken_posix (broken : list Z) : Posix (list (Z * chars)) := {|
  sys_errno w := 9; sys_open w p m a := (3, w); sys_close w fd := w;
  sys_lseek w fd off wh := (0, w); sys_read w fd n := (0, [], w);
  sys_write w fd s := if bool_decide (fd ∈ broken) then (-1, w) else (Z.of_nat (length s), w ++ [(fd, s)]);
  sys_stat w p := (None, w); sys_fstat w fd := (None, w); sys_opendir w p := (None, w);
  sys_readdir w h := (None, w); sys_closedir w h := w; sys_glob w p := (1, [], w)
|}.
#[local] Existing Instances demo_env demo_strerror.
Lemma broken_short broken : short_messages (H := broken_posix broken).
Proof.
  split; [|done|by vm_compute; lia]. intros e. split; [by apply text_all_below; vm_compute|by vm_compute].
Qed.

(** Standard output is closed: the message is lost, and standard error says so.  With
    both closed the program never gets past its first message. *)
Lemma console_termination_witness :
  log_console (H := broken_posix [1]) (replicate 1000 0) 2 [] 1 0 (chars_of "hello") =
    Ok [(2, chars_of "write(1, 0x7f, 6) failed (9: I/O error)" ++ [10])] ∧
  (∀ fuel, log_console (H := broken_posix [1; 2]) (replicate 1000 0) fuel [] 1 0 (chars_of "hello") = NoFuel).
Proof.
  split.
  - destruct (console_termination (H := broken_posix [1]) (replicate 1000 0) (broken_short [1]) eq_refl [] 1 0 (chars_of "hello")
      ltac:(lia) ltac:(by vm_compute)) as (Hends & _).
    etransitivity; [apply (Hends 1%nat 2%nat)|by vm_compute]; [|by vm_compute|lia].
    intros i Hi. replace i with 0%nat by lia. by vm_compute.
  - destruct (console_termination (H := broken_posix [1; 2]) (replicate 1000 0) (broken_short [1; 2]) eq_refl [] 1 0 (chars_of "hello")
      ltac:(lia) ltac:(by vm_compute)) as (_ & _ & _ & Hnever).
    apply Hnever; [|by vm_compute]. intros w s. by vm_compute.
Defined.
