(* ===== verification/LogProc.v ===== *)
(** * The logger as a process: the variant FPX_LOGGER_IS_PROC of [src/src/core/log.c]

    The slots, the semaphores and the mutexes lie in a mapping that the program and
    its log process share; the rest of [fpx_logger_t] lies in the pool, of which
    [fork] leaves each process a copy.  The program moves [rear] in its copy, the log
    process [front] in its own.  No logger is global in the log process, so that what
    it has to say goes to the console.

    [fpx_logger_destroy] of this variant names a variable that is not declared; it
    does not compile and has no definition here. *)

From S2P Require Import Prelude CInt Errno Str Parse Filesys Strerror Log LogQueue Console.
Open Scope Z_scope.

(** What the variant uses of the system besides.  [lp_fork]: -1, or the number of the
    child. *)
Class LogProcess (M : Type) := {
  lp_mmap : M → Z → option Z * M;
  lp_munmap : M → Z → Z → M;
  lp_fork : M → Z * M
}.

(** ** Data *)

(** The part of the logger that a process has a copy of, and the part in the mapping. *)
Record private := Private {
  pv_logs : list fpx_log_t;
  pv_running : bool;
  pv_front : Z;
  pv_rear : Z
}.
Record mapped := Mapped {
  mp_messages : list fpx_log_message_t;
  mp_sem_empty : Z;
  mp_sem_full : Z;
  mp_deposit : option nat;
  mp_fetch : option nat
}.
Definition private_of (l : fpx_logger_t) : private := Private (lg_logs l) (lg_running l) (lg_front l) (lg_rear l).
Definition mapped_of (l : fpx_logger_t) : mapped :=
  Mapped (lg_messages l) (lg_sem_empty l) (lg_sem_full l) (lg_deposit l) (lg_fetch l).
(** The logger as a process sees it. *)
Definition join (p : private) (m : mapped) : fpx_logger_t :=
  Logger (pv_logs p) (mp_messages m) (pv_running p) (pv_front p) (pv_rear p)
    (mp_sem_empty m) (mp_sem_full m) (mp_deposit m) (mp_fetch m).

Section LogProc.
Context {M : Type} `{PoolAlloc M} `{PoolCleanup M} `{Posix M} `{LoggerEnv M} `{OsStrerror} `{LogProcess M}.

(** ** Creation and start *)

(** [failed:] with the mapping at [mem]: the pool goes first, then the mapping, of which
    the length of the slots is given back. *)
Definition init_failed (err : fpx_err_t) (mem : Z) (pool : M) : fpx_err_t * option fpx_logger_t * M :=
  (err, None, lp_munmap (env_pool_destroy pool) mem (SIZEOF_LOG_MESSAGE * FPX_MAX_LOG_SLOTS)).
Definition init_sync (init : M → fpx_err_t * M) (mem addr fini : Z) (pool : M)
    (next : M → res (fpx_err_t * option fpx_logger_t * M)) : res (fpx_err_t * option fpx_logger_t * M) :=
  let '(err, pool) := init pool in
  if negb (err =? FPX_OK) then Ok (init_failed err mem pool)
  else pool ← pcleanup_add pool addr fini; next pool.

(** [messages] is what the memory of the slots contains.  As in the other variant,
    [failed:] tests an uninitialised pointer when the pool cannot be created. *)
Definition fpx_logger_init (messages : list fpx_log_message_t) (w : M)
    : res (fpx_err_t * option fpx_logger_t * M) :=
  let '(err, pool) := env_pool_create w in
  if negb (err =? FPX_OK) then UB else
  '(new_logger, pool) ← palloc pool 88;
  match new_logger with
  | None => Ok (sys_errno pool, None, env_pool_destroy pool)
  | Some _ =>
      let mem_size := SIZEOF_LOG_MESSAGE * FPX_MAX_LOG_SLOTS + SIZEOF_MUTEX * 2 + SIZEOF_SEMAPHORE * 2 in
      let '(mem, pool) := lp_mmap pool mem_size in
      match mem with
      | None => Ok (sys_errno pool, None, env_pool_destroy pool)
      | Some mem =>
          let mutex_deposit := mem + SIZEOF_LOG_MESSAGE * FPX_MAX_LOG_SLOTS in
          let mutex_fetch := mutex_deposit + SIZEOF_MUTEX in
          let sem_empty := mutex_fetch + SIZEOF_MUTEX in
          let sem_full := sem_empty + SIZEOF_SEMAPHORE in
          init_sync (λ p, env_sem_init p FPX_MAX_LOG_SLOTS) mem sem_empty FPX_SEMAPHORE_FINI pool (λ pool,
          init_sync (λ p, env_sem_init p 0) mem sem_full FPX_SEMAPHORE_FINI pool (λ pool,
          init_sync env_mutex_init mem mutex_deposit FPX_MUTEX_FINI pool (λ pool,
          init_sync env_mutex_init mem mutex_fetch FPX_MUTEX_FINI pool (λ pool,
          Ok (FPX_OK, Some (Logger [] messages false 0 0 FPX_MAX_LOG_SLOTS 0 None None), pool)))))
      end
  end.

(** The error code, the program's logger, [pid], and the logger with which
    [fpx_logger_worker] runs in the child, if there is one. *)
Definition fpx_logger_start (logger : fpx_logger_t) (w : M)
    : fpx_err_t * fpx_logger_t * Z * option fpx_logger_t * M :=
  let logger := set_running logger in
  let '(pid, w) := lp_fork w in
  if pid =? -1 then (sys_errno w, logger, pid, None, w)
  else (FPX_OK, logger, pid, Some logger, w).

(** ** The program and its log process *)

(** The copies, the mapping, and the world and the history of [shared]. *)
Record forked := Forked {
  fk_parent : private;
  fk_child : private;
  fk_map : mapped;
  fk_world : M;
  fk_dep : list (nat * log_call);
  fk_fetched : nat;
  fk_lines : list chars
}.
Definition view (s : forked) (p : private) : shared (M := M) :=
  Shared (join p (fk_map s)) (fk_world s) (fk_dep s) (fk_fetched s) (fk_lines s).

(** The buffer of [fpx_log_console], and fuel for it. *)
Variables (logstr : chars) (fuel : nat).

(** What the log process first says of itself. *)
Definition worker_greeting (debug : bool) (w : M) (pid : Z) : res (option log_call * M) :=
  fpx_log_debug1 logstr debug false fuel w FPX_OK
    (chars_of "The log process has been started with pid " ++ print_int pid).

(** The reports of the log process. *)
Fixpoint report_all (w : M) (calls : list log_call) : res M :=
  match calls with
  | [] => Ok w
  | c :: calls =>
      '(_, w) ← fpx_log_error1 logstr false fuel (lc_level c) w (lc_err c) (lc_text c);
      report_all w calls
  end.

(** A step of the log process, thread 0, in the loop of [fpx_logger_worker]; and of
    thread [j] of the program in [fpx_log_error]. *)
Definition child_step (s : forked) (t : thread) : res (option (forked * thread)) :=
  match t_work t with
  | None => Ok None
  | Some p =>
      r ← worker_step 0 (view s (fk_child s)) t p;
      match r with
      | None => Ok None
      | Some (s', t') =>
          w ← report_all (s_world s') (t_todo t');
          Ok (Some (Forked (fk_parent s) (private_of (s_logger s')) (mapped_of (s_logger s')) w
                      (s_dep s') (s_fetched s') (s_lines s'),
                    Thread [] (t_prod t') (t_work t') (t_buf t')))
      end
  end.
Definition parent_step (j : nat) (s : forked) (t : thread) : res (option (forked * thread)) :=
  match t_todo t with
  | [] => Ok None
  | c :: rest =>
      r ← log_error_step j (view s (fk_parent s)) t c rest;
      match r with
      | None => Ok None
      | Some (s', t') =>
          Ok (Some (Forked (private_of (s_logger s')) (fk_child s) (mapped_of (s_logger s')) (s_world s')
                      (s_dep s') (s_fetched s') (s_lines s'), t'))
      end
  end.
Definition process_step (j : nat) (s : forked) (t : thread) : res (option (forked * thread)) :=
  match j with O => child_step s t | S _ => parent_step j s t end.

Definition processes : Type := forked * list thread.
Inductive pstep : processes → processes → Prop :=
  | pstep_thread j s ths t s' t' :
      ths !! j = Some t → process_step j s t = Ok (Some (s', t')) → pstep (s, ths) (s', <[j := t']> ths).
Definition psteps : processes → processes → Prop := rtc pstep.
End LogProc.
Arguments forked : clear implicits.

(** ** The two processes as threads of one *)

(** The logger that has each index where it is moved. *)
Definition merged {M} (s : forked M) : shared (M := M) :=
  let c := fk_child s in
  Shared (join (Private (pv_logs c) (pv_running c) (pv_front c) (pv_rear (fk_parent s))) (fk_map s))
    (fk_world s) (fk_dep s) (fk_fetched s) (fk_lines s).

(** After [fpx_logger_init], any logs, and [fpx_logger_start]: the log process in front
    of its loop, the threads of the program about to begin their calls. *)
Record started {M} (s : forked M) (ths : list thread) : Prop := {
  sd_copy : fk_child s = fk_parent s;
  sd_logger : join (fk_parent s) (fk_map s) =
    Logger (pv_logs (fk_parent s)) (mp_messages (fk_map s)) true 0 0 FPX_MAX_LOG_SLOTS 0 None None;
  sd_history : fk_dep s = [] ∧ fk_fetched s = O ∧ fk_lines s = [];
  sd_slots : length (mp_messages (fk_map s)) = 32%nat ∧ Forall slot_sized (mp_messages (fk_map s));
  sd_worker : ∃ buf, ths !! 0%nat = Some (Thread [] PIdle (Some WIdle) buf) ∧ length buf = 1024%nat;
  sd_callers : ∀ j t, ths !! S j = Some t → t_prod t = PIdle ∧ t_work t = None ∧ Forall valid_call (t_todo t)
}.

(** A message without calls of its own: what is left of a thread once its reports are
    written to the console. *)
Definition silent (t : thread) : thread := Thread [] (t_prod t) (t_work t) (t_buf t).

#[local] Arguments snprintf : simpl never.
(** Both sides look at the same things in turn. *)
Ltac same_scrutinees :=
  repeat match goal with
  | |- context [?x ≫= _] => destruct x; cbn
  | |- context [if ?b then _ else _] => destruct b; cbn
  | |- context [match ?x with _ => _ end] => destruct x; cbn
  end; try done.

Section Indices.
Context {M : Type} `{Posix M} `{LoggerEnv M} `{OsStrerror}.
Implicit Types (s : shared (M := M)) (t : thread).

(** The worker leaves [rear] alone and does not look at it; [fpx_log_error] does the
    same with the logs and [front]. *)
Definition with_rear (r : Z) s : shared := with_logger s (set_indices (s_logger s) (lg_front (s_logger s)) r).
Definition with_consumer (p : private) s : shared :=
  let l := s_logger s in
  with_logger s (join (Private (pv_logs p) (pv_running p) (pv_front p) (lg_rear l)) (mapped_of l)).

Lemma worker_step_rear r j s t p :
  worker_step j (with_rear r s) t p = option_map (prod_map (with_rear r) id) <$> worker_step j s t p.
Proof.
  destruct s as [[logs ms rn fr rr se sf dep fet] w d f ls]. unfold worker_step, with_rear, with_logger.
  destruct p; cbn; same_scrutinees.
Qed.
Lemma worker_step_keeps j s t p s' t' :
  worker_step j s t p = Ok (Some (s', t')) →
  lg_rear (s_logger s') = lg_rear (s_logger s) ∧ s_dep s' = s_dep s.
Proof.
  destruct s as [[logs ms rn fr rr se sf dep fet] w d f ls]. unfold worker_step.
  destruct p; cbn; same_scrutinees; intros E; try discriminate E; by injection E as <- <-.
Qed.
Lemma log_error_step_consumer p j s t c rest :
  log_error_step j (with_consumer p s) t c rest =
    option_map (prod_map (with_consumer p) id) <$> log_error_step j s t c rest.
Proof.
  destruct s as [[logs ms rn fr rr se sf dep fet] w d f ls]. unfold log_error_step, with_consumer, with_logger.
  destruct (t_prod t); cbn; same_scrutinees.
Qed.
Lemma log_error_step_keeps j s t c rest s' t' :
  log_error_step j s t c rest = Ok (Some (s', t')) →
  lg_logs (s_logger s') = lg_logs (s_logger s) ∧ lg_running (s_logger s') = lg_running (s_logger s) ∧
  lg_front (s_logger s') = lg_front (s_logger s) ∧
  (s_dep s' = s_dep s ∨ s_dep s' = s_dep s ++ [(j, c)]).
Proof.
  destruct s as [[logs ms rn fr rr se sf dep fet] w d f ls]. unfold log_error_step.
  destruct (t_prod t); cbn; same_scrutinees; intros E; try discriminate E; injection E as <- <-; split_and!; auto.
Qed.
End Indices.

(** ** The ring without the calls of a worker *)
Section Drop.
Context {M : Type} `{Posix M} `{LoggerEnv M} `{OsStrerror}.
Implicit Types (s : shared (M := M)) (t : thread).

(** The state in another world. *)
Definition in_world s (w : M) : shared := Shared (s_logger s) w (s_dep s) (s_fetched s) (s_lines s).

Lemma tsum_silent (f : thread → nat) ths j t :
  ths !! j = Some t → f (silent t) = f t → tsum f (<[j := silent t]> ths) = tsum f ths.
Proof. intros Hj Hf. pose proof (tsum_update f ths j t (silent t) Hj). lia. Qed.

Lemma each_silent (P : nat → thread → Prop) ths j t :
  ths !! j = Some t → each P ths → P j (silent t) → each P (<[j := silent t]> ths).
Proof. intros Hj He Hp. apply each_insert; [done|]. intros j' t' _ Hj'. by apply He. Qed.

(** A thread that is not in the middle of a call can drop those it has to make. *)
Lemma ring_silent s ths j t w :
  ring_ok s ths → ths !! j = Some t → t_prod t = PIdle →
  ring_ok (in_world s w) (<[j := silent t]> ths).
Proof.
  intros [[] Ho Hp Hz Hv Hs Hh] Hj Hi. split.
  - split; cbn; rewrite ?(tsum_silent _ _ _ _ Hj) by done; try done.
  - apply each_silent; [done|exact Ho|]. exact (Ho j t Hj).
  - apply each_silent; [done|exact Hp|]. destruct (Hp j t Hj) as (_ & P2 & P3).
    split; [by left|]. split; [|exact P3]. unfold write_slot. cbn. by rewrite Hi.
  - pose proof (z_buf s ths Hz j t Hj) as Hb. destruct Hz. split; try done. by apply each_silent.
  - destruct Hv. split; try done. by apply each_silent.
  - destruct Hs as [S1 S2 S3]. split.
    + intros k jc Hk Hd Hw. apply (S1 k jc Hk Hd). intros Hlast Hwr. apply (Hw Hlast).
      destruct Hwr as (j' & t' & Hj' & Hne). exists j', t'. split; [|done].
      rewrite list_lookup_insert_ne; [done|]. intros <-. rewrite Hj in Hj'. injection Hj' as <-.
      unfold write_slot in Hne. by rewrite Hi in Hne.
    + apply each_silent; [done|exact S2|]. intros c rest i E. discriminate E.
    + apply each_silent; [done|exact S3|]. exact (S3 j t Hj).
  - destruct Hh as [H1' H2']. split; [done|]. apply each_silent; [done|exact H2'|]. exact (H2' j t Hj).
Qed.

Lemma quiet_world s ths w : quiet s ths → quiet (in_world s w) ths.
Proof. intros []. by split. Qed.
End Drop.

(** ** Simulation *)
Section Processes.
Context {M : Type} `{Posix M} `{LoggerEnv M} `{OsStrerror}.
Variables (logstr : chars) (fuel : nat).
Hypothesis os_text : ∀ e, text (strerror e) ∧ Z.of_nat (length (strerror e)) < 2 ^ 63.
Hypothesis ptr_text : text show_ptr.
Implicit Types (s : forked M) (t : thread) (ths : list thread).
Abbreviation process_step := (process_step logstr fuel).
Abbreviation psteps := (psteps logstr fuel).

(** Thread 0 is the worker and has no calls to make; nobody else is one. *)
Record discipline ths : Prop := {
  dc_worker : ∃ t p, ths !! 0%nat = Some t ∧ t_work t = Some p ∧ t_todo t = [] ∧ t_prod t = PIdle;
  dc_callers : ∀ j t, ths !! S j = Some t → t_work t = None
}.

Lemma worker_step_thread j (s s' : shared (M := M)) t p t' :
  worker_step j s t p = Ok (Some (s', t')) → is_Some (t_work t') ∧ t_prod t' = t_prod t.
Proof using.
  unfold worker_step. destruct p; cbn; same_scrutinees; intros E; try discriminate E; injection E as <- <-; by eauto.
Qed.

(** A worker that has nothing to report in front of its step is idle after it only if
    it has nothing to report then. *)
Lemma worker_trim j (s s' : shared (M := M)) t p t' :
  worker_step j s t p = Ok (Some (s', t')) → t_todo t = [] → trim t' = silent t'.
Proof using.
  intros E Htd. destruct t as [td pr wk buf]. cbn in Htd. subst td. revert E.
  unfold worker_step. destruct p; cbn; same_scrutinees; intros E; try discriminate E; by injection E as <- <-.
Qed.

(** A step of one of the processes is a step of the ring they are merged into, after
    which the world may have changed and the worker drops its calls. *)
Lemma pstep_simulates j s ths t s' t' :
  discipline ths → ths !! j = Some t → process_step j s t = Ok (Some (s', t')) →
  ∃ (s1 : shared (M := M)) t1, thread_step j (merged s) t = Ok (Some (s1, t1)) ∧ t' = trim t1 ∧
    merged s' = in_world s1 (fk_world s') ∧
    (j = 0%nat → t_prod t1 = PIdle ∧ t' = silent t1) ∧ (j ≠ 0%nat → t' = t1 ∧ fk_world s' = s_world s1).
Proof using.
  intros [(t0 & p0 & Ht0 & Hw0 & Htd & Hid) Hc] Hj Hs. destruct j as [|j]; simpl in Hs.
  - rewrite Ht0 in Hj. injection Hj as ->. unfold child_step in Hs. rewrite Hw0 in Hs.
    apply bind_inv in Hs as ([[s1 t1]|] & Hws & Hs); [|discriminate Hs].
    apply bind_inv in Hs as (w & _ & Hs). injection Hs as <- <-.
    destruct (worker_step_thread _ _ _ _ _ _ Hws) as [[p1 Hp1] Hpr].
    exists (with_rear (pv_rear (fk_parent s)) s1), t1. split.
    { unfold thread_step. rewrite Htd, Hw0. change (merged s) with (with_rear (pv_rear (fk_parent s)) (view s (fk_child s))).
      by rewrite worker_step_rear, Hws. }
    split; [by rewrite (worker_trim _ _ _ _ _ _ Hws Htd)|]. split; [done|]. split; [intros _; split; [congruence|done]|done].
  - unfold parent_step in Hs. destruct (t_todo t) as [|c rest] eqn:Et; [discriminate Hs|].
    apply bind_inv in Hs as ([[s1 t1]|] & Hls & Hs); [|discriminate Hs]. injection Hs as <- <-.
    pose proof (log_error_silent _ _ _ _ _ _ _ Hls) as [_ Hw]. rewrite (Hc j t Hj) in Hw.
    exists (with_consumer (fk_child s) s1), t1. split.
    { unfold thread_step. rewrite Et. change (merged s) with (with_consumer (fk_child s) (view s (fk_parent s))).
      by rewrite log_error_step_consumer, Hls. }
    split; [unfold trim; by rewrite Hw|]. by split_and!.
Qed.

(** What holds of every state: the ring is sound, the threads keep to their parts, the
    calls of each thread of the program are in order, and no process has touched the
    index of the other. *)
Record process_ok (ths0 : list thread) s ths : Prop := {
  po_ring : ring_ok (merged s) ths;
  po_threads : discipline ths;
  po_order : in_order ths0 (merged s) ths;
  po_front : pv_front (fk_parent s) = 0;
  po_rear : pv_rear (fk_child s) = 0;
  po_own : calls_of 0 (fk_dep s) = [];
  po_queue : rtc queue_step (Queue [] []) (queue_of (merged s))
}.

(** No step moves the index of the other process in the own copy, and the log process
    takes no slot. *)
Lemma pstep_indices j s t s' t' : process_step j s t = Ok (Some (s', t')) →
  pv_front (fk_parent s') = pv_front (fk_parent s) ∧ pv_rear (fk_child s') = pv_rear (fk_child s) ∧
  calls_of 0 (fk_dep s') = calls_of 0 (fk_dep s).
Proof using.
  destruct j as [|j]; simpl.
  - unfold child_step. destruct (t_work t) as [p|]; [|done]. intros E.
    apply bind_inv in E as ([[s1 t1]|] & Hws & E); [|discriminate E].
    apply bind_inv in E as (w & _ & E). injection E as <- <-. split; [done|].
    destruct (worker_step_keeps _ _ _ _ _ _ Hws) as [Hrear Hdep]. split; [exact Hrear|]. cbn. by rewrite Hdep.
  - unfold parent_step. destruct (t_todo t) as [|c rest]; [done|]. intros E.
    apply bind_inv in E as ([[s1 t1]|] & Hls & E); [|discriminate E]. injection E as <- <-.
    destruct (log_error_step_keeps _ _ _ _ _ _ _ Hls) as (_ & _ & Hfront & Hdep). split; [exact Hfront|]. split; [done|].
    cbn. destruct Hdep as [->| ->]; [done|]. unfold calls_of. cbn.
    by rewrite filter_app, (filter_cons_False _ _ []), app_nil_r by done.
Qed.

Lemma thread_step_work j (s s1 : shared (M := M)) t t1 :
  thread_step j s t = Ok (Some (s1, t1)) → t_work t1 = None ↔ t_work t = None.
Proof using.
  unfold thread_step. destruct (t_todo t) as [|c rest] eqn:Et.
  - destruct (t_work t) as [p|] eqn:Ew; [|done]. intros Hs.
    destruct (worker_step_thread _ _ _ _ _ _ Hs) as [[p1 ->] _]. done.
  - intros Hs. by destruct (log_error_silent _ _ _ _ _ _ _ Hs) as [_ ->].
Qed.

Lemma process_ok_step ths0 j s ths t s' t' :
  discipline ths0 → process_ok ths0 s ths → ths !! j = Some t → process_step j s t = Ok (Some (s', t')) →
  process_ok ths0 s' (<[j := t']> ths).
Proof using os_text ptr_text.
  intros Hd0 [Hr Hd Ho Hf Hre Hown Hq] Hj Hs.
  destruct (pstep_simulates j s ths t s' t' Hd Hj Hs) as (s1 & t1 & Hst & _ & Hm & H0j & HSj).
  pose proof (ring_step os_text ptr_text j (merged s) ths t s1 t1 Hr Hj Hst) as Hr1.
  pose proof (in_order_step ths0 j _ ths t s1 t1 (k_placed _ _ Hr) Ho Hj Hst) as Ho1.
  pose proof (lookup_lt_Some _ _ _ Hj) as Hlt.
  destruct (pstep_indices j s t s' t' Hs) as (Hf' & Hre' & Hown').
  assert (rtc queue_step (Queue [] []) (queue_of (merged s'))) as Hq'.
  { rewrite Hm. change (queue_of (in_world s1 _)) with (queue_of s1).
    destruct (ring_simulates os_text ptr_text j (merged s) s1 ths t t1 Hr Hj Hst) as [<-|Hqs]; [done|by eapply rtc_r]. }
  destruct (dc_worker ths Hd) as (t0 & p0 & Ht0 & Hw0 & Htd & Hid).
  destruct j as [|j].
  - destruct (H0j eq_refl) as [Hid1 ->]. rewrite Ht0 in Hj. injection Hj as <-. split; [| | |congruence..|done].
    + rewrite Hm, <- (list_insert_insert_eq ths 0 (silent t1) t1). apply ring_silent; [done|by apply list_lookup_insert_eq|done].
    + split; [|intros j t Hj'; rewrite list_lookup_insert_ne in Hj' by done; by apply (dc_callers ths Hd j)].
      pose proof (thread_step_work _ _ _ _ _ Hst) as Hwork. destruct (t_work t1) as [p1|] eqn:Ew1.
      * exists (silent t1), p1. rewrite list_lookup_insert_eq by done. by split_and!.
      * rewrite (proj1 Hwork eq_refl) in Hw0. done.
    + rewrite Hm. destruct (dc_worker ths0 Hd0) as (t00 & p00 & Ht00 & Hw00 & _). apply each_insert.
      * intros t2 Ht2 Hw2. congruence.
      * intros j' t2 Hne Hj' t3 Ht3 Hw3. apply (Ho1 j' t2); [by rewrite list_lookup_insert_ne|done..].
  - destruct (HSj ltac:(done)) as [-> Hw]. rewrite Hw in Hm.
    assert (merged s' = s1) as Hms by (rewrite Hm; by destruct s1). split; rewrite ?Hms; [done| |done|congruence..|by rewrite <- Hms].
    pose proof (dc_callers ths Hd j t Hj) as Hcw. split.
    + exists t0, p0. by rewrite list_lookup_insert_ne.
    + intros j' t2 Hj'. destruct (decide (j' = j)) as [->|Hne].
      * rewrite list_lookup_insert_eq in Hj' by done. injection Hj' as <-.
        by apply (thread_step_work _ _ _ _ _ Hst).
      * rewrite list_lookup_insert_ne in Hj' by congruence. by apply (dc_callers ths Hd j').
Qed.

Lemma started_ok s ths : started s ths → process_ok ths s ths.
Proof using.
  intros [Hcopy Hl (Hd & Hf & Hls) [Hn Hsl] (buf & Hw & Hb) Hc]. unfold join in Hl. injection Hl as Hrn Hfr Hrr Hse Hsf Hdp Hft.
  split.
  - apply initial_ok. unfold initial, merged. cbn. rewrite Hcopy. unfold join. cbn.
    rewrite Hfr, Hrr, Hse, Hsf, Hdp, Hft. split_and!; try done.
    intros [|j] t Hj.
    + rewrite Hw in Hj. injection Hj as <-. split; [done|]. split; [by right|]. by constructor.
    + destruct (Hc j t Hj) as (? & ? & ?). split; [done|]. split; [by left|done].
  - split; [by eexists _, _|]. intros j t Hj. by apply (Hc j t Hj).
  - intros j t Hj t0 Ht0 Hw0. rewrite Ht0 in Hj. injection Hj as ->. split; [done|]. unfold merged. cbn.
    rewrite Hd. unfold pending, depositing. cbn. destruct j as [|j]; [by rewrite Hw in Ht0; injection Ht0 as <-|].
    by destruct (Hc j t Ht0) as (-> & _).
  - done.
  - by rewrite Hcopy.
  - by rewrite Hd.
  - unfold queue_of, merged. cbn. rewrite Hd, Hf. apply rtc_refl.
Qed.

Lemma process_reachable s0 ths0 s ths :
  started s0 ths0 → psteps (s0, ths0) (s, ths) → process_ok ths0 s ths.
Proof using os_text ptr_text.
  intros Hst Hr. pose proof (started_ok _ _ Hst) as H0k. pose proof (po_threads _ _ _ H0k) as Hd.
  change (process_ok ths0 (s, ths).1 (s, ths).2). change (process_ok ths0 (s0, ths0).1 (s0, ths0).2) in H0k.
  induction Hr as [x|x y z Hs _ IH]; [done|]. apply IH. destruct Hs as [j s1 ths1 t s' t' Hj Hs].
  by eapply process_ok_step.
Qed.

(** C7: The log process.  The program and its log process, each with its own copy of
    the two indices, together implement one queue of at most 32 messages, first in,
    first out, in every interleaving of any number of threads of the program with the
    log process, and whether or not its writes succeed: every run is a run of the
    queue, the lines are those of the messages taken out of it, in that order, and the
    calls of every thread are in the order it makes them.  The log process puts
    nothing into the queue, and neither process moves the other's index. *)
Theorem process_refines_queue s0 ths0 s ths :
  started s0 ths0 → psteps (s0, ths0) (s, ths) →
  rtc queue_step (Queue [] []) (queue_of (merged s)) ∧
  (∃ rest, call_line <$> q_taken (queue_of (merged s)) = fk_lines s ++ rest ∧ length rest = tsum formatting ths) ∧
  each (λ j t, ∀ t0, j ≠ 0%nat → ths0 !! j = Some t0 → t_todo t0 = calls_of j (fk_dep s) ++ pending t) ths ∧
  calls_of 0 (fk_dep s) = [] ∧
  pv_front (fk_parent s) = 0 ∧ pv_rear (fk_child s) = 0.
Proof using os_text ptr_text.
  intros Hst Hr. destruct (process_reachable _ _ _ _ Hst Hr) as [Hok _ Ho Hf Hre Hown Hq].
  split; [done|]. split; [exact (lines_taken _ _ Hok)|]. split; [|done].
  intros j t Hj t0 Hne Ht0. apply (Ho j t Hj t0 Ht0). destruct j as [|j]; [done|]. by apply (sd_callers _ _ Hst j t0).
Qed.

(** *** Progress *)
Hypothesis Hshort : short_messages.
Hypothesis Hbuf : length logstr = 1000%nat.
Hypothesis Hfuel : (0 < fuel)%nat.
Hypothesis Hstderr : ∀ (w : M) bytes, (sys_write w FPX_STDERR bytes).1 ≠ -1.

(** The descriptors of the logs are [int]s. *)
Definition int_fds s : Prop :=
  Forall (λ log, - 2 ^ 31 < f_fd (l_file log) < 2 ^ 31) (pv_logs (fk_child s)).

Lemma write_line_fd (w : M) log level buf len log' r :
  write_line w log level buf len = Ok (log', r) →
  f_fd (l_file log') = f_fd (l_file log) ∧ (r ≠ None → len ≤ Z.of_nat (length buf)).
Proof using.
  unfold write_line. case_match; [by intros [= <- <-]|]. unfold read_bytes.
  destruct (Z.ltb_spec (Z.of_nat (length buf)) len); [done|]. rewrite bind_ok. intros [= <- <-]. by case_match.
Qed.

(** A step of the worker hands a line to one log, or leaves them alone; it has at most
    one report to make, about that log. *)
Lemma worker_step_logs j (s1 s2 : shared (M := M)) t p t2 :
  worker_step j s1 t p = Ok (Some (s2, t2)) → t_todo t = [] →
  lg_logs (s_logger s2) = lg_logs (s_logger s1) ∧ t_todo t2 = [] ∨
  ∃ i len k log log' (r : option (Z * M)), p = WHandle i len k ∧ lg_logs (s_logger s1) !! k = Some log ∧
    f_fd (l_file log') = f_fd (l_file log) ∧ lg_logs (s_logger s2) = <[k := log']> (lg_logs (s_logger s1)) ∧
    (r ≠ None → len ≤ Z.of_nat (length (t_buf t))) ∧
    (t_todo t2 = [] ∨ r ≠ None ∧ t_todo t2 = [write_failed (s_world s2) (f_fd (l_file log')) len]).
Proof using.
  intros Hs Ht. destruct p; unfold worker_step in Hs; cbv zeta in Hs.
  1: destruct (_ <=? 0); [done|]. 2: destruct (lg_fetch _); [done|].
  5: destruct (lg_logs (s_logger s1) !! k) as [log|] eqn:Hk.
  5: apply bind_inv in Hs as (m & _ & Hs); apply bind_inv in Hs as ([log' r] & Hw & Hs).
  5: { destruct (write_line_fd _ _ _ _ _ _ _ Hw) as [Hfd Hlen]. right. exists i, len, k, log, log', r.
       destruct r as [[rv w]|]; injection Hs as <- <-; split_and!; try done; [|by left].
       cbn. destruct (rv =? -1); [by right|by left]. }
  all: left; res_inv; try (injection Hs as <- <-); by split.
Qed.

(** The console takes every report. *)
Lemma report_returns (w : M) calls :
  (calls = [] ∨ ∃ (w0 : M) fd len, calls = [write_failed w0 fd len] ∧ - 2 ^ 31 < fd < 2 ^ 31 ∧ 0 ≤ len < 2 ^ 31) →
  ∃ w', report_all logstr fuel w calls = Ok w'.
Proof using Hshort Hbuf Hfuel Hstderr.
  intros [->|(w0 & fd & len & -> & Hfd & Hlen)]; [by exists w|]. cbn [report_all]. unfold fpx_log_error1.
  destruct fuel as [|n]; [lia|]. rewrite (log_console_S logstr Hshort Hbuf) by by apply (failed_short Hshort).
  unfold fails. cbn [fst snd]. rewrite (proj2 (Z.eqb_neq _ _) (Hstderr _ _)), !bind_ok. by eexists.
Qed.

(** What the merged ring can do, the processes can. *)
Lemma processes_can j s ths t (x : shared (M := M) * thread) :
  ring_ok (merged s) ths → discipline ths → int_fds s → ths !! j = Some t →
  thread_step j (merged s) t = Ok (Some x) → ∃ y, process_step j s t = Ok (Some y).
Proof using Hshort Hbuf Hfuel Hstderr.
  intros Hr [(t0 & p0 & Ht0 & Hw0 & Htd & Hid) Hc] Hfds Hj Hs. unfold thread_step in Hs. destruct j as [|j]; simpl.
  - rewrite Ht0 in Hj. injection Hj as <-. rewrite Htd, Hw0 in Hs.
    change (merged s) with (with_rear (pv_rear (fk_parent s)) (view s (fk_child s))) in Hs.
    rewrite worker_step_rear in Hs. unfold child_step. rewrite Hw0.
    destruct (worker_step 0 (view s (fk_child s)) t0 p0) as [[[s1 t1]|]| | |] eqn:Hws; try discriminate Hs.
    rewrite bind_ok. destruct (report_returns (s_world s1) (t_todo t1)) as [w ->]; [|rewrite bind_ok; by eexists].
    destruct (worker_step_logs _ _ _ _ _ _ Hws Htd) as [[_ ?]|(i & len & k & log & log' & r & -> & Hk & Hfd & _ & Hlen & Htodo)];
      [by left|]. destruct Htodo as [?|[Hne Hcall]]; [by left|]. right. eexists _, _, _. split; [exact Hcall|].
    destruct (h_thread _ _ (k_handled _ _ Hr) 0%nat t0 Ht0 i len k) as (line & _ & _ & -> & _); [by left|].
    pose proof (z_buf _ _ (k_sized _ _ Hr) 0%nat t0 Ht0 ltac:(congruence)) as Hb. specialize (Hlen Hne).
    split; [|lia]. rewrite Hfd. exact (Forall_lookup_1 _ _ _ _ Hfds Hk).
  - destruct (t_todo t) as [|c rest] eqn:Et; [rewrite (Hc j t Hj) in Hs; discriminate Hs|].
    change (merged s) with (with_consumer (fk_child s) (view s (fk_parent s))) in Hs.
    rewrite log_error_step_consumer in Hs. unfold parent_step. rewrite Et.
    destruct (log_error_step (S j) (view s (fk_parent s)) t c rest) as [[[s1 t1]|]| | |]; try discriminate Hs.
    rewrite bind_ok. by eexists.
Qed.

(** The state of a run that makes progress. *)
Definition going (ths0 : list thread) s ths : Prop :=
  process_ok ths0 s ths ∧ quiet (merged s) ths ∧ int_fds s.

Lemma int_fds_step j s t s' t' :
  (j = 0%nat → t_todo t = []) → int_fds s → process_step j s t = Ok (Some (s', t')) → int_fds s'.
Proof using.
  unfold int_fds. destruct j as [|j]; simpl; intros Htd Hf E.
  - unfold child_step in E. destruct (t_work t) as [p|]; [|done].
    apply bind_inv in E as ([[s1 t1]|] & Hws & E); [|discriminate E].
    apply bind_inv in E as (w & _ & E). injection E as <- <-. cbn.
    destruct (worker_step_logs _ _ _ _ _ _ Hws (Htd eq_refl)) as [[-> _]|(i & len & k & log & log' & r & _ & Hk & Hfd & -> & _)];
      [exact Hf|]. apply Forall_insert; [exact Hf|]. rewrite Hfd. exact (Forall_lookup_1 _ _ _ _ Hf Hk).
  - unfold parent_step in E. destruct (t_todo t) as [|c rest]; [done|].
    apply bind_inv in E as ([[s1 t1]|] & Hls & E); [|discriminate E]. by injection E as <- <-.
Qed.

Lemma going_step ths0 j s ths t s' t' :
  discipline ths0 → going ths0 s ths → ths !! j = Some t → process_step j s t = Ok (Some (s', t')) →
  going ths0 s' (<[j := t']> ths) ∧ (work_left (merged s') (<[j := t']> ths) < work_left (merged s) ths)%nat.
Proof using os_text ptr_text.
  intros Hd0 (Hok & Hq & Hf) Hj Hs. pose proof (po_threads _ _ _ Hok) as Hd. pose proof (po_ring _ _ _ Hok) as Hr.
  destruct (pstep_simulates j s ths t s' t' Hd Hj Hs) as (s1 & t1 & Hst & -> & Hm & _ & _).
  split; [split; [by eapply process_ok_step|split]|].
  - rewrite Hm. apply quiet_world. by apply (quiet_trim_step j (merged s) ths t).
  - apply (int_fds_step j s t s' (trim t1)); [|done|done]. intros ->.
    destruct (dc_worker _ Hd) as (t0 & p0 & Ht0 & _ & Htd & _). congruence.
  - rewrite Hm. change (work_left (in_world s1 _)) with (work_left s1).
    by apply (work_trim_step j (merged s) ths t s1 t1).
Qed.

(** C8: The log process makes progress whatever becomes of its writes: with a standard
    error that takes its reports, a run has at most as many steps as the work that was
    to be done, and ends only when every call of the program has been made and every
    line has been formatted.  Unlike the thread it does not wait for itself. *)
Theorem process_progress s0 ths0 :
  started s0 ths0 → int_fds s0 → each (λ _ t, Forall fits (t_todo t)) ths0 →
  (∀ n s ths, nsteps (pstep logstr fuel) n (s0, ths0) (s, ths) → (n ≤ work_left (merged s0) ths0)%nat) ∧
  (∀ s ths, psteps (s0, ths0) (s, ths) → (∀ y, ¬ pstep logstr fuel (s, ths) y) →
     each (λ _ t, t_todo t = []) ths ∧ fk_lines s = call_line <$> (fk_dep s).*2).
Proof using os_text ptr_text Hshort Hbuf Hfuel Hstderr.
  intros Hst Hfd Hfit. pose proof (started_ok _ _ Hst) as Hok. pose proof (po_threads _ _ _ Hok) as Hd.
  assert (going ths0 s0 ths0) as Hg.
  { split; [done|]. split; [|done]. destruct (started_ok _ _ Hst) as [Hr _ _ _ _ _ _].
    destruct Hst as [Hcopy Hl (Hdep & _) _ (buf & Hw & _) Hc]. unfold join in Hl. injection Hl as _ _ _ _ _ Hdp Hft.
    split; cbn; [by rewrite Hdp|by rewrite Hft|by rewrite Hdep|]. intros j t Hj. split; [by apply (Hfit j t)|].
    destruct j as [|j]; [rewrite Hw in Hj; injection Hj as <-; split; [by left|done]|]. destruct (Hc j t Hj) as (_ & E & _). by rewrite E. }
  clear Hok. split.
  - intros n. assert (∀ x y, nsteps (pstep logstr fuel) n x y → going ths0 x.1 x.2 →
      (n ≤ work_left (merged x.1) x.2)%nat) as Hn; [|intros s ths Hns; exact (Hn _ _ Hns Hg)].
    induction n as [|n IH]; intros x y Hns Hx; [lia|]. inversion Hns as [|? ? z ? Hs Hrest]; subst.
    destruct Hs as [j s1 ths1 t s' t' Hj Hs]. destruct (going_step ths0 j s1 ths1 t s' t' Hd Hx Hj Hs) as [Hg' Hlt].
    specialize (IH _ _ Hrest Hg'). cbn [fst snd] in *. lia.
  - intros s ths Hr Hstuck.
    assert (going ths0 s ths) as (Hok & Hq & Hf).
    { change (going ths0 (s, ths).1 (s, ths).2). clear Hstuck. change (going ths0 (s0, ths0).1 (s0, ths0).2) in Hg.
      induction Hr as [x|x y z Hs _ IH]; [done|]. apply IH. destruct Hs as [j s1 ths1 t s' t' Hj Hs].
      by apply (going_step ths0 j s1 ths1 t s' t' Hd Hg Hj Hs). }
    destruct (po_threads _ _ _ Hok) as [(tw & pw & Htw & Hpw & Htd & _) Hc].
    apply (stuck_done os_text (merged s) ths (po_ring _ _ _ Hok) Hq); [left|by exists 0%nat, tw, pw|].
    { intros [|j] t Hj p Hp; [congruence|]. by rewrite (Hc j t Hj) in Hp. }
    intros y Hy. remember (merged s, ths) as z eqn:Ez. destruct Hy as [j s1 ths1 t s2 t2 Hj Hs]. injection Ez as -> ->.
    destruct (processes_can j s ths t _ (po_ring _ _ _ Hok) (po_threads _ _ _ Hok) Hf Hj Hs) as [[s' t'] Hp].
    by eapply Hstuck, pstep_thread.
Qed.
End Processes.

(** ** The start leads to such a state *)
Section Start.
Context {M : Type} `{PoolAlloc M} `{PoolCleanup M} `{Posix M} `{LoggerEnv M} `{OsStrerror} `{LogProcess M}.

Lemma sync_added init mem addr fini (pool : M) next l w :
  init_sync init mem addr fini pool next = Ok (FPX_OK, Some l, w) → ∃ pool', next pool' = Ok (FPX_OK, Some l, w).
Proof.
  unfold init_sync, init_failed. destruct (init pool) as [err p]. destruct (negb _); [by intros [= _]|].
  intros E. apply bind_inv in E as (p' & _ & E). by exists p'.
Qed.
Lemma mapped_logger_init messages (w w' : M) l :
  fpx_logger_init messages w = Ok (FPX_OK, Some l, w') → l = Logger [] messages false 0 0 FPX_MAX_LOG_SLOTS 0 None None.
Proof.
  unfold fpx_logger_init. destruct (env_pool_create w) as [err p]. destruct (negb _); [done|]. intros E.
  apply bind_inv in E as ([[a|] p1] & _ & E); [|discriminate E].
  destruct (lp_mmap _ _) as [[mem|] p2]; [|discriminate E].
  do 4 apply sync_added in E as [? E]. by injection E as <- _.
Qed.

(** A logger that has been initialised and has been given its logs, started: where
    [fork] succeeds, the program and the log process are in a state the theorems
    speak of. *)
Lemma logger_start_started messages logs buf callers (w w' : M) parent pid child :
  let l := set_logs (Logger [] messages false 0 0 FPX_MAX_LOG_SLOTS 0 None None) logs in
  fpx_logger_start l w = (FPX_OK, parent, pid, Some child, w') →
  length messages = 32%nat → Forall slot_sized messages → length buf = 1024%nat →
  Forall (λ t, t_prod t = PIdle ∧ t_work t = None ∧ Forall valid_call (t_todo t)) callers →
  started (Forked (private_of parent) (private_of child) (mapped_of parent) w' [] 0 [])
    (Thread [] PIdle (Some WIdle) buf :: callers).
Proof.
  intros l Hs Hn Hsl Hb Hc. unfold fpx_logger_start in Hs. destruct (lp_fork w) as [p w1].
  destruct (p =? -1); [discriminate Hs|]. injection Hs as <- _ <- <-. split; try done.
  - by eexists.
  - intros j t Hj. by apply (Forall_lookup_1 _ _ _ _ Hc Hj).
Qed.

(** The log process never announces itself in a log: without FPX_DEBUG it says nothing
    at all. *)
Lemma greeting_silent logstr fuel (w : M) pid : worker_greeting logstr fuel false w pid = Ok (None, w).
Proof. done. Qed.
End Start.

(** ** Schedules *)
Section Schedules.
Context {M : Type} `{Posix M} `{LoggerEnv M} `{OsStrerror}.
Variables (logstr : chars) (fuel : nat).

(** The threads that make the steps, in order; and whether no thread can make one. *)
Fixpoint prun (sched : list nat) (x : processes (M := M)) : option processes :=
  match sched with
  | [] => Some x
  | j :: sched =>
      match x.2 !! j with
      | None => None
      | Some t =>
          match process_step logstr fuel j x.1 t with
          | Ok (Some (s, t)) => prun sched (s, <[j := t]> x.2)
          | _ => None
          end
      end
  end.
Definition pblocked (x : processes (M := M)) : bool :=
  forallb (λ jt, match process_step logstr fuel jt.1 x.1 jt.2 with Ok None => true | _ => false end)
    (zip (seq 0 (length x.2)) x.2).

Lemma prun_steps sched : ∀ x y, prun sched x = Some y → psteps logstr fuel x y.
Proof.
  induction sched as [|j sched IH]; intros [s ths] y; simpl; [intros [= <-]; apply rtc_refl|].
  intros E. destruct (ths !! j) as [t|] eqn:Hj; [|done].
  destruct (process_step logstr fuel j s t) as [[[s' t']|]| | |] eqn:Hs; try done.
  eapply rtc_l; [by eapply pstep_thread|]. by apply IH.
Qed.

Lemma pblocked_ok x : pblocked x = true → ∀ y, ¬ pstep logstr fuel x y.
Proof.
  intros Hb y Hst. destruct Hst as [j s ths t s' t' Hj Hs]. unfold pblocked in Hb. cbn [fst snd] in Hb.
  rewrite List.forallb_forall in Hb. specialize (Hb (j, t)). cbn [fst snd] in Hb. rewrite Hs in Hb.
  assert (In (j, t) (zip (seq 0 (length ths)) ths)); [|by specialize (Hb ltac:(done))].
  apply list_elem_of_In, list_elem_of_lookup. exists j. apply lookup_zip_with_Some. exists j, t.
  split; [done|]. split; [|done]. apply lookup_seq. split; [done|]. by eapply lookup_lt_Some.
Qed.
End Schedules.

(** A program whose only log is descriptor [fd], of which 9 cannot be written to. *)
#[local] Existing Instances demo_posix demo_env demo_strerror.
Definition demo_forked (fd : Z) : forked (list (Z * chars)) :=
  let p := Private [Log 2 (File fd None 0) 0] true 0 0 in
  Forked p p (Mapped (replicate 32 (Message 0 (replicate 24 0) (replicate 1000 0))) 32 0 None None) [] [] 0 [].

Lemma demo_started fd calls : forallb valid_callb calls = true → started (demo_forked fd) [worker []; caller calls].
Proof.
  intros Hv. split; try done.
  - split; [done|]. apply Forall_replicate. by split.
  - by eexists.
  - intros [|j] t Hj; [|done]. injection Hj as <-. split; [done|]. split; [done|]. by apply valid_callb_ok.
Qed.

Lemma demo_short : short_messages (M := list (Z * chars)).
Proof.
  split; [|done|by vm_compute; lia]. intros e. split; [by apply text_all_below; vm_compute|by vm_compute].
Qed.

(** Two calls, of which one has been taken out and written. *)
Lemma process_refines_queue_witness :
  let c := demo_call 2 0 "x" in
  ∃ s ths, psteps (replicate 1000 0) 1 (demo_forked 1, [worker []; caller [c; c]]) (s, ths) ∧
    queue_of (merged s) = Queue [c] [c] ∧ fk_lines s = [call_line c] ∧
    rtc queue_step (Queue [] []) (queue_of (merged s)) ∧ (pv_front (fk_parent s), pv_rear (fk_child s)) = (0, 0).
Proof.
  intros c. destruct (prun (replicate 1000 0) 1 (replicate 16 1 ++ replicate 4 0)%nat
    (demo_forked 1, [worker []; caller [c; c]])) as [[s ths]|] eqn:E.
  2: { exfalso. vm_compute in E. discriminate E. }
  exists s, ths. pose proof (prun_steps _ _ _ _ _ E) as Hr.
  assert (text show_ptr) as Hptr by (by apply text_all_below; vm_compute).
  pose proof (demo_started 1 [c; c] ltac:(by vm_compute)) as Hst.
  destruct (process_refines_queue (replicate 1000 0) 1 demo_text Hptr _ _ s ths Hst Hr) as (Hq & (rest & Hl & Hn) & _ & _ & Hf & Hre).
  assert (queue_of (merged s) = Queue [c] [c] ∧ tsum formatting ths = O) as [Hqs Htf].
  { vm_compute in E. injection E as <- <-. split; vm_compute; reflexivity. }
  rewrite Htf in Hn. destruct rest; [|discriminate Hn]. rewrite Hqs, app_nil_r in Hl.
  split; [exact Hr|]. split; [exact Hqs|]. split; [symmetry; exact Hl|]. split; [exact Hq|]. by rewrite Hf, Hre.
Defined.

(** A log that cannot be written to: both lines are formatted, and standard error says
    why they got nowhere. *)
Lemma process_progress_witness :
  let c := demo_call 2 0 "x" in
  ∃ s ths, psteps (replicate 1000 0) 1 (demo_forked 9, [worker []; caller [c; c]]) (s, ths) ∧
    (∀ y, ¬ pstep (replicate 1000 0) 1 (s, ths) y) ∧ fk_lines s = [call_line c; call_line c] ∧
    fk_world s = replicate 2 (2, chars_of "write(9, 0x7f, 33) failed (5: I/O error)" ++ [10]).
Proof.
  intros c. destruct (prun (replicate 1000 0) 1 (replicate 16 1 ++ replicate 18 0)%nat
    (demo_forked 9, [worker []; caller [c; c]])) as [[s ths]|] eqn:E.
  2: { exfalso. vm_compute in E. discriminate E. }
  exists s, ths. pose proof (prun_steps _ _ _ _ _ E) as Hr.
  assert (∀ y, ¬ pstep (replicate 1000 0) 1 (s, ths) y) as Hstuck
    by (apply pblocked_ok; vm_compute in E; injection E as <- <-; by vm_compute).
  split; [exact Hr|]. split; [exact Hstuck|].
  assert (fk_world s = replicate 2 (2, chars_of "write(9, 0x7f, 33) failed (5: I/O error)" ++ [10]) ∧
    (fk_dep s).*2 = [c; c]) as [Hw Hdep] by (vm_compute in E; injection E as <- <-; split; by vm_compute).
  assert (text show_ptr) as Hptr by (by apply text_all_below; vm_compute).
  destruct (proj2 (process_progress (replicate 1000 0) 1 demo_text Hptr demo_short ltac:(done) ltac:(lia)
    ltac:(intros w bytes; cbn; lia) (demo_forked 9) [worker []; caller [c; c]] (demo_started 9 [c; c] ltac:(by vm_compute))
    ltac:(by repeat constructor) ltac:(intros [|[|j]] t Hj; [injection Hj as <-; constructor|injection Hj as <-;
      repeat constructor; unfold fits; vm_compute; lia|done])) s ths Hr Hstuck) as [_ Hl].
  rewrite Hdep in Hl. split; [exact Hl|exact Hw].
Defined.
