(* ===== verification/Module.v ===== *)
(** * Modules: [src/src/core/module.c], [include/floppix/core/module.h]

    The list of modules of the server, in the order they were added, and their life
    cycle: load, preinit, init, fini, unload.  The functions of a module are called
    through pointers; the interface [ModuleCalls] says what such a call answers and
    does to the rest of the server, on a state [W] without the module list. *)

From S2P Require Import Prelude CInt Errno Str Filesys Config.
Open Scope Z_scope.

(** [Hd], [Fn] and [Cx]: the handlers of the commands, the functions and the contexts
    of the modules. *)
Record fpx_module_t (Hd Fn Cx : Type) := Module {
  md_name : chars;
  md_version : Z;
  md_cmd : list (fpx_command_t Hd);
  md_preinit : option Fn;
  md_init : option Fn;
  md_fini : option Fn;
  md_cntx : option Cx;
  md_handle : option Z;
  md_preinited : bool;
  md_inited : bool
}.
Arguments Module {Hd Fn Cx}.
Arguments md_name {Hd Fn Cx}.
Arguments md_version {Hd Fn Cx}.
Arguments md_cmd {Hd Fn Cx}.
Arguments md_preinit {Hd Fn Cx}.
Arguments md_init {Hd Fn Cx}.
Arguments md_fini {Hd Fn Cx}.
Arguments md_cntx {Hd Fn Cx}.
Arguments md_handle {Hd Fn Cx}.
Arguments md_preinited {Hd Fn Cx}.
Arguments md_inited {Hd Fn Cx}.

(** The calls of module functions, [dlopen] and its companions, and [errno]. *)
Class ModuleCalls (Hd Fn Cx W : Type) := {
  call_preinit : Fn → W → res (option Cx * W);
  call_init : Fn → W → option Cx → res (fpx_err_t * W);
  call_fini : Fn → W → option Cx → res W;
  sys_dlopen : W → chars → option Z * W;
  sys_dlsym : W → Z → option (fpx_module_t Hd Fn Cx) * W;
  sys_dlclose : W → Z → W;
  get_errno : W → fpx_err_t;
  set_errno : W → fpx_err_t → W
}.

Section Modules.
Context {Hd Fn Cx W : Type} `{ModuleCalls Hd Fn Cx W}.
Abbreviation module := (fpx_module_t Hd Fn Cx).

Fixpoint name_taken (modules : list module) (name : chars) : res bool :=
  match modules with
  | [] => Ok false
  | m :: modules =>
      r ← fpx_strcmp (md_name m) name;
      if r =? 0 then Ok true else name_taken modules name
  end.
Definition fpx_add_module (modules : list module) (m : module) : res (fpx_err_t * list module) :=
  taken ← name_taken modules (md_name m);
  if taken : bool then Ok (FPX_FAILED, modules) else Ok (FPX_OK, modules ++ [m]).

(** [fpx_setup_prelinked_modules] for the array [preloaded]. *)
Fixpoint fpx_setup_prelinked_modules (preloaded modules : list module) : res (fpx_err_t * list module) :=
  match preloaded with
  | [] => Ok (FPX_OK, modules)
  | m :: preloaded =>
      '(err, modules) ← fpx_add_module modules m;
      if negb (err =? FPX_OK) then Ok (err, modules) else fpx_setup_prelinked_modules preloaded modules
  end.

Definition set_preinited (m : module) (cntx : option Cx) : module :=
  Module (md_name m) (md_version m) (md_cmd m) (md_preinit m) (md_init m) (md_fini m) cntx (md_handle m)
    true (md_inited m).
Definition set_inited (m : module) : module :=
  Module (md_name m) (md_version m) (md_cmd m) (md_preinit m) (md_init m) (md_fini m) (md_cntx m) (md_handle m)
    (md_preinited m) true.
Definition set_handle (m : module) (handle : Z) : module :=
  Module (md_name m) (md_version m) (md_cmd m) (md_preinit m) (md_init m) (md_fini m) (md_cntx m) (Some handle)
    (md_preinited m) (md_inited m).

(** The loop ends at the first module that is preinited; [cntx] is a variable of the
    function, which keeps its value from one module to the next. *)
Fixpoint preinit_loop (modules : list module) (cntx : option Cx) (w : W)
    : res (fpx_err_t * list module * W) :=
  match modules with
  | [] => Ok (FPX_OK, [], w)
  | m :: rest =>
      if md_preinited m then Ok (FPX_OK, m :: rest, w) else
      '(failed, cntx, w) ←
        match md_preinit m with
        | Some preinit =>
            '(cntx, w) ← call_preinit preinit w;
            Ok (match cntx with None => true | Some _ => false end, cntx, w)
        | None => Ok (false, cntx, w)
        end;
      if failed : bool then Ok (FPX_FAILED, m :: rest, w) else
      '(err, rest, w) ← preinit_loop rest cntx w;
      Ok (err, set_preinited m cntx :: rest, w)
  end.
Definition fpx_preinit_modules (modules : list module) (w : W) : res (fpx_err_t * list module * W) :=
  preinit_loop modules None w.

(** [err] is not initialised: [None] until the first module with an [init]. *)
Fixpoint init_loop (modules : list module) (err : option fpx_err_t) (w : W)
    : res (fpx_err_t * list module * W) :=
  match modules with
  | [] => Ok (FPX_OK, [], w)
  | m :: rest =>
      if md_inited m then Ok (FPX_OK, m :: rest, w) else
      '(err, w) ←
        match md_init m with
        | Some init => '(err, w) ← call_init init w (md_cntx m); Ok (Some err, w)
        | None => Ok (err, w)
        end;
      e ← of_option err;
      if negb (e =? FPX_OK) then Ok (FPX_FAILED, m :: rest, w) else
      '(r, rest, w) ← init_loop rest err w;
      Ok (r, set_inited m :: rest, w)
  end.
Definition fpx_init_modules (modules : list module) (w : W) : res (fpx_err_t * list module * W) :=
  init_loop modules None w.

Fixpoint fpx_modules_fini (modules : list module) (w : W) : res (fpx_err_t * W) :=
  match modules with
  | [] => Ok (FPX_OK, w)
  | m :: rest =>
      w ← match md_fini m with Some fini => call_fini fini w (md_cntx m) | None => Ok w end;
      fpx_modules_fini rest w
  end.

(** [failed:]; the result is [NULL]. *)
Definition load_failed (err : fpx_err_t) (handle : option Z) (modules : list module) (w : W)
    : res (option module * list module * W) :=
  let w := set_errno w err in
  Ok (None, modules, match handle with Some h => sys_dlclose w h | None => w end).

Definition fpx_load_module (modules : list module) (w : W) (fname : chars)
    : res (option module * list module * W) :=
  err ← fpx_check_absolute_path fname;
  if negb (err =? FPX_OK) then load_failed err None modules w else
  let '(handle, w) := sys_dlopen w fname in
  match handle with
  | None => load_failed FPX_FAILED None modules w
  | Some handle =>
      let '(m, w) := sys_dlsym w handle in
      match m with
      | None => load_failed FPX_FAILED (Some handle) modules w
      | Some m =>
          let m := set_handle m handle in
          '(err, modules) ← fpx_add_module modules m;
          if negb (err =? FPX_OK) then load_failed err (Some handle) modules w
          else Ok (Some m, modules, w)
      end
  end.

(** [fini] is called without a test. *)
Definition fpx_unload_module (w : W) (m : module) : res W :=
  fini ← of_option (md_fini m);
  w ← call_fini fini w (md_cntx m);
  Ok (match md_handle m with Some h => sys_dlclose w h | None => w end).

(** [fpx_handler_import] of server.c. *)
Definition fpx_handler_import (modules : list module) (w : W) (argv : list chars)
    : res (fpx_err_t * list module * W) :=
  a ← arg0 argv;
  '(m, modules, w) ← fpx_load_module modules w a;
  match m with
  | None => Ok (get_errno w, modules, w)
  | Some _ => fpx_preinit_modules modules w
  end.
End Modules.

(** ** Properties *)

(** A module whose name is the text [n]. *)
Definition named {Hd Fn Cx} (m : fpx_module_t Hd Fn Cx) (n : chars) : Prop := md_name m = cstr n ∧ text n.

Section ModuleProofs.
Context {Hd Fn Cx W : Type} `{ModuleCalls Hd Fn Cx W}.
Implicit Types (m : fpx_module_t Hd Fn Cx) (modules : list (fpx_module_t Hd Fn Cx)).

Lemma name_taken_ok modules ns n :
  Forall2 named modules ns → text n → name_taken modules (cstr n) = Ok (bool_decide (n ∈ ns)).
Proof using.
  intros Hns Hn. induction Hns as [|m n0 modules ns [Hm Hn0] _ IH]; cbn [name_taken].
  - by rewrite bool_decide_false by apply not_elem_of_nil.
  - rewrite Hm. destruct (strcmp_eq n0 n Hn0 Hn) as (r & -> & Hr). rewrite bind_ok.
    destruct (Z.eqb_spec r 0) as [E|E].
    + rewrite bool_decide_true; [done|]. apply Hr in E as ->. by left.
    + rewrite IH. f_equal. apply bool_decide_ext. rewrite elem_of_cons. naive_solver.
Qed.

Lemma add_module_ok modules ns m n :
  Forall2 named modules ns → named m n →
  fpx_add_module modules m = Ok (if bool_decide (n ∈ ns) then (FPX_FAILED, modules) else (FPX_OK, modules ++ [m])).
Proof using.
  intros Hns [Hm Hn]. unfold fpx_add_module. rewrite Hm, (name_taken_ok modules ns) by done.
  rewrite bind_ok. by destruct (bool_decide _).
Qed.

Lemma load_module_ok modules ns w path h w1 m n w2 :
  Forall2 named modules ns → head path = Some 47 →
  sys_dlopen w (cstr path) = (Some h, w1) → sys_dlsym w1 h = (Some m, w2) → named m n → n ∉ ns →
  fpx_load_module modules w (cstr path) = Ok (Some (set_handle m h), modules ++ [set_handle m h], w2).
Proof using.
  intros Hns Hp Ho Hs Hm Hn. unfold fpx_load_module, fpx_check_absolute_path.
  destruct path as [|c path]; [done|]. injection Hp as ->. assert (rd (cstr (47 :: path)) 0 = Ok 47) as -> by done.
  rewrite !bind_ok. change (47 =? 47) with true. cbn iota. change (negb (FPX_OK =? FPX_OK)) with false. cbn iota.
  rewrite Ho, Hs. cbv beta iota zeta. rewrite (add_module_ok modules ns _ n), bool_decide_false by done.
  rewrite bind_ok. done.
Qed.

Lemma init_loop_snoc modules m f : ∀ err w modules' w',
  Forall (λ m, md_inited m = false) modules → md_inited m = false → md_init m = Some f →
  init_loop modules err w = Ok (FPX_OK, modules', w') →
  init_loop (modules ++ [m]) err w =
    ('(e, w) ← call_init f w' (md_cntx m);
     if e =? FPX_OK then Ok (FPX_OK, modules' ++ [set_inited m], w) else Ok (FPX_FAILED, modules' ++ [m], w)).
Proof using.
  intros err w modules' w' Hni Hm Hf. revert err w modules'.
  induction Hni as [|m0 modules H0 _ IH]; intros err w modules' Hl; cbn [app init_loop] in *.
  - injection Hl as <- <-. rewrite Hm, Hf. destruct (call_init f w (md_cntx m)) as [[e w1]| | |]; [|done..].
    rewrite !bind_ok. cbn [of_option]. rewrite bind_ok. by destruct (e =? FPX_OK).
  - rewrite H0 in *. apply bind_inv in Hl as ([err1 w1] & E1 & Hl). apply bind_inv in Hl as (e & E2 & Hl).
    destruct (negb (e =? FPX_OK)) eqn:Ee; [discriminate Hl|].
    apply bind_inv in Hl as ([[r rest] w2] & E3 & Hl). injection Hl as -> <- ->.
    rewrite E1, bind_ok, E2, bind_ok, Ee, (IH _ _ _ E3).
    destruct (call_init f w' (md_cntx m)) as [[e' w3]| | |]; [|done..]. rewrite !bind_ok.
    by destruct (e' =? FPX_OK).
Qed.

(** The life of an imported module.  A module is added only under a new name.
    One that an "import" directive loads, the modules before it being preinited as
    they are after start-up, is added with its handle but its preinit function is
    not called, so that its context is still that of the file (NULL, by
    FPX_MODULE_RUN_TIME_PART); and that is the context its init function then gets. *)
Theorem import_without_preinit modules ns w path argv h w1 m n w2 f modules' w3 :
  Forall2 named modules ns → named m n →
  (fpx_add_module modules m =
     Ok (if bool_decide (n ∈ ns) then (FPX_FAILED, modules) else (FPX_OK, modules ++ [m]))) ∧
  (n ∉ ns → head path = Some 47 → option_map md_preinited (head modules) = Some true →
   sys_dlopen w (cstr path) = (Some h, w1) → sys_dlsym w1 h = (Some m, w2) →
   fpx_handler_import modules w (cstr path :: argv) = Ok (FPX_OK, modules ++ [set_handle m h], w2) ∧
   (Forall (λ m, md_inited m = false) modules → md_inited m = false → md_init m = Some f →
    fpx_init_modules modules w2 = Ok (FPX_OK, modules', w3) →
    fpx_init_modules (modules ++ [set_handle m h]) w2 =
      ('(e, w) ← call_init f w3 (md_cntx m);
       if e =? FPX_OK then Ok (FPX_OK, modules' ++ [set_inited (set_handle m h)], w)
       else Ok (FPX_FAILED, modules' ++ [set_handle m h], w)))).
Proof using.
  intros Hns Hm. split; [by apply add_module_ok|]. intros Hn Hp Hpre Ho Hs. split.
  - unfold fpx_handler_import, arg0. cbn [lookup list_lookup of_option]. rewrite bind_ok.
    rewrite (load_module_ok modules ns w path h w1 m n w2), bind_ok by done.
    destruct modules as [|m0 modules]; [done|]. injection Hpre as Hpre.
    unfold fpx_preinit_modules. cbn [app preinit_loop]. by rewrite Hpre.
  - intros Hni Hmi Hf Hin. by apply (init_loop_snoc modules (set_handle m h) f).
Qed.
End ModuleProofs.

(** A system with one loadable module; the state counts the calls of preinit, and an
    init function fails without a context. *)
Definition demo_module : fpx_module_t unit bool unit :=
  Module (cstr (chars_of "test1")) 3 [] (Some true) (Some true) None None None false false.
Definition demo_core : fpx_module_t unit bool unit :=
  Module (cstr (chars_of "core")) 4 [] (Some true) (Some true) None (Some tt) None true false.
Definition demo_calls : ModuleCalls unit bool unit Z := {|
  call_preinit f w := Ok (Some tt, w + 1);
  call_init f w c := Ok (match c with Some _ => 0 | None => -1 end, w);
  call_fini f w c := Ok w;
  sys_dlopen w path := (Some 7, w); sys_dlsym w h := (Some demo_module, w); sys_dlclose w h := w;
  get_errno w := 0; set_errno w e := w
|}.

Lemma import_without_preinit_witness :
  fpx_handler_import (H := demo_calls) [demo_core] 1 [cstr (chars_of "/lib/test1.so")] =
    Ok (FPX_OK, [demo_core; set_handle demo_module 7], 1) ∧
  fpx_init_modules (H := demo_calls) [demo_core; set_handle demo_module 7] 1 =
    Ok (FPX_FAILED, [set_inited demo_core; set_handle demo_module 7], 1).
Proof.
  destruct (import_without_preinit (H := demo_calls) [demo_core] [chars_of "core"] 1 (chars_of "/lib/test1.so") []
    7 1 demo_module (chars_of "test1") 1 true [set_inited demo_core] 1) as [_ Hi].
  - repeat constructor; vm_compute; congruence.
  - repeat constructor; vm_compute; congruence.
  - destruct Hi as [Hi1 Hi2].
    + by apply (bool_decide_unpack _); vm_compute.
    + reflexivity.
    + reflexivity.
    + reflexivity.
    + reflexivity.
    + split; [exact Hi1|]. etransitivity; [apply Hi2|by vm_compute];
        [by apply Forall_singleton|reflexivity|reflexivity|by vm_compute].
Defined.
