(* ===== verification/Socket.v ===== *)
(** * Sockets: [src/src/system/net/socket.c], [sockopt.c] and [sockaddr.c]

    The system is the interface [Sockets], one field per call.  [sockopt.c] has a
    variant per platform; each is a Module, and the code that uses the options takes
    the ones of Linux.  The calls of the logger are left out. *)

From S2P Require Import Prelude CInt Errno Str.
Open Scope Z_scope.

(** [struct sockaddr_storage]: the family and the other bytes. *)
Record sockaddr := Sockaddr { ss_family : Z; ss_data : list Z }.
(** [struct addrinfo], the fields that are used. *)
Record addrinfo := Addrinfo { ai_family : Z; ai_socktype : Z; ai_protocol : Z; ai_addr : sockaddr }.

Definition FPX_INVALID_SOCKET : Z := -1.
Definition AF_INET : Z := 2.
Definition AF_INET6 : Z := 10.
Definition SOCK_STREAM : Z := 1.
Definition IPPROTO_TCP : Z := 6.
Definition AI_PASSIVE : Z := 1.
Definition O_NONBLOCK : Z := 2048.
Definition FPX_SHUT_RDWR : Z := 2.

Class Sockets (W : Type) := {
  sk_errno : W → fpx_err_t;
  sk_socket : W → Z → Z → Z → Z * W;
  sk_setsockopt : W → Z → Z → Z → Z → Z * W;     (* descriptor, level, option, value *)
  sk_ioctl : W → Z → Z → Z → Z * W;              (* descriptor, request, argument *)
  sk_getfl : W → Z → Z * W;
  sk_setfl : W → Z → Z → Z * W;
  sk_bind : W → Z → sockaddr → Z * W;
  sk_listen : W → Z → Z → Z * W;
  sk_accept : W → Z → Z → Z * option sockaddr * W;
  sk_connect : W → Z → sockaddr → Z * W;
  sk_shutdown : W → Z → Z → Z * W;
  sk_close : W → Z → W;
  sk_getaddrinfo : W → option chars → option chars → Z → Z → Z → Z → option (list addrinfo) * W;
  sk_freeaddrinfo : W → W;
  sk_getsockname : W → Z → option sockaddr * W;
  sk_getnameinfo : W → sockaddr → Z → Z → Z → Z → option (chars * chars) * W;
                                                 (* length, size of each buffer, flags *)
  sk_msleep : W → Z → W
}.

(** ** Sockets *)
Section SocketCalls.
Context {W : Type} `{Sockets W}.

(** [0] from the call is success; the errors are those of [errno]. *)
Definition socket_err (r : Z * W) : fpx_err_t * W :=
  if r.1 =? -1 then (sk_errno r.2, r.2) else (FPX_OK, r.2).

(** [*new_sockfd] is stored on success only. *)
Definition fpx_socket_init (w : W) (sockfd domain type protocol : Z) : fpx_err_t * Z * W :=
  let '(fd, w) := sk_socket w domain type protocol in
  if fd =? FPX_INVALID_SOCKET then (sk_errno w, sockfd, w) else (FPX_OK, fd, w).
Definition fpx_socket_bind (w : W) (fd : Z) (addr : sockaddr) : fpx_err_t * W := socket_err (sk_bind w fd addr).
Definition fpx_socket_listen (w : W) (fd backlog : Z) : fpx_err_t * W := socket_err (sk_listen w fd backlog).
Definition fpx_socket_accept (w : W) (new_sockfd fd : Z) (addr : sockaddr) (addrlen : Z)
    : fpx_err_t * Z * sockaddr * W :=
  let '(fd1, a, w) := sk_accept w fd addrlen in
  if fd1 =? FPX_INVALID_SOCKET then (sk_errno w, new_sockfd, addr, w)
  else (FPX_OK, fd1, match a with Some a => a | None => addr end, w).
Definition fpx_socket_connect (w : W) (fd : Z) (addr : sockaddr) : fpx_err_t * W := socket_err (sk_connect w fd addr).
Definition fpx_socket_shutdown (w : W) (fd how : Z) : fpx_err_t * W := socket_err (sk_shutdown w fd how).
Definition fpx_socket_close (w : W) (fd : Z) : W := sk_close w fd.

(** ** [sockaddr.c] *)
Definition SOCKADDR_STORAGE_SIZE : Z := 128.
Definition NI_NUMERICHOST : Z := 1.
Definition NI_NUMERICSERV : Z := 2.

(** The text the buffer holds, or [None] for [NULL]. *)
Definition fpx_sockaddr_get_addr_text (w : W) (addr : sockaddr) (bufsize : Z) : option chars * W :=
  let '(r, w) := sk_getnameinfo w addr SOCKADDR_STORAGE_SIZE bufsize 0 NI_NUMERICHOST in
  (fst <$> r, w).
Definition fpx_sockaddr_get_port_text (w : W) (addr : sockaddr) (bufsize : Z) : option chars * W :=
  let '(r, w) := sk_getnameinfo w addr SOCKADDR_STORAGE_SIZE 0 bufsize (Z.lor NI_NUMERICHOST NI_NUMERICSERV) in
  (snd <$> r, w).
Definition fpx_sockaddr_is_ipv4 (addr : sockaddr) : bool := ss_family addr =? AF_INET.
Definition fpx_sockaddr_is_ipv6 (addr : sockaddr) : bool := ss_family addr =? AF_INET6.
End SocketCalls.

(** ** [sockopt.c] *)
Definition SOL_SOCKET : Z := 1.
Definition SO_REUSEADDR : Z := 2.
Definition TCP_NOPUSH : Z := 4.
Definition FIONBIO : Z := 2147772030.

Module Linux.
Section Options.
Context {W : Type} `{Sockets W}.
Definition fpx_socket_nopush (w : W) (fd : Z) : fpx_err_t * W :=
  socket_err (sk_setsockopt w fd SOL_SOCKET SO_REUSEADDR 1).
Definition fpx_socket_push (w : W) (fd : Z) : fpx_err_t * W :=
  socket_err (sk_setsockopt w fd SOL_SOCKET SO_REUSEADDR 0).
(** The flags are used as they are, also when they are the answer [-1] of a call
    that failed. *)
Definition fpx_socket_nonblocking (w : W) (fd : Z) : fpx_err_t * W :=
  let '(flags, w) := sk_getfl w fd in socket_err (sk_setfl w fd (Z.lor flags O_NONBLOCK)).
Definition fpx_socket_blocking (w : W) (fd : Z) : fpx_err_t * W :=
  let '(flags, w) := sk_getfl w fd in socket_err (sk_setfl w fd (Z.land flags (Z.lnot O_NONBLOCK))).
End Options.
End Linux.

(** In [fpx_socket_push] the address of the option's value is that of the function
    [fpx_socket_nopush]: [code] is the [int] its machine code begins with. *)
Module FreeBSD.
Section Options.
Context {W : Type} `{Sockets W}.
Definition fpx_socket_nopush (w : W) (fd : Z) : fpx_err_t * W :=
  socket_err (sk_setsockopt w fd IPPROTO_TCP TCP_NOPUSH 1).
Definition fpx_socket_push (code : Z) (w : W) (fd : Z) : fpx_err_t * W :=
  socket_err (sk_setsockopt w fd IPPROTO_TCP TCP_NOPUSH code).
Definition fpx_socket_nonblocking (w : W) (fd : Z) : fpx_err_t * W := socket_err (sk_ioctl w fd FIONBIO 1).
Definition fpx_socket_blocking (w : W) (fd : Z) : fpx_err_t * W := socket_err (sk_ioctl w fd FIONBIO 0).
End Options.
End FreeBSD.

Module Darwin.
Section Options.
Context {W : Type} `{Sockets W}.
Definition fpx_socket_nopush (w : W) (fd : Z) : fpx_err_t * W :=
  socket_err (sk_setsockopt w fd IPPROTO_TCP TCP_NOPUSH 1).
Definition fpx_socket_push (code : Z) (w : W) (fd : Z) : fpx_err_t * W :=
  socket_err (sk_setsockopt w fd IPPROTO_TCP TCP_NOPUSH code).
Definition fpx_socket_nonblocking (w : W) (fd : Z) : fpx_err_t * W := socket_err (sk_ioctl w fd FIONBIO 1).
Definition fpx_socket_blocking (w : W) (fd : Z) : fpx_err_t * W := socket_err (sk_ioctl w fd FIONBIO 0).
End Options.
End Darwin.

Module Solaris.
Section Options.
Context {W : Type} `{Sockets W}.
Definition fpx_socket_nopush (w : W) (fd : Z) : fpx_err_t * W := (FPX_OK, w).
Definition fpx_socket_push (w : W) (fd : Z) : fpx_err_t * W := (FPX_OK, w).
Definition fpx_socket_nonblocking (w : W) (fd : Z) : fpx_err_t * W := socket_err (sk_ioctl w fd FIONBIO 1).
Definition fpx_socket_blocking (w : W) (fd : Z) : fpx_err_t * W := socket_err (sk_ioctl w fd FIONBIO 0).
End Options.
End Solaris.

(** Any answer of [ioctlsocket] but [0] is a failure. *)
Module Win32.
Section Options.
Context {W : Type} `{Sockets W}.
Definition ioctlsocket_err (r : Z * W) : fpx_err_t * W :=
  if negb (r.1 =? 0) then (sk_errno r.2, r.2) else (FPX_OK, r.2).
Definition fpx_socket_nopush (w : W) (fd : Z) : fpx_err_t * W := (FPX_OK, w).
Definition fpx_socket_push (w : W) (fd : Z) : fpx_err_t * W := (FPX_OK, w).
Definition fpx_socket_nonblocking (w : W) (fd : Z) : fpx_err_t * W := ioctlsocket_err (sk_ioctl w fd FIONBIO 1).
Definition fpx_socket_blocking (w : W) (fd : Z) : fpx_err_t * W := ioctlsocket_err (sk_ioctl w fd FIONBIO 0).
End Options.
End Win32.

(** ** Properties *)

(** What the calls do to the flags and the options of a descriptor: [settable] is the
    set of flags that [F_SETFL] changes. *)
Record option_laws {W} `{Sockets W} (settable : Z) (flags_of : W → Z → Z) (option_of : W → Z → Z → Z → Z) : Prop := {
  law_nonblock_settable : Z.land settable O_NONBLOCK = O_NONBLOCK;
  law_flags_getfl : ∀ w fd, let r := sk_getfl w fd in
    flags_of r.2 fd = flags_of w fd ∧ (r.1 = -1 ∨ r.1 = flags_of w fd);
  law_flags_setfl : ∀ w fd fl, let r := sk_setfl w fd fl in
    flags_of r.2 fd = if r.1 =? -1 then flags_of w fd
                      else Z.lor (Z.land (flags_of w fd) (Z.lnot settable)) (Z.land fl settable);
  law_option_set : ∀ w fd lv o v, let r := sk_setsockopt w fd lv o v in
    option_of r.2 fd lv o = if r.1 =? -1 then option_of w fd lv o else v
}.

Section OptionProofs.
Context {W : Type} `{Sockets W} (settable : Z) (flags_of : W → Z → Z) (option_of : W → Z → Z → Z → Z).
Context (laws : option_laws settable flags_of option_of) (errs : ∀ w, sk_errno w ≠ FPX_OK).

Lemma socket_err_ok (r : Z * W) w' : socket_err r = (FPX_OK, w') → (r.1 =? -1) = false ∧ r.2 = w'.
Proof using errs.
  unfold socket_err. destruct (r.1 =? -1); [|by intros [= ->]]. intros E. exfalso. apply (errs r.2). congruence.
Qed.

(** Setting only flags that can be set, one gets what was asked for. *)
Lemma setfl_masked old fl :
  (∀ n, Z.testbit settable n = false → Z.testbit fl n = Z.testbit old n) →
  Z.lor (Z.land old (Z.lnot settable)) (Z.land fl settable) = fl.
Proof using.
  intros Hbits. apply Z.bits_inj'. intros n Hn. rewrite Z.lor_spec, !Z.land_spec, Z.lnot_spec by lia.
  specialize (Hbits n). destruct (Z.testbit settable n); rewrite ?andb_false_r, ?andb_true_r; [done|].
  rewrite Hbits by done. apply orb_false_r.
Qed.

Lemma nonblock_bit n : Z.testbit settable n = false → Z.testbit O_NONBLOCK n = false.
Proof using laws. intros E. rewrite <- (law_nonblock_settable _ _ _ laws), Z.land_spec, E. done. Qed.

(** Both [fcntl] calls of the two functions, when they succeed. *)
Lemma fcntl_pair w fd (g : Z → Z) w' :
  (∀ fl n, Z.testbit settable n = false → Z.testbit (g fl) n = Z.testbit fl n) →
  (let '(flags, w1) := sk_getfl w fd in socket_err (sk_setfl w1 fd (g flags))) = (FPX_OK, w') →
  (sk_getfl w fd).1 ≠ -1 → flags_of w' fd = g (flags_of w fd).
Proof using laws errs.
  intros Hg Hrun Hok. pose proof (law_flags_getfl _ _ _ laws w fd) as [Hf1 Hf2].
  destruct (sk_getfl w fd) as [flags w1]. cbn [fst snd] in *. destruct Hf2 as [?|E]; [done|]. rewrite E in *.
  apply socket_err_ok in Hrun as [Hr <-]. pose proof (law_flags_setfl _ _ _ laws w1 fd (g (flags_of w fd))) as Hs.
  cbn zeta in Hs. rewrite Hr, Hf1 in Hs. rewrite Hs. apply setfl_masked. apply Hg.
Qed.

Lemma setsockopt_ok w fd lv o v w' :
  socket_err (sk_setsockopt w fd lv o v) = (FPX_OK, w') → option_of w' fd lv o = v.
Proof using laws errs.
  intros [Hr <-]%socket_err_ok. pose proof (law_option_set _ _ _ laws w fd lv o v) as Hs. cbn zeta in Hs.
  by rewrite Hr in Hs.
Qed.

(** Socket options.  On Linux [fpx_socket_nonblocking] adds [O_NONBLOCK] to the
    flags and [fpx_socket_blocking] takes it away again, so that the pair restores the
    flags of a blocking descriptor, and [fpx_socket_push] clears what
    [fpx_socket_nopush] set, which is [SO_REUSEADDR].  When the flags cannot be read,
    [fpx_socket_nonblocking] asks for all of them.  On FreeBSD and Darwin
    [fpx_socket_push] stores the first bytes of a function's code: the option is off
    afterwards only if they are zero. *)
Theorem socket_options w fd w1 w2 :
  (Linux.fpx_socket_nonblocking w fd = (FPX_OK, w1) → Linux.fpx_socket_blocking w1 fd = (FPX_OK, w2) →
   (sk_getfl w fd).1 ≠ -1 → (sk_getfl w1 fd).1 ≠ -1 →
   flags_of w1 fd = Z.lor (flags_of w fd) O_NONBLOCK ∧
   flags_of w2 fd = Z.land (flags_of w fd) (Z.lnot O_NONBLOCK) ∧
   (Z.land (flags_of w fd) O_NONBLOCK = 0 → flags_of w2 fd = flags_of w fd)) ∧
  ((sk_getfl w fd).1 = -1 →
   Linux.fpx_socket_nonblocking w fd = socket_err (sk_setfl (sk_getfl w fd).2 fd (-1))) ∧
  (Linux.fpx_socket_nopush w fd = (FPX_OK, w1) → Linux.fpx_socket_push w1 fd = (FPX_OK, w2) →
   option_of w1 fd SOL_SOCKET SO_REUSEADDR = 1 ∧ option_of w2 fd SOL_SOCKET SO_REUSEADDR = 0) ∧
  (∀ code, FreeBSD.fpx_socket_nopush w fd = (FPX_OK, w1) → FreeBSD.fpx_socket_push code w1 fd = (FPX_OK, w2) →
   option_of w1 fd IPPROTO_TCP TCP_NOPUSH = 1 ∧
   (option_of w2 fd IPPROTO_TCP TCP_NOPUSH = 0 ↔ code = 0)).
Proof using laws errs.
  split; [|split; [|split]].
  - intros H1 H2 Hok1 Hok2.
    assert (flags_of w1 fd = Z.lor (flags_of w fd) O_NONBLOCK) as E1.
    { apply (fcntl_pair w fd (λ f, Z.lor f O_NONBLOCK) w1); [|exact H1|exact Hok1].
      intros fl n Hn. by rewrite Z.lor_spec, (nonblock_bit n Hn), orb_false_r. }
    assert (flags_of w2 fd = Z.land (flags_of w1 fd) (Z.lnot O_NONBLOCK)) as E2.
    { apply (fcntl_pair w1 fd (λ f, Z.land f (Z.lnot O_NONBLOCK)) w2); [|exact H2|exact Hok2].
      intros fl n Hn. destruct (Z.ltb_spec n 0); [by rewrite !Z.testbit_neg_r|].
      by rewrite Z.land_spec, Z.lnot_spec, (nonblock_bit n Hn), andb_true_r. }
    assert (flags_of w2 fd = Z.land (flags_of w fd) (Z.lnot O_NONBLOCK)) as E3.
    { rewrite E2, E1, Z.land_lor_distr_l, Z.land_lnot_diag, Z.lor_0_r. done. }
    split; [done|]. split; [done|]. intros Hz. rewrite E3. apply Z.bits_inj'. intros n Hn.
    rewrite Z.land_spec, Z.lnot_spec by lia.
    assert (Z.testbit (Z.land (flags_of w fd) O_NONBLOCK) n = false) as E by (by rewrite Hz, Z.testbit_0_l).
    rewrite Z.land_spec in E. by destruct (Z.testbit (flags_of w fd) n), (Z.testbit O_NONBLOCK n).
  - intros E. unfold Linux.fpx_socket_nonblocking. destruct (sk_getfl w fd) as [fl w']. cbn [fst snd] in *. by subst.
  - intros H1 H2. split; [by apply (setsockopt_ok w)|by apply (setsockopt_ok w1)].
  - intros code H1 H2. split; [by apply (setsockopt_ok w)|]. unfold FreeBSD.fpx_socket_push in H2.
    by rewrite (setsockopt_ok w1 fd _ _ _ _ H2).
Qed.
End OptionProofs.

(** One descriptor: its flags and the value of its options. *)
#[local] Instance one_socket : Sockets (Z * Z) := {|
  sk_errno w := 9;
  sk_socket w d t p := (3, w); sk_setsockopt w fd lv o v := (0, (w.1, v)); sk_ioctl w fd rq v := (0, w);
  sk_getfl w fd := (w.1, w); sk_setfl w fd fl := (0, (Z.lor (Z.land w.1 (Z.lnot 3072)) (Z.land fl 3072), w.2));
  sk_bind w fd a := (0, w); sk_listen w fd n := (0, w); sk_accept w fd n := (-1, None, w);
  sk_connect w fd a := (-1, w); sk_shutdown w fd h := (0, w); sk_close w fd := w;
  sk_getaddrinfo w a p f t fl pr := (None, w); sk_freeaddrinfo w := w; sk_getsockname w fd := (None, w);
  sk_getnameinfo w a n h s f := (None, w); sk_msleep w ms := w
|}.

(** A descriptor open for reading and writing, with [O_APPEND]. *)
Lemma socket_options_witness :
  let w : Z * Z := (1026, 0) in
  (Linux.fpx_socket_nonblocking w 3).2 = (3074, 0) ∧
  (Linux.fpx_socket_blocking (Linux.fpx_socket_nonblocking w 3).2 3).2 = w ∧
  (FreeBSD.fpx_socket_push 1096 (FreeBSD.fpx_socket_nopush w 3).2 3).2.2 ≠ 0.
Proof.
  intros w. assert (option_laws 3072 (λ (w : Z * Z) _, w.1) (λ w _ _ _, w.2)) as laws.
  { split; [reflexivity|intros; split; [done|by right]|intros; done|intros; done]. }
  assert (∀ w : Z * Z, sk_errno w ≠ FPX_OK) as errs by done.
  destruct (socket_options 3072 _ _ laws errs w 3 (3074, 0) w) as [H1 [_ _]].
  destruct (socket_options 3072 _ _ laws errs w 3 (1026, 1) (1026, 1096)) as [_ (_ & _ & H2)].
  destruct H1 as [E1 [_ E2]]; [vm_compute; reflexivity..|vm_compute; discriminate|vm_compute; discriminate|].
  destruct (H2 1096) as [_ H3]; [vm_compute; reflexivity..|].
  split; [vm_compute; reflexivity|]. split; [|intros E; assert (1096 = 0) by (apply H3; exact E); discriminate].
  specialize (E2 eq_refl). vm_compute. reflexivity.
Defined.
