(* ===== verification/Listen.v ===== *)
(** * Listeners and connections: [src/src/core/listen.c], [src/src/core/connection.c]

    The life of the server's sockets, over the calls of [Socket].  [socket_laws] says
    what the descriptor functions do to the set of open descriptors, and counts the
    calls of [close] on one that is not open. *)

From S2P Require Import Prelude CInt Errno Str Socket.
Import Linux.
Open Scope Z_scope.

(** ** Listeners *)
Section Listeners.
Context {W : Type} `{Sockets W}.

Definition FPX_MAX_CONNECT_QUEUELEN : Z := 5.
Definition FPX_MAX_BIND_ATTEMPTS : nat := 3.
Definition FPX_BIND_ATTEMPT_PAUSE : Z := 500.
Definition FPX_LISTENER_ID : Z := 1.
(** Conversion to [bool], the type of both [type_id] fields. *)
Definition to_bool (z : Z) : Z := if z =? 0 then 0 else 1.

(** A [const char *] of a structure: null, indeterminate, or a string. *)
Inductive text_ptr :=
  | PNull
  | PUndef
  | PText (s : chars).
(** Such a pointer passed to a function; an indeterminate one may not be read. *)
Definition ptr_arg (p : text_ptr) : res (option chars) :=
  match p with PNull => Ok None | PUndef => UB | PText s => Ok (Some s) end.

Record fpx_listener_t := Listener {
  li_type_id : Z;
  li_fd : Z;
  li_sockaddr : sockaddr;
  li_text_addr : text_ptr;
  li_text_port : text_ptr
}.
Definition fpx_listener_is_ipv4 (l : fpx_listener_t) : bool := fpx_sockaddr_is_ipv4 (li_sockaddr l).
Definition fpx_listener_is_ipv6 (l : fpx_listener_t) : bool := fpx_sockaddr_is_ipv6 (li_sockaddr l).

Definition fpx_listener_init_ipv4 (addr port : text_ptr) : fpx_err_t * fpx_listener_t :=
  (FPX_OK, Listener (to_bool FPX_LISTENER_ID) FPX_INVALID_SOCKET (Sockaddr AF_INET (replicate 126 0)) addr port).
Definition fpx_listener_init_ipv6 (addr port : text_ptr) : fpx_err_t * fpx_listener_t :=
  (FPX_OK, Listener (to_bool FPX_LISTENER_ID) FPX_INVALID_SOCKET (Sockaddr AF_INET6 (replicate 126 0)) addr port).

(** The attempts to bind: [done] and the last error. *)
Fixpoint bind_attempts (n : nat) (w : W) (fd : Z) (addr : sockaddr) (err : fpx_err_t) : bool * fpx_err_t * W :=
  match n with
  | O => (false, err, w)
  | S n =>
      let '(err, w) := fpx_socket_bind w fd addr in
      if negb (err =? FPX_OK) then bind_attempts n (sk_msleep w FPX_BIND_ATTEMPT_PAUSE) fd addr err
      else (true, err, w)
  end.

(** One address: [None] in front when the next one is to be tried. *)
Definition try_address (w : W) (fd : Z) (rp : addrinfo) : bool * fpx_err_t * Z * W :=
  let '(err, fd, w) := fpx_socket_init w fd (ai_family rp) (ai_socktype rp) (ai_protocol rp) in
  if negb (err =? FPX_OK) then (false, err, fd, w) else
  let '(err, w) := fpx_socket_nopush w fd in
  if negb (err =? FPX_OK) then (false, err, fd, fpx_socket_close w fd) else
  let '(err, w) := fpx_socket_nonblocking w fd in
  if negb (err =? FPX_OK) then (false, err, fd, fpx_socket_close w fd) else
  let '(done, err, w) := bind_attempts FPX_MAX_BIND_ATTEMPTS w fd (ai_addr rp) err in
  if done : bool then (true, err, fd, w) else (false, err, fd, fpx_socket_close w fd).

(** The loop over the addresses; [err] is not initialised before it. *)
Fixpoint try_addresses (l : list addrinfo) (w : W) (fd : Z) (err : option fpx_err_t)
    : bool * option fpx_err_t * Z * W :=
  match l with
  | [] => (false, err, fd, w)
  | rp :: l =>
      let '(done, err, fd, w) := try_address w fd rp in
      if done : bool then (true, Some err, fd, w) else try_addresses l w fd (Some err)
  end.

(** [failed:] *)
Definition bind_failed (result : bool) (fd : Z) (err : option fpx_err_t) (listener : fpx_listener_t) (w : W)
    : res (fpx_err_t * fpx_listener_t * W) :=
  let w := if result then sk_freeaddrinfo w else w in
  let w := if negb (fd =? FPX_INVALID_SOCKET) then fpx_socket_close w fd else w in
  err ← of_option err;
  Ok (err, listener, w).

Definition fpx_listener_bind (listener : fpx_listener_t) (w : W) : res (fpx_err_t * fpx_listener_t * W) :=
  addr ← ptr_arg (li_text_addr listener);
  port ← ptr_arg (li_text_port listener);
  let '(result, w) := sk_getaddrinfo w addr port
    (ss_family (li_sockaddr listener)) SOCK_STREAM AI_PASSIVE IPPROTO_TCP in
  match result with
  | None => bind_failed false FPX_INVALID_SOCKET (Some (sk_errno w)) listener w
  | Some l =>
      let '(found, err, fd, w) := try_addresses l w FPX_INVALID_SOCKET None in
      let result := match l with [] => false | _ => true end in
      if negb found then bind_failed result fd err listener w else
      let '(name, w) := sk_getsockname w fd in
      match name with
      | None => bind_failed result fd (Some (sk_errno w)) listener w
      | Some name =>
          Ok (FPX_OK, Listener (li_type_id listener) fd name (li_text_addr listener) (li_text_port listener),
              sk_freeaddrinfo w)
      end
  end.

Definition fpx_listener_open (listener : fpx_listener_t) (w : W) : fpx_err_t * W :=
  let '(err, w) := fpx_socket_listen w (li_fd listener) FPX_MAX_CONNECT_QUEUELEN in
  if negb (err =? FPX_OK) then (err, w) else (FPX_OK, w).
Definition fpx_listener_close (listener : fpx_listener_t) (w : W) : fpx_listener_t * W :=
  if negb (li_fd listener =? FPX_INVALID_SOCKET) then
    (Listener (li_type_id listener) FPX_INVALID_SOCKET (li_sockaddr listener) (li_text_addr listener)
       (li_text_port listener), fpx_socket_close w (li_fd listener))
  else (listener, w).
(** Everything is zeroed, the descriptor too. *)
Definition fpx_listener_clear (listener : fpx_listener_t) (w : W) : fpx_listener_t * W :=
  let '(_, w) := fpx_listener_close listener w in
  (Listener 0 0 (Sockaddr 0 (replicate 126 0)) PNull PNull, w).
Definition fpx_listener_get_addr_text (listener : fpx_listener_t) (bufsize : Z) (w : W) : option chars * W :=
  fpx_sockaddr_get_addr_text w (li_sockaddr listener) bufsize.
Definition fpx_listener_get_port_text (listener : fpx_listener_t) (bufsize : Z) (w : W) : option chars * W :=
  fpx_sockaddr_get_port_text w (li_sockaddr listener) bufsize.

(** ** Connections *)
Definition FPX_CONNECTION_ID : Z := 2.
Definition fpx_is_listener (type_id : Z) : bool := type_id =? FPX_LISTENER_ID.
Definition fpx_is_connection (type_id : Z) : bool := type_id =? FPX_CONNECTION_ID.
Record fpx_connect_t := Connect {
  cn_type_id : Z;
  cn_fd : Z;
  cn_sockaddr : sockaddr;
  cn_addr_text : text_ptr;
  cn_port_text : text_ptr;
  cn_owner : option fpx_listener_t;
  cn_pool : Z
}.
Definition set_cn_fd (c : fpx_connect_t) (fd : Z) : fpx_connect_t :=
  Connect (cn_type_id c) fd (cn_sockaddr c) (cn_addr_text c) (cn_port_text c) (cn_owner c) (cn_pool c).
Definition cleared_connect : fpx_connect_t :=
  Connect 0 0 (Sockaddr 0 (replicate 126 0)) PNull PNull None 0.

(** [create] is [fpx_pool_create(&pool, 0, NULL)]. *)
Definition fpx_connection_init (create : W → fpx_err_t * Z * W) (w : W) : fpx_err_t * fpx_connect_t * W :=
  let '(err, pool, w) := create w in
  if negb (err =? FPX_OK) then (err, cleared_connect, w)
  else (FPX_OK, Connect (to_bool FPX_CONNECTION_ID) FPX_INVALID_SOCKET (cn_sockaddr cleared_connect)
                  PNull PNull None pool, w).

(** [addrlen] is the size of [struct sockaddr_in]. *)
Definition fpx_connection_accept (connect : fpx_connect_t) (listener : fpx_listener_t) (w : W)
    : fpx_err_t * fpx_connect_t * W :=
  let '(err, fd, addr, w) := fpx_socket_accept w FPX_INVALID_SOCKET (li_fd listener) (cn_sockaddr connect) 16 in
  let connect := Connect (cn_type_id connect) (cn_fd connect) addr (cn_addr_text connect)
    (cn_port_text connect) (cn_owner connect) (cn_pool connect) in
  if negb (err =? FPX_OK) then (err, connect, w) else
  let '(err, w) := fpx_socket_nonblocking w fd in
  if negb (err =? FPX_OK) then (err, connect, fpx_socket_close w fd) else
  (FPX_OK, Connect (cn_type_id connect) fd (cn_sockaddr connect) (cn_addr_text connect)
             (cn_port_text connect) (Some listener) (cn_pool connect), w).
Definition fpx_connection_close (connect : fpx_connect_t) (w : W) : fpx_connect_t * W :=
  if negb (cn_fd connect =? FPX_INVALID_SOCKET) then
    let '(_, w) := fpx_socket_shutdown w (cn_fd connect) FPX_SHUT_RDWR in
    (set_cn_fd connect FPX_INVALID_SOCKET, fpx_socket_close w (cn_fd connect))
  else (connect, w).
(** [clear] and [destroy] are [fpx_pool_clear] and [fpx_pool_destroy]. *)
Definition fpx_connection_clear (clear : W → Z → W) (connect : fpx_connect_t) (w : W) : fpx_connect_t * W :=
  let '(connect, w) := fpx_connection_close connect w in (connect, clear w (cn_pool connect)).
Definition fpx_connection_destroy (destroy : W → Z → W) (connect : fpx_connect_t) (w : W) : fpx_connect_t * W :=
  let '(connect, w) := fpx_connection_close connect w in (connect, destroy w (cn_pool connect)).
Definition fpx_connection_get_addr_text (connect : fpx_connect_t) (bufsize : Z) (w : W) : option chars * W :=
  fpx_sockaddr_get_addr_text w (cn_sockaddr connect) bufsize.
Definition fpx_connection_get_port_text (connect : fpx_connect_t) (bufsize : Z) (w : W) : option chars * W :=
  fpx_sockaddr_get_port_text w (cn_sockaddr connect) bufsize.
End Listeners.

(** ** Properties *)

(** The descriptor functions: [opened] is the set of open descriptors, [bad] the
    number of calls of [close] so far on one that was not open. *)
Definition kept {W} (opened : W → gset Z) (bad : W → nat) (w w' : W) : Prop :=
  opened w' = opened w ∧ bad w' = bad w.
Record socket_laws {W} `{Sockets W} (opened : W → gset Z) (bad : W → nat) : Prop := {
  law_socket : ∀ w d t p, let r := sk_socket w d t p in
    (r.1 = -1 ∧ opened r.2 = opened w ∨
     0 ≤ r.1 ∧ (r.1 ∉ opened w) ∧ opened r.2 = {[r.1]} ∪ opened w) ∧ bad r.2 = bad w ∧ (r.1 = -1 → sk_errno r.2 ≠ FPX_OK);
  law_close : ∀ w fd, opened (sk_close w fd) = opened w ∖ {[fd]} ∧
    bad (sk_close w fd) = if decide (fd ∈ opened w) then bad w else S (bad w);
  law_setsockopt : ∀ w fd lv o v, kept opened bad w (sk_setsockopt w fd lv o v).2;
  law_getfl : ∀ w fd, kept opened bad w (sk_getfl w fd).2;
  law_setfl : ∀ w fd fl, kept opened bad w (sk_setfl w fd fl).2;
  law_bind : ∀ w fd a, kept opened bad w (sk_bind w fd a).2;
  law_accept : ∀ w fd n, let r := sk_accept w fd n in
    (r.1.1 = -1 ∧ opened r.2 = opened w ∨
     0 ≤ r.1.1 ∧ (r.1.1 ∉ opened w) ∧ opened r.2 = {[r.1.1]} ∪ opened w) ∧ bad r.2 = bad w ∧
    (r.1.1 = -1 → sk_errno r.2 ≠ FPX_OK);
  law_shutdown : ∀ w fd h, kept opened bad w (sk_shutdown w fd h).2;
  law_msleep : ∀ w ms, kept opened bad w (sk_msleep w ms);
  law_getaddrinfo : ∀ w a p f t fl pr, let r := sk_getaddrinfo w a p f t fl pr in
    kept opened bad w r.2 ∧ r.1 ≠ Some [];
  law_freeaddrinfo : ∀ w, kept opened bad w (sk_freeaddrinfo w);
  law_getsockname : ∀ w fd, let r := sk_getsockname w fd in
    kept opened bad w r.2 ∧ (r.1 = None → sk_errno r.2 ≠ FPX_OK);
  law_listen : ∀ w fd n, let r := sk_listen w fd n in
    kept opened bad w r.2 ∧ (fd < 0 → r.1 = -1) ∧ (r.1 = -1 → sk_errno r.2 ≠ FPX_OK)
}.

Section ListenProofs.
Context {W : Type} `{Sockets W} (opened : W → gset Z) (bad : W → nat) (laws : socket_laws opened bad).

(** What a search leaves behind: a socket of its own, or a descriptor that is not
    open any more. *)
Definition searched (w w' : W) (done : bool) (fd fd' : Z) : Prop :=
  bad w' = bad w ∧
  if done then 0 ≤ fd' ∧ (fd' ∉ opened w) ∧ opened w' = {[fd']} ∪ opened w
  else opened w' = opened w ∧ (fd' = fd ∨ 0 ≤ fd' ∧ fd' ∉ opened w).

Lemma kept_trans w1 w2 w3 : kept opened bad w1 w2 → kept opened bad w2 w3 → kept opened bad w1 w3.
Proof using. unfold kept. intros [-> ->] [-> ->]. done. Qed.

Lemma close_own w w' fd :
  fd ∉ opened w → opened w' = {[fd]} ∪ opened w → bad w' = bad w → kept opened bad w (sk_close w' fd).
Proof using laws.
  intros Hn Ho Hb. destruct (law_close _ _ laws w' fd) as [H1 H2]. unfold kept. rewrite H1, H2, Ho, Hb.
  split; [set_solver|]. rewrite decide_True by set_solver. done.
Qed.

Lemma bind_attempts_keeps n w fd a err : kept opened bad w (bind_attempts n w fd a err).2.
Proof using laws.
  revert w err. induction n as [|n IH]; intros w err; [done|]. cbn [bind_attempts].
  unfold fpx_socket_bind, socket_err. pose proof (law_bind _ _ laws w fd a) as Hk.
  destruct (sk_bind w fd a) as [r w1]. cbn [fst snd] in *.
  destruct (r =? -1); (case_match; [|done]); eapply kept_trans; try exact Hk;
    (eapply kept_trans; [apply (law_msleep _ _ laws)|apply IH]).
Qed.

Lemma socket_err_keeps (r : Z * W) w : kept opened bad w r.2 → kept opened bad w (socket_err r).2.
Proof using. unfold socket_err. by destruct (r.1 =? -1). Qed.

Lemma keeps_own w w1 w2 fd :
  opened w1 = {[fd]} ∪ opened w → bad w1 = bad w → kept opened bad w1 w2 →
  opened w2 = {[fd]} ∪ opened w ∧ bad w2 = bad w.
Proof using. intros Ho Hb [-> ->]. done. Qed.

Lemma nonblocking_keeps w fd : kept opened bad w (fpx_socket_nonblocking w fd).2.
Proof using laws.
  unfold fpx_socket_nonblocking. pose proof (law_getfl _ _ laws w fd) as Hg. destruct (sk_getfl w fd) as [fl w1].
  apply socket_err_keeps. eapply kept_trans; [exact Hg|apply (law_setfl _ _ laws)].
Qed.

Lemma try_address_ok w fd rp :
  match try_address w fd rp with (done, _, fd', w') => searched w w' done fd fd' end.
Proof using laws.
  unfold try_address, fpx_socket_init.
  destruct (law_socket _ _ laws w (ai_family rp) (ai_socktype rp) (ai_protocol rp)) as (Hs & Hb & He).
  destruct (sk_socket w _ _ _) as [fd1 w1]. cbn [fst snd] in *.
  unfold FPX_INVALID_SOCKET. destruct (Z.eqb_spec fd1 (-1)) as [E|E].
  { destruct Hs as [[_ Ho]|(? & _)]; [|lia]. rewrite (proj2 (Z.eqb_neq _ _)) by auto. cbn [negb].
    split; [done|]. split; [done|by left]. }
  destruct Hs as [[? _]|(Hpos & Hn & Ho)]; [lia|]. change (negb (FPX_OK =? FPX_OK)) with false. cbn iota.
  assert (∀ w2, kept opened bad w1 w2 → searched w (sk_close w2 fd1) false fd fd1) as Hclose.
  { intros w2 Hk. destruct (keeps_own w w1 w2 fd1 Ho Hb Hk) as [Ho2 Hb2].
    destruct (close_own w w2 fd1 Hn Ho2 Hb2). split; [done|]. split; [done|by right]. }
  pose proof (socket_err_keeps _ w1 (law_setsockopt _ _ laws w1 fd1 SOL_SOCKET SO_REUSEADDR 1)) as K1. unfold fpx_socket_nopush.
  destruct (socket_err (sk_setsockopt w1 fd1 SOL_SOCKET SO_REUSEADDR 1)) as [e1 w2]. cbn [snd] in K1.
  destruct (negb (e1 =? FPX_OK)); [by apply Hclose|].
  pose proof (nonblocking_keeps w2 fd1) as K2. destruct (fpx_socket_nonblocking w2 fd1) as [e2 w3]. cbn [snd] in K2.
  pose proof (kept_trans _ _ _ K1 K2) as K3. destruct (negb (e2 =? FPX_OK)); [by apply Hclose|].
  pose proof (bind_attempts_keeps FPX_MAX_BIND_ATTEMPTS w3 fd1 (ai_addr rp) e2) as K4.
  destruct (bind_attempts _ w3 fd1 (ai_addr rp) e2) as [[[] e3] w4]; cbn [snd] in K4;
    pose proof (kept_trans _ _ _ K3 K4) as K5; [|by apply Hclose].
  destruct (keeps_own w w1 w4 fd1 Ho Hb K5). by split.
Qed.

(** An address that cannot be used leaves an error. *)
Lemma bind_attempts_err n w fd a err :
  (bind_attempts n w fd a err).1.1 = false → (n = O → err ≠ FPX_OK) → (bind_attempts n w fd a err).1.2 ≠ FPX_OK.
Proof using.
  revert w err. induction n as [|n IH]; intros w err Hd Hn; [by apply Hn|]. cbn [bind_attempts] in *.
  destruct (fpx_socket_bind w fd a) as [e w1]. destruct (Z.eqb_spec e FPX_OK); [done|]. by apply IH.
Qed.
Lemma try_address_err w fd rp :
  match try_address w fd rp with (done, err, _, _) => done = false → err ≠ FPX_OK end.
Proof using.
  unfold try_address. destruct (fpx_socket_init w fd _ _ _) as [[e1 fd1] w1]. destruct (Z.eqb_spec e1 FPX_OK); cbn [negb]; [|done].
  destruct (fpx_socket_nopush w1 fd1) as [e2 w2]. destruct (Z.eqb_spec e2 FPX_OK); cbn [negb]; [|done].
  destruct (fpx_socket_nonblocking w2 fd1) as [e3 w3]. destruct (Z.eqb_spec e3 FPX_OK); cbn [negb]; [|done]. cbn [negb].
  pose proof (bind_attempts_err FPX_MAX_BIND_ATTEMPTS w3 fd1 (ai_addr rp) e3) as Hb.
  destruct (bind_attempts _ w3 fd1 _ e3) as [[[] e5] w4]; [done|]. intros _. by apply Hb.
Qed.

Lemma try_addresses_ok l : ∀ w fd err,
  match try_addresses l w fd err with
  | (done, err', fd', w') => searched w w' done fd fd' ∧
      (l ≠ [] → ∃ e, err' = Some e ∧ (done = false → e ≠ FPX_OK))
  end.
Proof using laws.
  induction l as [|rp l IH]; intros w fd err; cbn [try_addresses].
  { split; [|done]. split; [done|]. split; [done|by left]. }
  pose proof (try_address_ok w fd rp) as Ha. pose proof (try_address_err w fd rp) as Herr.
  destruct (try_address w fd rp) as [[[done e] fd1] w1].
  destruct done; [split; [done|by exists e]|]. specialize (Herr eq_refl). destruct Ha as [Hb (Ho & Hfd)].
  specialize (IH w1 fd1 (Some e)). destruct l as [|rp' l]; [cbn [try_addresses] in *|].
  { split; [|by exists e]. split; [done|]. by split. }
  destruct (try_addresses (rp' :: l) w1 fd1 (Some e)) as [[[done e'] fd2] w2]. destruct IH as [[Hb2 Hs] He].
  split; [|intros _; by apply He]. split; [congruence|]. rewrite Ho in Hs. destruct done; [done|].
  destruct Hs as [Ho2 Hfd2]. split; [done|]. destruct Hfd2 as [->|?]; [done|by right].
Qed.

(** [failed:] closes the descriptor of the last socket, open or not. *)
Lemma bind_failed_ok b fd e l w :
  ∃ w', bind_failed b fd (Some e) l w = Ok (e, l, w') ∧
    opened w' = (if fd =? -1 then opened w else opened w ∖ {[fd]}) ∧
    bad w' = (if fd =? -1 then bad w else if decide (fd ∈ opened w) then bad w else S (bad w)).
Proof using laws.
  unfold bind_failed. cbn [of_option]. set (w1 := if b then sk_freeaddrinfo w else w).
  assert (kept opened bad w w1) as [Ho Hb] by (unfold w1; destruct b; [apply (law_freeaddrinfo _ _ laws)|done]).
  eexists. split; [by rewrite bind_ok|]. unfold FPX_INVALID_SOCKET, fpx_socket_close.
  destruct (fd =? -1); cbn [negb]; [done|]. destruct (law_close _ _ laws w1 fd) as [-> ->]. by rewrite Ho, Hb.
Qed.

(** The addresses [getaddrinfo] finds for a listener whose texts are [addr] and
    [port], and the state after it. *)
Definition lookup_of (addr port : option chars) (l : fpx_listener_t) (w : W) : option (list addrinfo) * W :=
  sk_getaddrinfo w addr port (ss_family (li_sockaddr l)) SOCK_STREAM AI_PASSIVE IPPROTO_TCP.

(** What a call leaves behind.  Either the listener has a new socket, which is all that
    has been opened; or [getaddrinfo] has found nothing and the answer is whatever [errno]
    held, which may be [FPX_OK]; or none of its addresses could be used and the answer is
    an error.  In the last two cases the listener has no socket and none is left open. *)
Definition bind_outcome (l : fpx_listener_t) (w : W) (addr port : option chars) (r : res (fpx_err_t * fpx_listener_t * W))
    : Prop :=
  ∃ err l' w', r = Ok (err, l', w') ∧
    match lookup_of addr port l w with
    | (None, w1) => err = sk_errno w1 ∧ l' = l ∧ kept opened bad w w'
    | (Some addrs, w1) =>
        (err = FPX_OK ∧ ∃ fd name,
          l' = Listener (li_type_id l) fd name (li_text_addr l) (li_text_port l) ∧
          0 ≤ fd ∧ (fd ∉ opened w) ∧ opened w' = {[fd]} ∪ opened w ∧ bad w' = bad w) ∨
        (err ≠ FPX_OK ∧ l' = l ∧ opened w' = opened w ∧
         match try_addresses addrs w1 FPX_INVALID_SOCKET None with
         | (found, _, fd, _) =>
             bad w' = if found : bool then bad w else if fd =? FPX_INVALID_SOCKET then bad w else S (bad w)
         end)
    end.

Lemma listener_bind_ok l w addr port :
  ptr_arg (li_text_addr l) = Ok addr → ptr_arg (li_text_port l) = Ok port →
  bind_outcome l w addr port (fpx_listener_bind l w).
Proof using laws.
  unfold bind_outcome, fpx_listener_bind. intros -> ->. rewrite !bind_ok. fold (lookup_of addr port l w).
  pose proof (law_getaddrinfo _ _ laws w addr port (ss_family (li_sockaddr l))
    SOCK_STREAM AI_PASSIVE IPPROTO_TCP) as [[Ho1 Hb1] Hne]. fold (lookup_of addr port l w) in Ho1, Hb1, Hne.
  destruct (lookup_of addr port l w) as [[addrs|] w1]; cbn [fst snd] in *.
  2: { destruct (bind_failed_ok false FPX_INVALID_SOCKET (sk_errno w1) l w1) as (w2 & Hr & Ho2 & Hb2).
       exists (sk_errno w1), l, w2. split; [done|]. split; [done|]. split; [done|]. split; [by rewrite Ho2|by rewrite Hb2]. }
  pose proof (try_addresses_ok addrs w1 FPX_INVALID_SOCKET None) as Ht.
  destruct (try_addresses addrs w1 FPX_INVALID_SOCKET None) as [[[found err] fd] w2].
  destruct Ht as [[Hb2 Hs] Herr]. destruct Herr as (e & -> & Hne'); [congruence|]. rewrite Ho1 in Hs.
  set (r := match addrs with [] => false | _ => true end). destruct found; cbn [negb].
  - destruct Hs as (Hpos & Hn & Ho2). pose proof (law_getsockname _ _ laws w2 fd) as [[Ho3 Hb3] He3].
    destruct (sk_getsockname w2 fd) as [[name|] w3]; cbn [fst snd] in *.
    + exists FPX_OK. eexists _, _. split; [done|]. left. split; [done|]. exists fd, name. split; [done|].
      destruct (law_freeaddrinfo _ _ laws w3) as [-> ->]. rewrite Ho3, Hb3, Ho2, Hb2. done.
    + destruct (bind_failed_ok r fd (sk_errno w3) l w3) as (w4 & Hr & Ho4 & Hb4).
      exists (sk_errno w3), l, w4. split; [done|]. right. split; [by apply He3|]. split; [done|].
      rewrite (proj2 (Z.eqb_neq fd (-1))) in Ho4, Hb4 by lia. rewrite Ho3, Ho2 in Ho4. split; [set_solver|].
      rewrite Hb4, decide_True, Hb3, Hb2; [done|]. rewrite Ho3, Ho2. set_solver.
  - destruct Hs as [Ho2 Hfd]. destruct (bind_failed_ok r fd e l w2) as (w4 & Hr & Ho4 & Hb4).
    exists e, l, w4. split; [done|]. right. split; [by apply Hne'|]. split; [done|].
    unfold FPX_INVALID_SOCKET in *. rewrite Ho2, Hb2 in *. split.
    + rewrite Ho4. destruct (Z.eqb_spec fd (-1)); [done|]. destruct Hfd as [?|[_ Hn]]; [done|set_solver].
    + rewrite Hb4. destruct (Z.eqb_spec fd (-1)) as [|E]; [done|].
      destruct Hfd as [?|[_ Hn]]; [done|]. by rewrite decide_False, Hb1.
Qed.

(** C21: The sockets of [fpx_listener_bind].  It reads an indeterminate pointer when the
    listener has no port (or no address); otherwise it returns.  If [getaddrinfo] finds
    addresses, it succeeds exactly when the listener has got a new socket, the one
    descriptor that has been opened, and on an error no descriptor is left open and the
    listener is unchanged, however many addresses were tried; but when none of them could
    be bound it closes its last descriptor a second time, if it had one: by then another
    thread may have been given it.  If [getaddrinfo] fails, no descriptor is opened and the
    listener is unchanged, and the answer is the value of [errno]: [FPX_OK], without a
    socket, when [getaddrinfo] has not set it. *)
Theorem listener_bind_sockets l w :
  (li_text_addr l = PUndef ∨ li_text_port l = PUndef → fpx_listener_bind l w = UB) ∧
  ∀ addr port, ptr_arg (li_text_addr l) = Ok addr → ptr_arg (li_text_port l) = Ok port →
  bind_outcome l w addr port (fpx_listener_bind l w).
Proof using laws.
  split; [|intros addr port; apply listener_bind_ok].
  unfold fpx_listener_bind. intros [->| ->]; [done|]. by destruct (li_text_addr l).
Qed.

(** Closing the descriptor a connection owns. *)
Lemma connection_close_ok c w : cn_fd c ≠ -1 → cn_fd c ∈ opened w →
  let r := fpx_connection_close c w in
  cn_fd r.1 = -1 ∧ opened r.2 = opened w ∖ {[cn_fd c]} ∧ bad r.2 = bad w.
Proof using laws.
  intros Hne Hin. unfold fpx_connection_close, FPX_INVALID_SOCKET. rewrite (proj2 (Z.eqb_neq _ _) Hne). cbn [negb].
  pose proof (socket_err_keeps _ w (law_shutdown _ _ laws w (cn_fd c) FPX_SHUT_RDWR)) as Hk.
  unfold fpx_socket_shutdown. destruct (socket_err _) as [e w1]. cbn [fst snd] in *. destruct Hk as [Ho Hb].
  destruct (law_close _ _ laws w1 (cn_fd c)) as [H1 H2]. unfold fpx_socket_close. rewrite H1, H2, Ho, Hb.
  by rewrite decide_True.
Qed.

(** C30: The descriptor of a connection.  [fpx_connection_accept] either succeeds, with
    a descriptor that was not open before and the listener as owner, or leaves no
    descriptor behind and the connection without one; [fpx_connection_close] then
    closes that descriptor once, and a second call does nothing.  The mark of a
    connection is that of a listener, and [fpx_listener_clear] leaves the descriptor
    [0], so that a later [fpx_listener_close] closes the standard input. *)
Theorem connection_sockets c l w :
  match fpx_connection_accept c l w with
  | (err, c', w') =>
      if err =? FPX_OK then
        0 ≤ cn_fd c' ∧ (cn_fd c' ∉ opened w) ∧ opened w' = {[cn_fd c']} ∪ opened w ∧ bad w' = bad w ∧
        cn_owner c' = Some l ∧
        (let r := fpx_connection_close c' w' in
         cn_fd r.1 = FPX_INVALID_SOCKET ∧ opened r.2 = opened w ∧ bad r.2 = bad w ∧
         fpx_connection_close r.1 r.2 = r)
      else cn_fd c' = cn_fd c ∧ cn_owner c' = cn_owner c ∧ opened w' = opened w ∧ bad w' = bad w
  end ∧
  (∀ create err c1 w1, fpx_connection_init create w = (err, c1, w1) → err = FPX_OK →
   fpx_is_listener (cn_type_id c1) = true ∧ fpx_is_connection (cn_type_id c1) = false) ∧
  (let r := fpx_listener_clear l w in (fpx_listener_close r.1 r.2).2 = fpx_socket_close r.2 0).
Proof using laws.
  split; [|split].
  2: { intros create err c1 w1. unfold fpx_connection_init. destruct (create w) as [[e p] w2].
       destruct (Z.eqb_spec e FPX_OK); cbn [negb]; intros [= <- <- <-] ?; [|done]. done. }
  2: { unfold fpx_listener_clear. by destruct (fpx_listener_close l w). }
  unfold fpx_connection_accept, fpx_socket_accept.
  destruct (law_accept _ _ laws w (li_fd l) 16) as (Hs & Hb & He).
  destruct (sk_accept w (li_fd l) 16) as [[fd a] w1]. cbn [fst snd] in *. unfold FPX_INVALID_SOCKET.
  destruct (Z.eqb_spec fd (-1)) as [->|E].
  { destruct Hs as [[_ Ho]|(? & _)]; [|lia]. rewrite (proj2 (Z.eqb_neq _ _)) by auto. cbn [negb].
    by rewrite (proj2 (Z.eqb_neq _ _)) by auto. }
  destruct Hs as [[? _]|(Hpos & Hn & Ho)]; [lia|]. change (negb (FPX_OK =? FPX_OK)) with false. cbn iota.
  pose proof (nonblocking_keeps w1 fd) as K. destruct (fpx_socket_nonblocking w1 fd) as [e w2]. cbn [snd] in K.
  destruct (keeps_own w w1 w2 fd Ho Hb K) as [Ho2 Hb2].
  destruct (Z.eqb_spec e FPX_OK) as [->|Ee]; cbn [negb].
  - change (FPX_OK =? FPX_OK) with true. cbn iota. cbn [cn_fd cn_owner]. do 5 (split; [done|]).
    set (c' := Connect _ fd _ _ _ _ _). destruct (connection_close_ok c' w2) as (H1 & H2 & H3); [cbn; lia|set_solver|].
    cbn [cn_fd] in *. split; [done|]. split; [rewrite H2, Ho2; cbn; set_solver|]. split; [congruence|].
    destruct (fpx_connection_close c' w2) as [c2 w3]. cbn [fst snd] in *.
    unfold fpx_connection_close. by rewrite H1.
  - rewrite (proj2 (Z.eqb_neq _ _)) by done. destruct (close_own w w2 fd Hn Ho2 Hb2). by cbn.
Qed.
End ListenProofs.

(** A system whose addresses are all in use, and which knows no port without a name: the
    state is the set of open descriptors, the number of bad calls and [errno]; a new
    descriptor is above the open ones. *)
Definition next_fd (s : gset Z) : Z := foldr Z.max 0 (elements s) + 1.
Definition busy : Type := gset Z * nat * Z.
#[local] Instance busy_sockets : Sockets busy := {|
  sk_errno w := w.2;
  sk_socket w d t p := (next_fd w.1.1, ({[next_fd w.1.1]} ∪ w.1.1, w.1.2, w.2));
  sk_setsockopt w fd lv o v := (0, w); sk_ioctl w fd rq v := (0, w); sk_getfl w fd := (2, w); sk_setfl w fd fl := (0, w);
  sk_bind w fd a := (-1, (w.1, 98)); sk_listen w fd n := (if fd <? 0 then -1 else 0, (w.1, 9));
  sk_accept w fd n := (next_fd w.1.1, None, ({[next_fd w.1.1]} ∪ w.1.1, w.1.2, w.2));
  sk_connect w fd a := (-1, w); sk_shutdown w fd h := (0, w);
  sk_close w fd := (w.1.1 ∖ {[fd]}, if decide (fd ∈ w.1.1) then w.1.2 else S w.1.2, w.2);
  sk_getaddrinfo w a p f t fl pr := (match p with Some _ => Some [Addrinfo 2 1 6 (Sockaddr 2 [])] | None => None end, w);
  sk_freeaddrinfo w := w; sk_getsockname w fd := (None, (w.1, 9)); sk_getnameinfo w a n h s f := (None, w); sk_msleep w ms := w
|}.

Lemma foldr_max_ge l : 0 ≤ foldr Z.max 0 l.
Proof. induction l; cbn [foldr]; lia. Qed.
Lemma foldr_max_elem l x : x ∈ l → x ≤ foldr Z.max 0 l.
Proof. induction 1; cbn [foldr]; lia. Qed.
Lemma next_fd_fresh s : 0 ≤ next_fd s ∧ next_fd s ∉ s.
Proof.
  unfold next_fd. split; [pose proof (foldr_max_ge (elements s)); lia|].
  intros Hin. apply elem_of_elements, foldr_max_elem in Hin. lia.
Qed.

Lemma busy_laws : socket_laws (W := busy) (λ w, w.1.1) (λ w, w.1.2).
Proof.
  split; try (intros; done).
  1, 2: intros w; destruct (next_fd_fresh w.1.1) as [? ?]; cbn; (split; [by right|]; split; [done|lia]).
  - intros w a p f t fl pr. by destruct p.
  - intros w fd n. cbn. split; [done|]. split; [|done]. intros ?. by rewrite (proj2 (Z.ltb_lt _ _)).
Qed.

(** Two descriptors are open; the third, closed after the failed attempts, is closed
    again.  Without the name of a port nothing is found and nothing reported. *)
Lemma listener_bind_sockets_witness :
  let l p := (fpx_listener_init_ipv4 (PText (chars_of "127.0.0.1")) p).2 in
  let w : busy := ({[1; 2]}, O, 0) in
  (fpx_listener_bind (l (PText (chars_of "80"))) w = Ok (98, l (PText (chars_of "80")), ({[1; 2]}, 1%nat, 98)) ∧
   ∃ err l' w', fpx_listener_bind (l (PText (chars_of "80"))) w = Ok (err, l', w') ∧ err ≠ FPX_OK ∧ w'.1.1 = w.1.1) ∧
  (∃ w', fpx_listener_bind (l PNull) w = Ok (FPX_OK, l PNull, w') ∧ w'.1.1 = w.1.1) ∧
  fpx_listener_bind (l PUndef) w = UB.
Proof.
  intros l w. pose proof (listener_bind_sockets _ _ busy_laws) as Hthm. split; [split; [vm_compute; reflexivity|]|split].
  - destruct (proj2 (Hthm (l (PText (chars_of "80"))) w) _ _ eq_refl eq_refl) as (err & l' & w' & Hr & Hout).
    cbn [lookup_of sk_getaddrinfo busy_sockets] in Hout. destruct Hout as [[-> _]|(He & _ & Ho & _)]; [|by exists err, l', w'].
    exfalso. assert (∃ l1 w1, fpx_listener_bind (l (PText (chars_of "80"))) w = Ok (98, l1, w1)) as (l1 & w1 & E)
      by (eexists _, _; vm_compute; reflexivity). rewrite E in Hr. discriminate.
  - destruct (proj2 (Hthm (l PNull) w) _ _ eq_refl eq_refl) as (err & l' & w' & Hr & Hout).
    cbn [lookup_of sk_getaddrinfo busy_sockets] in Hout. destruct Hout as (-> & -> & Ho & _). exists w'. split; [exact Hr|exact Ho].
  - apply (Hthm (l PUndef) w). by right.
Defined.

Lemma connection_sockets_witness :
  let w : busy := ({[1; 2]}, O, 0) in
  let l := (fpx_listener_init_ipv4 PNull PNull).2 in
  let c := (fpx_connection_init (λ w, (FPX_OK, 4096, w)) w).1.2 in
  match fpx_connection_accept c l w with
  | (err, c', w') => err = FPX_OK ∧ cn_fd c' = 3 ∧ (fpx_connection_close c' w').2 = w
  end.
Proof.
  intros w l c. destruct (connection_sockets _ _ busy_laws c l w) as [H _].
  destruct (fpx_connection_accept c l w) as [[err c'] w'] eqn:E. vm_compute in E. injection E as <- <- <-.
  cbn [Z.eqb FPX_OK] in H. destruct H as (_ & _ & _ & _ & _ & H). cbn zeta in H. destruct H as (_ & Ho & Hb & _).
  split; [reflexivity|]. split; [reflexivity|]. apply injective_projections; [|reflexivity].
  apply injective_projections; [exact Ho|exact Hb].
Defined.
