(* ===== verification/Event.v ===== *)
(** * The event loops: what they share

    The three files of [src/src/system/event] are written against a configuration
    structure [fpx_conf_t], lists of connections and handlers of events that the
    repository does not define; [include/floppix/core/event.h] declares the handlers.  The
    structure is modelled with the fields the files use, and the functions are the
    interface [EventCalls]: a state to a state, with an error code where the declared type
    has one.  Listeners and connections are those of [Listen], at addresses, because the
    loops tell them apart by their first member behind a [void *].  The calls of the
    logger are left out. *)

From S2P Require Import Prelude CInt Errno Str Socket Listen.
Open Scope Z_scope.

(** What lies at an address: a listener, or a connection with the field
    [ready_to_write], which [connection.h] has in a comment only. *)
Inductive object :=
  | OListener (l : fpx_listener_t)
  | OConnect (c : fpx_connect_t) (ready_to_write : bool).

(** [cf_connects] is [listener->connects] by the address of the listener. *)
Record fpx_conf_t (W : Type) := Conf {
  cf_timer : Z;
  cf_listeners : list Z;
  cf_connects : gmap Z (list Z);
  cf_heap : gmap Z object;
  cf_world : W
}.
Arguments Conf {W}.
Arguments cf_timer {W}.
Arguments cf_listeners {W}.
Arguments cf_connects {W}.
Arguments cf_heap {W}.
Arguments cf_world {W}.

(** The functions without a definition. *)
Class EventCalls (W : Type) := {
  (* fpx_try_use_already_exist_node(size, conf->free_connects, listener->connects) *)
  ev_use_node : fpx_conf_t W → Z → Z → option Z * fpx_conf_t W;
  (* fpx_list_reserve_node(connect, conf->free_connects, connect->owner->connects) *)
  ev_reserve_node : fpx_conf_t W → Z → fpx_conf_t W;
  ev_connection_cleanup : fpx_conf_t W → Z → fpx_conf_t W;
  fpx_event_connect : fpx_conf_t W → Z → fpx_err_t * fpx_conf_t W;
  fpx_event_read : fpx_conf_t W → Z → fpx_err_t * fpx_conf_t W;
  fpx_event_write : fpx_conf_t W → Z → fpx_err_t * fpx_conf_t W;
  fpx_event_timer : fpx_conf_t W → fpx_err_t * fpx_conf_t W
}.

Definition EINTR : fpx_err_t := 4.
Definition SIZEOF_CONNECT : Z := 184.

Section Objects.
Context {W : Type} `{Sockets W} `{EventCalls W}.

Definition set_world (conf : fpx_conf_t W) (w : W) : fpx_conf_t W :=
  Conf (cf_timer conf) (cf_listeners conf) (cf_connects conf) (cf_heap conf) w.
Definition set_object (conf : fpx_conf_t W) (p : Z) (o : object) : fpx_conf_t W :=
  Conf (cf_timer conf) (cf_listeners conf) (cf_connects conf) (<[p := o]> (cf_heap conf)) (cf_world conf).

(** A pointer used as a pointer to a listener, or to a connection. *)
Definition listener_at (conf : fpx_conf_t W) (p : Z) : res fpx_listener_t :=
  match cf_heap conf !! p with Some (OListener l) => Ok l | _ => UB end.
Definition connect_at (conf : fpx_conf_t W) (p : Z) : res (fpx_connect_t * bool) :=
  match cf_heap conf !! p with Some (OConnect c ready) => Ok (c, ready) | _ => UB end.
(** [type_id], the first member of both. *)
Definition type_id_at (conf : fpx_conf_t W) (p : Z) : res Z :=
  match cf_heap conf !! p with
  | Some (OListener l) => Ok (li_type_id l)
  | Some (OConnect c _) => Ok (cn_type_id c)
  | None => UB
  end.

(** The beginning of [fpx_epoll_add_connect], which is the whole of
    [fpx_select_add_connect]: the error, and the connection unless the function jumps to
    [failed].  Without a node the error is [errno], whatever it is. *)
Definition accept_connect (conf : fpx_conf_t W) (listener : Z) : res (fpx_err_t * option Z * fpx_conf_t W) :=
  l ← listener_at conf listener;
  let '(connect, conf) := ev_use_node conf SIZEOF_CONNECT listener in
  match connect with
  | None => Ok (sk_errno (cf_world conf), None, conf)
  | Some connect =>
      '(c, ready) ← connect_at conf connect;
      let '(err, c, w) := fpx_connection_accept c l (cf_world conf) in
      let conf := set_world (set_object conf connect (OConnect c ready)) w in
      if negb (err =? FPX_OK) then Ok (err, None, conf) else Ok (FPX_OK, Some connect, conf)
  end.
End Objects.

(** ** Laws the loops rely on *)

(** The listeners are where they were. *)
Definition same_listeners {W} (conf conf' : fpx_conf_t W) : Prop :=
  ∀ p l, cf_heap conf' !! p = Some (OListener l) ↔ cf_heap conf !! p = Some (OListener l).

#[export] Instance same_listeners_preorder {W} : PreOrder (same_listeners (W := W)).
Proof. split; [by intros conf p l|]. intros x y z Hxy Hyz p l. by rewrite (Hyz p l). Qed.

Lemma same_listeners_set {W} (conf : fpx_conf_t W) p c r c' r' :
  cf_heap conf !! p = Some (OConnect c r) → same_listeners conf (set_object conf p (OConnect c' r')).
Proof.
  intros Hp q l. cbn [set_object cf_heap]. destruct (decide (q = p)) as [->|].
  - rewrite lookup_insert, Hp. by case_decide.
  - by rewrite lookup_insert_ne by done.
Qed.

(** The state of the listening sockets, seen by a function of the world, is not changed by
    the handlers of events and the functions for nodes. *)
Record handler_laws {W A} `{EventCalls W} (view : W → A) : Prop := {
  hl_use_node conf size p : let conf' := (ev_use_node conf size p).2 in
    same_listeners conf conf' ∧ view (cf_world conf') = view (cf_world conf);
  hl_connect conf p : let conf' := (fpx_event_connect conf p).2 in
    same_listeners conf conf' ∧ view (cf_world conf') = view (cf_world conf);
  hl_read conf p : let conf' := (fpx_event_read conf p).2 in
    same_listeners conf conf' ∧ view (cf_world conf') = view (cf_world conf);
  hl_write conf p : let conf' := (fpx_event_write conf p).2 in
    same_listeners conf conf' ∧ view (cf_world conf') = view (cf_world conf);
  hl_timer conf : let conf' := (fpx_event_timer conf).2 in
    same_listeners conf conf' ∧ view (cf_world conf') = view (cf_world conf)
}.
