(* ===== verification/Epoll.v ===== *)
(** * The event loop with epoll: [src/src/system/event/epoll.c]

    The functions of the file over the calls of [EpollCalls].  The laws say what
    edge-triggered readiness is; the theorems show what the loop makes of it. *)

From S2P Require Import Prelude CInt Errno Str Socket Listen Event.
Open Scope Z_scope.

(** One field per call; the data of an event is a pointer.  [ep_wait] answers [None] for
    -1, the events otherwise. *)
Class EpollCalls (W : Type) := {
  ep_create : W → Z * W;
  ep_ctl : W → Z → Z → Z → Z * option Z → Z * W;
  ep_wait : W → Z → Z → Z → option (list (option Z * Z)) * W;
  ep_malloc : W → Z → option Z * W
}.

Definition EPOLLIN : Z := 1.
Definition EPOLLOUT : Z := 4.
Definition EPOLLRDHUP : Z := 8192.
Definition EPOLLET : Z := 2147483648.
Definition EPOLL_CTL_ADD : Z := 1.
Definition EPOLL_CTL_DEL : Z := 2.
Definition SIZEOF_EPOLL_EVENT : Z := 12.

(** The static variables. *)
Record epoll := Epoll { epfd : Z; max_events : Z; event_list : option Z }.
Definition epoll_start : epoll := Epoll FPX_INVALID_SOCKET 0 None.

Section Epoll.
Context {W : Type} `{Sockets W} `{EventCalls W} `{EpollCalls W}.

(** [epoll_ctl] for a listener, adding or deleting. *)
Definition ctl_listener (op : Z) (e : epoll) (conf : fpx_conf_t W) (listener flags : Z)
    : res (fpx_err_t * fpx_conf_t W) :=
  l ← listener_at conf listener;
  let '(r, w) := ep_ctl (cf_world conf) (epfd e) op (li_fd l) (u32 flags, Some listener) in
  if r =? -1 then Ok (sk_errno w, set_world conf w) else Ok (FPX_OK, set_world conf w).
Definition fpx_epoll_add_listener := ctl_listener EPOLL_CTL_ADD.
Definition fpx_epoll_del_listener := ctl_listener EPOLL_CTL_DEL.

Definition connect_flags : Z := Z.lor (Z.lor (Z.lor EPOLLIN EPOLLOUT) EPOLLET) EPOLLRDHUP.
Definition fpx_epoll_add_connect (e : epoll) (conf : fpx_conf_t W) (listener : Z) : res (fpx_err_t * fpx_conf_t W) :=
  '(err, connect, conf) ← accept_connect conf listener;
  match connect with
  | None => Ok (err, conf)
  | Some connect =>
      '(c, _) ← connect_at conf connect;
      let '(r, w) := ep_ctl (cf_world conf) (epfd e) EPOLL_CTL_ADD (cn_fd c) (connect_flags, Some connect) in
      if r =? -1 then Ok (sk_errno w, set_world conf w) else Ok (FPX_OK, set_world conf w)
  end.

Definition fpx_epoll_del_connect (e : epoll) (conf : fpx_conf_t W) (connect : Z) : res (fpx_err_t * fpx_conf_t W) :=
  '(c, _) ← connect_at conf connect;
  let '(r, w) := ep_ctl (cf_world conf) (epfd e) EPOLL_CTL_DEL (cn_fd c) (0, None) in
  let conf := set_world conf w in
  if r =? -1 then Ok (sk_errno w, conf) else
  let conf := ev_connection_cleanup conf connect in
  '(c, _) ← connect_at conf connect;
  _ ← of_option (cn_owner c);
  Ok (FPX_OK, ev_reserve_node conf connect).

(** One event of the list. *)
Definition handle_event (e : epoll) (conf : fpx_conf_t W) (event : option Z * Z) : res (fpx_err_t * fpx_conf_t W) :=
  let '(ptr, ready_events) := event in
  ptr ← of_option ptr;
  type_id ← type_id_at conf ptr;
  if fpx_is_listener type_id then
    '(err, conf) ← fpx_epoll_add_connect e conf ptr;
    if negb (err =? FPX_OK) then Ok (err, conf) else Ok (fpx_event_connect conf ptr)
  else
    let '(err, conf) :=
      if negb (Z.land ready_events EPOLLIN =? 0) then fpx_event_read conf ptr else (FPX_OK, conf) in
    if negb (err =? FPX_OK) then Ok (err, conf) else
    if negb (Z.land ready_events EPOLLOUT =? 0) then
      '(_, ready_to_write) ← connect_at conf ptr;
      if ready_to_write : bool then Ok (fpx_event_write conf ptr) else Ok (FPX_OK, conf)
    else Ok (FPX_OK, conf).

Fixpoint handle_events (e : epoll) (conf : fpx_conf_t W) (events : list (option Z * Z)) : res (fpx_err_t * fpx_conf_t W) :=
  match events with
  | [] => Ok (FPX_OK, conf)
  | event :: events =>
      '(err, conf) ← handle_event e conf event;
      if negb (err =? FPX_OK) then Ok (err, conf) else handle_events e conf events
  end.

(** After an interrupted wait [events] is -1 and the loop has nothing to do. *)
Definition fpx_epoll_process_events (e : epoll) (conf : fpx_conf_t W) : res (fpx_err_t * fpx_conf_t W) :=
  let timer := cf_timer conf in
  let '(events, w) := ep_wait (cf_world conf) (epfd e) (max_events e) (s32 timer) in
  let conf := set_world conf w in
  match events with
  | None => Ok (if negb (sk_errno w =? EINTR) then sk_errno w else FPX_OK, conf)
  | Some [] => Ok (FPX_OK, (fpx_event_timer conf).2)
  | Some events => handle_events e conf events
  end.

Fixpoint add_listeners (e : epoll) (conf : fpx_conf_t W) (ls : list Z) : res (fpx_err_t * fpx_conf_t W) :=
  match ls with
  | [] => Ok (FPX_OK, conf)
  | l :: ls =>
      '(err, conf) ← fpx_epoll_add_listener e conf l (Z.lor EPOLLIN EPOLLET);
      if negb (err =? FPX_OK) then Ok (err, conf) else add_listeners e conf ls
  end.
Definition fpx_epoll_init (e : epoll) (conf : fpx_conf_t W) : res (fpx_err_t * epoll * fpx_conf_t W) :=
  let e := Epoll (epfd e) (s32 (Z.of_nat (length (cf_listeners conf)))) (event_list e) in
  let '(fd, w) := ep_create (cf_world conf) in
  let e := Epoll fd (max_events e) (event_list e) in
  let conf := set_world conf w in
  if fd =? -1 then Ok (sk_errno w, e, conf) else
  let '(mem, w) := ep_malloc w (u64 (SIZEOF_EPOLL_EVENT * max_events e)) in
  let e := Epoll fd (max_events e) mem in
  let conf := set_world conf w in
  match mem with
  | None => Ok (sk_errno w, e, conf)
  | Some _ => '(err, conf) ← add_listeners e conf (cf_listeners conf); Ok (err, e, conf)
  end.
End Epoll.

(** ** Edge-triggered readiness

    For one listening socket [f] whose listener is at [p]: [pending] is the length of its
    queue, [edge] whether a connection has come in since the socket was last reported.
    [epoll_wait] reports a socket once per edge, [accept] takes one connection, and calls
    on other descriptors change neither. *)
Record edge_laws {W} `{Sockets W} `{EpollCalls W} (f p : Z) (pending : W → nat) (edge : W → bool) : Prop := {
  ed_wait w e m t : match ep_wait w e m t with
    | (None, w') => pending w' = pending w ∧ edge w' = edge w
    | (Some events, w') => pending w' = pending w ∧ NoDup events.*1 ∧
        (if decide (Some p ∈ events.*1) then edge w = true ∧ edge w' = false else edge w' = edge w)
    end;
  ed_accept w fd n : let r := sk_accept w fd n in
    edge r.2 = edge w ∧ r.1.1 ≠ f ∧
    pending w = (pending r.2 + if decide (fd = f ∧ (r.1.1 ≠ -1)%Z) then 1 else 0)%nat;
  ed_getfl w fd : let w' := (sk_getfl w fd).2 in pending w' = pending w ∧ edge w' = edge w;
  ed_setfl w fd fl : let w' := (sk_setfl w fd fl).2 in pending w' = pending w ∧ edge w' = edge w;
  ed_close w fd : fd ≠ f → pending (sk_close w fd) = pending w ∧ edge (sk_close w fd) = edge w;
  ed_ctl w e op fd d : fd ≠ f → let w' := (ep_ctl w e op fd d).2 in pending w' = pending w ∧ edge w' = edge w
}.

Section Backlog.
Context {W : Type} `{Sockets W} `{EventCalls W} `{EpollCalls W}.
Context (f p : Z) (pending : W → nat) (edge : W → bool).
Hypothesis laws : edge_laws f p pending edge.
Hypothesis handlers : handler_laws (λ w, (pending w, edge w)).

(** [p] is the only listener with the descriptor [f]. *)
Definition only_listener (conf : fpx_conf_t W) : Prop :=
  ∀ q l, cf_heap conf !! q = Some (OListener l) → li_fd l = f → q = p.

(** [n] connections at most have been taken from the queue, and everything else about the
    socket is as before. *)
Definition taken (n : nat) (conf conf' : fpx_conf_t W) : Prop :=
  same_listeners conf conf' ∧ edge (cf_world conf') = edge (cf_world conf) ∧
  (pending (cf_world conf) ≤ pending (cf_world conf') + n)%nat.

Lemma taken_trans n m c1 c2 c3 : taken n c1 c2 → taken m c2 c3 → taken (n + m) c1 c3.
Proof using. intros (S1 & E1 & P1) (S2 & E2 & P2). split; [by etrans|]. split; [congruence|lia]. Qed.
Lemma taken_weaken n conf : taken n conf conf.
Proof using. split; [done|]. split; [done|lia]. Qed.
Lemma taken_world n conf w : edge w = edge (cf_world conf) → (pending (cf_world conf) ≤ pending w + n)%nat →
  taken n conf (set_world conf w).
Proof using. intros He Hp. split; [by intros q l|]. by split. Qed.
Lemma taken_handler conf conf' :
  same_listeners conf conf' ∧ (pending (cf_world conf'), edge (cf_world conf')) = (pending (cf_world conf), edge (cf_world conf)) →
  taken 0 conf conf'.
Proof using. intros [Hs Hv]. injection Hv as Hp He. split; [done|]. split; [done|lia]. Qed.
Lemma only_taken n conf conf' : taken n conf conf' → only_listener conf → only_listener conf'.
Proof using. intros (Hs & _) Ho q l Hq. by apply Ho, Hs. Qed.

Lemma nonblocking_view (w : W) fd : let w' := (Linux.fpx_socket_nonblocking w fd).2 in
  pending w' = pending w ∧ edge w' = edge w.
Proof using laws.
  unfold Linux.fpx_socket_nonblocking, socket_err. destruct (ed_getfl _ _ _ _ laws w fd) as [<- <-].
  destruct (sk_getfl w fd) as [fl w1]. cbn [snd]. destruct (ed_setfl _ _ _ _ laws w1 fd (Z.lor fl O_NONBLOCK)) as [<- <-].
  by destruct (_ =? _).
Qed.

Lemma accept_taken c l (w : W) : let '(err, c', w') := fpx_connection_accept c l w in
  edge w' = edge w ∧ (pending w ≤ pending w' + if decide (li_fd l = f) then 1 else 0)%nat ∧
  (err = FPX_OK → cn_fd c' ≠ f).
Proof using laws.
  unfold fpx_connection_accept, fpx_socket_accept. destruct (ed_accept _ _ _ _ laws w (li_fd l) 16) as (He & Hf & Hp).
  destruct (sk_accept w (li_fd l) 16) as [[fd a] w1]. cbn [fst snd] in *.
  assert (pending w ≤ pending w1 + if decide (li_fd l = f) then 1 else 0)%nat as Hle.
  { destruct (decide (li_fd l = f ∧ fd ≠ -1)) as [[? _]|]; destruct (decide (li_fd l = f)); try done; lia. }
  assert (∀ fd1 (c1 c2 : fpx_connect_t), fd1 ≠ f → cn_fd c2 = fd1 →
    let '(err, c', w') := (let '(err, w) := Linux.fpx_socket_nonblocking w1 fd1 in
      if negb (err =? FPX_OK) then (err, c1, fpx_socket_close w fd1) else (FPX_OK, c2, w)) in
    edge w' = edge w ∧ (pending w ≤ pending w' + if decide (li_fd l = f) then 1 else 0)%nat ∧
    (err = FPX_OK → cn_fd c' ≠ f)) as Hrest.
  { intros fd1 c1 c2 Hf1 Hc. destruct (nonblocking_view w1 fd1) as [N1 N2].
    destruct (Linux.fpx_socket_nonblocking w1 fd1) as [e w2]. cbn [snd] in *.
    destruct (Z.eqb_spec e FPX_OK); cbn [negb].
    - rewrite N1, N2, He. split; [done|]. split; [done|by rewrite Hc].
    - unfold fpx_socket_close. destruct (ed_close _ _ _ _ laws w2 fd1 Hf1) as [-> ->]. by rewrite N1, N2, He. }
  destruct (Z.eqb_spec fd FPX_INVALID_SOCKET) as [->|_].
  - destruct (Z.eqb_spec (sk_errno w1) FPX_OK) as [->|E]; cbn [negb]; [|by rewrite He].
    by apply Hrest.
  - change (negb (FPX_OK =? FPX_OK)) with false. cbn iota. by apply Hrest.
Qed.

Lemma accept_connect_taken conf q err node conf' : only_listener conf →
  accept_connect conf q = Ok (err, node, conf') →
  taken (if decide (q = p) then 1 else 0) conf conf' ∧
  (∀ n, node = Some n → ∃ c r, cf_heap conf' !! n = Some (OConnect c r) ∧ cn_fd c ≠ f).
Proof using laws handlers.
  intros Ho Hr. unfold accept_connect, listener_at in Hr.
  destruct (cf_heap conf !! q) as [[l|]|] eqn:Hq; [|done..]. rewrite bind_ok in Hr.
  pose proof (taken_handler _ _ (hl_use_node _ handlers conf SIZEOF_CONNECT q)) as Ht.
  destruct (ev_use_node conf SIZEOF_CONNECT q) as [[n|] c1]; cbn [snd] in *.
  2: { injection Hr as <- <- <-. split; [|done]. apply (taken_trans 0 _ _ c1); [done|]. apply taken_weaken. }
  unfold connect_at in Hr. destruct (cf_heap c1 !! n) as [[|c r]|] eqn:Hn; [done| |done]. rewrite bind_ok in Hr.
  pose proof (accept_taken c l (cf_world c1)) as Ha.
  destruct (fpx_connection_accept c l (cf_world c1)) as [[e c'] w']. destruct Ha as (He & Hp & Hfd).
  assert (taken (if decide (q = p) then 1 else 0) conf (set_world (set_object c1 n (OConnect c' r)) w')) as Hacc.
  { apply (taken_trans 0 _ _ c1); [done|]. split; [exact (same_listeners_set c1 n c r c' r Hn)|]. split; [done|]. cbn.
    case_decide as Hl; [|lia]. rewrite decide_True by exact (Ho q l Hq Hl). exact Hp. }
  destruct (Z.eqb_spec e FPX_OK) as [E|]; cbn [negb] in Hr; injection Hr as <- <- <-; (split; [exact Hacc|]); [|done].
  intros m [= <-]. exists c', r. split; [|by apply Hfd]. apply lookup_insert_eq.
Qed.

Lemma add_connect_taken e conf q err conf' : only_listener conf →
  fpx_epoll_add_connect e conf q = Ok (err, conf') → taken (if decide (q = p) then 1 else 0) conf conf'.
Proof using laws handlers.
  intros Ho Hr. unfold fpx_epoll_add_connect in Hr.
  apply bind_inv in Hr as ([[err1 node] c1] & Hacc & Hr). destruct (accept_connect_taken _ _ _ _ _ Ho Hacc) as [Ht Hn].
  destruct node as [n|]; [|by injection Hr as <- <-]. destruct (Hn n eq_refl) as (c & r & Hc & Hfd).
  unfold connect_at in Hr. rewrite Hc, bind_ok in Hr.
  destruct (ed_ctl _ _ _ _ laws (cf_world c1) (epfd e) EPOLL_CTL_ADD (cn_fd c) (connect_flags, Some n) Hfd) as [P E].
  destruct (ep_ctl _ _ _ _ _) as [rv w]. cbn [snd] in *. rewrite <- (Nat.add_0_r (if decide _ then 1 else 0)).
  eapply taken_trans; [exact Ht|]. destruct (rv =? -1); injection Hr as <- <-; apply taken_world; (done || lia).
Qed.

Lemma handle_event_taken e conf event err conf' : only_listener conf →
  handle_event e conf event = Ok (err, conf') → taken (if decide (event.1 = Some p) then 1 else 0) conf conf'.
Proof using laws handlers.
  intros Ho Hr. destruct event as [ptr fl]. unfold handle_event in Hr. apply bind_inv in Hr as (q & Hptr & Hr).
  destruct ptr as [q'|]; [injection Hptr as ->|done]. apply bind_inv in Hr as (ty & _ & Hr). cbn [fst].
  set (n := if decide (Some q = Some p) then 1%nat else 0%nat).
  assert (∀ c, taken 0 conf c → taken n conf c) as Hle by (intros c (? & ? & ?); split; [done|]; split; [done|lia]).
  destruct (fpx_is_listener ty).
  - apply bind_inv in Hr as ([err1 c1] & Hadd & Hr). apply (add_connect_taken _ _ _ _ _ Ho) in Hadd.
    assert (taken n conf c1) as Ht.
    { replace n with (if decide (q = p) then 1%nat else 0%nat); [done|]. unfold n. repeat case_decide; congruence. }
    destruct (negb (err1 =? FPX_OK)); [by injection Hr as <- <-|].
    pose proof (taken_handler _ _ (hl_connect _ handlers c1 q)) as Hh. destruct (fpx_event_connect c1 q) as [e2 c2].
    injection Hr as <- <-. rewrite <- (Nat.add_0_r n). by eapply taken_trans.
  - apply Hle. pose proof (taken_handler _ _ (hl_read _ handlers conf q)) as Hrd.
    destruct (negb (Z.land fl EPOLLIN =? 0)).
    + destruct (fpx_event_read conf q) as [e1 c1]. cbn [snd] in Hrd. destruct (negb (e1 =? FPX_OK)); [by injection Hr as <- <-|].
      destruct (negb (Z.land fl EPOLLOUT =? 0)); [|by injection Hr as <- <-].
      apply bind_inv in Hr as ([c r] & _ & Hr). destruct r; [|by injection Hr as <- <-].
      pose proof (taken_handler _ _ (hl_write _ handlers c1 q)) as Hw. destruct (fpx_event_write c1 q) as [e2 c2].
      injection Hr as <- <-. apply (taken_trans 0 0 _ c1); done.
    + change (negb (FPX_OK =? FPX_OK)) with false in Hr. cbn iota in Hr.
      destruct (negb (Z.land fl EPOLLOUT =? 0)); [|injection Hr as <- <-; apply taken_weaken].
      apply bind_inv in Hr as ([c r] & _ & Hr). destruct r; [|injection Hr as <- <-; apply taken_weaken].
      pose proof (taken_handler _ _ (hl_write _ handlers conf q)) as Hw. destruct (fpx_event_write conf q) as [e2 c2].
      by injection Hr as <- <-.
Qed.

Lemma handle_events_taken e events : ∀ conf err conf', NoDup events.*1 → only_listener conf →
  handle_events e conf events = Ok (err, conf') → taken (if decide (Some p ∈ events.*1) then 1 else 0) conf conf'.
Proof using laws handlers.
  induction events as [|event events IH]; intros conf err conf' Hnd Ho Hr; cbn [handle_events] in Hr.
  { injection Hr as <- <-. apply taken_weaken. }
  apply bind_inv in Hr as ([e1 c1] & He & Hr). apply (handle_event_taken _ _ _ _ _ Ho) in He.
  rewrite fmap_cons in *. apply NoDup_cons in Hnd as [Hni Hnd].
  destruct (negb (e1 =? FPX_OK)).
  - injection Hr as <- <-. destruct He as (Hs & Hed & Hp). split; [done|]. split; [done|].
    pose proof (list_elem_of_here (Some p) events.*1) as Hh.
    destruct (decide (event.1 = Some p)) as [E|E]; [rewrite E, decide_True by done; lia|case_decide; lia].
  - specialize (IH c1 err conf' Hnd (only_taken _ _ _ He Ho) Hr).
    destruct (taken_trans _ _ _ _ _ He IH) as (Hs & Hed & Hp). split; [done|]. split; [done|].
    destruct (decide (event.1 = Some p)) as [E|E].
    + rewrite E in *. rewrite (decide_True (P := Some p ∈ Some p :: _)) by apply list_elem_of_here.
      rewrite decide_False in Hp by done. lia.
    + destruct (decide (Some p ∈ events.*1)) as [Hin|]; [|case_decide; lia].
      rewrite decide_True by (by apply list_elem_of_further). lia.
Qed.

(** One turn of the loop: at most one connection is taken for an edge. *)
Lemma turn_taken e conf err conf' : only_listener conf → fpx_epoll_process_events e conf = Ok (err, conf') →
  same_listeners conf conf' ∧
  (pending (cf_world conf) + Nat.b2n (edge (cf_world conf')) ≤ pending (cf_world conf') + Nat.b2n (edge (cf_world conf)))%nat.
Proof using laws handlers.
  intros Ho Hr. unfold fpx_epoll_process_events in Hr.
  pose proof (ed_wait _ _ _ _ laws (cf_world conf) (epfd e) (max_events e) (s32 (cf_timer conf))) as Hw.
  destruct (ep_wait _ _ _ _) as [[events|] w].
  2: { injection Hr as <- <-. destruct Hw as [Hp He]. split; [by intros q l|]. cbn. rewrite Hp, He. lia. }
  destruct Hw as (Hp & Hnd & He).
  assert (∃ n, taken n (set_world conf w) conf' ∧ n = if decide (Some p ∈ events.*1) then 1%nat else 0%nat) as (n & Ht & Hn).
  { eexists. split; [|done]. destruct events as [|event events].
    - injection Hr as <- <-. cbn. case_decide as Hin; [by apply elem_of_nil in Hin|].
      by apply taken_handler, (hl_timer _ handlers (set_world conf w)).
    - by eapply handle_events_taken. }
  destruct Ht as (Hs & Hed & Hpe). split; [exact Hs|]. cbn [cf_world set_world] in *. rewrite Hed.
  case_decide as Hin.
  - destruct He as [-> ->]. simpl. lia.
  - rewrite He. lia.
Qed.

(** The loop turns and connections come in, in any order: [arrived] are the sizes of the
    bursts of connections. *)
Inductive serves (e : epoll) : fpx_conf_t W → list nat → fpx_conf_t W → Prop :=
  | serves_refl conf : serves e conf [] conf
  | serves_turn conf err conf1 arrived conf' :
      fpx_epoll_process_events e conf = Ok (err, conf1) → serves e conf1 arrived conf' → serves e conf arrived conf'
  | serves_burst conf k w arrived conf' :
      pending w = (pending (cf_world conf) + k)%nat → edge w = true →
      serves e (set_world conf w) arrived conf' → serves e conf (k :: arrived) conf'.

Lemma serves_pending e conf arrived conf' : serves e conf arrived conf' → only_listener conf →
  (pending (cf_world conf) + sum_list arrived ≤
   pending (cf_world conf') + length arrived + Nat.b2n (edge (cf_world conf)))%nat.
Proof using laws handlers.
  induction 1 as [conf|conf err conf1 arrived conf' Ht Hs IH|conf k w arrived conf' Hp He Hs IH]; intros Ho.
  - simpl. lia.
  - destruct (turn_taken _ _ _ _ Ho Ht) as [Hsame Hle].
    assert (only_listener conf1) as Ho1 by (intros q l Hq; by apply Ho, Hsame).
    specialize (IH Ho1). lia.
  - specialize (IH Ho). cbn [cf_world set_world sum_list length] in *. rewrite He, Hp in IH. simpl in *. lia.
Qed.
End Backlog.

(** ** Properties *)

Lemma accept_type {W} `{Sockets W} c l (w : W) : cn_type_id (fpx_connection_accept c l w).1.2 = cn_type_id c.
Proof.
  unfold fpx_connection_accept. destruct (fpx_socket_accept _ _ _ _ _) as [[[e fd] a] w1].
  destruct (negb (e =? FPX_OK)); [done|]. destruct (Linux.fpx_socket_nonblocking w1 fd) as [e2 w2].
  by destruct (negb (e2 =? FPX_OK)).
Qed.

Lemma add_connect_node {W} `{Sockets W} `{EventCalls W} `{EpollCalls W} e (conf conf1 conf' : fpx_conf_t W) q node c r :
  ev_use_node conf SIZEOF_CONNECT q = (Some node, conf1) → cf_heap conf1 !! node = Some (OConnect c r) →
  fpx_epoll_add_connect e conf q = Ok (FPX_OK, conf') →
  ∃ c', cf_heap conf' !! node = Some (OConnect c' r) ∧ cn_type_id c' = cn_type_id c.
Proof.
  intros Hu Hc Hr. unfold fpx_epoll_add_connect, accept_connect in Hr. rewrite bind_assoc in Hr.
  apply bind_inv in Hr as (l & _ & Hr). rewrite Hu in Hr. cbv beta iota in Hr.
  assert (connect_at conf1 node = Ok (c, r)) as Hn1 by (unfold connect_at; by rewrite Hc). rewrite Hn1, bind_ok in Hr.
  pose proof (accept_type c l (cf_world conf1)) as Hty.
  destruct (fpx_connection_accept c l (cf_world conf1)) as [[err c'] w']. cbn [fst snd] in Hty.
  assert (cf_heap (set_object conf1 node (OConnect c' r)) !! node = Some (OConnect c' r)) as Hn by apply lookup_insert_eq.
  destruct (negb (err =? FPX_OK)); rewrite bind_ok in Hr.
  - injection Hr as _ <-. by exists c'.
  - unfold connect_at in Hr. cbn [cf_heap set_world] in Hr. rewrite Hn, bind_ok in Hr.
    destruct (ep_ctl _ _ _ _ _) as [rv w2]. destruct (rv =? -1); injection Hr; intros; subst conf'; by exists c'.
Qed.

(** C33: Which object an event belongs to.  The loop tells listeners and connections
    apart by [type_id], a [bool]: of a connection set up by [fpx_connection_init] every
    event is taken for one of a listener, and the connection is used as a listener.  Of
    a connection accepted into a cleared node an EPOLLIN reaches the handler of readable
    connections. *)
Theorem epoll_connection_marks {W} `{Sockets W} `{EventCalls W} `{EpollCalls W}
    e (conf conf1 conf' : fpx_conf_t W) listener node c ready fl :
  ev_use_node conf SIZEOF_CONNECT listener = (Some node, conf1) →
  cf_heap conf1 !! node = Some (OConnect c ready) →
  fpx_epoll_add_connect e conf listener = Ok (FPX_OK, conf') →
  (∀ create (w0 w1 : W), fpx_connection_init create w0 = (FPX_OK, c, w1) →
     handle_event e conf' (Some node, fl) = UB) ∧
  (cn_type_id c = 0 → handle_event e conf' (Some node, EPOLLIN) = Ok (fpx_event_read conf' node)).
Proof.
  intros Hu Hc Hadd. destruct (add_connect_node e conf conf1 conf' listener node c ready Hu Hc Hadd) as (c' & Hn & Hty).
  unfold handle_event. cbn [of_option]. rewrite !bind_ok. unfold type_id_at. rewrite Hn, !bind_ok, Hty. split.
  - intros create w0 w1 Hi. unfold fpx_connection_init in Hi. destruct (create w0) as [[err pool] w2].
    destruct (Z.eqb_spec err FPX_OK); cbn [negb] in Hi; [|by injection Hi].
    injection Hi as <- _. unfold fpx_epoll_add_connect, accept_connect, listener_at. by rewrite Hn.
  - intros ->. change (fpx_is_listener 0) with false. cbn iota. change (negb (Z.land EPOLLIN EPOLLIN =? 0)) with true. cbn iota.
    destruct (fpx_event_read conf' node) as [err c2]. destruct (Z.eqb_spec err FPX_OK) as [->|]; done.
Qed.

(** C32: Connections are left waiting.  Listening sockets are registered edge-triggered,
    and for each report of one the loop accepts a single connection: whatever the order
    in which connections come in and the loop turns, at most one of every burst is
    accepted, and the others stay in the queue of the socket.  The handlers of events, which
    the repository does not define, are assumed to leave the listening sockets alone. *)
Theorem epoll_backlog {W} `{Sockets W} `{EventCalls W} `{EpollCalls W} f p pending edge e (conf : fpx_conf_t W) arrived conf' :
  edge_laws f p pending edge → handler_laws (λ w, (pending w, edge w)) → only_listener f p conf →
  serves pending edge e conf arrived conf' →
  (pending (cf_world conf) + sum_list arrived ≤
   pending (cf_world conf') + length arrived + Nat.b2n (edge (cf_world conf)))%nat.
Proof. intros laws handlers Ho Hs. by eapply serves_pending. Qed.

(** *** One listening socket

    Descriptor 3 with the listener at address 1; connections get the descriptors from 4 on
    and the nodes from address 100 on, cleared unless [n_marks]. *)
Record net := Net { n_pending : nat; n_edge : bool; n_next : Z }.
Definition take_one (w : net) : net := Net (pred (n_pending w)) (n_edge w) (n_next w + 1).
#[local] Instance net_sockets : Sockets net := {|
  sk_errno w := 11; sk_socket w d t p := (n_next w, Net (n_pending w) (n_edge w) (n_next w + 1));
  sk_setsockopt w fd lv o v := (0, w); sk_ioctl w fd rq v := (0, w); sk_getfl w fd := (2, w);
  sk_setfl w fd fl := (0, w); sk_bind w fd a := (0, w); sk_listen w fd n := (0, w);
  sk_accept w fd n := if (fd =? 3) && (0 <? Z.of_nat (n_pending w)) then (4 + Z.abs (n_next w), None, take_one w) else (-1, None, w);
  sk_connect w fd a := (0, w); sk_shutdown w fd h := (0, w); sk_close w fd := w;
  sk_getaddrinfo w a p f t fl pr := (None, w);
  sk_freeaddrinfo w := w; sk_getsockname w fd := (None, w);
  sk_getnameinfo w a n h s f := (None, w); sk_msleep w ms := w
|}.
(** A report while there is an edge; otherwise the wait times out. *)
#[local] Instance net_epoll : EpollCalls net := {|
  ep_create w := (5, w); ep_ctl w e op fd d := (0, w); ep_malloc w n := (Some 4096, w);
  ep_wait w e m t := if n_edge w then (Some [(Some 1, EPOLLIN)], Net (n_pending w) false (n_next w)) else (Some [], w)
|}.
Definition node_of (marks : bool) : fpx_connect_t :=
  if marks then Connect (to_bool FPX_CONNECTION_ID) FPX_INVALID_SOCKET (cn_sockaddr cleared_connect) PNull PNull None 0
  else cleared_connect.
#[local] Instance net_events (marks : bool) : EventCalls net := {|
  ev_use_node conf n p :=
    let a := 100 + Z.of_nat (size (cf_heap conf)) in
    match cf_heap conf !! a with
    | None => (Some a, set_object conf a (OConnect (node_of marks) false))
    | Some _ => (None, conf)
    end;
  ev_reserve_node conf p := conf; ev_connection_cleanup conf p := conf;
  fpx_event_connect conf p := (FPX_OK, conf); fpx_event_read conf p := (FPX_OK, conf);
  fpx_event_write conf p := (FPX_OK, conf); fpx_event_timer conf := (FPX_OK, conf)
|}.
Definition net_conf (w : net) : fpx_conf_t net :=
  Conf 0 [1] ∅ {[1 := OListener (Listener 1 3 (Sockaddr AF_INET []) PNull PNull)]} w.

Lemma net_laws : edge_laws 3 1 n_pending n_edge.
Proof.
  split; try done.
  - intros w e m t. cbn. destruct (n_edge w) eqn:E; cbn.
    + split; [done|]. split; [apply NoDup_singleton|]. rewrite decide_True by (by apply list_elem_of_singleton). done.
    + split; [done|]. split; [by apply NoDup_nil_2|]. rewrite decide_False by (by intros ?%elem_of_nil). done.
  - intros w fd n. cbn. destruct (Z.eqb_spec fd 3) as [->|Hfd]; cbn [andb].
    + destruct (Z.ltb_spec 0 (Z.of_nat (n_pending w))); cbn.
      * split; [done|]. split; [lia|]. rewrite decide_True by (split; [done|lia]). lia.
      * rewrite decide_False by (by intros [_ ?]). split; [done|]. split; [lia|]. lia.
    + cbn. rewrite decide_False by (by intros [? _]). split; [done|]. split; [lia|lia].
Qed.
Lemma net_handlers marks : handler_laws (H := net_events marks) (λ w, (n_pending w, n_edge w)).
Proof.
  split; intros conf; [|done..]. intros size p. cbn. destruct (cf_heap conf !! _) eqn:E; [done|].
  split; [|done]. intros q l. cbn [snd set_object cf_heap].
  destruct (decide (q = 100 + Z.of_nat (base.size (cf_heap conf)))) as [->|].
  - rewrite lookup_insert_eq, E. done.
  - by rewrite lookup_insert_ne by done.
Qed.

Lemma epoll_connection_marks_witness :
  let conf := net_conf (Net 1 true 0) in
  (∃ conf' : fpx_conf_t net, fpx_epoll_add_connect (H0 := net_events true) (Epoll 5 1 None) conf 1 = Ok (FPX_OK, conf') ∧
     handle_event (H0 := net_events true) (Epoll 5 1 None) conf' (Some 101, EPOLLIN) = UB) ∧
  (∃ conf' : fpx_conf_t net, handle_event (H0 := net_events false) (Epoll 5 1 None) conf' (Some 101, EPOLLIN) = Ok (FPX_OK, conf')).
Proof.
  intros conf. split.
  - eexists. split; [vm_compute; reflexivity|].
    eapply (epoll_connection_marks (H0 := net_events true) (Epoll 5 1 None) conf _ _ 1 101 (node_of true) false EPOLLIN);
      [vm_compute; reflexivity|vm_compute; reflexivity|vm_compute; reflexivity|].
    exact (eq_refl : fpx_connection_init (λ w : net, (FPX_OK, 0, w)) (Net 0 false 0) = (FPX_OK, node_of true, Net 0 false 0)).
  - eexists.
    eapply (epoll_connection_marks (H0 := net_events false) (Epoll 5 1 None) conf _ _ 1 101 (node_of false) false EPOLLIN);
      [vm_compute; reflexivity|vm_compute; reflexivity|vm_compute; reflexivity|reflexivity].
Defined.

(** A burst of three, then three turns: two connections are left, and nothing is
    reported any more. *)
Lemma epoll_backlog_witness :
  let conf := net_conf (Net 0 false 0) in
  ∃ conf' : fpx_conf_t net,
    serves (H0 := net_events false) n_pending n_edge (Epoll 5 1 None) conf [3%nat] conf' ∧
    cf_world conf' = Net 2 false 1 ∧ (0 + 3 ≤ 2 + 1 + 0)%nat.
Proof.
  intros conf.
  assert (∃ conf' : fpx_conf_t net,
    serves (H0 := net_events false) n_pending n_edge (Epoll 5 1 None) conf [3%nat] conf' ∧ cf_world conf' = Net 2 false 1)
    as (conf' & Hs & Hw).
  { eexists. split; [|].
    - apply (serves_burst _ _ _ conf 3 (Net 3 true 0)); [reflexivity|reflexivity|].
      eapply serves_turn; [vm_compute; reflexivity|]. eapply serves_turn; [vm_compute; reflexivity|].
      eapply serves_turn; [vm_compute; reflexivity|]. apply serves_refl.
    - reflexivity. }
  exists conf'. split; [exact Hs|]. split; [exact Hw|].
  assert (only_listener 3 1 conf) as Ho.
  { intros q l Hq _. unfold conf, net_conf in Hq. cbn [cf_heap] in Hq. by apply lookup_singleton_Some in Hq as [<- _]. }
  pose proof (epoll_backlog (H0 := net_events false) 3 1 n_pending n_edge (Epoll 5 1 None) conf [3%nat] conf'
    net_laws (net_handlers false) Ho Hs) as E.
  rewrite Hw in E. exact E.
Defined.
