(* ===== verification/Select.v ===== *)
(** * The event loop with select: [src/src/system/event/select.c]

    The lists of the old interface, [fpx_list_first] and [fpx_list_next], are sequences of
    addresses; the element after the current one is looked up after the handlers have
    run, so that a current element that has left its list is a dangling one. *)

From S2P Require Import Prelude CInt Errno Str Socket Listen Event.
Open Scope Z_scope.

(** [select] with the number of descriptors, the two sets and the timeout in seconds and
    microseconds: its answer and the sets afterwards. *)
Class SelectCalls (W : Type) :=
  se_select : W → Z → gset Z → gset Z → option (Z * Z) → Z * gset Z * gset Z * W.

Definition FD_SETSIZE : Z := 1024.
(** [FD_SET] and [FD_ISSET]; a descriptor out of range is outside the array of bits. *)
Definition FD_SET (fd : Z) (s : gset Z) : res (gset Z) :=
  _ ← require ((0 <=? fd) && (fd <? FD_SETSIZE)); Ok ({[fd]} ∪ s).
Definition FD_ISSET (fd : Z) (s : gset Z) : res bool :=
  _ ← require ((0 <=? fd) && (fd <? FD_SETSIZE)); Ok (bool_decide (fd ∈ s)).

Fixpoint list_next (l : list Z) (x : Z) : res (option Z) :=
  match l with
  | [] => UB
  | y :: l => if y =? x then Ok (head l) else list_next l x
  end.

Section Select.
Context {W : Type} `{Sockets W} `{EventCalls W} `{SelectCalls W}.

Definition connects_of (conf : fpx_conf_t W) (listener : Z) : list Z := default [] (cf_connects conf !! listener).

(** *** [fpx_set_events] *)

(** [fdmax] and the sets. *)
Definition sets : Type := Z * gset Z * gset Z.
Definition add_fd (fd : Z) (rfds : gset Z) (fdmax : Z) : res (Z * gset Z) :=
  s ← FD_SET fd rfds; Ok (if fdmax <? fd then fd else fdmax, s).
Fixpoint set_connects (conf : fpx_conf_t W) (cs : list Z) (s : sets) : res sets :=
  match cs with
  | [] => Ok s
  | p :: cs =>
      let '(fdmax, rfds, wfds) := s in
      '(c, ready_to_write) ← connect_at conf p;
      '(fdmax, rfds) ← add_fd (cn_fd c) rfds fdmax;
      if negb ready_to_write then set_connects conf cs (fdmax, rfds, wfds) else
      '(fdmax, wfds) ← add_fd (cn_fd c) wfds fdmax;
      set_connects conf cs (fdmax, rfds, wfds)
  end.
Fixpoint set_listeners (conf : fpx_conf_t W) (ls : list Z) (s : sets) : res sets :=
  match ls with
  | [] => Ok s
  | p :: ls =>
      let '(fdmax, rfds, wfds) := s in
      l ← listener_at conf p;
      '(fdmax, rfds) ← add_fd (li_fd l) rfds fdmax;
      s ← set_connects conf (connects_of conf p) (fdmax, rfds, wfds);
      set_listeners conf ls s
  end.
Definition fpx_set_events (conf : fpx_conf_t W) : res sets := set_listeners conf (cf_listeners conf) (0, ∅, ∅).

(** *** [fpx_process_events] *)
Definition fpx_select_add_connect (conf : fpx_conf_t W) (listener : Z) : res (fpx_err_t * fpx_conf_t W) :=
  '(err, _, conf) ← accept_connect conf listener; Ok (err, conf).

Section Process.
Variables rfds wfds : gset Z.

(** A handler, if the descriptor of the connection is in the set. *)
Definition if_ready (handler : fpx_conf_t W → Z → fpx_err_t * fpx_conf_t W) (s : gset Z) (conf : fpx_conf_t W) (p : Z)
    : res (fpx_err_t * fpx_conf_t W) :=
  '(c, _) ← connect_at conf p;
  ready ← FD_ISSET (cn_fd c) s;
  Ok (if ready : bool then handler conf p else (FPX_OK, conf)).

(** [fuel] bounds the number of connections visited. *)
Fixpoint process_connects (fuel : nat) (conf : fpx_conf_t W) (listener : Z) (connect : option Z)
    : res (fpx_err_t * fpx_conf_t W) :=
  match connect, fuel with
  | None, _ => Ok (FPX_OK, conf)
  | _, O => NoFuel
  | Some p, S fuel =>
      '(err, conf) ← if_ready fpx_event_read rfds conf p;
      if negb (err =? FPX_OK) then Ok (err, conf) else
      '(err, conf) ← if_ready fpx_event_write wfds conf p;
      if negb (err =? FPX_OK) then Ok (err, conf) else
      next ← list_next (connects_of conf listener) p;
      process_connects fuel conf listener next
  end.

(** The beginning of an iteration: a listener that is ready. *)
Definition process_listener (conf : fpx_conf_t W) (p : Z) : res (fpx_err_t * fpx_conf_t W) :=
  l ← listener_at conf p;
  ready ← FD_ISSET (li_fd l) rfds;
  if ready : bool then
    '(err, conf) ← fpx_select_add_connect conf p;
    if negb (err =? FPX_OK) then Ok (err, conf) else Ok (fpx_event_connect conf p)
  else Ok (FPX_OK, conf).

Fixpoint process_listeners (fuel : nat) (conf : fpx_conf_t W) (listener : option Z) : res (fpx_err_t * fpx_conf_t W) :=
  match listener, fuel with
  | None, _ => Ok (FPX_OK, conf)
  | _, O => NoFuel
  | Some p, S fuel =>
      '(err, conf) ← process_listener conf p;
      if negb (err =? FPX_OK) then Ok (err, conf) else
      '(err, conf) ← process_connects fuel conf p (head (connects_of conf p));
      if negb (err =? FPX_OK) then Ok (err, conf) else
      next ← list_next (cf_listeners conf) p;
      process_listeners fuel conf next
  end.
Definition fpx_process_events (fuel : nat) (conf : fpx_conf_t W) : res (fpx_err_t * fpx_conf_t W) :=
  process_listeners fuel conf (head (cf_listeners conf)).
End Process.

(** *** [fpx_select_process_events] *)
Definition timeout_of (timer : Z) : option (Z * Z) :=
  if timer =? 0 then None else Some (timer / 1000, timer mod 1000 * 1000).

(** One iteration of [while (1)]; nothing leaves the loop but [abort()]. *)
Definition select_turn (fuel : nat) (conf : fpx_conf_t W) : res (fpx_conf_t W + Empty_set) :=
  '(fdmax, rfds, wfds) ← fpx_set_events conf;
  let '(flag, rfds, wfds, w) := se_select (cf_world conf) (fdmax + 1) rfds wfds (timeout_of (cf_timer conf)) in
  let conf := set_world conf w in
  if flag =? -1 then (if negb (sk_errno w =? EINTR) then Abort else Ok (inl conf))
  else if flag =? 0 then Ok (inl (fpx_event_timer conf).2)
  else
    '(err, conf) ← fpx_process_events rfds wfds fuel conf;
    if negb (err =? FPX_OK) then Abort else Ok (inl conf).
(** [turns] bounds the number of iterations, [fuel] that of the elements visited in one. *)
Definition fpx_select_process_events (turns fuel : nat) (conf : fpx_conf_t W) : res Empty_set :=
  while turns (select_turn fuel) conf.
End Select.

(** ** What the sets contain *)

(** The listeners with their connections, in the order of the lists. *)
Definition view : Type := list (fpx_listener_t * list (fpx_connect_t * bool)).
Definition read_fds (v : view) : list Z := concat ((λ e, li_fd e.1 :: ((λ c, cn_fd c.1) <$> e.2)) <$> v).
Definition write_fds (v : view) : list Z := concat ((λ e, (λ c, cn_fd c.1) <$> List.filter snd e.2) <$> v).
Definition in_range (fd : Z) : Prop := 0 ≤ fd < FD_SETSIZE.
#[export] Instance in_range_dec fd : Decision (in_range fd).
Proof. unfold in_range. apply _. Defined.

(** Equality of two answers with equal maxima. *)
Ltac sets_eq := apply (f_equal Ok); apply f_equal2; [apply f_equal2; [done|set_solver]|set_solver].

Section Sets.
Context {W : Type} `{Sockets W} `{EventCalls W} `{SelectCalls W}.

Definition shows_connects (conf : fpx_conf_t W) : list Z → list (fpx_connect_t * bool) → Prop :=
  Forall2 (λ q c, cf_heap conf !! q = Some (OConnect c.1 c.2)).
Definition shows (conf : fpx_conf_t W) : list Z → view → Prop :=
  Forall2 (λ p e, cf_heap conf !! p = Some (OListener e.1) ∧ shows_connects conf (connects_of conf p) e.2).

Definition max_fd (fdmax : Z) (fds : list Z) : Z := foldl Z.max fdmax fds.

Lemma add_fd_ok fd s m : add_fd fd s m = if decide (in_range fd) then Ok (Z.max m fd, {[fd]} ∪ s) else UB.
Proof using.
  unfold add_fd, FD_SET, in_range, FD_SETSIZE. destruct (decide (0 ≤ fd < 1024)) as [[H1' H2']|Hn].
  - rewrite (proj2 (Z.leb_le 0 fd)), (proj2 (Z.ltb_lt fd 1024)) by done. cbn. f_equal. f_equal.
    destruct (Z.ltb_spec m fd); lia.
  - destruct (Z.leb_spec 0 fd); destruct (Z.ltb_spec fd 1024); try done. exfalso. by apply Hn.
Qed.

Lemma max_fd_ge fd fds : ∀ m, fd ≤ m → max_fd m (fd :: fds) = max_fd m fds.
Proof using. intros m Hle. unfold max_fd. cbn [foldl]. f_equal. lia. Qed.

Lemma set_connects_ok (conf : fpx_conf_t W) cs v : shows_connects conf cs v → ∀ m r w,
  set_connects conf cs (m, r, w) =
    let fds := (λ c, cn_fd c.1) <$> v in
    if decide (Forall in_range fds)
    then Ok (max_fd m fds, list_to_set fds ∪ r, list_to_set ((λ c, cn_fd c.1) <$> List.filter snd v) ∪ w)
    else UB.
Proof using.
  induction 1 as [|q [c ready] cs v Hq Hcs IH]; intros m r w; cbn [set_connects fmap list_fmap].
  - rewrite decide_True by done. cbn. by rewrite !(left_id_L ∅ union).
  - unfold connect_at. cbn [fst snd] in *. rewrite Hq, bind_ok, add_fd_ok.
    destruct (decide (in_range (cn_fd c))) as [Hr|Hr].
    2: { rewrite decide_False by (by intros [? _]%Forall_cons). done. }
    rewrite bind_ok. cbn [List.filter snd]. destruct ready; cbn [negb].
    + rewrite add_fd_ok, decide_True, bind_ok, IH by done.
      replace (Z.max (Z.max m (cn_fd c)) (cn_fd c)) with (Z.max m (cn_fd c)) by lia. cbv zeta.
      destruct (decide (Forall in_range _)) as [Ha|Ha].
      * rewrite decide_True by (by apply Forall_cons). cbn [fmap list_fmap list_to_set foldr fst]. sets_eq.
      * by rewrite decide_False by (by intros [_ ?]%Forall_cons).
    + rewrite IH. cbv zeta. destruct (decide (Forall in_range _)) as [Ha|Ha].
      * rewrite decide_True by (by apply Forall_cons). cbn [fmap list_fmap list_to_set foldr fst]. sets_eq.
      * by rewrite decide_False by (by intros [_ ?]%Forall_cons).
Qed.

Lemma set_listeners_ok (conf : fpx_conf_t W) ls v : shows conf ls v → ∀ m r w,
  set_listeners conf ls (m, r, w) =
    if decide (Forall in_range (read_fds v))
    then Ok (max_fd m (read_fds v), list_to_set (read_fds v) ∪ r, list_to_set (write_fds v) ∪ w)
    else UB.
Proof using.
  unfold read_fds, write_fds.
  induction 1 as [|p [l cs] ls v [Hp Hcs] Hls IH]; intros m r w; cbn [set_listeners].
  - rewrite decide_True by done. cbn. by rewrite !(left_id_L ∅ union).
  - cbn [fst snd] in *. unfold listener_at. rewrite Hp, bind_ok, add_fd_ok, !fmap_cons. cbn [concat fst snd app].
    destruct (decide (in_range (li_fd l))) as [Hr|Hr].
    2: { by rewrite decide_False by (by intros [? _]%Forall_cons). }
    rewrite bind_ok, (set_connects_ok _ _ _ Hcs). cbv zeta.
    destruct (decide (Forall in_range (_ <$> cs))) as [Hc|Hc].
    2: { by rewrite decide_False by (by intros [_ [? _]%Forall_app]%Forall_cons). }
    rewrite bind_ok, IH. destruct (decide (Forall in_range (concat _))) as [Ha|Ha].
    + rewrite decide_True by (apply Forall_cons; split; [done|by apply Forall_app]).
      unfold max_fd. cbn [foldl]. rewrite foldl_app. rewrite ?list_to_set_cons, !list_to_set_app_L. sets_eq.
    + by rewrite decide_False by (by intros [_ [_ ?]%Forall_app]%Forall_cons).
Qed.

End Sets.

(** ** The order of the visits *)

(** Where [fpx_process_events] is: at a listener, or at a connection of a listener, about
    to look whether it can be read, or written. *)
Inductive point :=
  | AtListener (p : Z)
  | AtRead (p q : Z)
  | AtWrite (p q : Z).

Section Walk.
Context {W : Type} `{Sockets W} `{EventCalls W} `{SelectCalls W}.
Variables rfds wfds : gset Z.

Definition visit (conf : fpx_conf_t W) (x : point) : res (fpx_err_t * fpx_conf_t W) :=
  match x with
  | AtListener p => process_listener rfds conf p
  | AtRead _ q => if_ready fpx_event_read rfds conf q
  | AtWrite _ q => if_ready fpx_event_write wfds conf q
  end.
(** The next point, by the lists as they are after the visit. *)
Definition next_listener (conf : fpx_conf_t W) (p : Z) : res (option point) :=
  next ← list_next (cf_listeners conf) p; Ok (option_map AtListener next).
Definition next_connect (conf : fpx_conf_t W) (p : Z) (next : option Z) : res (option point) :=
  match next with Some q => Ok (Some (AtRead p q)) | None => next_listener conf p end.
Definition next_point (conf : fpx_conf_t W) (x : point) : res (option point) :=
  match x with
  | AtListener p => next_connect conf p (head (connects_of conf p))
  | AtRead p q => Ok (Some (AtWrite p q))
  | AtWrite p q => next ← list_next (connects_of conf p) q; next_connect conf p next
  end.

(** [n] visits without an error lead from one point to another, or to the end. *)
Inductive walk : nat → option point → fpx_conf_t W → option point → fpx_conf_t W → Prop :=
  | walk_here x conf : walk 0 x conf x conf
  | walk_on n x conf conf1 y conf2 z :
      visit conf x = Ok (FPX_OK, conf1) → next_point conf1 x = Ok y →
      walk n y conf1 z conf2 → walk (S n) (Some x) conf z conf2.

(** The visits that fail: a connection that cannot be accepted, or the handler of a
    connection that has been accepted, can be read or can be written. *)
Inductive fails (conf : fpx_conf_t W) : point → Prop :=
  | fails_accept p l node conf1 c ready err c' w :
      cf_heap conf !! p = Some (OListener l) → in_range (li_fd l) → li_fd l ∈ rfds →
      ev_use_node conf SIZEOF_CONNECT p = (Some node, conf1) → cf_heap conf1 !! node = Some (OConnect c ready) →
      fpx_connection_accept c l (cf_world conf1) = (err, c', w) → err ≠ FPX_OK → fails conf (AtListener p)
  | fails_connect p l node conf1 c ready c' w err conf2 :
      cf_heap conf !! p = Some (OListener l) → in_range (li_fd l) → li_fd l ∈ rfds →
      ev_use_node conf SIZEOF_CONNECT p = (Some node, conf1) → cf_heap conf1 !! node = Some (OConnect c ready) →
      fpx_connection_accept c l (cf_world conf1) = (FPX_OK, c', w) →
      fpx_event_connect (set_world (set_object conf1 node (OConnect c' ready)) w) p = (err, conf2) → err ≠ FPX_OK →
      fails conf (AtListener p)
  | fails_read p q c ready err conf1 :
      cf_heap conf !! q = Some (OConnect c ready) → in_range (cn_fd c) → cn_fd c ∈ rfds →
      fpx_event_read conf q = (err, conf1) → err ≠ FPX_OK → fails conf (AtRead p q)
  | fails_write p q c ready err conf1 :
      cf_heap conf !! q = Some (OConnect c ready) → in_range (cn_fd c) → cn_fd c ∈ wfds →
      fpx_event_write conf q = (err, conf1) → err ≠ FPX_OK → fails conf (AtWrite p q).

Lemma isset_ok fd s : in_range fd → FD_ISSET fd s = Ok (bool_decide (fd ∈ s)).
Proof using.
  intros Hr. unfold FD_ISSET, require. unfold in_range in Hr.
  by rewrite (proj2 (Z.leb_le 0 _)), (proj2 (Z.ltb_lt _ FD_SETSIZE)) by lia.
Qed.

Lemma if_ready_ok handler (s : gset Z) (conf : fpx_conf_t W) q c ready :
  cf_heap conf !! q = Some (OConnect c ready) → in_range (cn_fd c) → cn_fd c ∈ s →
  if_ready handler s conf q = Ok (handler conf q).
Proof using.
  intros Hq Hr Hin. unfold if_ready, connect_at. rewrite Hq, bind_ok, isset_ok, bind_ok by done.
  by rewrite bool_decide_true.
Qed.

Lemma fails_visit conf x : fails conf x → ∃ err conf', visit conf x = Ok (err, conf') ∧ err ≠ FPX_OK.
Proof using.
  destruct 1 as [p l node conf1 c ready err c' w Hp Hr Hin Hu Hc Ha He|p l node conf1 c ready c' w err conf2 Hp Hr Hin Hu Hc Ha Hh He
    |p q c ready err conf1 Hq Hr Hin Hh He|p q c ready err conf1 Hq Hr Hin Hh He]; cbn [visit].
  3, 4: exists err, conf1; split; [|done]; by rewrite (if_ready_ok _ _ _ _ _ _ Hq Hr Hin), Hh.
  all: unfold process_listener, fpx_select_add_connect, accept_connect, listener_at, connect_at;
    rewrite Hp, bind_ok, isset_ok, bind_ok, bool_decide_true by done; rewrite !bind_assoc, bind_ok, Hu; cbv beta iota;
    rewrite Hc, !bind_assoc, bind_ok; cbv beta iota; rewrite Ha; cbv beta iota zeta.
  - assert (negb (err =? FPX_OK) = true) as He' by (by rewrite (proj2 (Z.eqb_neq err FPX_OK))).
    repeat (rewrite ?He', ?bind_assoc, ?bind_ok; cbv beta iota). by eexists _, _.
  - repeat (change (negb (FPX_OK =? FPX_OK)) with false; rewrite ?bind_assoc, ?bind_ok; cbv beta iota). rewrite Hh. by eexists _, _.
Qed.

(** What is left to do from a point on, when [fc] connections of the current listener and
    [fl] listeners may still be visited. *)
Definition other_listeners (fl : nat) (p : Z) (r : fpx_err_t * fpx_conf_t W) : res (fpx_err_t * fpx_conf_t W) :=
  let '(err, conf) := r in
  if negb (err =? FPX_OK) then Ok (err, conf) else
  next ← list_next (cf_listeners conf) p;
  process_listeners rfds wfds fl conf next.
Definition left_to_do (fc fl : nat) (x : option point) (conf : fpx_conf_t W) : res (fpx_err_t * fpx_conf_t W) :=
  match x with
  | None => Ok (FPX_OK, conf)
  | Some (AtListener p) => process_listeners rfds wfds fl conf (Some p)
  | Some (AtRead p q) => r ← process_connects rfds wfds fc conf p (Some q); other_listeners fl p r
  | Some (AtWrite p q) =>
      r ← ('(err, conf) ← if_ready fpx_event_write wfds conf q;
           if negb (err =? FPX_OK) then Ok (err, conf) else
           next ← list_next (connects_of conf p) q;
           process_connects rfds wfds fc conf p next);
      other_listeners fl p r
  end.

Lemma process_listeners_end fl conf : process_listeners rfds wfds fl conf None = Ok (FPX_OK, conf).
Proof using. by destruct fl. Qed.
Lemma process_connects_end fc conf p : process_connects rfds wfds fc conf p None = Ok (FPX_OK, conf).
Proof using. by destruct fc. Qed.

Lemma left_next_connect fc fl conf p next y : next_connect conf p next = Ok y →
  (r ← process_connects rfds wfds fc conf p next; other_listeners fl p r) = left_to_do fc fl y conf.
Proof using.
  destruct next as [q|]; cbn [next_connect]; [by intros [= <-]|]. rewrite process_connects_end, bind_ok.
  cbn [other_listeners]. change (negb (FPX_OK =? FPX_OK)) with false. cbn iota. unfold next_listener.
  destruct (list_next _ _) as [[q|]| | |]; try done; rewrite !bind_ok; cbn [option_map]; intros [= <-]; [done|].
  by rewrite process_listeners_end.
Qed.

(** A visit. *)
Lemma left_visit fc fl x conf err conf1 : visit conf x = Ok (err, conf1) →
  (err ≠ FPX_OK → left_to_do (S fc) (S fl) (Some x) conf = Ok (err, conf1)) ∧
  (∀ y, err = FPX_OK → next_point conf1 x = Ok y → ∃ fc' fl',
    left_to_do (S fc) (S fl) (Some x) conf = left_to_do fc' fl' y conf1 ∧ (fc `min` fl ≤ fc')%nat ∧ (fl ≤ fl')%nat).
Proof using.
  intros Hv. split.
  - intros He. assert (negb (err =? FPX_OK) = true) as He' by (by rewrite (proj2 (Z.eqb_neq err FPX_OK))).
    destruct x; cbn [left_to_do process_listeners process_connects visit] in *; rewrite Hv, ?bind_assoc, !bind_ok;
      cbn [other_listeners]; by rewrite He', ?bind_ok; cbn [other_listeners]; rewrite ?He'.
  - intros y -> Hn. destruct x as [p|p q|p q]; cbn [left_to_do process_listeners process_connects visit next_point] in *; rewrite Hv.
    + exists fl, fl. rewrite bind_ok. change (negb (FPX_OK =? FPX_OK)) with false. cbn iota.
      split; [|lia]. rewrite <- (left_next_connect fl fl conf1 p _ y Hn). by destruct (process_connects _ _ _ _ _ _) as [[]| | |].
    + exists fc, (S fl). injection Hn as <-. rewrite !bind_ok. change (negb (FPX_OK =? FPX_OK)) with false. cbn iota.
      split; [done|lia].
    + exists (S fc), (S fl). rewrite bind_ok. change (negb (FPX_OK =? FPX_OK)) with false. cbn iota.
      destruct (list_next _ q) as [next| | |]; try done. rewrite bind_ok in *. split; [|lia].
      by rewrite <- (left_next_connect (S fc) (S fl) conf1 p next y Hn).
Qed.

Lemma left_walk n x conf y conf1 : walk n x conf y conf1 → ∀ m fc fl,
  (n ≤ m)%nat → (m ≤ fc)%nat → (m ≤ fl)%nat → ∃ fc' fl',
    left_to_do fc fl x conf = left_to_do fc' fl' y conf1 ∧ (m - n ≤ fc')%nat ∧ (m - n ≤ fl')%nat.
Proof using.
  induction 1 as [x conf|n x conf conf1 y conf2 z Hv Hn _ IH]; intros m fc fl Hm Hc Hl.
  { exists fc, fl. split; [done|lia]. }
  destruct fc as [|fc]; [lia|]. destruct fl as [|fl]; [lia|].
  destruct (left_visit fc fl x conf _ _ Hv) as [_ Hok]. destruct (Hok y eq_refl Hn) as (fc1 & fl1 & -> & Hc1 & Hl1).
  destruct (IH (m - 1)%nat fc1 fl1) as (fc2 & fl2 & -> & ? & ?); [lia..|]. exists fc2, fl2. split; [done|lia].
Qed.

Lemma process_events_walk n fuel conf y conf1 :
  walk n (option_map AtListener (head (cf_listeners conf))) conf y conf1 → (n < fuel)%nat →
  match y with
  | None => fpx_process_events rfds wfds fuel conf = Ok (FPX_OK, conf1)
  | Some x => ∀ err conf2, visit conf1 x = Ok (err, conf2) → err ≠ FPX_OK →
      fpx_process_events rfds wfds fuel conf = Ok (err, conf2)
  end.
Proof using.
  intros Hw Hlt. destruct (left_walk _ _ _ _ _ Hw fuel fuel fuel) as (fc & fl & Hrun & Hc & Hl); [lia..|].
  assert (fpx_process_events rfds wfds fuel conf = left_to_do fc fl y conf1) as ->.
  { rewrite <- Hrun. unfold fpx_process_events. destruct (head _); [done|]. by rewrite process_listeners_end. }
  destruct y as [x|]; [|done]. intros err conf2 Hv He. destruct fc as [|fc]; [lia|]. destruct fl as [|fl]; [lia|].
  by apply (left_visit fc fl x).
Qed.
End Walk.

(** ** Properties *)

(** C34: The loop with select.  Every descriptor of a listener or a connection is asked for
    reading, those of connections with data to write for writing, and the number passed to
    [select] is the largest one and one more; with a descriptor from FD_SETSIZE (1024) on,
    or a closed one, the sets are written out of bounds.  When [select] fails the program
    is aborted, unless a signal interrupted it; when the time is up the loop goes on after
    the timer's handler, whatever that answers.  Otherwise the listeners and the
    connections of each are visited in the order of the lists, as they are after each
    visit.  The first visit that fails, because a connection cannot be accepted, for
    instance one the peer has given up meanwhile, or because the handler of a connection
    answers an error, ends the whole process in [abort()]; when no visit fails, the loop
    goes on. *)
Theorem select_loop {W} `{Sockets W} `{EventCalls W} `{SelectCalls W} turns fuel (conf : fpx_conf_t W) v :
  shows conf (cf_listeners conf) v →
  let run := fpx_select_process_events (S turns) fuel conf in
  (¬ Forall in_range (read_fds v) → run = UB) ∧
  (Forall in_range (read_fds v) →
   fpx_set_events conf = Ok (max_fd 0 (read_fds v), list_to_set (read_fds v), list_to_set (write_fds v)) ∧
   let '(flag, rfds, wfds, w0) :=
     se_select (cf_world conf) (max_fd 0 (read_fds v) + 1) (list_to_set (read_fds v)) (list_to_set (write_fds v))
       (timeout_of (cf_timer conf)) in
   let conf0 := set_world conf w0 in
   (flag = -1 → sk_errno w0 ≠ EINTR → run = Abort) ∧
   (flag = -1 → sk_errno w0 = EINTR → run = fpx_select_process_events turns fuel conf0) ∧
   (flag = 0 → run = fpx_select_process_events turns fuel (fpx_event_timer conf0).2) ∧
   (flag ≠ -1 → flag ≠ 0 → ∀ n y conf1, walk rfds wfds n (option_map AtListener (head (cf_listeners conf))) conf0 y conf1 → (n < fuel)%nat →
    match y with
    | Some x => fails rfds wfds conf1 x → run = Abort
    | None => run = fpx_select_process_events turns fuel conf1
    end)).
Proof.
  intros Hv. pose proof (set_listeners_ok conf _ _ Hv 0 ∅ ∅) as Hset. rewrite !(right_id_L ∅ union) in Hset.
  cbv zeta. set (go := fpx_select_process_events turns fuel).
  assert (fpx_select_process_events (S turns) fuel conf =
    (r ← select_turn fuel conf; match r with inl conf => go conf | inr x => Ok x end)) as -> by reflexivity.
  clearbody go. unfold select_turn, fpx_set_events. split.
  { intros Hr. by rewrite Hset, decide_False. }
  intros Hr. rewrite Hset, decide_True by done. split; [done|].
  destruct (se_select _ _ _ _ _) as [[[flag rfds] wfds] w0] eqn:Hsel.
  rewrite bind_assoc, bind_ok, Hsel. cbv beta iota zeta. split_and!.
  - intros -> He. cbn. by rewrite (proj2 (Z.eqb_neq _ _) He).
  - intros -> ->. done.
  - intros ->. done.
  - intros Hf1 Hf0 n y conf1 Hw Hn. rewrite (proj2 (Z.eqb_neq _ _) Hf1), (proj2 (Z.eqb_neq _ _) Hf0).
    pose proof (process_events_walk rfds wfds n fuel (set_world conf w0) y conf1 Hw Hn) as Hrun. destruct y as [x|].
    + intros (err & conf2 & Hvis & He)%fails_visit. rewrite (Hrun err conf2 Hvis He), bind_assoc, bind_ok. cbv beta iota.
      by rewrite (proj2 (Z.eqb_neq _ _) He).
    + by rewrite Hrun, bind_assoc, bind_ok.
Qed.

(** *** Listeners on the descriptors 3 and 4, the first with a connection on 8; nothing can
    be accepted, [select] reports [ready], and the handler of readable connections answers
    [answer] *)
#[local] Instance demo_sockets : Sockets unit := {|
  sk_errno w := 103; sk_socket w d t p := (-1, w); sk_setsockopt w fd lv o v := (0, w); sk_ioctl w fd rq v := (0, w);
  sk_getfl w fd := (2, w); sk_setfl w fd fl := (0, w); sk_bind w fd a := (0, w); sk_listen w fd n := (0, w);
  sk_accept w fd n := (-1, None, w); sk_connect w fd a := (0, w); sk_shutdown w fd h := (0, w); sk_close w fd := w;
  sk_getaddrinfo w a p f t fl pr := (None, w); sk_freeaddrinfo w := w; sk_getsockname w fd := (None, w);
  sk_getnameinfo w a n h s f := (None, w); sk_msleep w ms := w
|}.
Definition demo_events (answer : Z) : EventCalls unit := {|
  ev_use_node conf n p := (Some 200, set_object conf 200 (OConnect cleared_connect false));
  ev_reserve_node conf p := conf; ev_connection_cleanup conf p := conf;
  fpx_event_connect conf p := (FPX_OK, conf); fpx_event_read conf p := (answer, conf);
  fpx_event_write conf p := (FPX_OK, conf); fpx_event_timer conf := (FPX_OK, conf)
|}.
Definition demo_select (ready : gset Z) : SelectCalls unit := λ w n r ws t, (1, ready, ∅, w).
Definition demo_listener (fd : Z) : fpx_listener_t := Listener 1 fd (Sockaddr AF_INET []) PNull PNull.
Definition demo_conf : fpx_conf_t unit :=
  Conf 500 [1; 2] {[1 := [100]]}
    {[1 := OListener (demo_listener 3); 2 := OListener (demo_listener 4); 100 := OConnect (set_cn_fd cleared_connect 8) true]} ().
Definition demo_view : view := [(demo_listener 3, [(set_cn_fd cleared_connect 8, true)]); (demo_listener 4, [])].
Abbreviation demo_run answer ready turns :=
  (fpx_select_process_events (H0 := demo_events answer) (H1 := demo_select ready) turns 5 demo_conf) (only parsing).

(** The way to the second listener. *)
Lemma demo_walk ready : (3 ∉ ready) →
  (8 ∉ ready) → walk (H0 := demo_events 0) ready ∅ 3 (Some (AtListener 1)) demo_conf (Some (AtListener 2)) demo_conf.
Proof.
  intros H3 H8. eapply (walk_on _ _ _ _ _ demo_conf); [|reflexivity|].
  { unfold visit, process_listener. change (listener_at demo_conf 1) with (Ok (demo_listener 3)). rewrite bind_ok, isset_ok by (split; [by vm_compute|reflexivity]).
    by rewrite bool_decide_false. }
  eapply (walk_on _ _ _ _ _ demo_conf); [|reflexivity|].
  { unfold visit, if_ready. change (connect_at demo_conf 100) with (Ok (set_cn_fd cleared_connect 8, true)). rewrite bind_ok, isset_ok by (split; [by vm_compute|reflexivity]).
    by rewrite bool_decide_false. }
  eapply (walk_on _ _ _ _ _ demo_conf); [reflexivity|reflexivity|apply walk_here].
Qed.

(** A connection that cannot be accepted by the second listener, a connection whose data
    cannot be read, and a turn without a failure. *)
Lemma select_loop_witness :
  fpx_set_events demo_conf = Ok (8, {[3; 8; 4]}, {[8]}) ∧
  demo_run 0 {[4]} 1 = Abort ∧ demo_run 5 {[8]} 1 = Abort ∧
  demo_run 0 {[8]} 1 = NoFuel.
Proof.
  assert (Forall in_range (read_fds demo_view)) as Hr by (by apply (bool_decide_unpack _); vm_compute).
  assert (shows demo_conf (cf_listeners demo_conf) demo_view) as Hv
    by (repeat constructor).
  assert (∀ z (s : gset Z), bool_decide (z ∈ s) = true → z ∈ s) as Hin by (intros z s Hz; exact (proj1 (bool_decide_eq_true _) Hz)).
  assert (∀ z (s : gset Z), bool_decide (z ∈ s) = false → z ∉ s) as Hout by (intros z s Hz; exact (proj1 (bool_decide_eq_false _) Hz)).
  pose proof (λ answer ready, select_loop (H0 := demo_events answer) (H1 := demo_select ready) 0 5 demo_conf _ Hv) as Hthm.
  split; [|split; [|split]].
  - rewrite (proj1 (proj2 (Hthm 0 ∅) Hr)). vm_compute. reflexivity.
  - destruct (proj2 (Hthm 0 {[4]}) Hr) as (_ & _ & _ & _ & Hgo).
    apply (Hgo ltac:(discriminate) ltac:(discriminate) 3%nat (Some (AtListener 2)) demo_conf); [apply demo_walk; by apply Hout|lia|].
    eapply fails_accept; [reflexivity|split; [by vm_compute|reflexivity]|by apply Hin|reflexivity|reflexivity|reflexivity|discriminate].
  - destruct (proj2 (Hthm 5 {[8]}) Hr) as (_ & _ & _ & _ & Hgo).
    apply (Hgo ltac:(discriminate) ltac:(discriminate) 1%nat (Some (AtRead 1 100)) demo_conf); [|lia|].
    + eapply (walk_on _ _ _ _ _ demo_conf); [reflexivity|reflexivity|apply walk_here].
    + eapply fails_read; [reflexivity|split; [by vm_compute|reflexivity]|by apply Hin|reflexivity|discriminate].
  - destruct (proj2 (Hthm 0 {[8]}) Hr) as (_ & _ & _ & _ & Hgo).
    apply (Hgo ltac:(discriminate) ltac:(discriminate) 4%nat None demo_conf); [|lia].
    do 4 (eapply (walk_on _ _ _ _ _ demo_conf); [reflexivity|reflexivity|]). apply walk_here.
Defined.
