(* ===== verification/Iocp.v ===== *)
(** * The event loop with completion ports: [src/src/system/event/iocp.c]

    Completion packets are taken and reported on the console; nothing is accepted or
    read.  The size of a pointer is a parameter, because the key of a packet is stored
    through a pointer to an integer of that size. *)

From S2P Require Import Prelude CInt Errno Str Socket Listen Event.
Open Scope Z_scope.

(** A handle is [None] for [NULL].  [io_status] is [GetQueuedCompletionStatus]: its
    answer, the key if the call stores one, and the address of the overlapped structure,
    which is [NULL] when no packet has been taken. *)
Class IocpCalls (W : Type) := {
  io_errno : W → fpx_err_t;
  io_port : W → Z → option Z → Z → Z → option Z * W;   (* handle, port, key, threads *)
  io_status : W → option Z → Z → Z * option Z * option Z * W;
  io_printf : W → chars → W
}.

Definition FPX_IOCP_ACCEPT : Z := 0.
Definition FPX_IOCP_RW : Z := 1.
Definition FPX_NTHREAD : Z := 1.
Definition INVALID_HANDLE_VALUE : Z := -1.
Definition ERROR_NETNAME_DELETED : fpx_err_t := 64.
Definition WAIT_TIMEOUT : fpx_err_t := 258.
Definition ERROR_OPERATION_ABORTED : fpx_err_t := 995.

Section Iocp.
Context {W : Type} `{IocpCalls W}.
Variable ptr_size : Z.

(** [CreateIoCompletionPort] for an existing port: the error. *)
Definition associate (iocp : option Z) (w : W) (fd key : Z) : fpx_err_t * W :=
  let '(port, w) := io_port w fd iocp key 0 in
  match port with None => (io_errno w, w) | Some _ => (FPX_OK, w) end.

(** The descriptor that is associated is the one of the listener. *)
Definition fpx_iocp_add_connect (iocp : option Z) (conf : fpx_conf_t W) (listener connect : Z)
    : res (fpx_err_t * fpx_conf_t W) :=
  l ← listener_at conf listener;
  let '(err, w) := associate iocp (cf_world conf) (li_fd l) FPX_IOCP_RW in Ok (err, set_world conf w).
Definition fpx_iocp_add_listener (iocp : option Z) (conf : fpx_conf_t W) (listener : Z) : res (fpx_err_t * fpx_conf_t W) :=
  l ← listener_at conf listener;
  let '(err, w) := associate iocp (cf_world conf) (li_fd l) FPX_IOCP_ACCEPT in Ok (err, set_world conf w).

(** The variable [key], a [uint32_t], behind a pointer to a [ULONG_PTR]. *)
Definition store_key (key : option Z) : res (option Z) :=
  match key with
  | None => Ok None
  | Some k => _ ← require (ptr_size <=? 4); Ok (Some (u32 k))
  end.

Definition switch_key (key : option Z) (w : W) : res W :=
  k ← of_option key;
  Ok (if k =? FPX_IOCP_ACCEPT then io_printf w (chars_of "FPX_IOCP_ACCEPT" ++ [10; 0])
      else if k =? FPX_IOCP_RW then io_printf w (chars_of "FPX_IOCP_RW" ++ [10; 0])
      else w).

Definition fpx_iocp_process_events (iocp : option Z) (conf : fpx_conf_t W) : res (fpx_err_t * fpx_conf_t W) :=
  let timer := cf_timer conf in
  let '(events, key, ovlp, w) := io_status (cf_world conf) iocp (u32 timer) in
  let conf := set_world conf w in
  key ← store_key key;
  let err := if events =? 0 then io_errno w else 0 in
  if negb (err =? 0) && bool_decide (ovlp = None) && negb (err =? WAIT_TIMEOUT) then Ok (err, conf) else
  if negb (err =? 0) && bool_decide (ovlp ≠ None) && ((err =? ERROR_NETNAME_DELETED) || (err =? ERROR_OPERATION_ABORTED))
  then Ok (FPX_OK, conf) else
  w ← switch_key key w;
  Ok (FPX_OK, set_world conf w).

Fixpoint iocp_listeners (iocp : option Z) (conf : fpx_conf_t W) (ls : list Z) : res (fpx_err_t * fpx_conf_t W) :=
  match ls with
  | [] => Ok (FPX_OK, conf)
  | l :: ls =>
      '(err, conf) ← fpx_iocp_add_listener iocp conf l;
      if negb (err =? FPX_OK) then Ok (err, conf) else iocp_listeners iocp conf ls
  end.
Definition fpx_iocp_init (conf : fpx_conf_t W) : res (fpx_err_t * option Z * fpx_conf_t W) :=
  let '(iocp, w) := io_port (cf_world conf) INVALID_HANDLE_VALUE None 0 FPX_NTHREAD in
  let conf := set_world conf w in
  match iocp with
  | None => Ok (io_errno w, None, conf)
  | Some _ => '(err, conf) ← iocp_listeners iocp conf (cf_listeners conf); Ok (err, iocp, conf)
  end.
End Iocp.

(** ** Properties *)

(** What the call stores: a key exactly when a packet has been taken. *)
Definition status_law {W} `{IocpCalls W} : Prop := ∀ (w : W) iocp t,
  match io_status w iocp t with
  | (events, key, ovlp, w') => (is_Some key ↔ is_Some ovlp) ∧ (events ≠ 0 → is_Some ovlp) ∧ (events = 0 → io_errno w' ≠ 0)
  end.

(** The outcomes of a wait.  A timeout is followed by a read of the key that
    nothing has stored.  With pointers of eight bytes every packet overruns the key;
    with four, a packet is announced on the console and that is all that happens to it,
    unless the operation was aborted.  Any other failure is the result. *)
Theorem iocp_outcomes {W} `{IocpCalls W} ptr_size iocp (conf : fpx_conf_t W) :
  status_law (W := W) →
  let run := fpx_iocp_process_events ptr_size iocp conf in
  match io_status (cf_world conf) iocp (u32 (cf_timer conf)) with
  | (events, key, ovlp, w) =>
      match key with
      | None => if io_errno w =? WAIT_TIMEOUT then run = UB else run = Ok (io_errno w, set_world conf w)
      | Some k =>
          (4 < ptr_size → run = UB) ∧
          (ptr_size ≤ 4 → ∃ w', run = Ok (FPX_OK, set_world conf w') ∧ (w' = w ∨ ∃ s, w' = io_printf w s))
      end
  end.
Proof.
  intros law run. unfold run, fpx_iocp_process_events. pose proof (law (cf_world conf) iocp (u32 (cf_timer conf))) as Hl.
  destruct (io_status _ _ _) as [[[events key] ovlp] w]. destruct Hl as (Hk & He & Hz). destruct key as [k|].
  - assert (is_Some ovlp) as [o ->] by (by apply Hk). cbn [store_key]. unfold require. split; intros Hp.
    + by rewrite (proj2 (Z.leb_gt ptr_size 4)) by lia.
    + rewrite (proj2 (Z.leb_le ptr_size 4)), !bind_ok by lia. rewrite bool_decide_false by done. rewrite andb_false_r. cbn [andb].
      rewrite bool_decide_true, andb_true_r by done.
      destruct (negb _ && _); [by exists w; split; [|left]|]. unfold switch_key. cbn [of_option]. rewrite !bind_ok.
      destruct (u32 k =? _); [eexists; split; [done|right; by eexists]|].
      destruct (u32 k =? _); [eexists; split; [done|right; by eexists]|]. exists w. split; [done|by left].
  - assert (ovlp = None) as -> by (destruct ovlp; [|done]; destruct Hk as [_ Hk]; destruct Hk; [by eexists|done]).
    assert (events = 0) as -> by (destruct (decide (events = 0)) as [|Hn]; [done|]; destruct (He Hn); done).
    specialize (Hz eq_refl). cbn [store_key]. rewrite bind_ok. change (0 =? 0) with true. cbn iota.
    rewrite (proj2 (Z.eqb_neq (io_errno w) 0)) by done. cbn [negb andb]. rewrite bool_decide_true, bool_decide_false by auto.
    destruct (io_errno w =? WAIT_TIMEOUT); done.
Qed.

(** Waits that time out, and one that takes a packet. *)
#[local] Instance demo_iocp : IocpCalls (option Z) := {|
  io_errno w := WAIT_TIMEOUT; io_port w h p k n := (Some 9, w);
  io_status w p t := match w with None => (0, None, None, w) | Some k => (1, Some k, Some 4096, w) end;
  io_printf w s := w
|}.
Lemma iocp_outcomes_witness :
  fpx_iocp_process_events 8 (Some 9) (Conf 500 [] ∅ ∅ None) = UB ∧
  fpx_iocp_process_events 8 (Some 9) (Conf 500 [] ∅ ∅ (Some 0)) = UB ∧
  ∃ w', fpx_iocp_process_events 4 (Some 9) (Conf 500 [] ∅ ∅ (Some 0)) = Ok (FPX_OK, Conf 500 [] ∅ ∅ w').
Proof.
  assert (status_law (W := option Z)) as law.
  { intros [k|] p t; cbn; (split; [|split]); try done; by split; intros [? [=]]. }
  split; [|split].
  - exact (iocp_outcomes 8 (Some 9) (Conf 500 [] ∅ ∅ None) law).
  - apply (iocp_outcomes 8 (Some 9) (Conf 500 [] ∅ ∅ (Some 0)) law). lia.
  - destruct (proj2 (iocp_outcomes 4 (Some 9) (Conf 500 [] ∅ ∅ (Some 0)) law)) as (w' & Hr & _); [lia|].
    exists w'. exact Hr.
Defined.
