(* ===== verification/Process.v ===== *)
(** * The process: [src/src/system/process.c]

    Working directory, user and group of the process, and the daemon.  The system is
    the interface [ProcCalls].  After a [fork] the model goes on with the child: the
    parent leaves with [exit(0)].  The half for Windows is Module [Windows]. *)

From S2P Require Import Prelude CInt Errno Str Filesys.
Open Scope Z_scope.

Class ProcCalls (W : Type) := {
  pr_fork : W → Z * W;             (* -1, or 0 in the child *)
  pr_setsid : W → Z * W;
  pr_ignore_sighup : W → W;
  pr_chdir : W → chars → Z * W;
  pr_geteuid : W → Z;
  pr_getegid : W → Z;
  pr_getpwnam : W → chars → option Z;    (* [pw_uid] *)
  pr_getgrnam : W → chars → option Z;    (* [gr_gid] *)
  pr_setuid : W → Z → Z * W;
  pr_setgid : W → Z → Z * W
}.

(** ** Definitions *)
Section Process.
Context {W : Type} `{Posix W} `{ProcCalls W}.

Definition STDIN_FILENO : Z := 0.
Definition STDOUT_FILENO : Z := 1.
Definition STDERR_FILENO : Z := 2.
Definition dev_null : chars := chars_of "/dev/null" ++ [0].
Definition O_RDONLY : Z := 0.
Definition O_RDWR : Z := 2.

(** What the two [open] calls answer is not looked at. *)
Definition redirect_stdio (w : W) : W :=
  let w := sys_close w STDIN_FILENO in
  let w := sys_close w STDOUT_FILENO in
  let w := sys_close w STDERR_FILENO in
  let '(_, w) := sys_open w dev_null O_RDONLY 0 in
  let '(_, w) := sys_open w dev_null O_RDWR 0 in
  let '(_, w) := sys_open w dev_null O_RDWR 0 in
  w.

Definition fpx_process_become_daemon (w : W) : fpx_err_t * W :=
  let '(pid, w) := pr_fork w in
  if pid <? 0 then (sys_errno w, w) else
  let '(r, w) := pr_setsid w in
  if r <? 0 then (sys_errno w, w) else
  let w := pr_ignore_sighup w in
  let '(pid, w) := pr_fork w in
  if pid <? 0 then (sys_errno w, w) else
  (FPX_OK, redirect_stdio w).

Definition fpx_process_set_workdir (w : W) (workdir : chars) : fpx_err_t * W :=
  let '(r, w) := pr_chdir w workdir in
  if r <? 0 then (sys_errno w, w) else (FPX_OK, w).

Definition fpx_process_set_user (w : W) (user : chars) : fpx_err_t * W :=
  if negb (pr_geteuid w =? 0) then (FPX_OK, w) else
  match pr_getpwnam w user with
  | None => (FPX_FAILED, w)
  | Some uid =>
      let '(r, w) := pr_setuid w uid in
      if r =? -1 then (sys_errno w, w) else (FPX_OK, w)
  end.

Definition fpx_process_set_group (w : W) (group : chars) : fpx_err_t * W :=
  if negb (pr_getegid w =? 0) then (FPX_OK, w) else
  match pr_getgrnam w group with
  | None => (FPX_FAILED, w)
  | Some gid =>
      let '(r, w) := pr_setgid w gid in
      if r =? -1 then (sys_errno w, w) else (FPX_OK, w)
  end.
End Process.

(** *** Windows *)
Module Windows.
Class ConsoleCalls (W : Type) := {
  con_errno : W → fpx_err_t;
  con_hide : W → W;
  con_free : W → bool * W;
  con_close : W → Z → W;
  con_set_directory : W → chars → bool * W
}.
Section Process.
Context {W : Type} `{ConsoleCalls W}.

Definition fpx_process_become_daemon (w : W) : fpx_err_t * W :=
  let w := con_hide w in
  let '(ok, w) := con_free w in
  if negb ok then (con_errno w, w) else
  let w := con_close w STDIN_FILENO in
  let w := con_close w STDOUT_FILENO in
  let w := con_close w STDERR_FILENO in
  (FPX_OK, w).
Definition fpx_process_set_workdir (w : W) (workdir : chars) : fpx_err_t * W :=
  let '(ok, w) := con_set_directory w workdir in
  if negb ok then (con_errno w, w) else (FPX_OK, w).
(** Users and groups do not exist here: a message is logged and the call succeeds. *)
Definition fpx_process_set_user (w : W) (user : chars) : fpx_err_t * W := (FPX_OK, w).
Definition fpx_process_set_group (w : W) (group : chars) : fpx_err_t * W := (FPX_OK, w).
End Process.
End Windows.

(** ** Lemmas *)

(** Credentials as POSIX defines them, for a process without saved ids of its own:
    [setuid] by root sets all user ids; [setgid] needs root unless the group is the
    process's already. *)
Record credential_laws {W} `{Posix W} `{ProcCalls W} : Prop := {
  law_setuid_root : ∀ w uid, pr_geteuid w = 0 → let r := pr_setuid w uid in
    r.1 = -1 ∨ r.1 = 0 ∧ pr_geteuid r.2 = uid ∧ pr_getegid r.2 = pr_getegid w;
  law_setgid_root : ∀ w gid, pr_geteuid w = 0 → let r := pr_setgid w gid in
    r.1 = -1 ∨ r.1 = 0 ∧ pr_getegid r.2 = gid ∧ pr_geteuid r.2 = pr_geteuid w;
  law_setgid_user : ∀ w gid, pr_geteuid w ≠ 0 → gid ≠ pr_getegid w → let r := pr_setgid w gid in
    r.1 = -1 ∧ sys_errno r.2 = 1;
  law_getgrnam_setuid : ∀ w uid g, pr_getgrnam (pr_setuid w uid).2 g = pr_getgrnam w g
}.

Section ProcessProofs.
Context {W : Type} `{Posix W} `{ProcCalls W} (creds : credential_laws (W := W)).

(** The user of a process that was started by root. *)
Lemma set_user_root w user w1 :
  pr_geteuid w = 0 → fpx_process_set_user w user = (FPX_OK, w1) → sys_errno w1 ≠ FPX_OK →
  ∃ uid, pr_getpwnam w user = Some uid ∧ pr_geteuid w1 = uid ∧ pr_getegid w1 = pr_getegid w ∧
    ∀ g, pr_getgrnam w1 g = pr_getgrnam w g.
Proof using creds.
  intros Hr. unfold fpx_process_set_user. rewrite Hr. cbn [Z.eqb negb].
  destruct (pr_getpwnam w user) as [uid|]; [|discriminate].
  pose proof (law_setuid_root creds w uid Hr) as Hs. pose proof (law_getgrnam_setuid creds w uid) as Hg.
  destruct (pr_setuid w uid) as [r w']. cbn [fst snd] in *. destruct (Z.eqb_spec r (-1)) as [->|E].
  - injection 1 as He <-. congruence.
  - intros [= <-] _. destruct Hs as [|(_ & He & Hge)]; [done|]. by exists uid.
Qed.

(** ... which then cannot change its group any more. *)
Lemma set_group_user w group gid :
  pr_geteuid w ≠ 0 → pr_getegid w = 0 → pr_getgrnam w group = Some gid → gid ≠ 0 →
  (fpx_process_set_group w group).1 = 1.
Proof using creds.
  intros Hu Hg Hn Hne. unfold fpx_process_set_group. rewrite Hg, Hn. cbn [Z.eqb negb].
  assert (gid ≠ pr_getegid w) as Hne' by congruence. pose proof (law_setgid_user creds w gid Hu Hne') as [Hr He].
  destruct (pr_setgid w gid) as [r w']. cbn [fst snd] in *. by subst r.
Qed.
End ProcessProofs.
