(* ===== verification/Server.v ===== *)
(** * The core module and the server: [src/src/core/server.c]

    The handlers of the core module's directives, its context and its start-up, and
    how the directives of a configuration reach the handlers of all modules.  The
    state is the list of modules with the structure [fpx_server_t]; the context of the
    core module is that structure, so that the generic handlers write its fields. *)

From S2P Require Import Prelude CInt Errno Str Parse Filesys Config Strerror Log Module Socket Listen Process.
Open Scope Z_scope.

(** ** Data *)

(** The handlers a command can name, the functions a module can name, and the two
    kinds of contexts; [Ext] and [EFn] stand for those of other modules. *)
Inductive handler (Ext : Type) :=
  | HInclude
  | HImport
  | HListen
  | HLog
  | HFlag
  | HStr
  | HSize
  | HUint
  | HExt (e : Ext).
Arguments HInclude {Ext}.
Arguments HImport {Ext}.
Arguments HListen {Ext}.
Arguments HLog {Ext}.
Arguments HFlag {Ext}.
Arguments HStr {Ext}.
Arguments HSize {Ext}.
Arguments HUint {Ext}.
Arguments HExt {Ext}.
Inductive mfun (EFn : Type) :=
  | FCorePreinit
  | FCoreInit
  | FExt (f : EFn).
Arguments FCorePreinit {EFn}.
Arguments FCoreInit {EFn}.
Arguments FExt {EFn}.
Inductive context :=
  | CServer
  | CExt (data : gmap Z cval).

(** [fpx_server_t] without the lists that the program never fills and without
    [modules]: the fields the generic handlers write are [sv_cntx], by offset; a field
    without an entry is zero.  A listener has its address. *)
Record fpx_server_t (M : Type) := Server {
  sv_argv : list chars;
  sv_cntx : gmap Z cval;
  sv_logger : option fpx_logger_t;
  sv_listeners : list (Z * fpx_listener_t);
  sv_world : M
}.
Arguments Server {M}.
Arguments sv_argv {M}.
Arguments sv_cntx {M}.
Arguments sv_logger {M}.
Arguments sv_listeners {M}.
Arguments sv_world {M}.

Definition OFF_DAEMON : Z := 136.
Definition OFF_PRIORITY : Z := 140.
Definition OFF_WORKDIR : Z := 144.
Definition OFF_USER : Z := 152.
Definition OFF_GROUP : Z := 160.
Definition SIZEOF_LISTENER : Z := 168.
Definition FPX_LISTENER_CLOSE : Z := 5.
Definition FPX_DEFAULT_WORKDIR : chars := chars_of "/" ++ [0].
Definition FPX_DEFAULT_PRIORITY : Z := 0.

(** The dynamic linker, and [errno] as a variable; and what the server does not know
    of the other modules: their handlers and functions. *)
Class DynLinker (Ext EFn M : Type) := {
  dl_open : M → chars → option Z * M;
  dl_sym : M → Z → option (fpx_module_t (handler Ext) (mfun EFn) context) * M;
  dl_close : M → Z → M;
  dl_set_errno : M → fpx_err_t → M;
  ext_handler : Ext → fpx_server_t M → option context → list chars → res (fpx_err_t * fpx_server_t M);
  ext_preinit : EFn → fpx_server_t M → res (option context * fpx_server_t M);
  ext_init : EFn → fpx_server_t M → option context → res (fpx_err_t * fpx_server_t M);
  ext_fini : EFn → fpx_server_t M → option context → res (fpx_server_t M)
}.

(** The two pools [main] creates: [server->pool], and [ptemp] for the configuration,
    which is destroyed when the modules have been initialised. *)
Inductive main_pool :=
  | ServerPool
  | ConfigPool.
(** [fpx_pool_cleanup_add] and [fpx_pool_destroy] of these. *)
Class MainPools (M : Type) := {
  mp_cleanup_add : main_pool → M → Z → Z → res M;
  mp_destroy : main_pool → M → M
}.

Section Server.
Context {Ext EFn M : Type} `{PoolAlloc M} `{PoolCleanup M} `{Posix M} `{LoggerEnv M} `{OsStrerror}.
Context `{Sockets M} `{ProcCalls M} `{DynLinker Ext EFn M} `{MainPools M}.
(** What fresh memory contains, and the fuel of the walk through directories. *)
Variables (messages : list fpx_log_message_t) (file0 : fpx_file_t) (walk_fuel : nat).

Abbreviation server := (fpx_server_t M).
Abbreviation module := (fpx_module_t (handler Ext) (mfun EFn) context).

Definition with_world (s : server) (w : M) : server :=
  Server (sv_argv s) (sv_cntx s) (sv_logger s) (sv_listeners s) w.
Definition with_cntx (s : server) (c : gmap Z cval) : server :=
  Server (sv_argv s) c (sv_logger s) (sv_listeners s) (sv_world s).
Definition with_logger (s : server) (l : fpx_logger_t) (w : M) : server :=
  Server (sv_argv s) (sv_cntx s) (Some l) (sv_listeners s) w.
Definition with_listeners (s : server) (l : list (Z * fpx_listener_t)) (w : M) : server :=
  Server (sv_argv s) (sv_cntx s) (sv_logger s) l w.

(** Fields of the context; one of another type cannot be read. *)
Definition bool_field (s : server) (off : Z) : res bool :=
  match sv_cntx s !! off with None => Ok false | Some (VBool b) => Ok b | Some _ => UB end.
Definition str_field (s : server) (off : Z) : res (option chars) :=
  match sv_cntx s !! off with None => Ok None | Some (VStr a) => Ok (Some a) | Some _ => UB end.

(** ** Handlers *)

Definition fpx_handler_include (config : fpx_config_t) (s : server) (argv : list chars)
    : res (fpx_err_t * fpx_config_t * server) :=
  a ← arg0 argv;
  '(err, config, w) ← fpx_config_read_included (H0 := mp_cleanup_add ServerPool) walk_fuel config (sv_world s) a;
  if negb (err =? FPX_OK) then Ok (err, config, with_world s w) else Ok (FPX_OK, config, with_world s w).

(** A variable that nothing has been stored in stays indeterminate. *)
Definition ptr_of (r : option str_ref) : text_ptr :=
  match r with None => PUndef | Some r => PText (str_text r) end.
Definition fpx_handler_listen (s : server) (argv : list chars) : res (fpx_err_t * server) :=
  '(mem, w) ← palloc (sv_world s) SIZEOF_LISTENER;
  match mem with
  | None => Ok (sys_errno w, with_world s w)
  | Some mem =>
      a ← arg0 argv;
      '(rv, addr, port, w) ← fpx_config_parse_addr_port w a;
      if rv =? FPX_ADDR_IPV4 then
        let '(err, l) := fpx_listener_init_ipv4 (ptr_of addr) (ptr_of port) in
        if negb (err =? FPX_OK) then Ok (err, with_world s w)
        else Ok (FPX_OK, with_listeners s (sv_listeners s ++ [(mem, l)]) w)
      else if rv =? FPX_ADDR_IPV6 then
        let '(err, l) := fpx_listener_init_ipv6 (ptr_of addr) (ptr_of port) in
        if negb (err =? FPX_OK) then Ok (err, with_world s w)
        else Ok (FPX_OK, with_listeners s (sv_listeners s ++ [(mem, l)]) w)
      else Ok (FPX_ERR_CONFIG_SYNTAX, with_world s w)
  end.

(** What the functions of the logger answer is not looked at. *)
Definition add_log_fd (s : server) (level fd : Z) : res server :=
  l ← of_option (sv_logger s);
  '(_, l, w) ← fpx_logger_add_log_fd file0 l level fd (sv_world s);
  Ok (with_logger s l w).
Definition add_log_file (s : server) (level : Z) (fname : chars) (size : Z) : res server :=
  l ← of_option (sv_logger s);
  '(_, l, w) ← fpx_logger_add_log_file l level fname size (sv_world s);
  Ok (with_logger s l w).

Definition fpx_handler_log (s : server) (argc : Z) (argv : list chars) : res (fpx_err_t * server) :=
  a1 ← of_option (argv !! 1%nat);
  level ← fpx_config_parse_log_level a1;
  if level =? FPX_LOG_INVALID_LEVEL then Ok (FPX_ERR_CONFIG_SYNTAX, s) else
  a0 ← arg0 argv;
  is_stdout ← fpx_strcmp a0 (chars_of "stdout" ++ [0]);
  is_stderr ← fpx_strcmp a0 (chars_of "stderr" ++ [0]);
  is_syslog ← fpx_strcmp a0 (chars_of "syslog" ++ [0]);
  if (argc =? 2) && (is_stdout =? 0) then s ← add_log_fd s level FPX_STDOUT; Ok (FPX_OK, s) else
  s ← (if (argc =? 2) && (is_stderr =? 0) then add_log_fd s level FPX_STDERR
       else if (argc =? 2) && (is_syslog =? 0) then Ok s
       else if argc =? 2 then add_log_file s level a0 0
       else Ok s);
  if argc =? 3 then
    a2 ← of_option (argv !! 2%nat);
    size ← fpx_config_parse_size a2;
    if size =? -1 then Ok (FPX_ERR_CONFIG_SYNTAX, s)
    else s ← add_log_file s level a0 (u64 size); Ok (FPX_OK, s)
  else Ok (FPX_OK, s).

(** ** The core module *)

Definition fpx_core_preinit (s : server) : res (option context * server) :=
  '(err, logger, w) ← fpx_logger_init messages (sv_world s);
  _ ← fpx_assert (err =? FPX_OK);
  Ok (Some CServer,
      Server (sv_argv s)
        (<[OFF_DAEMON := VBool true]> (<[OFF_WORKDIR := VStr FPX_DEFAULT_WORKDIR]>
           (<[OFF_PRIORITY := VInt FPX_DEFAULT_PRIORITY]> (delete OFF_USER (delete OFF_GROUP (sv_cntx s))))))
        logger (sv_listeners s) w).

(** The loop over the listeners: whether all are open, the listeners and the state
    afterwards. *)
Fixpoint open_listeners (ls : list (Z * fpx_listener_t)) (w : M) : res (bool * list (Z * fpx_listener_t) * M) :=
  match ls with
  | [] => Ok (true, [], w)
  | (addr, l) :: ls =>
      '(err, l, w) ← fpx_listener_bind l w;
      if negb (err =? FPX_OK) then Ok (false, (addr, l) :: ls, w) else
      let '(err, w) := fpx_listener_open l w in
      if negb (err =? FPX_OK) then Ok (false, (addr, l) :: ls, w) else
      w ← mp_cleanup_add ServerPool w addr FPX_LISTENER_CLOSE;
      '(ok, ls, w) ← open_listeners ls w;
      Ok (ok, (addr, l) :: ls, w)
  end.

(** [fpx_process_set_user] unless the field is the default, [NULL]; the same for the
    group. *)
Definition set_unless_default (set : M → chars → fpx_err_t * M) (name : option chars) (w : M) : fpx_err_t * M :=
  match name with None => (FPX_OK, w) | Some name => set w name end.

Definition fpx_core_init (s : server) (data : option context) : res (fpx_err_t * server) :=
  _ ← fpx_assert (match data with Some CServer => true | _ => false end);
  if match sv_listeners s with [] => true | _ => false end then Ok (FPX_FAILED, s) else
  '(ok, ls, w) ← open_listeners (sv_listeners s) (sv_world s);
  let s := with_listeners s ls w in
  if negb ok then Ok (FPX_FAILED, s) else
  workdir ← str_field s OFF_WORKDIR;
  workdir ← of_option workdir;
  let '(err, w) := fpx_process_set_workdir w workdir in
  if negb (err =? FPX_OK) then Ok (err, with_world s w) else
  user ← str_field s OFF_USER;
  let '(err, w) := set_unless_default fpx_process_set_user user w in
  if negb (err =? FPX_OK) then Ok (err, with_world s w) else
  group ← str_field s OFF_GROUP;
  let '(err, w) := set_unless_default fpx_process_set_group group w in
  if negb (err =? FPX_OK) then Ok (err, with_world s w) else
  logger ← of_option (sv_logger s);
  '(err, logger, w) ← fpx_logger_start logger w;
  let s := with_logger s logger w in
  if negb (err =? FPX_OK) then Ok (err, s) else
  daemon ← bool_field s OFF_DAEMON;
  if daemon : bool then
    let '(err, w) := fpx_process_become_daemon w in Ok (err, with_world s w)
  else Ok (FPX_OK, s).

Definition fpx_core_cmd : list (fpx_command_t (handler Ext)) :=
  [ Command (chars_of "include" ++ [0]) FPX_TAKE1 HInclude 0;
    Command (chars_of "import" ++ [0]) FPX_TAKE1 HImport 0;
    Command (chars_of "listen" ++ [0]) FPX_TAKE1 HListen 0;
    Command (chars_of "log" ++ [0]) (Z.lor FPX_TAKE2 FPX_TAKE3) HLog 0;
    Command (chars_of "daemon" ++ [0]) FPX_TAKE1 HFlag OFF_DAEMON;
    Command (chars_of "workdir" ++ [0]) FPX_TAKE1 HStr OFF_WORKDIR;
    Command (chars_of "priority" ++ [0]) FPX_TAKE1 HUint OFF_PRIORITY;
    Command (chars_of "user" ++ [0]) FPX_TAKE1 HStr OFF_USER;
    Command (chars_of "group" ++ [0]) FPX_TAKE1 HStr OFF_GROUP ].
Definition fpx_core_module : module :=
  Module (chars_of "core" ++ [0]) 4 fpx_core_cmd (Some FCorePreinit) (Some FCoreInit) None None None false false.

(** The calls of the functions of modules. *)
#[export] Instance server_modules : ModuleCalls (handler Ext) (mfun EFn) context server := {|
  call_preinit f s := match f with
    | FCorePreinit => fpx_core_preinit s
    | FCoreInit => UB
    | FExt f => ext_preinit f s end;
  call_init f s cntx := match f with
    | FCoreInit => fpx_core_init s cntx
    | FCorePreinit => UB
    | FExt f => ext_init f s cntx end;
  call_fini f s cntx := match f with FExt f => ext_fini f s cntx | _ => UB end;
  sys_dlopen s fname := let '(h, w) := dl_open (sv_world s) fname in (h, with_world s w);
  sys_dlsym s h := let '(m, w) := dl_sym (sv_world s) h in (m, with_world s w);
  sys_dlclose s h := with_world s (dl_close (sv_world s) h);
  get_errno s := sys_errno (sv_world s);
  set_errno s e := with_world s (dl_set_errno (sv_world s) e)
|}.

(** ** Dispatch *)
Definition system : Type := list module * server.
Definition modules_of (x : system) : list (list (fpx_command_t (handler Ext))) := md_cmd <$> x.1.

Definition set_cntx (m : module) (d : gmap Z cval) : module :=
  Module (md_name m) (md_version m) (md_cmd m) (md_preinit m) (md_init m) (md_fini m) (Some (CExt d))
    (md_handle m) (md_preinited m) (md_inited m).

(** A generic handler writes into the context of the command's module; without a
    context it writes through a null pointer, unless it refuses its argument. *)
Definition generic (f : gmap Z cval → res (fpx_err_t * gmap Z cval)) (k : nat) (x : system)
    : res (fpx_err_t * system) :=
  let '(ms, s) := x in
  m ← of_option (ms !! k);
  match md_cntx m with
  | Some CServer => '(err, d) ← f (sv_cntx s); Ok (err, (ms, with_cntx s d))
  | Some (CExt d) => '(err, d) ← f d; Ok (err, (<[k := set_cntx m d]> ms, s))
  | None => '(err, _) ← f ∅; if err =? FPX_OK then UB else Ok (err, x)
  end.

Definition call_handler (x : system) (config : fpx_config_t) (k : nat) (cmd : fpx_command_t (handler Ext))
    (d : fpx_directive_t) : res (fpx_err_t * fpx_config_t * system) :=
  let '(ms, s) := x in
  let off := c_offset cmd in
  let argv := d_argv d in
  let keep := λ r : res (fpx_err_t * system), '(err, x) ← r; Ok (err, config, x) in
  match c_handler cmd with
  | HInclude => '(err, config, s) ← fpx_handler_include config s argv; Ok (err, config, (ms, s))
  | HImport => '(err, ms, s) ← fpx_handler_import ms s argv; Ok (err, config, (ms, s))
  | HListen => '(err, s) ← fpx_handler_listen s argv; Ok (err, config, (ms, s))
  | HLog => '(err, s) ← fpx_handler_log s (d_argc d) argv; Ok (err, config, (ms, s))
  | HFlag => keep (generic (λ data, fpx_handler_flag off data argv) k x)
  | HStr => keep (generic (λ data, fpx_handler_str off data argv) k x)
  | HSize => keep (generic (λ data, fpx_handler_size off data argv) k x)
  | HUint => keep (generic (λ data, fpx_handler_uint off data argv) k x)
  | HExt e =>
      m ← of_option (ms !! k);
      '(err, s) ← ext_handler e s (md_cntx m) argv; Ok (err, config, (ms, s))
  end.

Definition server_config_check (fuel : nat) (config : fpx_config_t) (x : system) :=
  fpx_config_check modules_of call_handler fuel config x.
Definition server_config_process (fuel : nat) (config : fpx_config_t) (x : system) :=
  fpx_config_process modules_of call_handler fuel config x.
End Server.

(** ** Invariants *)

(** The fields have the type the code gives them. *)
Definition field_typed (off : Z) (v : cval) : Prop :=
  if off =? OFF_DAEMON then ∃ b, v = VBool b
  else if off =? OFF_PRIORITY then ∃ n, v = VInt n ∧ - 2 ^ 31 ≤ n < 2 ^ 31 ∧ n ≠ -1
  else if (off =? OFF_WORKDIR) || (off =? OFF_USER) || (off =? OFF_GROUP) then ∃ a, v = VStr a
  else False.
Record listener_fresh (l : fpx_listener_t) : Prop := {
  lf_mark : fpx_is_listener (li_type_id l) = true;
  lf_closed : li_fd l = FPX_INVALID_SOCKET;
  lf_family : fpx_listener_is_ipv4 l = true ∨ fpx_listener_is_ipv6 l = true;
  lf_addr : li_text_addr l ≠ PNull
}.
Record server_typed {M} (s : fpx_server_t M) : Prop := {
  st_fields : map_Forall field_typed (sv_cntx s);
  st_workdir : is_Some (sv_cntx s !! OFF_WORKDIR);
  st_logger : is_Some (sv_logger s);
  st_listeners : Forall (λ l, listener_fresh l.2) (sv_listeners s)
}.

Section Typing.
Context {Ext EFn M : Type} `{PoolAlloc M} `{PoolCleanup M} `{Posix M} `{LoggerEnv M} `{OsStrerror}.
Context `{Sockets M} `{ProcCalls M} `{DynLinker Ext EFn M} `{MainPools M}.
Variables (messages : list fpx_log_message_t) (file0 : fpx_file_t) (walk_fuel : nat).
(** A module file declares its module without a context, and the handlers of other
    modules leave the fields of the server well-typed. *)
Hypothesis Hsym : ∀ (w w' : M) h m, dl_sym (Ext := Ext) (EFn := EFn) w h = (Some m, w') →
  md_cntx m = None ∧ md_preinited m = false.
Hypothesis Hext : ∀ (e : Ext) (s s' : fpx_server_t M) c argv err, server_typed s →
  ext_handler (EFn := EFn) e s c argv = Ok (err, s') → server_typed s'.

Abbreviation server := (fpx_server_t M).
Abbreviation sys := (system (Ext := Ext) (EFn := EFn) (M := M)).

(** The core module comes first, with the server as its context; the modules that were
    imported have none. *)
Record system_typed (x : sys) : Prop := {
  sy_core : ∃ m rest, x.1 = m :: rest ∧ md_cmd m = fpx_core_cmd ∧ md_cntx m = Some CServer ∧
    md_preinited m = true ∧ (md_init m = Some FCoreInit ∧ md_inited m = false) ∧
    Forall (λ m', md_cntx m' = None ∧ md_preinited m' = false) rest;
  sy_server : server_typed x.2
}.

Lemma typed_world (s : server) w : server_typed s → server_typed (with_world s w).
Proof using. intros [T1 T2 T3 T4]. by split. Qed.
Lemma typed_cntx (s : server) off v :
  server_typed s → field_typed off v → server_typed (with_cntx s (<[off := v]> (sv_cntx s))).
Proof using.
  intros [T1 T2 T3 T4] Hv. split; try done; cbn.
  - by apply map_Forall_insert_2.
  - rewrite lookup_insert_is_Some. destruct (decide (off = OFF_WORKDIR)); [by left|by right].
Qed.
Lemma typed_logger (s : server) l w : server_typed s → server_typed (with_logger s l w).
Proof using. intros [T1 T2 T3 T4]. by split. Qed.

(** *** The handlers of the core module *)
Lemma include_typed config (s : server) argv err config' s' :
  server_typed s → fpx_handler_include walk_fuel config s argv = Ok (err, config', s') → server_typed s'.
Proof using.
  intros Hs Hr. unfold fpx_handler_include in Hr. res_inv. destruct a0 as [[e c] w].
  destruct (negb (e =? FPX_OK)); injection Hr as <- <- <-; by apply typed_world.
Qed.

Lemma listen_typed (s : server) argv err s' :
  server_typed s → fpx_handler_listen s argv = Ok (err, s') → server_typed s'.
Proof using.
  intros Hs Hr. unfold fpx_handler_listen in Hr. res_inv. destruct a as [[mem|] w].
  2: { injection Hr as <- <-. by apply typed_world. }
  res_inv. destruct a0 as [[[rv addr] port] w']. unfold fpx_listener_init_ipv4, fpx_listener_init_ipv6 in Hr.
  change (FPX_OK =? FPX_OK) with true in Hr. cbn [negb] in Hr.
  repeat (case_match; try (injection Hr as <- <-; by apply typed_world));
    injection Hr as <- <-; destruct Hs as [T1 T2 T3 T4]; (split; try done); cbn;
    apply Forall_app; (split; [done|]); apply Forall_singleton; (split; cbn; try done);
    solve [by left | by right | by destruct addr].
Qed.

Lemma add_log_fd_typed (s s' : server) level fd :
  server_typed s → add_log_fd file0 s level fd = Ok s' → server_typed s'.
Proof using.
  intros Hs Hr. unfold add_log_fd in Hr. res_inv. destruct a0 as [[e l] w]. injection Hr as <-.
  by apply typed_logger.
Qed.
Lemma add_log_file_typed (s s' : server) level fname size :
  server_typed s → add_log_file s level fname size = Ok s' → server_typed s'.
Proof using.
  intros Hs Hr. unfold add_log_file in Hr. res_inv. destruct a0 as [[e l] w]. injection Hr as <-.
  by apply typed_logger.
Qed.
Hint Resolve add_log_fd_typed add_log_file_typed : fpx.

Lemma log_typed (s : server) argc argv err s' :
  server_typed s → fpx_handler_log file0 s argc argv = Ok (err, s') → server_typed s'.
Proof using.
  intros Hs Hr. unfold fpx_handler_log in Hr. res_inv. destruct (a0 =? FPX_LOG_INVALID_LEVEL).
  { by injection Hr as <- <-. }
  res_inv. destruct ((argc =? 2) && (a2 =? 0)).
  { res_inv. eauto with fpx. }
  res_inv. assert (server_typed a5) as Hs5.
  { repeat case_match; try (injection Ha5 as <-); eauto with fpx. }
  destruct (argc =? 3); [|by injection Hr as <- <-]. res_inv. destruct (a7 =? -1); [by injection Hr as <- <-|].
  res_inv. eauto with fpx.
Qed.

(** Importing appends a module without a context, and preinits none. *)
Lemma import_typed (ms ms' : list (fpx_module_t (handler Ext) (mfun EFn) context)) (s s' : server) argv err :
  system_typed (ms, s) →
  fpx_handler_import (H := server_modules messages) ms s argv = Ok (err, ms', s') → system_typed (ms', s').
Proof using Hsym.
  intros [(m & rest & E & Hc & Hx & Hp & Hinit & Hrest) Hs] Hr. cbn [fst snd] in *. subst ms.
  unfold fpx_handler_import in Hr. res_inv. destruct a0 as [[r ms1] s1].
  assert (∃ rest', ms1 = m :: rest' ∧ Forall (λ m', md_cntx m' = None ∧ md_preinited m' = false) rest' ∧
    server_typed s1) as (rest' & -> & Hrest' & Hs1).
  { clear Hr. unfold fpx_load_module, load_failed in Ha0. res_inv.
    assert (∀ w1 w2 (r0 : option (fpx_module_t (handler Ext) (mfun EFn) context)) ms0,
      Ok (r0, ms0, with_world (with_world s w1) w2) = Ok (r, ms1, s1) → ms0 = m :: rest →
      ∃ rest', ms1 = m :: rest' ∧ Forall (λ m', md_cntx m' = None ∧ md_preinited m' = false) rest' ∧
        server_typed s1) as Hsame.
    { intros w1 w2 r0 ms0 Heq ->. injection Heq as <- <- <-. exists rest. split; [done|]. split; [done|].
      by do 2 apply typed_world. }
    destruct (negb (a0 =? FPX_OK)); [by eapply (Hsame (sv_world s)) in Ha0|].
    cbn [sys_dlopen server_modules] in Ha0. destruct (dl_open (sv_world s) a) as [[h|] w1];
      [|by eapply (Hsame w1) in Ha0].
    cbn [sys_dlsym server_modules] in Ha0. destruct (dl_sym _ h) as [[md|] w2] eqn:Esym;
      [|by eapply (Hsame w1) in Ha0].
    destruct (Hsym _ _ _ _ Esym) as [E1 E2].
    apply bind_inv in Ha0 as ([e ms2] & Hadd & Ha0). unfold fpx_add_module in Hadd.
    apply bind_inv in Hadd as (taken & _ & Hadd). destruct taken.
    - injection Hadd as <- <-. by eapply (Hsame w1) in Ha0.
    - injection Hadd as <- <-. cbn in Ha0. injection Ha0 as <- <- <-. eexists. split; [done|]. split.
      + apply Forall_app. split; [done|]. by apply Forall_singleton.
      + by do 2 apply typed_world. }
  assert (ms' = m :: rest' ∧ server_typed s') as [-> Hs'].
  { destruct r as [r|]; [|by injection Hr as <- <- <-].
    unfold fpx_preinit_modules in Hr. cbn [preinit_loop] in Hr. rewrite Hp in Hr. by injection Hr as <- <- <-. }
  split; [|done]. by exists m, rest'.
Qed.

(** *** The generic handlers *)
Definition cntx_handler (f : gmap Z cval → res (fpx_err_t * gmap Z cval)) (off : Z) (ok : cval → Prop) : Prop :=
  ∀ d err d', f d = Ok (err, d') → d' = d ∧ err ≠ FPX_OK ∨ err = FPX_OK ∧ ∃ v, d' = <[off := v]> d ∧ ok v.

Lemma flag_handler off argv :
  cntx_handler (λ d, fpx_handler_flag off d argv) off (λ v, ∃ b, v = VBool b).
Proof using.
  intros d err d' Hr. unfold fpx_handler_flag in Hr. res_inv.
  destruct (a0 =? 0); [injection Hr as <- <-; right; eauto|]. res_inv.
  destruct (a1 =? 0); injection Hr as <- <-; [right; eauto|by left].
Qed.
Lemma str_handler off argv :
  cntx_handler (λ d, fpx_handler_str off d argv) off (λ v, ∃ a, v = VStr a).
Proof using. intros d err d' Hr. unfold fpx_handler_str in Hr. res_inv. right. eauto. Qed.
Lemma uint_handler off argv :
  cntx_handler (λ d, fpx_handler_uint off d argv) off (λ v, ∃ n, v = VInt n ∧ - 2 ^ 31 ≤ n < 2 ^ 31 ∧ n ≠ -1).
Proof using.
  intros d err d' Hr. unfold fpx_handler_uint in Hr. res_inv. pose proof (s32_range a0).
  destruct (Z.eqb_spec (s32 a0) (-1)); injection Hr as <- <-; [by left|right]. split; [done|]. eauto 6.
Qed.

(** On the core module they write a field of the type its handler stores; on an
    imported one they write nothing, or through a null pointer. *)
Lemma generic_core f off ok x err x' :
  cntx_handler f off ok → (∀ v, ok v → field_typed off v) → system_typed x →
  generic f 0 x = Ok (err, x') → system_typed x'.
Proof using.
  intros Hf Hok [(m & rest & E & Hc & Hx & Hp & Hinit & Hrest) Hs] Hr. destruct x as [ms s]. cbn [fst snd] in *. subst ms.
  unfold generic in Hr. cbn [lookup list_lookup of_option] in Hr. rewrite bind_ok, Hx in Hr. res_inv.
  destruct a as [e d]. injection Hr as <- <-. split; [by exists m, rest|]. cbn.
  destruct (Hf _ _ _ Ha) as [[-> _]|(_ & v & -> & Hv)]; [by destruct Hs; split|]. apply typed_cntx; auto.
Qed.
Lemma generic_imported f k off ok x err x' :
  cntx_handler f off ok → system_typed x → generic f (S k) x = Ok (err, x') → x' = x ∧ err ≠ FPX_OK.
Proof using.
  intros Hf [(m & rest & E & Hc & Hx & Hp & Hinit & Hrest) Hs] Hr. destruct x as [ms s]. cbn [fst snd] in *. subst ms.
  unfold generic in Hr. cbn [lookup list_lookup] in Hr. res_inv. rewrite Forall_lookup in Hrest.
  destruct (Hrest k a Ha) as [Hn _]. rewrite Hn in Hr. res_inv. destruct a0 as [e d].
  destruct (Z.eqb_spec e FPX_OK); [done|]. by injection Hr as <- <-.
Qed.

(** *** Dispatch *)
Lemma find_in_table_elem {Hd} (tbl : list (fpx_command_t Hd)) name c :
  find_in_table tbl name = Ok (Some c) → c ∈ tbl.
Proof using.
  induction tbl as [|c0 tbl IH]; [done|]. cbn [find_in_table]. intros Hr. res_inv.
  destruct (a =? 0); [injection Hr as <-; by left|]. right. by apply IH.
Qed.
Lemma find_in_modules_elem {Hd} (mods : list (list (fpx_command_t Hd))) name : ∀ i k c,
  find_in_modules mods i name = Ok (Some (k, c)) → ∃ tbl, mods !! (k - i)%nat = Some tbl ∧ c ∈ tbl ∧ (i ≤ k)%nat.
Proof using.
  induction mods as [|m mods IH]; intros i k c Hr; [done|]. cbn [find_in_modules] in Hr. res_inv. destruct a as [c0|].
  - injection Hr as <- <-. exists m. rewrite Nat.sub_diag. split; [done|]. split; [by eapply find_in_table_elem|lia].
  - destruct (IH _ _ _ Hr) as (tbl & E & Hin & Hle). exists tbl. split; [|split; [done|lia]].
    replace (k - i)%nat with (S (k - S i)) by lia. done.
Qed.

Lemma core_offsets (cmd : fpx_command_t (handler Ext)) : cmd ∈ fpx_core_cmd →
  match c_handler cmd with
  | HFlag => ∀ v, (∃ b, v = VBool b) → field_typed (c_offset cmd) v
  | HStr => ∀ v, (∃ a, v = VStr a) → field_typed (c_offset cmd) v
  | HUint => ∀ v, (∃ n, v = VInt n ∧ - 2 ^ 31 ≤ n < 2 ^ 31 ∧ n ≠ -1) → field_typed (c_offset cmd) v
  | HSize | HExt _ => False
  | _ => True
  end.
Proof using.
  unfold fpx_core_cmd. rewrite !elem_of_cons, elem_of_nil. intros Hin.
  repeat (destruct Hin as [->|Hin]; [cbn [c_handler c_offset]; first [exact I|intros v Hv; exact Hv]|]). done.
Qed.

(** A handler called through the table of its module. *)
Lemma call_handler_typed x config k cmd d err config' x' :
  system_typed x → (∃ m, x.1 !! k = Some m ∧ cmd ∈ md_cmd m) →
  call_handler messages file0 walk_fuel x config k cmd d = Ok (err, config', x') → system_typed x'.
Proof using Hsym Hext.
  intros Hx (m & Hm & Hin) Hr. pose proof Hx as [(m0 & rest & E & Hc & Hcx & Hp & Hinit & Hrest) Hs]. destruct x as [ms s].
  cbn [fst snd] in *.
  assert (∀ s', server_typed s' → system_typed (ms, s')) as Hserver by (intros s' Hs'; split; [by exists m0, rest|done]).
  assert (∀ f off ok, cntx_handler f off ok → (k = O → ∀ v, ok v → field_typed off v) →
    (∃ e x1, generic f k (ms, s) = Ok (e, x1) ∧ Ok (e, config, x1) = Ok (err, config', x')) → system_typed x') as Hgen.
  { intros f off ok Hf Hok (e & x1 & Hg & Heq). injection Heq as <- <- <-. destruct k as [|k].
    - by eapply generic_core; [exact Hf|by apply Hok| |exact Hg].
    - by destruct (generic_imported f k off ok _ _ _ Hf Hx Hg) as [-> _]. }
  assert (k = O → cmd ∈ fpx_core_cmd) as Hcore.
  { intros ->. rewrite E in Hm. injection Hm as <-. by rewrite <- Hc. }
  unfold call_handler in Hr. pose proof (core_offsets cmd) as Hoff.
  destruct (c_handler cmd) as [| | | | | | | |e]; apply bind_inv in Hr as (r & Hr & Heq).
  - destruct r as [[e1 c1] s1]. injection Heq as <- <- <-. apply Hserver. by eapply include_typed.
  - destruct r as [[e1 ms1] s1]. injection Heq as <- <- <-. by eapply import_typed.
  - destruct r as [e1 s1]. injection Heq as <- <- <-. apply Hserver. by eapply listen_typed.
  - destruct r as [e1 s1]. injection Heq as <- <- <-. apply Hserver. by eapply log_typed.
  - destruct r as [e1 x1]. eapply (Hgen _ _ _ (flag_handler _ (d_argv d))); [by intros E0; apply Hoff, Hcore|eauto].
  - destruct r as [e1 x1]. eapply (Hgen _ _ _ (str_handler _ (d_argv d))); [by intros E0; apply Hoff, Hcore|eauto].
  - destruct r as [e1 x1]. destruct k as [|k]; [by destruct (Hoff (Hcore eq_refl))|].
    eapply (Hgen (λ data, fpx_handler_size (c_offset cmd) data (d_argv d)) (c_offset cmd) (λ _, True)); [|done|eauto].
    intros d0 err0 d' Hh. unfold fpx_handler_size in Hh. res_inv.
    destruct (a0 =? -1); injection Hh as <- <-; [by left|right; eauto].
  - destruct r as [e1 x1]. eapply (Hgen _ _ _ (uint_handler _ (d_argv d))); [by intros E0; apply Hoff, Hcore|eauto].
  - apply bind_inv in Heq as ([e1 s1] & Hcall & Heq). injection Heq as <- <- <-. apply Hserver. by eapply Hext.
Qed.

Lemma process_typed only fuel : ∀ k config x err config' x', system_typed x →
  process_loop modules_of (call_handler messages file0 walk_fuel) only fuel k config x = Ok (err, config', x') →
  system_typed x'.
Proof using Hsym Hext.
  induction fuel as [|fuel IH]; intros k config x err config' x' Hx Hr; [done|]. cbn [process_loop] in Hr.
  destruct (conf_list config !! k) as [d|]; [|by injection Hr as <- <- <-].
  apply bind_inv in Hr as (cmd & Hcmd & Hr). destruct cmd as [cmd|]; [|by injection Hr as <- <- <-].
  destruct (negb _); [by injection Hr as <- <- <-|]. apply bind_inv in Hr as (skip & _ & Hr).
  destruct skip; [by eapply IH|]. apply bind_inv in Hr as (mi & Hmi & Hr).
  destruct mi as [mi|]; [|by injection Hr as <- <- <-]. apply bind_inv in Hr as ([[e c] y] & Hcall & Hr).
  unfold fpx_find_command_in_modules, fpx_find_module_by_command in Hcmd, Hmi.
  apply bind_inv in Hcmd as (r & Hfind & Hcmd). rewrite Hfind, bind_ok in Hmi.
  destruct r as [[k' c']|]; [|done]. injection Hmi as <-. injection Hcmd as <-.
  destruct (find_in_modules_elem _ _ _ _ _ Hfind) as (tbl & Htbl & Hin & _). cbn [fst snd] in *.
  rewrite Nat.sub_0_r in Htbl. unfold modules_of in Htbl. rewrite list_lookup_fmap in Htbl.
  destruct (x.1 !! k') as [m|] eqn:Em; [|done]. injection Htbl as <-.
  assert (system_typed y) as Hy by (eapply call_handler_typed; [done|by exists m|done]).
  destruct (negb (e =? FPX_OK)); [by injection Hr as <- <- <-|]. by eapply IH.
Qed.

(** C11: Processing or checking any configuration keeps the system well-typed: the
    core module stays first with the server as its context, every field the generic
    handlers write holds a value of its own type, the logger exists, and every
    listener is a fresh one of a known family.  It also keeps the imported modules
    without a context, so that a directive of such a module that the handler of strings
    is to store writes through a null pointer. *)
Theorem config_well_typed fuel config x err config' x' : system_typed x →
  server_config_check messages file0 walk_fuel fuel config x = Ok (err, config', x') ∨
  server_config_process messages file0 walk_fuel fuel config x = Ok (err, config', x') →
  system_typed x' ∧
  ∀ k m cmd d, x'.1 !! S k = Some m → c_handler cmd = HStr → d_argv d ≠ [] →
    call_handler messages file0 walk_fuel x' config' (S k) cmd d = UB.
Proof using Hsym Hext.
  intros Hx Hr.
  assert (system_typed x') as Hx' by (destruct Hr as [Hr|Hr]; by eapply process_typed).
  split; [done|]. intros k m cmd d Hm Hh Hd. destruct Hx' as [(m0 & rest & E & _ & _ & _ & _ & Hrest) _].
  destruct x' as [ms s]. cbn [fst snd] in *. subst ms. cbn in Hm. rewrite Forall_lookup in Hrest.
  destruct (Hrest k m Hm) as [Hn _]. unfold call_handler, generic. rewrite Hh. cbn [lookup list_lookup].
  rewrite Hm. cbn [of_option]. rewrite bind_ok, Hn. unfold fpx_handler_str, arg0.
  destruct (d_argv d) as [|a l]; [done|]. done.
Qed.
End Typing.

(** ** Starting *)
Section Opened.
Context {M : Type} (opened : M → gset Z).

(** The outcome of the loop: the first [n] listeners have a socket each. *)
Record listeners_opened (ls ls' : list (Z * fpx_listener_t)) (w w' : M) (ok : bool) (n : nat) : Prop := {
  lo_addrs : ls'.*1 = ls.*1;
  lo_rest : drop n ls' = drop n ls;
  lo_all : ok = true → n = length ls;
  lo_nodup : NoDup (take n (li_fd <$> ls'.*2));
  lo_new : ∀ fd, fd ∈ take n (li_fd <$> ls'.*2) → 0 ≤ fd ∧ fd ∉ opened w;
  lo_opened : opened w' = list_to_set (take n (li_fd <$> ls'.*2)) ∪ opened w
}.

Lemma listeners_opened_none ls w w' ok :
  (ok = true → ls = []) → opened w' = opened w → listeners_opened ls ls w w' ok 0.
Proof.
  intros Hok Ho. split; try done; cbn; [intros E; by rewrite Hok|constructor|intros fd Hfd; inversion Hfd|].
  rewrite Ho. set_solver.
Qed.

Lemma listeners_opened_cons a l l' ls ls' w w1 w' ok n :
  0 ≤ li_fd l' → li_fd l' ∉ opened w → opened w1 = {[li_fd l']} ∪ opened w →
  listeners_opened ls ls' w1 w' ok n → listeners_opened ((a, l) :: ls) ((a, l') :: ls') w w' ok (S n).
Proof.
  intros Hp Hn Ho [R1 R2 R3 R4 R5 R6]. split; cbn; try done.
  - by rewrite R1.
  - intros E. by rewrite R3.
  - constructor; [|done]. intros Hin. destruct (R5 _ Hin) as [_ Hnot]. rewrite Ho in Hnot. set_solver.
  - intros fd [->|Hfd]%elem_of_cons; [done|]. destruct (R5 _ Hfd) as [? Hnot]. split; [done|]. set_solver.
  - rewrite R6, Ho. set_solver.
Qed.

End Opened.

Section Starting.
Context {Ext EFn M : Type} `{PoolAlloc M} `{PoolCleanup M} `{Posix M} `{LoggerEnv M} `{OsStrerror}.
Context `{Sockets M} `{ProcCalls M} `{DynLinker Ext EFn M} `{MainPools M}.
(** The open descriptors; registering a clean-up opens and closes none. *)
Variables (opened : M → gset Z) (bad : M → nat).
Hypothesis laws : socket_laws opened bad.
Hypothesis Hclean : ∀ (w : M) a h, ∃ w', mp_cleanup_add ServerPool w a h = Ok w' ∧ opened w' = opened w.

(** [fpx_listener_open] of any listener. *)
Lemma listener_open_ok l w : let r := fpx_listener_open l w in
  opened r.2 = opened w ∧ (li_fd l < 0 → r.1 ≠ FPX_OK).
Proof using laws.
  unfold fpx_listener_open, fpx_socket_listen, socket_err.
  destruct (law_listen _ _ laws w (li_fd l) FPX_MAX_CONNECT_QUEUELEN) as ([Ho _] & Hneg & He).
  destruct (sk_listen w (li_fd l) FPX_MAX_CONNECT_QUEUELEN) as [r w1]. cbn [fst snd] in *.
  destruct (Z.eqb_spec r (-1)) as [E|E].
  - rewrite (proj2 (Z.eqb_neq _ _) (He E)). cbn [negb fst snd]. split; [done|]. intros _. by apply He.
  - change (negb (FPX_OK =? FPX_OK)) with false. split; [done|]. intros Hlt. by destruct E; apply Hneg.
Qed.

(** A listener that has no socket after [fpx_listener_bind] stops the loop, whatever
    the answer was. *)
Lemma open_listeners_ok ls w :
  Forall (λ l, li_text_addr l.2 ≠ PUndef ∧ li_text_port l.2 ≠ PUndef ∧ li_fd l.2 = FPX_INVALID_SOCKET) ls →
  ∃ ok ls' w' n, open_listeners ls w = Ok (ok, ls', w') ∧ listeners_opened opened ls ls' w w' ok n.
Proof using laws Hclean.
  revert w. induction ls as [|[a l] ls IH]; intros w Hall.
  { exists true, [], w, O. split; [done|]. by apply listeners_opened_none. }
  apply Forall_cons in Hall as [(Ha & Hp & Hi) Hall]. cbn [snd] in *. cbn [open_listeners].
  assert (∃ addr, ptr_arg (li_text_addr l) = Ok addr) as [addr Eaddr] by (destruct (li_text_addr l); [by eexists|done|by eexists]).
  assert (∃ port, ptr_arg (li_text_port l) = Ok port) as [port Eport] by (destruct (li_text_port l); [by eexists|done|by eexists]).
  destruct (listener_bind_ok opened bad laws l w addr port Eaddr Eport) as (err & l1 & w1 & -> & Hb).
  rewrite bind_ok.
  assert ((err = FPX_OK ∧ ∃ fd name, l1 = Listener (li_type_id l) fd name (li_text_addr l) (li_text_port l) ∧
             0 ≤ fd ∧ (fd ∉ opened w) ∧ opened w1 = {[fd]} ∪ opened w) ∨ (l1 = l ∧ opened w1 = opened w)) as [(-> & fd & name & -> & Hfd & Hnew & Ho)|[-> Ho]].
  { destruct (lookup_of addr port l w) as [[addrs|] w0]; [|right; destruct Hb as (_ & -> & Ho & _); done].
    destruct Hb as [(-> & fd & name & -> & ? & ? & ? & _)|(_ & -> & ? & _)]; [left; split; [done|]; by exists fd, name|by right]. }
  2: { destruct (negb (err =? FPX_OK)); [exists false, ((a, l) :: ls), w1, O; split; [done|]; by apply listeners_opened_none|].
       destruct (listener_open_ok l w1) as [Ho2 Hneg]. destruct (fpx_listener_open l w1) as [e w2]. cbn [fst snd] in *.
       rewrite (proj2 (Z.eqb_neq e FPX_OK)) by (apply Hneg; rewrite Hi; done). exists false, ((a, l) :: ls), w2, O.
       split; [done|]. apply listeners_opened_none; [done|congruence]. }
  change (negb (FPX_OK =? FPX_OK)) with false. cbn iota. set (l1 := Listener _ fd name _ _).
  destruct (listener_open_ok l1 w1) as [Ho2 _]. destruct (fpx_listener_open l1 w1) as [e w2]. cbn [snd] in Ho2.
  destruct (negb (e =? FPX_OK)).
  { exists false, ((a, l1) :: ls), w2, 1%nat. split; [done|].
    apply (listeners_opened_cons opened a l l1 ls ls w w1 w2 false 0); try done.
    apply listeners_opened_none; [done|congruence]. }
  destruct (Hclean w2 a FPX_LISTENER_CLOSE) as (w3 & -> & Ho3). rewrite bind_ok.
  destruct (IH w3 Hall) as (ok & ls' & w' & n & -> & Hres). rewrite bind_ok.
  exists ok, ((a, l1) :: ls'), w', (S n). split; [done|].
  apply (listeners_opened_cons opened a l l1 ls ls' w w3 w' ok n); try done. cbn. congruence.
Qed.

(** C20: Opening the listeners at the start of the server.  If every listener has an
    address and a port and no socket yet, as configuring leaves them, the loop returns;
    the sockets it has opened are new, pairwise distinct, each owned by one of the first
    listeners of the list, which is all of them on success, and the other listeners are
    unchanged.  This does not rest on [errno]: a listener for which [fpx_listener_bind]
    answers [FPX_OK] without a socket stops the loop too, because [listen] refuses it.
    A listener that was configured without a port makes the server read an
    indeterminate pointer as soon as the ones before it are open. *)
Theorem start_listeners ls w :
  (Forall (λ l, li_text_addr l.2 ≠ PUndef ∧ li_text_port l.2 ≠ PUndef ∧ li_fd l.2 = FPX_INVALID_SOCKET) ls →
   ∃ ok ls' w' n, open_listeners ls w = Ok (ok, ls', w') ∧ listeners_opened opened ls ls' w w' ok n) ∧
  (∀ ls1 a l ls2 ls1' w1, ls = ls1 ++ (a, l) :: ls2 → li_text_port l = PUndef →
   open_listeners ls1 w = Ok (true, ls1', w1) → open_listeners ls w = UB).
Proof using laws Hclean.
  split; [apply open_listeners_ok|].
  intros ls1 a l ls2 ls1' w1 -> Hp. revert w ls1' w1. induction ls1 as [|[b l1] ls1 IH]; intros w ls1' w1 Hr.
  { cbn [app open_listeners]. unfold fpx_listener_bind. rewrite Hp. by destruct (li_text_addr l). }
  cbn [app open_listeners] in *. destruct (fpx_listener_bind l1 w) as [[[e l2] w2]| | |]; try done.
  rewrite bind_ok in *. destruct (negb (e =? FPX_OK)); [done|].
  destruct (fpx_listener_open l2 w2) as [e2 w3]. destruct (negb (e2 =? FPX_OK)); [done|].
  destruct (mp_cleanup_add ServerPool w3 b FPX_LISTENER_CLOSE) as [w4| | |]; try done. rewrite bind_ok in *.
  apply bind_inv in Hr as ([[ok ls'] w5] & Hr & Heq). injection Heq as -> _ _. by rewrite (IH w4 ls' w5 Hr).
Qed.
End Starting.

(** [threads]: the number of threads beside the one that runs.  [fork] copies only that
    one. *)
Record thread_laws {M} `{Posix M} `{ProcCalls M} (threads : M → nat) : Prop := {
  law_fork_threads : ∀ w, 0 ≤ (pr_fork w).1 → threads (pr_fork w).2 = O;
  law_setsid_threads : ∀ w, threads (pr_setsid w).2 = threads w;
  law_sighup_threads : ∀ w, threads (pr_ignore_sighup w) = threads w;
  law_close_threads : ∀ w fd, threads (sys_close w fd) = threads w;
  law_open_threads : ∀ w p f m, threads (sys_open w p f m).2 = threads w
}.

Section CoreInit.
Context {M : Type} `{PoolAlloc M} `{PoolCleanup M} `{Posix M} `{LoggerEnv M} `{OsStrerror}.
Context `{Sockets M} `{ProcCalls M} `{MainPools M}.
Hypothesis creds : credential_laws (W := M).
Variable threads : M → nat.
Hypothesis Hthreads : thread_laws threads.
Hypothesis Herrno : ∀ w : M, sys_errno w ≠ FPX_OK.

Lemma redirect_threads (w : M) : threads (redirect_stdio w) = threads w.
Proof using Hthreads.
  destruct Hthreads as [_ _ _ Hcl Hop]. unfold redirect_stdio.
  repeat match goal with |- context [sys_open ?w dev_null ?f 0] =>
    pose proof (Hop w dev_null f 0); destruct (sys_open w dev_null f 0); cbn [snd] in * end.
  by rewrite !Hcl in *; congruence.
Qed.

Lemma daemon_threads (w w' : M) : fpx_process_become_daemon w = (FPX_OK, w') → threads w' = O.
Proof using Hthreads Herrno.
  unfold fpx_process_become_daemon. destruct (pr_fork w) as [p1 w1].
  destruct (p1 <? 0). { intros E. by destruct (Herrno w1); congruence. }
  destruct (pr_setsid w1) as [r w2]. destruct (r <? 0). { intros E. by destruct (Herrno w2); congruence. }
  pose proof (law_fork_threads _ Hthreads (pr_ignore_sighup w2)) as Hf. destruct (pr_fork _) as [p2 w3].
  destruct (Z.ltb_spec p2 0). { intros E. by destruct (Herrno w3); congruence. }
  intros [= <-]. rewrite redirect_threads. by apply Hf.
Qed.

(** C12: The rest of the start, after the listeners are open and the working directory
    is set.  Started by root with a user and a group configured, both other than root, it always
    fails: the user is set first, and then the process may not change its group any more.  In
    daemon mode it ends, when it succeeds, with a logger that is marked as running and
    no thread to run it, so that no message is ever written, whatever is logged. *)
Theorem core_init_start (s : fpx_server_t M) ls w1 w2 dir user group lg :
  sv_listeners s ≠ [] → open_listeners (sv_listeners s) (sv_world s) = Ok (true, ls, w1) →
  str_field s OFF_WORKDIR = Ok (Some dir) → fpx_process_set_workdir w1 dir = (FPX_OK, w2) →
  str_field s OFF_USER = Ok user → str_field s OFF_GROUP = Ok group → sv_logger s = Some lg →
  (∀ u g uid gid, user = Some u → group = Some g → pr_geteuid w2 = 0 → pr_getegid w2 = 0 →
    pr_getpwnam w2 u = Some uid → uid ≠ 0 → pr_getgrnam w2 g = Some gid → gid ≠ 0 →
    ∃ err s', fpx_core_init s (Some CServer) = Ok (err, s') ∧ err ≠ FPX_OK) ∧
  (∀ s', fpx_core_init s (Some CServer) = Ok (FPX_OK, s') → bool_field s OFF_DAEMON = Ok true →
    ∃ lg', sv_logger s' = Some lg' ∧ lg_running lg' = true ∧ threads (sv_world s') = O ∧
      ∀ ths dep fetched lines x, each (λ _ t, t_work t = None) ths →
        steps (Shared lg' (sv_world s') dep fetched lines, ths) x → s_lines x.1 = lines).
Proof using creds Hthreads Herrno.
  intros Hne Hopen Hdir Hwd Huser Hgroup Hlg. unfold fpx_core_init. cbn [fpx_assert]. rewrite bind_ok.
  destruct (sv_listeners s) as [|l0 l]; [done|]. rewrite Hopen, bind_ok. cbn [negb]. cbv zeta.
  change (str_field (with_listeners s ls w1)) with (str_field s). rewrite Hdir, bind_ok. cbn [of_option].
  rewrite bind_ok, Hwd. change (negb (FPX_OK =? FPX_OK)) with false. cbn iota. rewrite Huser, bind_ok. split.
  - intros u g uid gid -> -> Hu Hg Hpw Huid Hgr Hgid. cbn [set_unless_default].
    destruct (fpx_process_set_user w2 u) as [err w3] eqn:Eset.
    destruct (Z.eqb_spec err FPX_OK) as [->|E]; cbn [negb]; [|by eexists _, _].
    destruct (set_user_root creds w2 u w3 Hu Eset (Herrno w3)) as (uid' & Hpw' & Hu3 & Hg3 & Hgrp).
    assert (uid' = uid) as -> by congruence. rewrite Hgroup, bind_ok. cbn [set_unless_default].
    pose proof (set_group_user creds w3 g gid) as Hfail. destruct (fpx_process_set_group w3 g) as [err w4].
    cbn [fst] in Hfail. rewrite Hfail by congruence. by eexists _, _.
  - intros s' Hr Hd. destruct (set_unless_default fpx_process_set_user user w2) as [e3 w3].
    destruct (Z.eqb_spec e3 FPX_OK) as [->|E]; cbn [negb] in Hr; [|congruence]. rewrite Hgroup, bind_ok in Hr.
    destruct (set_unless_default fpx_process_set_group group w3) as [e4 w4].
    destruct (Z.eqb_spec e4 FPX_OK) as [->|E]; cbn [negb] in Hr; [|congruence].
    change (sv_logger (with_listeners s ls w1)) with (sv_logger s) in Hr. rewrite Hlg in Hr. cbn [of_option] in Hr.
    rewrite bind_ok in Hr. apply bind_inv in Hr as ([[e5 lg'] w5] & Hstart & Hr).
    destruct (Z.eqb_spec e5 FPX_OK) as [->|E]; cbn [negb] in Hr; [|congruence].
    change (bool_field (with_logger _ lg' w5)) with (bool_field s) in Hr. rewrite Hd, bind_ok in Hr. cbn iota in Hr.
    destruct (fpx_process_become_daemon w5) as [e6 w6] eqn:Edaemon. injection Hr as -> <-.
    exists lg'. split; [done|]. split.
    { unfold fpx_logger_start in Hstart. apply bind_inv in Hstart as ([[tid|] w7] & _ & Hstart);
        [|injection Hstart as _ <- _; done].
      destruct (env_thread_init w7) as [e8 w8]. destruct (negb (e8 =? FPX_OK)); [injection Hstart as _ <- _; done|].
      apply bind_inv in Hstart as (w9 & _ & Hstart). injection Hstart as <- _. done. }
    split; [by eapply daemon_threads|]. intros ths dep fetched lines x Hn Hst.
    by destruct (silent_run (_, ths) x Hn Hst) as [-> _].
Qed.
End CoreInit.

(** ** A concrete system *)

(** A world in which every call succeeds: the next free address, the open descriptors,
    the bad calls of [close], the ids of the process, its other threads, and the files the
    pool of the configuration is to close. *)
Record demo := Demo { dm_next : Z; dm_open : gset Z; dm_bad : nat; dm_euid : Z; dm_egid : Z; dm_threads : nat; dm_files : gset Z }.
Definition demo_sockets (w : demo) (o : gset Z) (b : nat) : demo :=
  Demo (dm_next w) o b (dm_euid w) (dm_egid w) (dm_threads w) (dm_files w).
Definition demo_ids (w : demo) (u g : Z) (t : nat) : demo := Demo (dm_next w) (dm_open w) (dm_bad w) u g t (dm_files w).

#[local] Instance demo_palloc : PoolAlloc demo := λ w n,
  Ok (Some (dm_next w), Demo (dm_next w + n) (dm_open w) (dm_bad w) (dm_euid w) (dm_egid w) (dm_threads w) (dm_files w)).
#[local] Instance demo_cleanup : PoolCleanup demo := λ w _ _, Ok w.
(** The file of the configuration has the descriptor 7. *)
#[local] Instance demo_pools : MainPools demo := {|
  mp_cleanup_add p w a h :=
    Ok (match p with
        | ServerPool => w
        | ConfigPool => Demo (dm_next w) (dm_open w) (dm_bad w) (dm_euid w) (dm_egid w) (dm_threads w) ({[7]} ∪ dm_files w)
        end);
  mp_destroy p w := match p with ServerPool => w | ConfigPool => demo_sockets w (dm_open w ∖ dm_files w) (dm_bad w) end
|}.
#[local] Instance demo_posix : Posix demo := {|
  sys_errno w := 1; sys_open w p m a := (7, w); sys_close w fd := w; sys_lseek w fd off wh := (0, w);
  sys_read w fd n := (0, [], w); sys_write w fd s := (Z.of_nat (length s), w);
  sys_stat w p := (None, w); sys_fstat w fd := (None, w); sys_opendir w p := (None, w);
  sys_readdir w h := (None, w); sys_closedir w h := w; sys_glob w p := (1, [], w)
|}.
#[local] Instance demo_env : LoggerEnv demo := {|
  env_pool_create w := (FPX_OK, w); env_pool_destroy w := w; env_sem_init w n := (FPX_OK, w);
  env_mutex_init w := (FPX_OK, w);
  env_thread_init w := (FPX_OK, demo_ids w (dm_euid w) (dm_egid w) (S (dm_threads w)));
  env_thread_cancel w := w; sys_fsync w fd := w;
  sys_localtime w := Tm 1 0 100 0 0 0; show_ptr := []
|}.
#[local] Instance demo_strerror : OsStrerror := λ _, [].
(** A new descriptor. *)
Definition demo_fd (w : demo) : Z := next_fd (dm_files w ∪ dm_open w).
Lemma demo_fd_fresh w : 0 ≤ demo_fd w ∧ (demo_fd w ∉ dm_open w) ∧ demo_fd w ∉ dm_files w.
Proof. unfold demo_fd. destruct (next_fd_fresh (dm_files w ∪ dm_open w)) as [? ?]. split; [done|set_solver]. Qed.
#[local] Instance demo_net : Sockets demo := {|
  sk_errno w := 98;
  sk_socket w d t p := (demo_fd w, demo_sockets w ({[demo_fd w]} ∪ dm_open w) (dm_bad w));
  sk_setsockopt w fd lv o v := (0, w); sk_ioctl w fd rq v := (0, w); sk_getfl w fd := (2, w);
  sk_setfl w fd fl := (0, w); sk_bind w fd a := (0, w); sk_listen w fd n := (if fd <? 0 then -1 else 0, w);
  sk_accept w fd n := (demo_fd w, None, demo_sockets w ({[demo_fd w]} ∪ dm_open w) (dm_bad w));
  sk_connect w fd a := (0, w); sk_shutdown w fd h := (0, w);
  sk_close w fd := demo_sockets w (dm_open w ∖ {[fd]}) (if decide (fd ∈ dm_open w) then dm_bad w else S (dm_bad w));
  sk_getaddrinfo w a p f t fl pr := (Some [Addrinfo 2 1 6 (Sockaddr 2 [])], w);
  sk_freeaddrinfo w := w; sk_getsockname w fd := (Some (Sockaddr 2 [0; 80]), w);
  sk_getnameinfo w a n h s f := (None, w); sk_msleep w ms := w
|}.
#[local] Instance demo_proc : ProcCalls demo := {|
  pr_fork w := (0, demo_ids w (dm_euid w) (dm_egid w) 0); pr_setsid w := (0, w); pr_ignore_sighup w := w;
  pr_chdir w d := (0, w); pr_geteuid := dm_euid; pr_getegid := dm_egid;
  pr_getpwnam w u := Some 33; pr_getgrnam w g := Some 33;
  pr_setuid w u := if dm_euid w =? 0 then (0, demo_ids w u (dm_egid w) (dm_threads w)) else (-1, w);
  pr_setgid w g := if dm_euid w =? 0 then (0, demo_ids w (dm_euid w) g (dm_threads w)) else (-1, w)
|}.
(** Every file is a module with a directive that stores a string. *)
Definition demo_module : fpx_module_t (handler Empty_set) (mfun Empty_set) context :=
  Module (chars_of "test1" ++ [0]) 1 [Command (chars_of "root" ++ [0]) FPX_TAKE1 HStr 8] None None None
    None None false false.
#[local] Instance demo_linker : DynLinker Empty_set Empty_set demo := {|
  dl_open w f := (Some 9, w); dl_sym w h := (Some demo_module, w); dl_close w h := w; dl_set_errno w e := w;
  ext_handler e := match e with end; ext_preinit f := match f with end;
  ext_init f := match f with end; ext_fini f := match f with end
|}.

Lemma demo_socket_laws : socket_laws dm_open dm_bad.
Proof.
  split; try (intros; done).
  1, 2: intros w; destruct (demo_fd_fresh w) as (? & ? & _); intros; cbn;
    (split; [by right|]; split; [done|lia]).
  intros w fd n. cbn. split; [done|]. split; [|done]. intros ?. by rewrite (proj2 (Z.ltb_lt _ _)).
Qed.
Lemma demo_credentials : credential_laws (W := demo).
Proof.
  split; cbn.
  - intros w uid E. rewrite E. by right.
  - intros w gid E. rewrite E. by right.
  - intros w gid E _. by rewrite (proj2 (Z.eqb_neq _ _) E).
  - done.
Qed.
Lemma demo_thread_laws : thread_laws dm_threads.
Proof. by split. Qed.

(** A directive as the configuration stores it. *)
Definition demo_directive (name : string) (args : list string) : fpx_directive_t :=
  Directive 0 (chars_of name ++ [0]) (Z.of_nat (length args)) ((λ a, chars_of a ++ [0]) <$> args) None 1.
Definition demo_config : fpx_config_t :=
  Config [demo_directive "import" ["/m.so"]; demo_directive "listen" ["[::1]:8080"];
          demo_directive "user" ["www"]; demo_directive "group" ["www"]; demo_directive "daemon" ["OFF"];
          demo_directive "log" ["stderr"; "warn"]] [].
Definition demo_start : system (Ext := Empty_set) (EFn := Empty_set) (M := demo) :=
  match fpx_core_preinit [] (Server [] ∅ None [] (Demo 4096 {[0; 1; 2]} 0 0 0 0 ∅)) with
  | Ok (c, s) => ([set_preinited fpx_core_module c], s)
  | _ => ([], Server [] ∅ None [] (Demo 0 ∅ 0 0 0 0 ∅))
  end.
Lemma demo_start_typed : system_typed demo_start.
Proof.
  split.
  - eexists _, []. by split_and!.
  - split; cbn.
    + repeat apply map_Forall_insert_2; cbn; [by eexists|by eexists|by exists 0|]. do 2 apply map_Forall_delete. intros i v Hv. by rewrite lookup_empty in Hv.
    + by eexists.
    + by eexists.
    + constructor.
Qed.

(** What processing it gives (20 is more than its directives). *)
Definition demo_final : fpx_err_t * fpx_config_t * system (Ext := Empty_set) (EFn := Empty_set) (M := demo) :=
  Eval vm_compute in match server_config_process [] (File 0 None 0) 0 20 demo_config demo_start with Ok r => r | _ => (0, demo_config, demo_start) end.
Definition demo_server : fpx_server_t demo := demo_final.2.2.
Lemma demo_run_ok :
  server_config_process [] (File 0 None 0) 0 20 demo_config demo_start = Ok (demo_final.1.1, demo_final.1.2, demo_final.2).
Proof. vm_compute. reflexivity. Qed.

(** The configuration is accepted; a directive of the imported module then writes
    through a null pointer. *)
Lemma config_well_typed_witness :
  demo_final.1.1 = FPX_OK ∧ length demo_final.2.1 = 2%nat ∧ length (sv_listeners demo_server) = 1%nat ∧
  system_typed demo_final.2 ∧
  call_handler [] (File 0 None 0) 0 demo_final.2 demo_final.1.2 1 (Command (chars_of "root" ++ [0]) FPX_TAKE1 HStr 8)
    (demo_directive "root" ["/srv"]) = UB.
Proof.
  assert (Hsym : ∀ (w w' : demo) h m, dl_sym (Ext := Empty_set) (EFn := Empty_set) w h = (Some m, w') →
    md_cntx m = None ∧ md_preinited m = false) by (intros w w' h m Hm; injection Hm as <- _; split; reflexivity).
  destruct (config_well_typed (Ext := Empty_set) (EFn := Empty_set) (M := demo) [] (File 0 None 0) 0 Hsym
    ltac:(intros []) 20 demo_config demo_start _ _ _ demo_start_typed (or_intror demo_run_ok)) as [Ht Hub].
  do 3 (split; [reflexivity|]). split; [exact Ht|].
  apply (Hub O (set_handle demo_module 9)); [vm_compute; reflexivity|reflexivity|discriminate].
Defined.

Lemma start_listeners_witness :
  let l (p : text_ptr) := (fpx_listener_init_ipv4 (PText (chars_of "127.0.0.1" ++ [0])) p).2 in
  let w := Demo 4096 {[0; 1; 2]} 0 0 0 0 ∅ in
  let ls := [(1, l (PText (chars_of "80" ++ [0]))); (2, l (PText (chars_of "81" ++ [0])))] in
  (∃ ls' w', open_listeners ls w = Ok (true, ls', w') ∧ (li_fd <$> ls'.*2) = [3; 4] ∧ NoDup [3; 4] ∧
     dm_open w' = {[3; 4]} ∪ dm_open w) ∧
  open_listeners (ls ++ [(3, l PUndef)]) w = UB.
Proof.
  intros l w ls.
  assert (∀ (w : demo) (a h : Z), ∃ w', mp_cleanup_add ServerPool w a h = Ok w' ∧ dm_open w' = dm_open w) as Hclean
    by (intros w0 a h; by exists w0).
  pose proof (start_listeners dm_open dm_bad demo_socket_laws Hclean) as Hthm.
  destruct (Hthm ls w) as [Hall _]. destruct (Hthm (ls ++ [(3, l PUndef)]) w) as [_ Hub].
  destruct Hall as (ok & ls' & w' & n & Hr & Hres); [repeat constructor; discriminate|].
  assert (∃ ls1 w1, open_listeners ls w = Ok (true, ls1, w1) ∧ (li_fd <$> ls1.*2) = [3; 4]) as (ls1 & w1 & Hr1 & Hfd)
    by (eexists _, _; vm_compute; split; reflexivity).
  rewrite Hr1 in Hr. injection Hr as <- <- <-. split.
  - exists ls1, w1. split; [exact Hr1|]. split; [exact Hfd|]. destruct Hres as [_ _ Hn Hnd _ Ho].
    rewrite (Hn eq_refl), Hfd in Hnd, Ho. split; [exact Hnd|]. rewrite Ho. set_solver.
  - apply (Hub ls 3 (l PUndef) [] ls1 w1); [reflexivity|reflexivity|exact Hr1].
Defined.

(** The demo configuration as root: the start fails, because of the group. *)
Definition demo_opened : bool * list (Z * fpx_listener_t) * demo :=
  Eval vm_compute in match open_listeners (sv_listeners demo_server) (sv_world demo_server) with
                     | Ok r => r | _ => (false, [], sv_world demo_server) end.
Lemma core_init_start_witness :
  ∃ err s', fpx_core_init demo_server (Some CServer) = Ok (err, s') ∧ err ≠ FPX_OK.
Proof.
  assert (open_listeners (sv_listeners demo_server) (sv_world demo_server) =
    Ok (true, demo_opened.1.2, demo_opened.2)) as Eo by (vm_compute; reflexivity).
  assert (is_Some (sv_logger demo_server)) as [lg Hlg] by (eexists; reflexivity).
  assert (sv_listeners demo_server ≠ []) as Hne by discriminate.
  assert (str_field demo_server OFF_WORKDIR = Ok (Some FPX_DEFAULT_WORKDIR)) as Hd by (vm_compute; reflexivity).
  assert (str_field demo_server OFF_USER = Ok (Some (chars_of "www" ++ [0]))) as Hu by (vm_compute; reflexivity).
  assert (str_field demo_server OFF_GROUP = Ok (Some (chars_of "www" ++ [0]))) as Hg by (vm_compute; reflexivity).
  destruct (core_init_start demo_credentials dm_threads demo_thread_laws ltac:(intros w0; discriminate)
    demo_server demo_opened.1.2 demo_opened.2 demo_opened.2 _ _ _ lg Hne Eo Hd eq_refl Hu Hg Hlg) as [Hfail _].
  apply (Hfail _ _ 33 33 eq_refl eq_refl); [reflexivity|reflexivity|reflexivity|discriminate|reflexivity|discriminate].
Defined.
