(* ===== verification/Main.v ===== *)
(** * The program: [src/src/core/main.c]

    The command line, the messages on the console and the order of the start.  The cycle
    in [cycle.c] is an empty loop that never ends: [main] has no outcome behind it. *)

From S2P Require Import Prelude CInt Errno Str Parse Filesys Config Strerror Log Console Module Socket Listen Process Server.
Open Scope Z_scope.

(** ** The command line *)

(** The static variables. *)
Record options := Options {
  show_version : bool;
  show_help : bool;
  test_config : bool;
  config_fname : chars
}.
Definition FPX_DEFAULT_CONFIG_PATH : chars := chars_of "/etc/fpx/floppix.conf" ++ [0].
Definition initial_options : options := Options false false false FPX_DEFAULT_CONFIG_PATH.
Definition set_version (o : options) : options := Options true (show_help o) (test_config o) (config_fname o).
Definition set_help (o : options) : options := Options (show_version o) true (test_config o) (config_fname o).
Definition set_test (o : options) : options := Options (show_version o) (show_help o) true (config_fname o).
Definition set_config (o : options) (f : chars) : options :=
  Options (show_version o) (show_help o) (test_config o) f.

(** [argv[i]]: [argv[argc]] is [NULL]; what is behind it may not be read. *)
Definition arg_at (argv : list chars) (i : nat) : res (option chars) :=
  if (i <=? length argv)%nat then Ok (argv !! i) else UB.

(** How the scan of the arguments ends: a [return], or a [goto] to one of the two labels
    behind the loops. *)
Inductive jump :=
  | Return (err : fpx_err_t)
  | InvalidOption
  | MissingArgment.

(** A name behind two dashes: [p] behind it, the options and [i] afterwards. *)
Definition long_option (argv : list chars) (p : chars) (o : options) (i : nat)
    : res (jump + chars * options * nat) :=
  r ← fpx_strcmp p (chars_of "version" ++ [0]);
  if r =? 0 then Ok (inr (drop 7 p, set_version o, i)) else
  r ← fpx_strcmp p (chars_of "help" ++ [0]);
  if r =? 0 then Ok (inr (drop 4 p, set_help o, i)) else
  r ← fpx_strcmp p (chars_of "test-config" ++ [0]);
  if r =? 0 then Ok (inr (drop 11 p, set_test o, i)) else
  r ← fpx_strcmp p (chars_of "config-file" ++ [0]);
  if r =? 0 then
    a ← arg_at argv (S i);
    match a with
    | Some f => Ok (inr (drop 11 p, set_config o f, S i))
    | None => Ok (inl MissingArgment)
    end
  else Ok (inl InvalidOption).

(** The loop over the letters of an argument: how it ends, the options and [i]. *)
Fixpoint option_loop (fuel : nat) (argv : list chars) (p : chars) (o : options) (i : nat)
    : res (jump * options * nat) :=
  match fuel with
  | O => NoFuel
  | S fuel =>
      c ← rd p 0;
      if c =? 0 then Ok (Return FPX_OK, o, i) else
      let p := drop 1 p in
      if c =? 118 then option_loop fuel argv p (set_version o) i
      else if c =? 104 then option_loop fuel argv p (set_help o) i
      else if c =? 116 then option_loop fuel argv p (set_test o) i
      else if c =? 99 then
        a ← arg_at argv (S i);
        match a with
        | Some f => option_loop fuel argv p (set_config o f) (S i)
        | None => Ok (MissingArgment, o, S i)
        end
      else if c =? 45 then
        r ← long_option argv p o i;
        match r with
        | inr (p, o, i) => option_loop fuel argv p o i
        | inl j => Ok (j, o, i)
        end
      else Ok (InvalidOption, o, i)
  end.

(** The loop over the arguments: how it ends, the options and [saved_index]. *)
Fixpoint argv_loop (fuel : nat) (argv : list chars) (i : nat) (o : options) : res (jump * options * nat) :=
  match fuel with
  | O => NoFuel
  | S fuel =>
      if (length argv <=? i)%nat then Ok (Return FPX_OK, o, i) else
      let saved_index := i in
      p ← of_option (argv !! i);
      c ← rd p 0;
      if negb (c =? 45) then Ok (Return FPX_FAILED, o, saved_index) else
      c ← rd p 1;
      if c =? 0 then Ok (Return FPX_FAILED, o, saved_index) else
      '(j, o, i) ← option_loop (S (length p)) argv (drop 1 p) o i;
      match j with
      | Return _ => argv_loop fuel argv (S i) o
      | j => Ok (j, o, saved_index)
      end
  end.

(** ** The console *)

(** What the build defines: the date, the system, the compiler if it is known, and the
    width of a pointer. *)
Record build := Build {
  FPX_BUILD_DATE : chars;
  FPX_SYSTEM_NAME : chars;
  FPX_COMPILER : option chars;
  FPX_PTR_WIDTH : Z
}.
Definition FPX_PROJECT_NAME : chars := chars_of "Floppix".
Definition FPX_PROJECT_CMD_NAME : chars := chars_of "floppix".
Definition FPX_VERSION_STR : chars := chars_of "0.4.0".

(** The names of the program, its version and the date. *)
Definition program_text (b : build) : chars :=
  FPX_PROJECT_NAME ++ [32] ++ FPX_VERSION_STR ++ [32] ++ FPX_BUILD_DATE b.
Definition help_text (b : build) : chars :=
  chars_of "Usage: " ++ FPX_PROJECT_CMD_NAME ++ chars_of " [options...] [argments...]" ++ [10] ++
  program_text b ++ [10; 10] ++
  chars_of "Options:" ++ [10] ++
  chars_of "  -h, --help                     Displays this message." ++ [10] ++
  chars_of "  -v, --version                  Displays version information." ++ [10] ++
  chars_of "  -t, --test                     Test configuration and exit." ++ [10] ++
  chars_of "  -c, --config-file <file>       Specify configuration file.".
Definition system_text (b : build) : chars :=
  chars_of "Target system: " ++ FPX_SYSTEM_NAME b ++ [32] ++ print_int (FPX_PTR_WIDTH b) ++ chars_of "-bit".
Definition quoted (a : chars) : chars := [34] ++ a ++ [34].

(** What the buffer of [fpx_log_console] contains, and the fuel for the reports of
    writes that fail.  No logger is global while [main] writes to the console. *)
Record console := MkConsole { cs_buffer : chars; cs_fuel : nat }.

Section Console.
Context {M : Type} `{Posix M} `{LoggerEnv M} `{OsStrerror}.
Variables (b : build) (con : console).

Definition fpx_log_stdout (w : M) (err : fpx_err_t) (text : chars) : res M :=
  log_console (cs_buffer con) (cs_fuel con) w FPX_STDOUT err text.
Definition fpx_log_stderr (w : M) (err : fpx_err_t) (text : chars) : res M :=
  log_console (cs_buffer con) (cs_fuel con) w FPX_STDERR err text.

Definition fpx_show_version_info (w : M) : res M :=
  w ← fpx_log_stdout w FPX_OK (program_text b);
  w ← fpx_log_stdout w FPX_OK (system_text b);
  match FPX_COMPILER b with
  | Some c => fpx_log_stdout w FPX_OK (chars_of "Built by " ++ c)
  | None => Ok w
  end.
Definition fpx_show_help_info (w : M) : res M := fpx_log_stdout w FPX_OK (help_text b).

(** The options are static variables: they are kept when the call fails. *)
Definition fpx_parse_argv (argv : list chars) (o : options) (w : M) : res (fpx_err_t * options * M) :=
  '(j, o, saved_index) ← argv_loop (S (length argv)) argv 1 o;
  let message text :=
    a ← of_option (argv !! saved_index);
    a ← c_string a;
    w ← fpx_log_stderr w FPX_OK (text ++ quoted a);
    Ok (FPX_FAILED, o, w) in
  match j with
  | Return err => Ok (err, o, w)
  | InvalidOption => message (chars_of "Invalid options ")
  | MissingArgment => message (chars_of "Missing argment for options ")
  end.
End Console.

(** ** [main] *)

(** How the program ends, or that it has entered its cycle. *)
Inductive outcome (W X : Type) :=
  | Exited (status : Z) (w : W)
  | Cycling (x : X).
Arguments Exited {W X}.
Arguments Cycling {W X}.

Section Main.
Context {Ext EFn M : Type} `{PoolAlloc M} `{PoolCleanup M} `{Posix M} `{LoggerEnv M} `{OsStrerror}.
Context `{Sockets M} `{ProcCalls M} `{DynLinker Ext EFn M} `{MainPools M}.
(** What fresh memory contains; the fuel of the walks through directories and of the
    loop over the directives. *)
Variables (b : build) (con : console).
Variables (messages : list fpx_log_message_t) (file0 : fpx_file_t) (walk_fuel fuel : nat).

Definition SIZEOF_SERVER : Z := 168.
Definition SIZEOF_CONFIG : Z := 48.

Abbreviation server := (fpx_server_t M).
Abbreviation sys := (system (Ext := Ext) (EFn := EFn) (M := M)).

(** [fpx_assert] of an allocation. *)
Definition assert_alloc (w : M) (size : Z) : res M :=
  '(mem, w) ← palloc w size;
  _ ← fpx_assert (match mem with Some _ => true | None => false end);
  Ok w.
Definition assert_pool (w : M) : res M :=
  let '(err, w) := env_pool_create w in
  _ ← fpx_assert (err =? FPX_OK);
  Ok w.
Definition fpx_save_argv (s : server) (argv : list chars) : server :=
  Server argv (sv_cntx s) (sv_logger s) (sv_listeners s) (sv_world s).

(** A message in front of [failed]. *)
Definition failed {A} (w : M) (err : fpx_err_t) (text : chars) : res (M + A) :=
  w ← fpx_log_stderr con w err text; Ok (inl w).

(** From the pools to the initialisation of the modules: the configuration, the
    modules and the server, or the state in which [main] jumps to [failed]. *)
Definition load_server (argv : list chars) (o : options) (w : M) : res (M + fpx_config_t * sys) :=
  w ← assert_pool w;
  w ← assert_pool w;
  w ← assert_alloc w SIZEOF_SERVER;
  let s := fpx_save_argv (Server [] ∅ None [] w) argv in
  w ← assert_alloc (sv_world s) SIZEOF_CONFIG;
  '(err, config, w) ← fpx_config_read (H0 := mp_cleanup_add ConfigPool) w (config_fname o);
  if negb (err =? FPX_OK) then failed w err (chars_of "Failed to read config file") else
  '(err, ms) ← fpx_setup_prelinked_modules [fpx_core_module] [];
  if negb (err =? FPX_OK) then failed w err (chars_of "Failed to setup prelinked modules") else
  '(err, ms, s) ← fpx_preinit_modules (H := server_modules messages) ms (with_world s w);
  if negb (err =? FPX_OK) then failed (sv_world s) err (chars_of "Failed to preinit modules") else
  Ok (inr (config, (ms, s))).

(** With [-t]: the logger and the two pools are destroyed. *)
Definition check_server (config : fpx_config_t) (x : sys) : res M :=
  '(err, _, x) ← server_config_check messages file0 walk_fuel fuel config x;
  let s := x.2 in
  w ← fpx_log_stderr con (sv_world s) FPX_OK
        (if err =? FPX_OK then chars_of "Configuration check succeeded" else chars_of "Configuration check failed");
  logger ← of_option (sv_logger s);
  Ok (mp_destroy ServerPool (mp_destroy ConfigPool (fpx_logger_destroy logger w))).

(** In the cycle the pool of the configuration is gone, and [sv_logger] is the global
    logger. *)
Definition run_server (o : options) (config : fpx_config_t) (x : sys) : res (outcome M sys) :=
  if test_config o then w ← check_server config x; Ok (Exited 0 w) else
  '(err, config, x) ← server_config_process messages file0 walk_fuel fuel config x;
  if negb (err =? FPX_OK) then
    w ← fpx_log_stderr con (sv_world x.2) err (chars_of "Failed to process config"); Ok (Exited 1 w)
  else
  '(err, ms, s) ← fpx_init_modules (H := server_modules messages) x.1 x.2;
  if negb (err =? FPX_OK) then
    w ← fpx_log_stderr con (sv_world s) err (chars_of "Failed to init modules"); Ok (Exited 1 w)
  else Ok (Cycling (ms, with_world s (mp_destroy ConfigPool (sv_world s)))).

Definition fpx_main (argv : list chars) (w : M) : res (outcome M sys) :=
  '(err, o, w) ← fpx_parse_argv con argv initial_options w;
  if negb (err =? FPX_OK) then w ← fpx_show_help_info b con w; Ok (Exited 1 w) else
  if show_version o then w ← fpx_show_version_info b con w; Ok (Exited 0 w) else
  if show_help o then w ← fpx_show_help_info b con w; Ok (Exited 0 w) else
  r ← load_server argv o w;
  match r with inl w => Ok (Exited 1 w) | inr (config, x) => run_server o config x end.
End Main.

(** ** The language of command lines *)

(** The letters of an argument behind its first dash, and the arguments that follow
    it: the options they set and the arguments they leave, or where the scan ends. *)
Definition take_config (rest : list chars) (k : chars → list chars → jump + options * list chars)
    : jump + options * list chars :=
  match rest with [] => inl MissingArgment | f :: rest => k f rest end.
Fixpoint letters (s : chars) (rest : list chars) (o : options) : jump + options * list chars :=
  match s with
  | [] => inr (o, rest)
  | c :: s =>
      if c =? 118 then letters s rest (set_version o)
      else if c =? 104 then letters s rest (set_help o)
      else if c =? 116 then letters s rest (set_test o)
      else if c =? 99 then take_config rest (λ f rest, letters s rest (set_config o (cstr f)))
      else if c =? 45 then
        if bool_decide (s = chars_of "version") then inr (set_version o, rest)
        else if bool_decide (s = chars_of "help") then inr (set_help o, rest)
        else if bool_decide (s = chars_of "test-config") then inr (set_test o, rest)
        else if bool_decide (s = chars_of "config-file") then
          take_config rest (λ f rest, inr (set_config o (cstr f), rest))
        else inl InvalidOption
      else inl InvalidOption
  end.
(** The arguments: the options, or where the scan ends and at which argument; [n] bounds
    their number. *)
Fixpoint command_line (n : nat) (args : list chars) (o : options) : jump * chars + options :=
  match args, n with
  | [], _ => inr o
  | (c :: d :: s) :: rest, S n =>
      if c =? 45 then
        match letters (d :: s) rest o with
        | inl j => inl (j, c :: d :: s)
        | inr (o, rest) => command_line n rest o
        end
      else inl (Return FPX_FAILED, c :: d :: s)
  | a :: _, _ => inl (Return FPX_FAILED, a)
  end.
(** What is written about a refused argument. *)
Definition refusal (j : jump) (a : chars) : option chars :=
  match j with
  | Return _ => None
  | InvalidOption => Some (chars_of "Invalid options " ++ quoted a)
  | MissingArgment => Some (chars_of "Missing argment for options " ++ quoted a)
  end.

(** ** Lemmas *)
Section CommandLine.

(** [i] stands at the last argument that has been used; the rest follow it. *)
Definition at_arg (argv : list chars) (i : nat) (rest : list chars) : Prop :=
  ∃ before, argv = before ++ (cstr <$> rest) ∧ length before = S i.

Lemma next_arg argv i rest : at_arg argv i rest →
  arg_at argv (S i) = Ok (match rest with [] => None | f :: _ => Some (cstr f) end) ∧
  ∀ f rest', rest = f :: rest' → at_arg argv (S i) rest'.
Proof using.
  intros (before & -> & Hlen). unfold arg_at. rewrite length_app, Hlen.
  rewrite (proj2 (Nat.leb_le _ _)) by lia. split.
  - rewrite lookup_app_r by lia. rewrite Hlen, Nat.sub_diag. by destruct rest.
  - intros f rest' ->. exists (before ++ [cstr f]). rewrite length_app, Hlen. cbn. rewrite <- app_assoc. split; [done|lia].
Qed.

Lemma long_option_ok argv s rest o i : text s → at_arg argv i rest →
  match letters (45 :: s) rest o with
  | inr (o', rest') => ∃ i', long_option argv (cstr s) o i = Ok (inr ([0], o', i')) ∧ at_arg argv i' rest'
  | inl j => long_option argv (cstr s) o i = Ok (inl j)
  end.
Proof using.
  intros Hs Hat. cbn [letters]. change (45 =? 118) with false. change (45 =? 104) with false.
  change (45 =? 116) with false. change (45 =? 99) with false. change (45 =? 45) with true. cbn iota.
  assert (∀ w k, text (chars_of w) → ∃ r, fpx_strcmp (cstr s) (chars_of w ++ [0]) = Ok r ∧
    (r =? 0) = bool_decide (s = chars_of w) ∧ (s = chars_of w → k = length (chars_of w) → drop k (cstr s) = [0])) as Hcmp.
  { intros w k Hw. destruct (strcmp_eq s (chars_of w) Hs Hw) as (r & Hr & Heq). exists r. split; [exact Hr|]. split.
    - case_bool_decide as E; [by apply Z.eqb_eq, Heq|apply Z.eqb_neq; by rewrite Heq].
    - intros -> ->. unfold cstr. by rewrite drop_app_length. }
  unfold long_option.
  destruct (Hcmp "version"%string 7%nat) as (r1 & Hr1 & Hb1 & D1); [repeat constructor; vm_compute; congruence|]. rewrite Hr1, bind_ok, Hb1.
  case_bool_decide as E1; [exists i; by rewrite D1|].
  destruct (Hcmp "help"%string 4%nat) as (r2 & Hr2 & Hb2 & D2); [repeat constructor; vm_compute; congruence|]. rewrite Hr2, bind_ok, Hb2.
  case_bool_decide as E2; [exists i; by rewrite D2|].
  destruct (Hcmp "test-config"%string 11%nat) as (r3 & Hr3 & Hb3 & D3); [repeat constructor; vm_compute; congruence|]. rewrite Hr3, bind_ok, Hb3.
  case_bool_decide as E3; [exists i; by rewrite D3|].
  destruct (Hcmp "config-file"%string 11%nat) as (r4 & Hr4 & Hb4 & D4); [repeat constructor; vm_compute; congruence|]. rewrite Hr4, bind_ok, Hb4.
  case_bool_decide as E4; [|done]. destruct (next_arg argv i rest Hat) as [-> Hnext]. rewrite bind_ok.
  destruct rest as [|f rest]; [done|]. cbn [take_config]. exists (S i). rewrite D4 by done. split; [done|]. by eapply Hnext.
Qed.
Lemma rd_first c s : rd (cstr (c :: s)) 0 = Ok c.
Proof using. done. Qed.

(** Where the scan of an argument ends is never a success. *)
Definition refused (j : jump) : Prop := match j with Return err => err = FPX_FAILED | _ => True end.
Lemma letters_refused s : ∀ rest o j, letters s rest o = inl j → j = InvalidOption ∨ j = MissingArgment.
Proof using.
  induction s as [|c s IH]; intros rest o j; cbn [letters]; [done|].
  unfold take_config. repeat case_match; intros Heq; try discriminate Heq; try (by eapply IH; exact Heq);
    injection Heq as <-; auto.
Qed.

Lemma option_loop_ok argv s : ∀ fuel rest o i, text s → (length s < fuel)%nat → at_arg argv i rest →
  match letters s rest o with
  | inr (o', rest') => ∃ i', option_loop fuel argv (cstr s) o i = Ok (Return FPX_OK, o', i') ∧ at_arg argv i' rest'
  | inl j => ∃ o' i', option_loop fuel argv (cstr s) o i = Ok (j, o', i')
  end.
Proof using.
  induction s as [|c s IH]; intros [|fuel] rest o i Hs Hf Hat; cbn [length] in Hf; try lia.
  { by exists i. }
  apply text_cons in Hs as [[Hc _] Hs]. cbn [option_loop]. rewrite rd_first, bind_ok, (proj2 (Z.eqb_neq _ _) Hc).
  change (drop 1 (cstr (c :: s))) with (cstr s).
  destruct (Z.eqb_spec c 45) as [->|Hdash].
  { change (45 =? 118) with false. change (45 =? 104) with false. change (45 =? 116) with false.
    change (45 =? 99) with false. change (45 =? 45) with true. cbn iota.
    pose proof (long_option_ok argv s rest o i Hs Hat) as Hl. destruct (letters (45 :: s) rest o) as [j|[o' rest']].
    - rewrite Hl, bind_ok. by eexists _, _.
    - destruct Hl as (i' & -> & Hat'). rewrite bind_ok. exists i'. split; [|done].
      destruct fuel as [|fuel]; [lia|]. done. }
  cbn [letters]. rewrite (proj2 (Z.eqb_neq _ _) Hdash).
  destruct (c =? 118); [apply IH; (done || lia)|]. destruct (c =? 104); [apply IH; (done || lia)|].
  destruct (c =? 116); [apply IH; (done || lia)|]. destruct (c =? 99); [|by eexists _, _].
  destruct (next_arg argv i rest Hat) as [-> Hnext]. rewrite bind_ok.
  destruct rest as [|f rest]; cbn [take_config]; [by eexists _, _|]. apply IH; [done|lia|by eapply Hnext].
Qed.

(** The arguments that are left are a suffix. *)
Lemma letters_rest s : ∀ rest o o' rest', letters s rest o = inr (o', rest') → ∃ used, rest = used ++ rest'.
Proof using.
  induction s as [|c s IH]; intros rest o o' rest'; cbn [letters]; [intros [= _ <-]; by exists []|].
  unfold take_config. repeat case_match; intros Heq; try discriminate Heq; try (by eapply IH; exact Heq);
    try (injection Heq as _ <-; first [by exists [] | by eexists [_]]).
  apply IH in Heq as [used ->]. by eexists (_ :: used).
Qed.

Lemma argv_loop_ok argv n : ∀ fuel args o i,
  Forall text args → (length args ≤ n)%nat → (length args < fuel)%nat → at_arg argv i args →
  match command_line n args o with
  | inr o' => ∃ k, argv_loop fuel argv (S i) o = Ok (Return FPX_OK, o', k)
  | inl (j, a) => refused j ∧ text a ∧ ∃ o' k, argv_loop fuel argv (S i) o = Ok (j, o', k) ∧ argv !! k = Some (cstr a)
  end.
Proof using.
  induction n as [|n IH]; intros [|fuel] args o i Ht Hn Hf Hat; try lia.
  - destruct args; [|cbn in Hn; lia]. destruct Hat as (before & -> & Hlen). cbn [command_line argv_loop].
    rewrite app_nil_r, Hlen, (proj2 (Nat.leb_le _ _)) by lia. by eexists.
  - destruct args as [|a rest].
    { destruct Hat as (before & -> & Hlen). cbn [command_line argv_loop].
      rewrite app_nil_r, Hlen, (proj2 (Nat.leb_le _ _)) by lia. by eexists. }
    apply Forall_cons in Ht as [Ha Ht]. cbn [length] in Hn, Hf.
    destruct (next_arg argv i _ Hat) as [Harg Hnext]. specialize (Hnext a rest eq_refl).
    assert (argv !! S i = Some (cstr a) ∧ (length argv <=? S i)%nat = false) as [Hlook Hlen].
    { unfold arg_at in Harg. destruct (S i <=? length argv)%nat; [|done]. split; [congruence|].
      destruct Hat as (before & -> & Hb). apply Nat.leb_gt. rewrite length_app, Hb. cbn. lia. }
    cbn [argv_loop]. rewrite Hlen, Hlook. cbn [of_option]. rewrite bind_ok.
    assert (∀ o' : options, refused (Return FPX_FAILED) ∧ text a ∧ ∃ (o'' : options) k, Ok (Return FPX_FAILED, o', S i) = Ok (Return FPX_FAILED, o'', k) ∧
      argv !! k = Some (cstr a)) as Hfail by (intros o'; split; [done|]; split; [done|]; by eexists _, _).
    destruct a as [|c [|d s]]; [by apply Hfail| |].
    { cbn [command_line]. rewrite rd_first, bind_ok. destruct (c =? 45); by apply Hfail. }
    cbn [command_line]. rewrite rd_first, bind_ok. destruct (c =? 45); cbn [negb]; [|by apply Hfail].
    pose proof Ha as [_ Ha2]%text_cons. change (rd (cstr (c :: d :: s)) 1) with (Ok d : res Z). rewrite bind_ok.
    pose proof Ha2 as [[Hd _] _]%text_cons. rewrite (proj2 (Z.eqb_neq _ _) Hd).
    change (drop 1 (cstr (c :: d :: s))) with (cstr (d :: s)).
    pose proof (option_loop_ok argv (d :: s) (S (length (cstr (c :: d :: s)))) rest o (S i) Ha2) as Hopt.
    destruct (letters (d :: s) rest o) as [j|[o' rest']] eqn:El.
    + destruct Hopt as (o' & i' & ->); [unfold cstr; rewrite length_app; cbn; lia|done|]. rewrite bind_ok.
      destruct (letters_refused _ _ _ _ El) as [-> | ->]; (split; [done|]; split; [done|]; by eexists _, _).
    + destruct Hopt as (i' & -> & Hat'); [unfold cstr; rewrite length_app; cbn; lia|done|]. rewrite bind_ok.
      destruct (letters_rest _ _ _ _ _ El) as [used ->].
      rewrite length_app in *. apply Forall_app in Ht as [_ Ht]. apply IH; [done|lia|lia|done].
Qed.
End CommandLine.

Section Loading.
Context {Ext EFn M : Type} `{PoolAlloc M} `{PoolCleanup M} `{Posix M} `{LoggerEnv M} `{OsStrerror}.
Context `{Sockets M} `{ProcCalls M} `{DynLinker Ext EFn M} `{MainPools M}.
Variables (con : console) (messages : list fpx_log_message_t) (file0 : fpx_file_t) (walk_fuel fuel : nat).
Hypothesis Herrno : ∀ w : M, sys_errno w ≠ FPX_OK.

(** A logger that has been created. *)
Lemma init_sync_some init addr fini (pool : M) next err lg w :
  init_sync init addr fini pool next = Ok (err, lg, w) →
  (∀ pool', next pool' = Ok (err, lg, w) → err = FPX_OK → is_Some lg) → err = FPX_OK → is_Some lg.
Proof using.
  unfold init_sync. destruct (init pool) as [e p]. destruct (Z.eqb_spec e FPX_OK); cbn [negb]; intros Hr Hn He.
  - apply bind_inv in Hr as (p' & _ & Hr). by eapply Hn.
  - injection Hr as -> _ _. congruence.
Qed.
Lemma logger_init_some (w w' : M) lg : fpx_logger_init messages w = Ok (FPX_OK, lg, w') → is_Some lg.
Proof using Herrno.
  unfold fpx_logger_init. destruct (env_pool_create w) as [e p]. destruct (negb (e =? FPX_OK)); [done|].
  intros Hr. apply bind_inv in Hr as ([[a|] p1] & _ & Hr); [|injection Hr as He _ _; by apply Herrno in He].
  apply bind_inv in Hr as ([[b|] p2] & _ & Hr); [|injection Hr as He _ _; by apply Herrno in He].
  eapply init_sync_some; [exact Hr| |done]. intros p3 Hr3 _. cbn beta in Hr3.
  eapply init_sync_some; [exact Hr3| |done]. intros p4 Hr4 _. cbn beta in Hr4.
  eapply init_sync_some; [exact Hr4| |done]. intros p5 Hr5 _. cbn beta in Hr5.
  eapply init_sync_some; [exact Hr5| |done]. intros p6 Hr6 _. injection Hr6 as <- _. by eexists.
Qed.

Lemma failed_not {A} (w : M) err txt (a : A) : failed con w err txt ≠ Ok (inr a).
Proof using. unfold failed. destruct (fpx_log_stderr _ _ _ _); [|done..]. rewrite bind_ok. discriminate. Qed.

(** What is loaded is well-typed, with the core module alone. *)
Lemma load_typed argv o (w : M) config (x : system (Ext := Ext) (EFn := EFn)) :
  load_server con messages argv o w = Ok (inr (config, x)) →
  system_typed x ∧ ∃ s, x = ([set_preinited fpx_core_module (Some CServer)], s).
Proof using Herrno.
  unfold load_server. intros Hr. apply bind_inv in Hr as (w1 & _ & Hr). apply bind_inv in Hr as (w2 & _ & Hr).
  apply bind_inv in Hr as (w3 & _ & Hr). apply bind_inv in Hr as (w4 & _ & Hr).
  apply bind_inv in Hr as ([[e c] w5] & _ & Hr). destruct (negb (e =? FPX_OK)); [by eapply failed_not in Hr|].
  change (fpx_setup_prelinked_modules [fpx_core_module] []) with
    (Ok (FPX_OK, [fpx_core_module]) : res (fpx_err_t * list (fpx_module_t (handler Ext) (mfun EFn) context))) in Hr.
  rewrite bind_ok in Hr. change (negb (FPX_OK =? FPX_OK)) with false in Hr. cbn iota in Hr.
  unfold fpx_preinit_modules in Hr. cbn [preinit_loop fpx_core_module md_preinited md_preinit call_preinit server_modules] in Hr.
  apply bind_inv in Hr as ([[e2 ms] s] & Hpre & Hr). apply bind_inv in Hpre as ([[f cx] s1] & Hcall & Hpre).
  apply bind_inv in Hcall as ([cx1 s2] & Hcore & Hcall). unfold fpx_core_preinit in Hcore.
  apply bind_inv in Hcore as ([[e3 lg] w6] & Hlog & Hcore). apply bind_inv in Hcore as (u & Hassert & Hcore).
  unfold fpx_assert in Hassert. destruct (Z.eqb_spec e3 FPX_OK) as [->|]; [|done].
  pose proof (logger_init_some _ _ _ Hlog) as Hsome. injection Hcore as <- <-. injection Hcall as <- <- <-.
  rewrite bind_ok in Hpre. injection Hpre as <- <- <-.
  change (negb (FPX_OK =? FPX_OK)) with false in Hr. injection Hr as <- <-.
  split; [|by eexists]. split; [by eexists _, []|]. split; cbn; [|by eexists|done|constructor].
  apply map_Forall_insert_2; [by eexists|]. apply map_Forall_insert_2; [by eexists|].
  apply map_Forall_insert_2; [by exists 0|]. do 2 apply map_Forall_delete. intros i v Hv. by rewrite lookup_empty in Hv.
Qed.
End Loading.

(** A branch that ends the program does not enter the cycle. *)
Lemma exits {W X : Type} (r : res W) status (y : X) : (w ← r; Ok (Exited status w)) ≠ Ok (Cycling y).
Proof. destruct r; [|done..]. rewrite bind_ok. discriminate. Qed.


(** *** Messages *)
Section Messages.
Context {M : Type} `{Posix M} `{LoggerEnv M} `{OsStrerror}.
Hypothesis Hos : ∀ e, text (strerror e) ∧ Z.of_nat (length (strerror e)) < 2 ^ 63.
Variables (b : build) (con : console).
Hypothesis Hbuf : length (cs_buffer con) = 1000%nat.
Hypothesis Hfuel : (0 < cs_fuel con)%nat.
Abbreviation say := (log_console (cs_buffer con) (cs_fuel con)).

(** A message without an error code: what is written, and when it is too long. *)
Lemma message_ok fd txt (w : M) :
  ((sys_write w fd (txt ++ [10])).1 ≠ -1 → Z.of_nat (length txt) < 999 →
     say w fd FPX_OK txt = Ok (fpx_write_fd w fd (txt ++ [10])).2) ∧
  (1000 < Z.of_nat (length txt) → say w fd FPX_OK txt = UB).
Proof using Hos Hbuf Hfuel.
  destruct (console_bytes_ok (cs_buffer con) FPX_OK txt Hos Hbuf) as [Hshort Hlong].
  change (err_suffix FPX_OK ++ [10]) with [10] in Hshort. destruct (cs_fuel con) as [|n]; [lia|].
  cbn [log_console]. split.
  - intros Hw Hl. rewrite Hshort by lia. rewrite (proj2 (Z.ltb_lt _ _)), bind_ok by (rewrite length_app; cbn; lia).
    unfold write_fd, fpx_write_fd. destruct (sys_write w fd (txt ++ [10])) as [rv w']. cbn [fst] in Hw.
    by rewrite (proj2 (Z.eqb_neq _ _) Hw), bind_ok.
  - intros Hl. rewrite Hlong by lia. by rewrite (proj2 (Z.eqb_neq _ _)) by lia.
Qed.

(** With a standard error that is broken a short message never ends. *)
Lemma message_never txt (w : M) : short_messages → (∀ w s, (sys_write w FPX_STDERR s).1 = -1) →
  Z.of_nat (length txt) < 999 → say w FPX_STDERR FPX_OK txt = NoFuel.
Proof using Hbuf.
  clear Hos Hfuel. intros Hsh Hb Hl. assert (Z.of_nat (length (txt ++ err_suffix FPX_OK ++ [10])) < 1000)
    by (change (err_suffix FPX_OK ++ [10]) with [10]; rewrite length_app; cbn; lia).
  apply (log_console_never (cs_buffer con) Hsh Hbuf); [unfold FPX_STDERR; lia|done|].
  intros k _. apply attempt_broken; [done|]. unfold fails. cbn [fst snd]. by rewrite Hb.
Qed.

Lemma help_short : Z.of_nat (length (FPX_BUILD_DATE b)) < 600 → Z.of_nat (length (help_text b)) < 999.
Proof using. clear Hbuf Hfuel. intros Hl. unfold help_text, program_text. rewrite !length_app. cbn. lia. Qed.
Lemma show_help_ok (w : M) : (∀ (w : M) fd s, (sys_write w fd s).1 ≠ -1) → Z.of_nat (length (FPX_BUILD_DATE b)) < 600 →
  fpx_show_help_info b con w = Ok (fpx_write_fd w FPX_STDOUT (help_text b ++ [10])).2.
Proof using Hos Hbuf Hfuel. intros Hw Hl. by apply message_ok, help_short. Qed.
End Messages.

(** The outcome of the scan, in terms of the command line. *)
Lemma parse_argv_ok {M} `{Posix M} `{LoggerEnv M} `{OsStrerror} con prog args o (w : M) : Forall text args →
  match command_line (length args) args o with
  | inr o' => fpx_parse_argv con (cstr <$> prog :: args) o w = Ok (FPX_OK, o', w)
  | inl (j, a) => ∃ o', fpx_parse_argv con (cstr <$> prog :: args) o w =
      match refusal j a with
      | None => Ok (FPX_FAILED, o', w)
      | Some txt => w ← fpx_log_stderr con w FPX_OK txt; Ok (FPX_FAILED, o', w)
      end
  end.
Proof.
  intros Ht. unfold fpx_parse_argv.
  pose proof (argv_loop_ok (cstr <$> prog :: args) (length args) (S (length (cstr <$> prog :: args))) args o O) as Hloop.
  destruct (command_line (length args) args o) as [[j a]|o'].
  - destruct Hloop as (Hj & Ha & o' & k & -> & Hk); [done|done|cbn; rewrite length_fmap; lia|by exists [cstr prog]|].
    rewrite bind_ok. exists o'. destruct j as [err| |]; cbn [refusal]; [by rewrite Hj|..];
      rewrite Hk; cbn [of_option]; rewrite bind_ok; unfold cstr; rewrite c_string_app by done; by rewrite bind_ok.
  - destruct Hloop as (k & ->); [done|done|cbn; rewrite length_fmap; lia|by exists [cstr prog]|]. done.
Qed.

(** ** Properties *)

(** C16: The scan of the command line never reads outside its arguments, always ends, and
    accepts exactly the command lines of [command_line]: letters may be combined, [-c]
    and [--config-file] take the next argument, the last file wins, a long name may
    only end an argument, and an argument that is not an option is refused.  What is
    written about a refused argument names the argument and the reason; nothing is
    written about one without a dash. *)
Theorem parse_argv_correct {M} `{Posix M} `{LoggerEnv M} `{OsStrerror} con prog args o (w : M) : Forall text args →
  match command_line (length args) args o with
  | inr o' => fpx_parse_argv con (cstr <$> prog :: args) o w = Ok (FPX_OK, o', w)
  | inl (j, a) => ∃ o', fpx_parse_argv con (cstr <$> prog :: args) o w =
      match refusal j a with
      | None => Ok (FPX_FAILED, o', w)
      | Some txt => w ← fpx_log_stderr con w FPX_OK txt; Ok (FPX_FAILED, o', w)
      end
  end.
Proof. apply parse_argv_ok. Qed.

(** C13: The program from its command line on.  A bad command line ends it with the help
    and status 1, and a request for the version or the help with that and status 0,
    before anything is opened.  With [-t] the status is 0 whatever the check of the
    configuration says.  Otherwise it enters its cycle only after every directive has
    been processed without an error, in a well-typed state, and the core module has been
    initialised from that state without an error. *)
Theorem main_start {Ext EFn M : Type} `{PoolAlloc M} `{PoolCleanup M} `{Posix M} `{LoggerEnv M} `{OsStrerror}
    `{Sockets M} `{ProcCalls M} `{DynLinker Ext EFn M} `{MainPools M}
    b con messages file0 walk_fuel fuel argv (w w1 : M) err o :
  fpx_parse_argv con argv initial_options w = Ok (err, o, w1) →
  let main := fpx_main (Ext := Ext) (EFn := EFn) b con messages file0 walk_fuel fuel argv w in
  let prepared := load_server con messages argv o w1 in
  (err ≠ FPX_OK → main = (w ← fpx_show_help_info b con w1; Ok (Exited 1 w))) ∧
  (err = FPX_OK → show_version o = true → main = (w ← fpx_show_version_info b con w1; Ok (Exited 0 w))) ∧
  (err = FPX_OK → show_version o = false → show_help o = true → main = (w ← fpx_show_help_info b con w1; Ok (Exited 0 w))) ∧
  (err = FPX_OK → show_version o || show_help o = false → test_config o = true →
   ∀ config x, prepared = Ok (inr (config, x)) →
     main = (w ← check_server con messages file0 walk_fuel fuel config x; Ok (Exited 0 w))) ∧
  ((∀ w : M, sys_errno w ≠ FPX_OK) →
   (∀ (w w' : M) h m, dl_sym (Ext := Ext) (EFn := EFn) w h = (Some m, w') → md_cntx m = None ∧ md_preinited m = false) →
   (∀ (e : Ext) (s s' : fpx_server_t M) c argv err, server_typed s →
     ext_handler (EFn := EFn) e s c argv = Ok (err, s') → server_typed s') →
   ∀ y, main = Ok (Cycling y) →
   err = FPX_OK ∧ show_version o || show_help o = false ∧ test_config o = false ∧
   ∃ config x config' x1 s1,
     prepared = Ok (inr (config, x)) ∧
     server_config_process messages file0 walk_fuel fuel config x = Ok (FPX_OK, config', x1) ∧
     system_typed x1 ∧ fpx_core_init x1.2 (Some CServer) = Ok (FPX_OK, s1)).
Proof.
  intros Hparse main prepared. unfold main, fpx_main. rewrite Hparse, bind_ok. fold prepared.
  split; [|split; [|split; [|split]]].
  - intros E. by rewrite (proj2 (Z.eqb_neq _ _) E).
  - intros -> Hv. change (negb (FPX_OK =? FPX_OK)) with false. cbn iota. by rewrite Hv.
  - intros -> Hv Hh. change (negb (FPX_OK =? FPX_OK)) with false. cbn iota. by rewrite Hv, Hh.
  - intros -> Hvh Ht config x ->. apply orb_false_iff in Hvh as [-> ->].
    change (negb (FPX_OK =? FPX_OK)) with false. cbn iota. rewrite bind_ok. unfold run_server. by rewrite Ht.
  - intros Herr Hsym Hext y. destruct (Z.eqb_spec err FPX_OK) as [->|]; cbn [negb]; [|by intros Hr; apply exits in Hr].
    destruct (show_version o); [by intros Hr; apply exits in Hr|].
    destruct (show_help o); [by intros Hr; apply exits in Hr|]. intros Hr.
    apply bind_inv in Hr as ([w2|[config x]] & Hload & Hr); [done|]. unfold run_server in Hr.
    destruct (test_config o); [by apply exits in Hr|].
    split; [done|]. split; [done|]. split; [done|].
    apply bind_inv in Hr as ([[e config'] x1] & Hproc & Hr).
    destruct (Z.eqb_spec e FPX_OK) as [->|]; cbn [negb] in Hr; [|by apply exits in Hr].
    destruct (load_typed con messages Herr argv o w1 config x Hload) as [Hx _].
    pose proof (process_typed messages file0 walk_fuel Hsym Hext false fuel 0 config x FPX_OK config' x1 Hx Hproc) as Hx1.
    destruct (sy_core _ Hx1) as (m & rest & Em & _ & Hcx & _ & [Hinit Hin] & _).
    apply bind_inv in Hr as ([[e ms] s] & Hinits & Hr).
    destruct (Z.eqb_spec e FPX_OK) as [->|]; cbn [negb] in Hr; [|by apply exits in Hr].
    rewrite Em in Hinits. unfold fpx_init_modules in Hinits. cbn [init_loop] in Hinits.
    rewrite Hin, Hinit, Hcx in Hinits. cbn [call_init server_modules] in Hinits.
    apply bind_inv in Hinits as ([err1 s1] & Hcall & Hinits). apply bind_inv in Hcall as ([e1 s2] & Hcore & Hcall).
    injection Hcall as <- <-. cbn [of_option] in Hinits. rewrite bind_ok in Hinits.
    destruct (Z.eqb_spec e1 FPX_OK) as [->|]; [|by cbn [negb] in Hinits; injection Hinits].
    by exists config, x, config', x1, s2.
Qed.

(** C17: What [main] writes before it opens anything, where writes succeed.  [-h] writes
    the help and nothing else.  A refused argument is named on the standard error, the
    help goes to the standard output, and the status is 1.  But the message is put
    together in a buffer of 1000 bytes and written with its untruncated length: whatever
    becomes of the writes, an argument that makes it longer than that lets the program
    read past the buffer.  And where standard error cannot be written to, an argument
    that is refused with a message keeps the program from ending: the report of each
    failed write is one more such write. *)
Theorem main_console {Ext EFn M : Type} `{PoolAlloc M} `{PoolCleanup M} `{Posix M} `{LoggerEnv M} `{OsStrerror}
    `{Sockets M} `{ProcCalls M} `{DynLinker Ext EFn M} `{MainPools M}
    b con messages file0 walk_fuel fuel prog args (w : M) :
  (∀ e, text (strerror e) ∧ Z.of_nat (length (strerror e)) < 2 ^ 63) →
  length (cs_buffer con) = 1000%nat → (0 < cs_fuel con)%nat →
  Z.of_nat (length (FPX_BUILD_DATE b)) < 600 → Forall text args →
  let main := fpx_main (Ext := Ext) (EFn := EFn) b con messages file0 walk_fuel fuel (cstr <$> prog :: args) w in
  let put w fd txt := (fpx_write_fd w fd (txt ++ [10])).2 in
  let succeed := ∀ (w : M) fd s, (sys_write w fd s).1 ≠ -1 in
  match command_line (length args) args initial_options with
  | inr o => succeed → show_version o = false → show_help o = true → main = Ok (Exited 0 (put w FPX_STDOUT (help_text b)))
  | inl (j, a) =>
      match refusal j a with
      | None => succeed → main = Ok (Exited 1 (put w FPX_STDOUT (help_text b)))
      | Some txt =>
          (succeed → Z.of_nat (length txt) < 999 →
             main = Ok (Exited 1 (put (put w FPX_STDERR txt) FPX_STDOUT (help_text b)))) ∧
          (1000 < Z.of_nat (length txt) → main = UB) ∧
          (short_messages → (∀ (w : M) s, (sys_write w FPX_STDERR s).1 = -1) → Z.of_nat (length txt) < 999 →
             main = NoFuel)
      end
  end.
Proof.
  intros Hos Hbuf Hfuel Hdate Ht main put succeed. unfold main, fpx_main.
  pose proof (parse_argv_ok con prog args initial_options w Ht) as Hparse.
  destruct (command_line (length args) args initial_options) as [[j a]|o].
  - destruct Hparse as [o' ->]. destruct (refusal j a) as [txt|].
    + unfold fpx_log_stderr. destruct (message_ok Hos con Hbuf Hfuel FPX_STDERR txt w) as [Hshort Hlong]. split_and!.
      * intros Hw Hl. rewrite Hshort, !bind_ok by done. change (negb (FPX_FAILED =? FPX_OK)) with true. cbn iota.
        by rewrite show_help_ok.
      * intros Hl. by rewrite Hlong.
      * intros Hsh Hb Hl. by rewrite message_never.
    + intros Hw. rewrite bind_ok. change (negb (FPX_FAILED =? FPX_OK)) with true. cbn iota. by rewrite show_help_ok.
  - rewrite Hparse, bind_ok. change (negb (FPX_OK =? FPX_OK)) with false. cbn iota. intros Hw -> ->. by rewrite show_help_ok.
Qed.

(** The world of [Server], with a file system in which every file has one content. *)
#[local] Existing Instances demo_palloc demo_cleanup demo_env demo_strerror demo_net demo_proc demo_linker demo_pools.
Definition demo_file : chars := chars_of "listen 80" ++ [10] ++ chars_of "workdir /tmp" ++ [10].
#[local] Instance main_posix : Posix demo := {|
  sys_errno w := 1; sys_open w p m a := (7, w); sys_close w fd := w;
  sys_lseek w fd off wh := (if wh =? SEEK_END then Z.of_nat (length demo_file) else off, w);
  sys_read w fd n := (n, take (Z.to_nat n) demo_file, w); sys_write w fd s := (Z.of_nat (length s), w);
  sys_stat w p := (None, w); sys_fstat w fd := (None, w); sys_opendir w p := (None, w);
  sys_readdir w h := (None, w); sys_closedir w h := w; sys_glob w p := (1, [], w)
|}.
Definition demo_argv (args : list string) : list chars := (λ a, chars_of a ++ [0]) <$> args.
Definition demo_build : build := Build (chars_of "Nov 19 2024") (chars_of "Linux") None 64.
Abbreviation demo_con := (MkConsole (replicate 1000 0) 4) (only parsing).
Abbreviation demo_world := (Demo 4096 {[0; 1; 2]} 0 0 0 0 ∅) (only parsing).
Abbreviation demo_main argv :=
  (fpx_main (Ext := Empty_set) (EFn := Empty_set) demo_build demo_con [] (File 0 None 0) 0 20 argv demo_world)
  (only parsing).

(** Texts of ASCII characters. *)
Lemma ascii_texts args : forallb (λ a, forallb (λ c, (0 <? c) && (c <? 128)) a) args = true → Forall text args.
Proof.
  intros Hl. rewrite List.forallb_forall in Hl. apply Forall_forall. intros a Ha.
  apply text_all_below, Hl. by apply list_elem_of_In.
Qed.

(** Accepted arguments, and one whose value is missing. *)
Lemma parse_argv_correct_witness :
  fpx_parse_argv demo_con (demo_argv ["fpx"; "-tc"; "a.conf"; "--config-file"; "b.conf"]%string) initial_options demo_world =
    Ok (FPX_OK, Options false false true (chars_of "b.conf" ++ [0]), demo_world) ∧
  (∃ o, fpx_parse_argv demo_con (demo_argv ["fpx"; "-tc"]%string) initial_options demo_world =
     (w ← fpx_log_stderr demo_con demo_world FPX_OK (chars_of "Missing argment for options " ++ quoted (chars_of "-tc"));
      Ok (FPX_FAILED, o, w))).
Proof.
  split.
  - exact (parse_argv_correct demo_con (chars_of "fpx") (chars_of <$> ["-tc"; "a.conf"; "--config-file"; "b.conf"]%string)
      initial_options demo_world (ascii_texts (chars_of <$> ["-tc"; "a.conf"; "--config-file"; "b.conf"]%string) eq_refl)).
  - exact (parse_argv_correct demo_con (chars_of "fpx") (chars_of <$> ["-tc"]%string)
      initial_options demo_world (ascii_texts (chars_of <$> ["-tc"]%string) eq_refl)).
Defined.

(** The four ends; in the last the core module has opened its socket. *)
Lemma main_start_witness :
  (∃ w, demo_main (demo_argv ["fpx"; "-x"]) = Ok (Exited 1 w)) ∧ (∃ w, demo_main (demo_argv ["fpx"; "-tv"]) = Ok (Exited 0 w)) ∧
  (∃ w, demo_main (demo_argv ["fpx"; "-t"]) = Ok (Exited 0 w)) ∧
  (∃ y, demo_main (demo_argv ["fpx"]) = Ok (Cycling y)) ∧
  ∃ (x1 : system (Ext := Empty_set) (EFn := Empty_set) (M := demo)) s1,
    system_typed x1 ∧ fpx_core_init x1.2 (Some CServer) = Ok (FPX_OK, s1).
Proof.
  do 3 (split; [eexists; vm_compute; reflexivity|]).
  assert (∃ y, demo_main (demo_argv ["fpx"]) = Ok (Cycling y)) as [y Hy] by (eexists; vm_compute; reflexivity).
  split; [exists y; exact Hy|].
  assert (fpx_parse_argv demo_con (demo_argv ["fpx"]) initial_options demo_world = Ok (FPX_OK, initial_options, demo_world))
    as Hparse by (vm_compute; reflexivity).
  assert (Hsym : ∀ (w w' : demo) h m, dl_sym (Ext := Empty_set) (EFn := Empty_set) w h = (Some m, w') →
    md_cntx m = None ∧ md_preinited m = false) by (intros w w' h m Hm; injection Hm as <- _; split; reflexivity).
  destruct (main_start (Ext := Empty_set) (EFn := Empty_set) demo_build demo_con [] (File 0 None 0) 0 20 (demo_argv ["fpx"])
    demo_world demo_world FPX_OK initial_options Hparse) as (_ & _ & _ & _ & Hcycle).
  destruct (Hcycle ltac:(intros w0; discriminate) Hsym ltac:(intros []) y Hy)
    as (_ & _ & _ & config & x & config' & x1 & s1 & _ & _ & Hx1 & Hcore).
  exists x1, s1. split; [exact Hx1|exact Hcore].
Defined.

(** A system that remembers what has been written, and can do nothing else. *)
Abbreviation written := (list (Z * chars)).
Definition writes_posix : Posix written := {|
  sys_errno w := 1; sys_open w p m a := (-1, w); sys_close w fd := w; sys_lseek w fd off wh := (-1, w);
  sys_read w fd n := (-1, [], w); sys_write w fd s := (Z.of_nat (length s), w ++ [(fd, s)]);
  sys_stat w p := (None, w); sys_fstat w fd := (None, w); sys_opendir w p := (None, w);
  sys_readdir w h := (None, w); sys_closedir w h := w; sys_glob w p := (1, [], w)
|}.
Definition writes_env : LoggerEnv written := {|
  env_pool_create w := (1, w); env_pool_destroy w := w; env_sem_init w n := (1, w); env_mutex_init w := (1, w);
  env_thread_init w := (1, w); env_thread_cancel w := w; sys_fsync w fd := w;
  sys_localtime w := Tm 1 0 100 0 0 0; show_ptr := []
|}.
Definition writes_net : Sockets written := {|
  sk_errno w := 1; sk_socket w d t p := (-1, w); sk_setsockopt w fd lv o v := (-1, w); sk_ioctl w fd rq v := (-1, w);
  sk_getfl w fd := (-1, w); sk_setfl w fd fl := (-1, w); sk_bind w fd a := (-1, w); sk_listen w fd n := (-1, w);
  sk_accept w fd n := (-1, None, w); sk_connect w fd a := (-1, w); sk_shutdown w fd h := (-1, w); sk_close w fd := w;
  sk_getaddrinfo w a p f t fl pr := (None, w); sk_freeaddrinfo w := w; sk_getsockname w fd := (None, w);
  sk_getnameinfo w a n h s f := (None, w); sk_msleep w ms := w
|}.
Definition writes_proc : ProcCalls written := {|
  pr_fork w := (-1, w); pr_setsid w := (-1, w); pr_ignore_sighup w := w; pr_chdir w d := (-1, w);
  pr_geteuid w := 0; pr_getegid w := 0; pr_getpwnam w u := None; pr_getgrnam w g := None;
  pr_setuid w u := (-1, w); pr_setgid w g := (-1, w)
|}.
Definition writes_linker : DynLinker Empty_set Empty_set written := {|
  dl_open w f := (None, w); dl_sym w h := (None, w); dl_close w h := w; dl_set_errno w e := w;
  ext_handler (e : Empty_set) := match e with end; ext_preinit (f : Empty_set) := match f with end;
  ext_init (f : Empty_set) := match f with end; ext_fini (f : Empty_set) := match f with end
|}.
Definition writes_pools : MainPools written := {| mp_cleanup_add p w a h := Ok w; mp_destroy p w := w |}.
Abbreviation writes_main argv :=
  (@fpx_main Empty_set Empty_set written (λ w n, Ok (None, w)) (λ w a h, Ok w) writes_posix writes_env demo_strerror
     writes_net writes_proc writes_linker writes_pools demo_build demo_con [] (File 0 None 0) 0 20 argv [])
  (only parsing).
Lemma demo_strerror_text : ∀ e, text (strerror (OsStrerror := demo_strerror) e) ∧
  Z.of_nat (length (strerror (OsStrerror := demo_strerror) e)) < 2 ^ 63.
Proof. intros e. split; [constructor|done]. Qed.

Lemma writes_succeed (w : written) fd s : (sys_write (Posix := writes_posix) w fd s).1 ≠ -1.
Proof. cbn. lia. Qed.

(** The same with a broken standard error. *)
Definition mute_posix : Posix written := broken_posix [2].
Abbreviation mute_main argv :=
  (@fpx_main Empty_set Empty_set written (λ w n, Ok (None, w)) (λ w a h, Ok w) mute_posix writes_env demo_strerror
     writes_net writes_proc writes_linker writes_pools demo_build demo_con [] (File 0 None 0) 0 20 argv [])
  (only parsing).

(** A request for the help, an argument that is refused, one that is too long, and one
    that is refused while standard error is closed. *)
Lemma main_console_witness :
  writes_main (cstr <$> [chars_of "fpx"; chars_of "-h"]) = Ok (Exited 0 [(1, help_text demo_build ++ [10])]) ∧
  writes_main (cstr <$> [chars_of "fpx"; chars_of "-x"]) =
    Ok (Exited 1 [(2, chars_of "Invalid options " ++ quoted (chars_of "-x") ++ [10]); (1, help_text demo_build ++ [10])]) ∧
  writes_main (cstr <$> [chars_of "fpx"; 45 :: replicate 1000 120]) = UB ∧
  mute_main (cstr <$> [chars_of "fpx"; chars_of "-x"]) = NoFuel.
Proof.
  assert (∀ args, forallb (λ a, forallb (λ c, (0 <? c) && (c <? 128)) a) args = true →
    _) as Hmain by (intros args Hargs; exact (@main_console Empty_set Empty_set written (λ w n, Ok (None, w)) (λ w a h, Ok w)
      writes_posix writes_env demo_strerror writes_net writes_proc writes_linker writes_pools demo_build demo_con []
      (File 0 None 0) 0 20 (chars_of "fpx") args [] demo_strerror_text eq_refl ltac:(cbn; lia) eq_refl (ascii_texts args Hargs))).
  split_and!.
  - exact (Hmain [chars_of "-h"] eq_refl writes_succeed eq_refl eq_refl).
  - exact (proj1 (Hmain [chars_of "-x"] eq_refl) writes_succeed eq_refl).
  - exact (proj1 (proj2 (Hmain [45 :: replicate 1000 120] eq_refl)) eq_refl).
  - refine (proj2 (proj2 (@main_console Empty_set Empty_set written (λ w n, Ok (None, w)) (λ w a h, Ok w)
      mute_posix writes_env demo_strerror writes_net writes_proc writes_linker writes_pools demo_build demo_con []
      (File 0 None 0) 0 20 (chars_of "fpx") [chars_of "-x"] [] demo_strerror_text eq_refl ltac:(cbn; lia) eq_refl
      (ascii_texts [chars_of "-x"] eq_refl))) _ _ eq_refl).
    + split; [intros e; split; [constructor|by vm_compute]|done|cbn; lia].
    + intros w s. by vm_compute.
Defined.
