(* ===== verification/Boot.v ===== *)
(** * From the text of a configuration to a configured server

    The components joined: a list of settings is printed as a configuration file, one
    directive per line, and the program is started on it.  The theorem says in which
    state the core module is then initialised.  What the settings mean is defined here,
    without reference to the scanner, the table of commands or the handlers. *)

From S2P Require Import Prelude CInt Errno Str Parse Filesys Config Strerror Log Console Module Socket Listen Process Server Main.
Open Scope Z_scope.

(** ** Settings *)

(** A directive of the core module with values of its own type. *)
Inductive setting :=
  | SListen (host : chars) (port : Z)
  | SListen6 (addr : chars) (port : Z)
  | SDaemon (on : bool)
  | SWorkdir (dir : chars)
  | SPriority (n : Z)
  | SUser (name : chars)
  | SGroup (name : chars).

(** Its words in a file. *)
Definition setting_words (st : setting) : list chars :=
  match st with
  | SListen host port => [chars_of "listen"; host ++ [58] ++ print_dec port]
  | SListen6 addr port => [chars_of "listen"; [91] ++ addr ++ [93; 58] ++ print_dec port]
  | SDaemon on => [chars_of "daemon"; chars_of (if on then "on" else "off")]
  | SWorkdir dir => [chars_of "workdir"; dir]
  | SPriority n => [chars_of "priority"; print_dec n]
  | SUser name => [chars_of "user"; name]
  | SGroup name => [chars_of "group"; name]
  end.
Definition settings_text (sts : list setting) : chars := file_text (print_lines (setting_words <$> sts)) [].

(** What it does to the fields of the server: the last directive of a name wins. *)
Definition setting_cntx (c : gmap Z cval) (st : setting) : gmap Z cval :=
  match st with
  | SListen _ _ | SListen6 _ _ => c
  | SDaemon on => <[OFF_DAEMON := VBool on]> c
  | SWorkdir dir => <[OFF_WORKDIR := VStr (cstr dir)]> c
  | SPriority n => <[OFF_PRIORITY := VInt n]> c
  | SUser name => <[OFF_USER := VStr (cstr name)]> c
  | SGroup name => <[OFF_GROUP := VStr (cstr name)]> c
  end.
(** ... and the listener it adds: not open, with the address and the port as texts. *)
Definition closed_listener (family : Z) (addr : chars) (port : Z) : fpx_listener_t :=
  Listener 1 FPX_INVALID_SOCKET (Sockaddr family (replicate 126 0)) (PText (cstr addr))
    (PText (cstr (print_dec port))).
Definition setting_listener (st : setting) : option fpx_listener_t :=
  match st with
  | SListen host port => Some (closed_listener AF_INET host port)
  | SListen6 addr port => Some (closed_listener AF_INET6 addr port)
  | _ => None
  end.

(** The values a directive can carry: words of characters, and numbers in their range. *)
Definition value_word (w : chars) : Prop := word w ∧ text w ∧ Z.of_nat (length w) < 2 ^ 60.
Definition setting_ok (st : setting) : Prop :=
  match st with
  | SListen host port =>
      value_word host ∧ head host ≠ Some 91 ∧ Forall (λ x, (x =? 93) = false) host ∧ 1 ≤ port ≤ 65535
  | SListen6 addr port => value_word addr ∧ Forall (λ x, (x =? 93) = false) addr ∧ 1 ≤ port ≤ 65535
  | SDaemon _ => True
  | SPriority n => 0 ≤ n < 2 ^ 31
  | SWorkdir w | SUser w | SGroup w => value_word w
  end.

(** The fields before the first directive. *)
Definition default_cntx : gmap Z cval :=
  <[OFF_DAEMON := VBool true]> (<[OFF_WORKDIR := VStr FPX_DEFAULT_WORKDIR]>
    {[OFF_PRIORITY := VInt FPX_DEFAULT_PRIORITY]}).

(** ** Words *)
Lemma word_app v w : word v → forallb word_char w = true → word (v ++ w).
Proof. intros [Hne Hv] Hw. split; [by destruct v|]. by rewrite forallb_app, Hv. Qed.
Lemma digits_word_char ds : forallb fpx_isdigit ds = true → forallb word_char ds = true.
Proof.
  rewrite !List.forallb_forall. intros H c Hc. specialize (H c Hc). apply isdigit_range in H.
  assert (s8 c = c ∧ u8 c = c) as [E1 E2] by (unfold s8, u8; split; rewrite Z.mod_small; lia).
  unfold word_char, fpx_isascii, is_sep, is_eol, FPX_TAB, FPX_SPACE, FPX_LF, FPX_CR. lia.
Qed.
Lemma print_word n : 0 ≤ n → word (print_dec n).
Proof. intros Hn. destruct (print_dec_ok n Hn) as (_ & Hd & Hne). split; [done|]. by apply digits_word_char. Qed.
Lemma setting_words_ok st : setting_ok st → Forall word (setting_words st) ∧ (length (setting_words st) ≤ 8)%nat.
Proof.
  intros Hok. split; [|destruct st; cbn; lia].
  destruct st as [host port|addr port|on|dir|n|name|name]; cbn [setting_words setting_ok] in *;
    (apply Forall_cons; split; [by split|]); apply Forall_singleton; try by apply Hok.
  - destruct Hok as ((Hw & _) & _ & _ & Hp). apply word_app; [done|]. cbn [app forallb].
    apply print_word. lia.
  - destruct Hok as (([_ Hw] & _) & _ & Hp). split; [done|]. rewrite !forallb_app, Hw.
    by rewrite (proj2 (print_word port ltac:(lia))).
  - by destruct on.
  - apply print_word. lia.
Qed.

(** ** Processing the directives *)
Section Processing.
Context {Ext EFn M : Type} `{PoolAlloc M} `{PoolCleanup M} `{Posix M} `{LoggerEnv M} `{OsStrerror}.
Context `{Sockets M} `{ProcCalls M} `{DynLinker Ext EFn M} `{MainPools M}.
Variables (messages : list fpx_log_message_t) (file0 : fpx_file_t) (walk_fuel : nat).
Hypothesis Hpalloc : ∀ (w : M) n, ∃ a w', palloc w n = Ok (Some a, w').

Abbreviation module := (fpx_module_t (handler Ext) (mfun EFn) context).
Abbreviation server := (fpx_server_t M).

(** The server after some settings: fields and listeners as they say, the rest as it was. *)
Record configured (s s' : server) (sts : list setting) : Prop := {
  cf_argv : sv_argv s' = sv_argv s;
  cf_logger : sv_logger s' = sv_logger s;
  cf_cntx : sv_cntx s' = foldl setting_cntx (sv_cntx s) sts;
  cf_listeners : (sv_listeners s').*2 = (sv_listeners s).*2 ++ omap setting_listener sts
}.
Lemma configured_cons s s1 s2 st sts : configured s s1 [st] → configured s1 s2 sts → configured s s2 (st :: sts).
Proof using.
  intros [A1 L1 C1 K1] [A2 L2 C2 K2]. split; [congruence|congruence| |].
  - by rewrite C2, C1.
  - rewrite K2, K1, <- app_assoc. f_equal. cbn [omap list_omap]. by destruct (setting_listener st).
Qed.

(** The two forms of an address with a port. *)
Lemma host_parts host port (w : M) : setting_ok (SListen host port) →
  gives (fpx_config_parse_addr_port w (cstr (host ++ [58] ++ print_dec port))) FPX_ADDR_IPV4
    (Some (cstr host)) (Some (cstr (print_dec port))).
Proof using Hpalloc.
  intros (([Hne _] & Ht & Hlen) & Hhd & Hno & Hp). pose proof (print_dec_short port ltac:(lia)).
  destruct (addr_port_ok w host [] port [] Hpalloc) as [Hr _]; [by split|by apply Forall_nil|by apply Forall_nil|lia|cbn [length]; lia|].
  apply Hr. lia.
Qed.
Lemma address_parts addr port (w : M) : setting_ok (SListen6 addr port) →
  gives (fpx_config_parse_addr_port w (cstr ([91] ++ addr ++ [93; 58] ++ print_dec port))) FPX_ADDR_IPV6
    (Some (cstr addr)) (Some (cstr (print_dec port))).
Proof using Hpalloc.
  intros ((_ & Ht & Hlen) & Hno & Hp). pose proof (print_dec_short port ltac:(lia)).
  destruct (addr_port_ok w [97] addr port [] Hpalloc) as [Hr _];
    [|done|done|lia|cbn [length]; lia|];
    [split_and!; [by apply Forall_singleton|done|done|by apply Forall_singleton]|].
  apply Hr. lia.
Qed.

(** A listen directive that gives an address and a port. *)
Lemma listen_ok (s : server) a (family : Z) addr port :
  family = AF_INET ∨ family = AF_INET6 →
  (∀ w : M, gives (fpx_config_parse_addr_port w a) (if family =? AF_INET then FPX_ADDR_IPV4 else FPX_ADDR_IPV6)
     (Some (cstr addr)) (Some (cstr (print_dec port)))) →
  ∃ mem w, fpx_handler_listen s [a] =
    Ok (FPX_OK, with_listeners s (sv_listeners s ++ [(mem, closed_listener family addr port)]) w).
Proof using Hpalloc.
  intros Hf Hg. unfold fpx_handler_listen.
  destruct (Hpalloc (sv_world s) SIZEOF_LISTENER) as (mem & w & ->). rewrite bind_ok. cbn beta iota zeta.
  unfold arg0. cbn [lookup list_lookup of_option]. rewrite bind_ok.
  destruct (Hg w) as (r1 & r2 & w' & -> & E1 & E2). rewrite bind_ok. cbn beta iota zeta. exists mem, w'.
  destruct r1 as [r1|], r2 as [r2|]; try done. injection E1 as E1. injection E2 as E2. cbn [ptr_of].
  rewrite E1, E2. by destruct Hf as [-> | ->].
Qed.

(** A generic handler on the context of the core module, which is the server. *)
Lemma generic_core_ok (m : module) (s : server) f d :
  md_cntx m = Some CServer → f (sv_cntx s) = Ok (FPX_OK, d) →
  ∃ s', generic f 0 ([m], s) = Ok (FPX_OK, ([m], s')) ∧ s' = with_cntx s d.
Proof using.
  intros Hcx Hf. unfold generic. cbn [lookup list_lookup of_option]. rewrite bind_ok, Hcx, Hf. by eexists.
Qed.

(** One directive, called through the table of the core module. *)
Lemma setting_called (m : module) (s : server) config st d name args :
  md_cmd m = fpx_core_cmd → md_cntx m = Some CServer → setting_ok st →
  setting_words st = name :: args → d_name d = cstr name → d_argc d = Z.of_nat (length args) → d_argv d = cstr <$> args →
  ∃ cmd, find_in_modules (modules_of ([m], s)) 0 (d_name d) = Ok (Some (O, cmd)) ∧
    fpx_check_directive_arguments (d_argc d) (c_takes cmd) = FPX_OK ∧
    ∃ s', call_handler messages file0 walk_fuel ([m], s) config 0 cmd d = Ok (FPX_OK, config, ([m], s')) ∧
      configured s s' [st].
Proof using Hpalloc.
  intros Hcmd Hcx Hok Hw Hn Hc Ha. unfold modules_of. cbn [fmap list_fmap fst]. rewrite Hcmd.
  destruct st as [host port|addr port|on|dir|n|nm|nm]; cbn [setting_words setting_ok] in *;
    injection Hw as <- <-; rewrite Hn, Hc;
    (eexists; split; [vm_compute; reflexivity|]; split; [vm_compute; reflexivity|]);
    unfold call_handler; cbn [c_handler c_offset]; rewrite Ha; cbn [fmap list_fmap].
  - destruct (listen_ok s (cstr (host ++ 58 :: print_dec port)) AF_INET host port) as (mem & w & ->);
      [by left|intros w; by apply host_parts|]. rewrite bind_ok. eexists. split; [done|].
    split; cbn; [done..|by rewrite fmap_app].
  - destruct (listen_ok s (cstr (91 :: addr ++ 93 :: 58 :: print_dec port)) AF_INET6 addr port) as (mem & w & ->);
      [by right|intros w; by apply address_parts|]. rewrite bind_ok. eexists. split; [done|].
    split; cbn; [done..|by rewrite fmap_app].
  - assert (fpx_handler_flag OFF_DAEMON (sv_cntx s) [cstr (chars_of (if on then "on" else "off"))] =
      Ok (FPX_OK, <[OFF_DAEMON := VBool on]> (sv_cntx s))) as Hh by (by destruct on).
    change 136 with OFF_DAEMON. destruct (generic_core_ok m s (λ data, fpx_handler_flag OFF_DAEMON data _) _ Hcx Hh) as (s' & -> & ->).
    eexists. split; [done|]. by split; cbn; rewrite ?app_nil_r.
  - change 144 with OFF_WORKDIR. destruct (generic_core_ok m s (λ data, fpx_handler_str OFF_WORKDIR data [cstr dir]) _ Hcx eq_refl) as (s' & -> & ->).
    eexists. split; [done|]. by split; cbn; rewrite ?app_nil_r.
  - assert (fpx_handler_uint OFF_PRIORITY (sv_cntx s) [cstr (print_dec n)] =
      Ok (FPX_OK, <[OFF_PRIORITY := VInt n]> (sv_cntx s))) as Hh.
    { pose proof (print_dec_short n Hok). unfold fpx_handler_uint, arg0. cbn [lookup list_lookup of_option].
      destruct (parse_size_roundtrip n 75 1024 []) as [Hp _]; [lia|done|unfold FPX_SSIZE_T_MAX; lia|done|lia|lia|].
      rewrite bind_ok. unfold cstr. rewrite Hp, bind_ok. cbv zeta. rewrite s32_small by lia.
      by rewrite (proj2 (Z.eqb_neq _ _)) by lia. }
    change 140 with OFF_PRIORITY. destruct (generic_core_ok m s (λ data, fpx_handler_uint OFF_PRIORITY data _) _ Hcx Hh) as (s' & -> & ->).
    eexists. split; [done|]. by split; cbn; rewrite ?app_nil_r.
  - change 152 with OFF_USER. destruct (generic_core_ok m s (λ data, fpx_handler_str OFF_USER data [cstr nm]) _ Hcx eq_refl) as (s' & -> & ->).
    eexists. split; [done|]. by split; cbn; rewrite ?app_nil_r.
  - change 160 with OFF_GROUP. destruct (generic_core_ok m s (λ data, fpx_handler_str OFF_GROUP data [cstr nm]) _ Hcx eq_refl) as (s' & -> & ->).
    eexists. split; [done|]. by split; cbn; rewrite ?app_nil_r.
Qed.

(** The directives of a printed configuration from number [k] on. *)
Lemma process_settings (m : module) config sts : ∀ k n fn fuel (s : server),
  md_cmd m = fpx_core_cmd → md_cntx m = Some CServer → Forall setting_ok sts →
  entry_of <$> drop k (conf_list config) = entries_from fn n (setting_words <$> sts) → (length sts < fuel)%nat →
  ∃ s', process_loop modules_of (call_handler messages file0 walk_fuel) false fuel k config ([m], s) =
      Ok (FPX_OK, config, ([m], s')) ∧ configured s s' sts.
Proof using Hpalloc.
  induction sts as [|st sts IH]; intros k n fn [|fuel] s Hcmd Hcx Hok He Hf; cbn [length] in Hf; try lia;
    cbn [process_loop].
  - apply fmap_nil_inv in He. rewrite <- (Nat.add_0_r k), <- lookup_drop, He. exists s.
    split; [done|]. split; try done. by rewrite app_nil_r.
  - apply Forall_cons in Hok as [Hst Hok]. cbn [fmap list_fmap entries_from] in He.
    destruct (setting_words st) as [|name args] eqn:Ew; [by destruct st|]. cbn [line_entry app] in He.
    destruct (drop k (conf_list config)) as [|d ds] eqn:Ed; [done|]. injection He as Hn Hc Ha _ _ Hds.
    pose proof (lookup_drop (conf_list config) k 0) as Hk. rewrite Ed, Nat.add_0_r in Hk. cbn in Hk. rewrite <- Hk.
    destruct (setting_called m s config st d name args) as (cmd & Hfind & Hcheck & s1 & Hcall & Hs1); [done..|].
    unfold fpx_find_command_in_modules, fpx_find_module_by_command. rewrite Hfind, !bind_ok. cbn [option_map snd fst].
    rewrite Hcheck. change (negb (FPX_OK =? FPX_OK)) with false. cbn iota. rewrite !bind_ok, Hcall, bind_ok.
    change (negb (FPX_OK =? FPX_OK)) with false. cbn iota.
    destruct (IH (S k) (n + 1) fn fuel s1) as (s2 & -> & Hs2); [done..| |lia|].
    { rewrite <- Hds. f_equal. replace (S k) with (k + 1)%nat by lia. by rewrite <- drop_drop, Ed. }
    exists s2. split; [done|]. by eapply configured_cons.
Qed.
End Processing.

(** ** Reading the file and starting the program *)

(** What the system promises of the configuration file: it can be opened, a descriptor
    stays at the start of the file until it is moved, seeking answers the position, and
    reading from the start gives the contents.  [fresh]: just opened; [held]: open. *)
Record file_laws {M} `{PoolAlloc M} `{MainPools M} `{Posix M} (fname contents : chars)
    (fresh held : M → Z → Prop) : Prop := {
  fl_open w mode access : ∃ fd w', sys_open w fname mode access = (fd, w') ∧ fd ≠ FPX_INVALID_FILE ∧ fresh w' fd;
  fl_cleanup w a h fd : fresh w fd → ∃ w', mp_cleanup_add ConfigPool w a h = Ok w' ∧ fresh w' fd;
  fl_here w fd : fresh w fd → ∃ w', sys_lseek w fd 0 SEEK_CUR = (0, w') ∧ held w' fd;
  fl_end w fd : held w fd → ∃ w', sys_lseek w fd 0 SEEK_END = (Z.of_nat (length contents), w') ∧ held w' fd;
  fl_start w fd : held w fd → ∃ w', sys_lseek w fd 0 SEEK_SET = (0, w') ∧ held w' fd ∧
    ∃ w'', sys_read w' fd (Z.of_nat (length contents)) = (Z.of_nat (length contents), contents, w'');
  fl_alloc w fd n r w' : held w fd → palloc w n = Ok (r, w') → held w' fd
}.
(** Pools, semaphores and mutexes can be had. *)
Record resource_laws {M} `{PoolAlloc M} `{PoolCleanup M} `{LoggerEnv M} `{MainPools M} : Prop := {
  rl_palloc (w : M) n : ∃ a w', palloc w n = Ok (Some a, w');
  rl_cleanup (w : M) a h : ∃ w', pcleanup_add w a h = Ok w';
  rl_listener (w : M) a h : ∃ w', mp_cleanup_add ServerPool w a h = Ok w';
  rl_pool (w : M) : ∃ w', env_pool_create w = (FPX_OK, w');
  rl_sem (w : M) n : ∃ w', env_sem_init w n = (FPX_OK, w');
  rl_mutex (w : M) : ∃ w', env_mutex_init w = (FPX_OK, w')
}.

Section Start.
Context {Ext EFn M : Type} `{PoolAlloc M} `{PoolCleanup M} `{Posix M} `{LoggerEnv M} `{OsStrerror}.
Context `{Sockets M} `{ProcCalls M} `{DynLinker Ext EFn M} `{MainPools M}.
Variables (con : console) (messages : list fpx_log_message_t).
Context (fresh held : M → Z → Prop).
Hypothesis Hres : resource_laws (M := M).

Abbreviation server := (fpx_server_t M).
Definition core_module : fpx_module_t (handler Ext) (mfun EFn) context := set_preinited fpx_core_module (Some CServer).

Lemma read_settings fname sts (w : M) :
  file_laws fname (settings_text sts) fresh held → Forall setting_ok sts →
  Z.of_nat (length (settings_text sts)) < 2 ^ 60 →
  ∃ config w', fpx_config_read (H0 := mp_cleanup_add ConfigPool) w fname = Ok (FPX_OK, config, w') ∧
    entry_of <$> conf_list config = entries_from None 1 (setting_words <$> sts).
Proof using Hres.
  intros Hf Hok Hlen. unfold fpx_config_read, read_file, pcleanup_add.
  destruct (rl_palloc Hres w 40) as (a & w1 & ->). rewrite bind_ok. cbn beta iota zeta.
  unfold fpx_file_open.
  destruct (fl_open _ _ _ _ Hf w1 (Z.lor FPX_FILE_RDONLY FPX_FILE_OPEN) FPX_FILE_DEFAULT_ACCESS) as (fd & w2 & -> & Hfd & Hfr).
  rewrite (proj2 (Z.eqb_neq _ _) Hfd). change (negb (FPX_OK =? FPX_OK)) with false. cbn iota.
  destruct (fl_cleanup _ _ _ _ Hf w2 a FPX_FILE_CLOSE_HANDLER fd Hfr) as (w3 & -> & Hfr3). rewrite bind_ok.
  unfold fpx_file_size. cbn [f_fd].
  destruct (fl_here _ _ _ _ Hf w3 fd Hfr3) as (w4 & -> & Hh4). cbn beta iota zeta.
  change (u64 0 =? u64 (-1)) with false. cbn iota.
  destruct (fl_end _ _ _ _ Hf w4 fd Hh4) as (w5 & -> & Hh5). cbn beta iota zeta.
  change (u64 (-1)) with 18446744073709551615. rewrite (u64_small (Z.of_nat _)) by lia.
  rewrite (proj2 (Z.eqb_neq _ _)) by lia. change (s64 (u64 0)) with 0.
  destruct (fl_start _ _ _ _ Hf w5 fd Hh5) as (w6 & -> & Hh6 & _). cbn beta iota zeta.
  change (0 =? -1) with false. cbn iota. rewrite s64_small by lia. rewrite (proj2 (Z.eqb_neq _ _)) by lia.
  destruct (rl_palloc Hres w6 (u64 (Z.of_nat (length (settings_text sts)) + 1))) as (b & w7 & Hb).
  rewrite Hb, bind_ok. cbn beta iota zeta. pose proof (fl_alloc _ _ _ _ Hf _ _ _ _ _ Hh6 Hb) as Hh7.
  unfold fpx_file_read. cbn [f_fd]. destruct (fl_start _ _ _ _ Hf w7 fd Hh7) as (w8 & -> & _ & w9 & Hrd).
  cbn beta iota zeta. change (0 =? -1) with false. cbn iota. rewrite u64_small by lia. rewrite Hrd. cbn beta iota zeta.
  rewrite (proj2 (Z.eqb_neq _ _)) by lia. cbn beta iota zeta. rewrite (proj2 (Z.eqb_neq _ _)) by lia.
  rewrite (proj2 (Z.leb_le _ _)) by lia. cbn [require]. rewrite bind_ok. cbn [conf_list conf_files app].
  pose proof (Forall_impl _ _ _ Hok setting_words_ok) as Hws.
  destruct (config_parse_ok (rl_palloc Hres) (Config [] [File fd (Some fname) (u64 (0 + Z.of_nat (length (settings_text sts))))]) w9
    (print_lines (setting_words <$> sts)) [] []) as (config & w10 & err & es & Hs & Hr & He & _).
  - unfold print_lines. rewrite !Forall_fmap. eapply Forall_impl; [exact Hws|]. intros st [Hst _].
    split; [by apply print_words_line|done].
  - constructor.
  - cbn. lia.
  - rewrite length_app. cbn [length]. unfold settings_text in Hlen. lia.
  - rewrite parse_spec_print in Hs by (by apply Forall_fmap). injection Hs as <- <-.
    exists config, w10. split; [exact Hr|exact He].
Qed.

Lemma init_sync_ok (init : M → fpx_err_t * M) addr fini (pool : M) next :
  (∀ w, ∃ w', init w = (FPX_OK, w')) →
  ∃ w', init_sync init addr fini pool next = next w'.
Proof using Hres.
  intros Hinit. unfold init_sync. destruct (Hinit pool) as [w1 ->]. change (negb (FPX_OK =? FPX_OK)) with false. cbn iota.
  destruct (rl_cleanup Hres w1 addr fini) as [w2 ->]. by exists w2.
Qed.
Lemma logger_init_ok (w : M) : ∃ lg w', fpx_logger_init messages w = Ok (FPX_OK, Some lg, w').
Proof using Hres.
  unfold fpx_logger_init. destruct (rl_pool Hres w) as [w1 ->]. change (negb (FPX_OK =? FPX_OK)) with false. cbn iota.
  destruct (rl_palloc Hres w1 96) as (a & w2 & ->). rewrite bind_ok. cbn beta iota.
  destruct (rl_palloc Hres w2 (SIZEOF_LOG_MESSAGE * FPX_MAX_LOG_SLOTS + SIZEOF_MUTEX * 2 + SIZEOF_SEMAPHORE * 2)) as (b & w3 & ->).
  rewrite bind_ok. cbn beta iota.
  edestruct init_sync_ok as [w4 ->]; [intros; apply (rl_sem Hres)|].
  edestruct init_sync_ok as [w5 ->]; [intros; apply (rl_sem Hres)|].
  edestruct init_sync_ok as [w6 ->]; [apply (rl_mutex Hres)|].
  edestruct init_sync_ok as [w7 ->]; [apply (rl_mutex Hres)|]. by eexists _, _.
Qed.

Lemma load_settings argv o sts (w : M) :
  file_laws (config_fname o) (settings_text sts) fresh held → Forall setting_ok sts →
  Z.of_nat (length (settings_text sts)) < 2 ^ 60 →
  ∃ config lg w', load_server con messages argv o w =
      Ok (inr (config, ([core_module], Server argv default_cntx (Some lg) [] w'))) ∧
    entry_of <$> conf_list config = entries_from None 1 (setting_words <$> sts).
Proof using Hres.
  intros Hf Hok Hlen. unfold load_server, assert_pool, assert_alloc, fpx_save_argv.
  cbn [sv_world sv_cntx sv_logger sv_listeners].
  destruct (rl_pool Hres w) as [w1 ->]. cbn beta iota zeta. change (fpx_assert (FPX_OK =? FPX_OK)) with (Ok tt).
  rewrite !bind_ok. destruct (rl_pool Hres w1) as [w2 ->]. cbn beta iota zeta.
  change (fpx_assert (FPX_OK =? FPX_OK)) with (Ok tt). rewrite !bind_ok.
  destruct (rl_palloc Hres w2 SIZEOF_SERVER) as (a & w3 & ->). rewrite bind_ok. cbn beta iota zeta. cbn [fpx_assert].
  rewrite !bind_ok. destruct (rl_palloc Hres w3 SIZEOF_CONFIG) as (b & w4 & ->). rewrite bind_ok. cbn beta iota zeta.
  cbn [fpx_assert]. rewrite !bind_ok.
  destruct (read_settings (config_fname o) sts w4 Hf Hok Hlen) as (config & w5 & -> & He). rewrite bind_ok. cbn beta iota zeta.
  change (negb (FPX_OK =? FPX_OK)) with false. cbn iota.
  change (fpx_setup_prelinked_modules [fpx_core_module] []) with
    (Ok (FPX_OK, [fpx_core_module]) : res (fpx_err_t * list (fpx_module_t (handler Ext) (mfun EFn) context))).
  rewrite bind_ok. cbn beta iota zeta. change (negb (FPX_OK =? FPX_OK)) with false. cbn iota.
  unfold fpx_preinit_modules. cbn [preinit_loop fpx_core_module md_preinited md_preinit call_preinit server_modules].
  unfold fpx_core_preinit, with_world. cbn [sv_world sv_argv sv_cntx sv_listeners sv_logger].
  destruct (logger_init_ok w5) as (lg & w6 & ->). rewrite bind_ok. cbn beta iota zeta.
  change (fpx_assert (FPX_OK =? FPX_OK)) with (Ok tt). rewrite !bind_ok. cbn beta iota zeta.
  exists config, lg, w6. split; [|exact He]. reflexivity.
Qed.
End Start.

(** ** A start on which nothing fails *)

(** The calls of a start that succeed: every address is found, can be bound and listened
    on; the working directory exists; threads and processes can be created. *)
Record serving_laws {M} `{Sockets M} `{ProcCalls M} `{LoggerEnv M} : Prop := {
  sl_getaddrinfo (w : M) a p f t fl pr : ∃ rp l, (sk_getaddrinfo w a p f t fl pr).1 = Some (rp :: l);
  sl_socket (w : M) d t p : 0 ≤ (sk_socket w d t p).1;
  sl_setsockopt (w : M) fd lv o v : (sk_setsockopt w fd lv o v).1 ≠ -1;
  sl_setfl (w : M) fd fl : (sk_setfl w fd fl).1 ≠ -1;
  sl_bind (w : M) fd a : (sk_bind w fd a).1 ≠ -1;
  sl_listen (w : M) fd n : 0 ≤ fd → (sk_listen w fd n).1 ≠ -1;
  sl_getsockname (w : M) fd : is_Some (sk_getsockname w fd).1;
  sl_chdir (w : M) d : 0 ≤ (pr_chdir w d).1;
  sl_fork (w : M) : 0 ≤ (pr_fork w).1;
  sl_setsid (w : M) : 0 ≤ (pr_setsid w).1;
  sl_thread (w : M) : (env_thread_init w).1 = FPX_OK
}.

(** What most calls of a start leave alone. *)
Record start_frame {M T} `{PoolAlloc M} `{PoolCleanup M} `{Posix M} `{LoggerEnv M} `{Sockets M} `{ProcCalls M} `{MainPools M}
    (f : M → T) : Prop := {
  sf_palloc (w : M) n r w' : palloc w n = Ok (r, w') → f w' = f w;
  sf_cleanup (w : M) a h w' : pcleanup_add w a h = Ok w' → f w' = f w;
  sf_listener (w : M) a h w' : mp_cleanup_add ServerPool w a h = Ok w' → f w' = f w;
  sf_thread (w : M) : f (env_thread_init w).2 = f w;
  sf_chdir (w : M) d : f (pr_chdir w d).2 = f w;
  sf_listen (w : M) fd n : f (sk_listen w fd n).2 = f w;
  sf_fork (w : M) : f (pr_fork w).2 = f w;
  sf_setsid (w : M) : f (pr_setsid w).2 = f w;
  sf_sighup (w : M) : f (pr_ignore_sighup w) = f w
}.

(** What becomes of the open descriptors, [opened]: the child of a [fork] has those of
    its parent, and [close] closes one. *)
Record keeps_open {M} `{PoolAlloc M} `{PoolCleanup M} `{Posix M} `{LoggerEnv M} `{Sockets M} `{ProcCalls M} `{MainPools M}
    (opened : M → gset Z) : Prop := {
  ko_frame : start_frame opened;
  ko_open (w : M) path mode access : opened w ⊆ opened (sys_open w path mode access).2;
  ko_close (w : M) fd : opened w ∖ {[fd]} ⊆ opened (sys_close w fd)
}.

(** What the pool of the configuration is to close when it is destroyed, [pending].
    Nothing else than a clean-up registered with that pool adds to it; these files are
    open, so that no new socket gets the descriptor of one. *)
Record pending_laws {M} `{PoolAlloc M} `{PoolCleanup M} `{Posix M} `{LoggerEnv M} `{Sockets M} `{ProcCalls M} `{MainPools M}
    (opened pending : M → gset Z) : Prop := {
  pl_destroy (w : M) : opened w ∖ pending w ⊆ opened (mp_destroy ConfigPool w);
  pl_frame : start_frame pending;
  pl_open (w : M) path mode access : pending (sys_open w path mode access).2 = pending w;
  pl_close (w : M) fd : pending (sys_close w fd) = pending w;
  pl_getaddrinfo (w : M) a p f t fl pr : pending (sk_getaddrinfo w a p f t fl pr).2 = pending w;
  pl_freeaddrinfo (w : M) : pending (sk_freeaddrinfo w) = pending w;
  pl_socket (w : M) d t p : pending (sk_socket w d t p).2 = pending w ∧ (sk_socket w d t p).1 ∉ pending w;
  pl_setsockopt (w : M) fd lv o v : pending (sk_setsockopt w fd lv o v).2 = pending w;
  pl_getfl (w : M) fd : pending (sk_getfl w fd).2 = pending w;
  pl_setfl (w : M) fd fl : pending (sk_setfl w fd fl).2 = pending w;
  pl_bind (w : M) fd a : pending (sk_bind w fd a).2 = pending w;
  pl_getsockname (w : M) fd : pending (sk_getsockname w fd).2 = pending w
}.

(** No user and no group. *)
Definition setting_plain (st : setting) : Prop :=
  match st with SUser _ | SGroup _ => False | _ => True end.

Section Serving.
Context {M : Type} `{PoolAlloc M} `{PoolCleanup M} `{Posix M} `{LoggerEnv M} `{OsStrerror}.
Context `{Sockets M} `{ProcCalls M} `{MainPools M}.
Hypothesis Hres : resource_laws (M := M).
Hypothesis Hserv : serving_laws (M := M).
Variables opened pending : M → gset Z.
Hypothesis Hkeeps : keeps_open opened.
Hypothesis Hpend : pending_laws opened pending.

Lemma socket_call_ok (r : Z * M) : r.1 ≠ -1 → socket_err r = (FPX_OK, r.2).
Proof using. intros Hr. unfold socket_err. by rewrite (proj2 (Z.eqb_neq _ _) Hr). Qed.

Lemma try_address_opens (w : M) fd rp : ∃ fd' w', try_address w fd rp = (true, FPX_OK, fd', w') ∧
  0 ≤ fd' ∧ (fd' ∉ pending w) ∧ pending w' = pending w.
Proof using Hserv Hpend.
  unfold try_address, fpx_socket_init. pose proof (sl_socket Hserv w (ai_family rp) (ai_socktype rp) (ai_protocol rp)) as Hs.
  pose proof (pl_socket _ _ Hpend w (ai_family rp) (ai_socktype rp) (ai_protocol rp)) as [P1 Hn].
  destruct (sk_socket w _ _ _) as [fd1 w1]. cbn [fst snd] in *.
  rewrite (proj2 (Z.eqb_neq fd1 FPX_INVALID_SOCKET)) by (unfold FPX_INVALID_SOCKET; lia).
  change (negb (FPX_OK =? FPX_OK)) with false. cbn iota. unfold Linux.fpx_socket_nopush.
  rewrite socket_call_ok by apply (sl_setsockopt Hserv). change (negb (FPX_OK =? FPX_OK)) with false. cbn iota.
  unfold Linux.fpx_socket_nonblocking. pose proof (pl_getfl _ _ Hpend (sk_setsockopt w1 fd1 SOL_SOCKET SO_REUSEADDR 1).2 fd1) as P2.
  destruct (sk_getfl _ fd1) as [fl w2]. cbn [snd] in P2.
  rewrite socket_call_ok by apply (sl_setfl Hserv). change (negb (FPX_OK =? FPX_OK)) with false. cbn iota.
  unfold FPX_MAX_BIND_ATTEMPTS. cbn [bind_attempts]. unfold fpx_socket_bind.
  rewrite socket_call_ok by apply (sl_bind Hserv). change (negb (FPX_OK =? FPX_OK)) with false.
  eexists _, _. split; [done|]. split; [done|]. split; [done|].
  by rewrite (pl_bind _ _ Hpend), (pl_setfl _ _ Hpend), P2, (pl_setsockopt _ _ Hpend).
Qed.

(** A listener with its two texts can be bound. *)
Lemma listener_bind_opens l (w : M) addr port :
  li_text_addr l = PText addr → li_text_port l = PText port →
  ∃ l' w', fpx_listener_bind l w = Ok (FPX_OK, l', w') ∧ 0 ≤ li_fd l' ∧ (li_fd l' ∉ pending w) ∧ pending w' = pending w.
Proof using Hserv Hpend.
  intros Ha Hp. unfold fpx_listener_bind. rewrite Ha, Hp. cbn [ptr_arg]. rewrite !bind_ok.
  pose proof (pl_getaddrinfo _ _ Hpend w (Some addr) (Some port) (ss_family (li_sockaddr l)) SOCK_STREAM AI_PASSIVE IPPROTO_TCP) as P1.
  destruct (sl_getaddrinfo Hserv w (Some addr) (Some port) (ss_family (li_sockaddr l)) SOCK_STREAM AI_PASSIVE IPPROTO_TCP)
    as (rp & rps & Hg). destruct (sk_getaddrinfo w _ _ _ _ _ _) as [r w1]. cbn [fst snd] in Hg, P1. subst r. cbn [try_addresses].
  destruct (try_address_opens w1 FPX_INVALID_SOCKET rp) as (fd & w2 & -> & Hfd & Hn & P2). cbn [negb].
  destruct (sl_getsockname Hserv w2 fd) as [name Hname]. pose proof (pl_getsockname _ _ Hpend w2 fd) as P3.
  destruct (sk_getsockname w2 fd) as [r w3]. cbn [fst snd] in Hname, P3. subst r. eexists _, _. split; [done|].
  cbn [li_fd]. split; [done|]. split; [congruence|]. rewrite (pl_freeaddrinfo _ _ Hpend). congruence.
Qed.

Lemma open_listeners_opens ls : ∀ (w : M),
  Forall (λ l, ∃ addr port, li_text_addr l.2 = PText addr ∧ li_text_port l.2 = PText port) ls →
  ∃ ls' w', open_listeners ls w = Ok (true, ls', w') ∧ pending w' = pending w ∧
    Forall (λ l, li_fd l.2 ∉ pending w) ls'.
Proof using Hres Hserv Hpend.
  induction ls as [|[a l] ls IH]; intros w Hls; [by eexists _, _|].
  apply Forall_cons in Hls as [(addr & port & Ha & Hp) Hls]. cbn [open_listeners].
  destruct (listener_bind_opens l w addr port Ha Hp) as (l1 & w1 & -> & Hl1 & Hn & P1). rewrite bind_ok.
  change (negb (FPX_OK =? FPX_OK)) with false. cbn iota. unfold fpx_listener_open, fpx_socket_listen.
  rewrite socket_call_ok by (by apply (sl_listen Hserv)). change (negb (FPX_OK =? FPX_OK)) with false. cbn iota.
  change (negb (FPX_OK =? FPX_OK)) with false. cbn iota.
  destruct (rl_listener Hres (sk_listen w1 (li_fd l1) FPX_MAX_CONNECT_QUEUELEN).2 a FPX_LISTENER_CLOSE) as [w2 Hw2].
  pose proof (sf_listener _ (pl_frame _ _ Hpend) _ _ _ _ Hw2) as P2. rewrite (sf_listen _ (pl_frame _ _ Hpend)), P1 in P2.
  rewrite Hw2, bind_ok. destruct (IH w2 Hls) as (ls' & w3 & -> & P3 & Hall). rewrite P2 in P3, Hall.
  eexists _, _. split; [done|]. split; [done|]. by constructor.
Qed.

Lemma logger_start_ok lg (w : M) : ∃ w', fpx_logger_start lg w = Ok (FPX_OK, set_running lg, w') ∧
  ∀ T (f : M → T), start_frame f → f w' = f w.
Proof using Hres Hserv.
  unfold fpx_logger_start. destruct (rl_palloc Hres w 8) as (a & w1 & Ha). rewrite Ha, bind_ok. cbn beta iota zeta.
  pose proof (sl_thread Hserv w1) as Ht.
  assert (∀ T (f : M → T), start_frame f → f (env_thread_init w1).2 = f w1) as Hk by (intros T f Hf; apply (sf_thread _ Hf)).
  destruct (env_thread_init w1) as [e w2]. cbn [fst snd] in *. subst e.
  change (negb (FPX_OK =? FPX_OK)) with false. cbn iota.
  destruct (rl_cleanup Hres w2 a FPX_THREAD_FINI) as [w3 Hc]. rewrite Hc, bind_ok. eexists. split; [done|].
  intros T f Hf. by rewrite (sf_cleanup _ Hf _ _ _ _ Hc), (Hk T f Hf), (sf_palloc _ Hf _ _ _ _ Ha).
Qed.

Lemma redirect_keeps (w : M) : opened w ∖ {[0; 1; 2]} ⊆ opened (redirect_stdio w) ∧ pending (redirect_stdio w) = pending w.
Proof using Hres Hserv Hkeeps Hpend.
  unfold redirect_stdio. pose proof (ko_close _ Hkeeps w STDIN_FILENO) as C1. set (w1 := sys_close w _) in *.
  pose proof (ko_close _ Hkeeps w1 STDOUT_FILENO) as C2. set (w2 := sys_close w1 _) in *.
  pose proof (ko_close _ Hkeeps w2 STDERR_FILENO) as C3. set (w3 := sys_close w2 _) in *.
  pose proof (ko_open _ Hkeeps w3 dev_null O_RDONLY 0) as O1. pose proof (pl_open _ _ Hpend w3 dev_null O_RDONLY 0) as P1.
  destruct (sys_open w3 _ _ _) as [r4 w4].
  pose proof (ko_open _ Hkeeps w4 dev_null O_RDWR 0) as O2. pose proof (pl_open _ _ Hpend w4 dev_null O_RDWR 0) as P2.
  destruct (sys_open w4 _ _ _) as [r5 w5].
  pose proof (ko_open _ Hkeeps w5 dev_null O_RDWR 0) as O3. pose proof (pl_open _ _ Hpend w5 dev_null O_RDWR 0) as P3.
  destruct (sys_open w5 _ _ _) as [r6 w6].
  cbn [snd] in *. unfold STDIN_FILENO, STDOUT_FILENO, STDERR_FILENO in *. split; [set_solver|].
  rewrite P3, P2, P1. unfold w3, w2, w1. by rewrite !(pl_close _ _ Hpend).
Qed.

(** The child inherits the descriptors and gives up the first three. *)
Lemma daemon_ok (w : M) : ∃ w', fpx_process_become_daemon w = (FPX_OK, w') ∧
  opened w ∖ {[0; 1; 2]} ⊆ opened w' ∧ pending w' = pending w.
Proof using Hres Hserv Hkeeps Hpend.
  unfold fpx_process_become_daemon. pose proof (sl_fork Hserv w) as F1.
  pose proof (sf_fork _ (ko_frame _ Hkeeps) w) as K1. pose proof (sf_fork _ (pl_frame _ _ Hpend) w) as P1.
  destruct (pr_fork w) as [p1 w1]. cbn [fst snd] in F1, K1, P1.
  rewrite (proj2 (Z.ltb_ge _ _)) by done. pose proof (sl_setsid Hserv w1) as F2.
  pose proof (sf_setsid _ (ko_frame _ Hkeeps) w1) as K2. pose proof (sf_setsid _ (pl_frame _ _ Hpend) w1) as P2.
  destruct (pr_setsid w1) as [r w2]. cbn [fst snd] in F2, K2, P2.
  rewrite (proj2 (Z.ltb_ge _ _)) by done. pose proof (sl_fork Hserv (pr_ignore_sighup w2)) as F3.
  pose proof (sf_fork _ (ko_frame _ Hkeeps) (pr_ignore_sighup w2)) as K3. rewrite (sf_sighup _ (ko_frame _ Hkeeps)) in K3.
  pose proof (sf_fork _ (pl_frame _ _ Hpend) (pr_ignore_sighup w2)) as P3. rewrite (sf_sighup _ (pl_frame _ _ Hpend)) in P3.
  destruct (pr_fork (pr_ignore_sighup w2)) as [p2 w3]. cbn [fst snd] in F3, K3, P3. rewrite (proj2 (Z.ltb_ge _ _)) by done.
  destruct (redirect_keeps w3) as [Ho Hp]. eexists. split; [done|]. split; [|congruence]. rewrite K3, K2, K1 in Ho. done.
Qed.

(** The fields the start reads. *)
Record plain_fields (c : gmap Z cval) : Prop := {
  pf_workdir : ∃ d, c !! OFF_WORKDIR = Some (VStr d);
  pf_user : c !! OFF_USER = None;
  pf_group : c !! OFF_GROUP = None;
  pf_daemon : ∃ b, c !! OFF_DAEMON = Some (VBool b)
}.
Lemma settings_plain sts : ∀ c, Forall setting_plain sts → plain_fields c → plain_fields (foldl setting_cntx c sts).
Proof using.
  induction sts as [|st sts IH]; intros c Hp Hc; [done|]. apply Forall_cons in Hp as [Hst Hp]. cbn [foldl]. apply IH; [done|].
  destruct Hc as [[d Hd] Hu Hg [b Hb]]. destruct st; cbn [setting_cntx setting_plain] in *; try done;
    (split; [| | |]); first [done|by rewrite lookup_insert_ne|by rewrite lookup_insert_eq; eexists
      |rewrite lookup_insert_ne by done; by eexists|by eexists].
Qed.

(** [fpx_core_init] on such a server. *)
Lemma core_init_opens argv c lg ls (w : M) :
  plain_fields c → ls ≠ [] →
  Forall (λ l, ∃ addr port, li_text_addr l.2 = PText addr ∧ li_text_port l.2 = PText port) ls →
  ∃ ls' w1 w2, open_listeners ls w = Ok (true, ls', w1) ∧
    fpx_core_init (Server argv c (Some lg) ls w) (Some CServer) =
      Ok (FPX_OK, Server argv c (Some (set_running lg)) ls' w2) ∧
    pending w2 = pending w ∧ Forall (λ l, li_fd l.2 ∉ pending w) ls' ∧
    (∀ fd, fd ∈ opened w1 → c !! OFF_DAEMON = Some (VBool false) ∨ 2 < fd → fd ∈ opened w2).
Proof using Hres Hserv Hkeeps Hpend.
  intros [[d Hd] Hu Hg [b Hb]] Hne Hls. destruct (open_listeners_opens ls w Hls) as (ls' & w1 & Hopen & P1 & Hall).
  exists ls', w1. unfold fpx_core_init. cbn [fpx_assert sv_listeners sv_world]. rewrite bind_ok, Hopen, bind_ok.
  destruct ls as [|l0 ls0]; [done|]. cbn beta iota zeta. cbn [negb].
  unfold str_field, bool_field. cbn [with_listeners with_world sv_cntx sv_world sv_argv sv_logger sv_listeners].
  rewrite Hd, Hu, Hg, !bind_ok. cbn [of_option]. rewrite bind_ok. unfold fpx_process_set_workdir.
  pose proof (sl_chdir Hserv w1 d) as Hw. pose proof (sf_chdir _ (ko_frame _ Hkeeps) w1 d) as Hk.
  pose proof (sf_chdir _ (pl_frame _ _ Hpend) w1 d) as P2. destruct (pr_chdir w1 d) as [r w2]. cbn [fst snd] in *.
  rewrite (proj2 (Z.ltb_ge _ _)) by done. change (negb (FPX_OK =? FPX_OK)) with false. cbn beta iota zeta.
  rewrite ?bind_ok. unfold set_unless_default. cbn beta iota zeta. change (negb (FPX_OK =? FPX_OK)) with false. cbn beta iota zeta.
  rewrite ?bind_ok. change (negb (FPX_OK =? FPX_OK)) with false. cbn beta iota zeta. rewrite ?bind_ok.
  destruct (logger_start_ok lg w2) as (w3 & -> & Hf). rewrite bind_ok. cbn beta iota zeta.
  pose proof (Hf _ _ (ko_frame _ Hkeeps)) as Hk3. pose proof (Hf _ _ (pl_frame _ _ Hpend)) as P3.
  change (negb (FPX_OK =? FPX_OK)) with false. cbn iota.
  cbn [with_listeners with_logger sv_cntx sv_argv sv_listeners sv_world]. rewrite Hb, bind_ok. destruct b.
  - destruct (daemon_ok w3) as (w4 & -> & Hk4 & P4). exists w4. split; [done|]. split; [done|]. split; [congruence|].
    split; [done|]. intros fd Hfd [?|Hlt]; [done|]. apply Hk4. rewrite Hk3, Hk. apply elem_of_difference. split; [done|].
    rewrite !elem_of_union, !elem_of_singleton. lia.
  - exists w3. split; [done|]. split; [done|]. split; [congruence|]. split; [done|]. intros fd Hfd _. by rewrite Hk3, Hk.
Qed.
End Serving.

(** What the settings list has texts. *)
Lemma listed_texts (ls : list (Z * fpx_listener_t)) sts : ls.*2 = omap setting_listener sts →
  Forall (λ l, (∃ addr port, li_text_addr l.2 = PText addr ∧ li_text_port l.2 = PText port) ∧ li_fd l.2 = FPX_INVALID_SOCKET) ls.
Proof.
  intros Hls. apply Forall_forall. intros l Hl.
  assert (l.2 ∈ ls.*2) as Hin by (by apply list_elem_of_fmap_2).
  rewrite Hls in Hin. apply list_elem_of_omap in Hin as (st & _ & Hst).
  destruct st; cbn in Hst; try done; injection Hst as <-; (split; [by eexists _, _|done]).
Qed.

(** ** Properties *)

(** What [main] does with the answer of [fpx_core_init]: into the cycle, without the pool
    of the configuration, or a message and status 1. *)
Definition finish_start {Ext EFn M : Type} `{Posix M} `{LoggerEnv M} `{OsStrerror} `{MainPools M} (con : console)
    (r : fpx_err_t * fpx_server_t M) : res (outcome M (system (Ext := Ext) (EFn := EFn) (M := M))) :=
  let '(err, s) := r in
  if err =? FPX_OK then Ok (Cycling ([set_inited core_module], with_world s (mp_destroy ConfigPool (sv_world s))))
  else w ← fpx_log_stderr con (sv_world s) FPX_FAILED (chars_of "Failed to init modules"); Ok (Exited 1 w).

Lemma main_configured {Ext EFn M : Type} `{PoolAlloc M} `{PoolCleanup M} `{Posix M} `{LoggerEnv M} `{OsStrerror}
    `{Sockets M} `{ProcCalls M} `{DynLinker Ext EFn M} `{MainPools M}
    b con messages file0 walk_fuel fuel (fresh held : M → Z → Prop) argv o sts (w : M) :
  resource_laws (M := M) → file_laws (config_fname o) (settings_text sts) fresh held →
  fpx_parse_argv con argv initial_options w = Ok (FPX_OK, o, w) →
  show_version o = false → show_help o = false → test_config o = false →
  Forall setting_ok sts → Z.of_nat (length (settings_text sts)) < 2 ^ 60 → (length sts < fuel)%nat →
  ∃ lg ls w', let s := Server argv (foldl setting_cntx default_cntx sts) (Some lg) ls w' in
    ls.*2 = omap setting_listener sts ∧
    fpx_main (Ext := Ext) (EFn := EFn) b con messages file0 walk_fuel fuel argv w =
      (r ← fpx_core_init s (Some CServer); finish_start con r).
Proof.
  intros Hres Hf Hargv Hv Hh Ht Hok Hlen Hfuel.
  destruct (load_settings con messages fresh held Hres argv o sts w Hf Hok Hlen) as (config & lg & w1 & Hload & He).
  destruct (process_settings messages file0 walk_fuel (rl_palloc Hres) (EFn := EFn) core_module config sts 0 1 None fuel
    (Server argv default_cntx (Some lg) [] w1)) as ([av c lg' ls w2] & Hproc & [Ea El Ec Els]); [done..|].
  cbn in Ea, El, Ec, Els. subst av lg' c. exists lg, ls, w2.
  assert (fpx_main (Ext := Ext) (EFn := EFn) b con messages file0 walk_fuel fuel argv w =
    (r ← fpx_core_init (Server argv (foldl setting_cntx default_cntx sts) (Some lg) ls w2) (Some CServer);
     finish_start con r)) as Hmain.
  { unfold fpx_main. rewrite Hargv, bind_ok. change (negb (FPX_OK =? FPX_OK)) with false. cbn iota.
    rewrite Hv, Hh, Hload, bind_ok. unfold run_server. rewrite Ht. unfold server_config_process, fpx_config_process.
    rewrite Hproc, bind_ok. change (negb (FPX_OK =? FPX_OK)) with false. cbn iota. cbn [fst snd].
    unfold fpx_init_modules. cbn [init_loop core_module set_preinited fpx_core_module md_inited md_init md_cntx call_init server_modules].
    destruct (fpx_core_init _ _) as [[err s1]| | |]; [|done..]. rewrite !bind_ok. cbn beta iota zeta. cbn [of_option].
    rewrite bind_ok. unfold finish_start. destruct (err =? FPX_OK); cbn [negb]; rewrite ?bind_ok; done. }
  by split.
Qed.

(** C14: From the text of a configuration to the start.  A configuration that lists
    settings of the core module, one directive per line, is read, scanned, looked up,
    checked and handled so that the core module is initialised on exactly the server the
    settings describe: the defaults of [fpx_core_preinit] overwritten by the settings in
    order, and one closed listener per [listen] directive, in order, with its address and
    port.  From there on the program does what [fpx_core_init] does, and ends with a
    message and status 1 when that fails, as it does without a listener. *)
Theorem main_boots {Ext EFn M : Type} `{PoolAlloc M} `{PoolCleanup M} `{Posix M} `{LoggerEnv M} `{OsStrerror}
    `{Sockets M} `{ProcCalls M} `{DynLinker Ext EFn M} `{MainPools M}
    b con messages file0 walk_fuel fuel (fresh held : M → Z → Prop) argv o sts (w : M) :
  resource_laws (M := M) → file_laws (config_fname o) (settings_text sts) fresh held →
  fpx_parse_argv con argv initial_options w = Ok (FPX_OK, o, w) →
  show_version o = false → show_help o = false → test_config o = false →
  Forall setting_ok sts → Z.of_nat (length (settings_text sts)) < 2 ^ 60 → (length sts < fuel)%nat →
  ∃ lg ls w', let s := Server argv (foldl setting_cntx default_cntx sts) (Some lg) ls w' in
    ls.*2 = omap setting_listener sts ∧
    fpx_main (Ext := Ext) (EFn := EFn) b con messages file0 walk_fuel fuel argv w =
      (r ← fpx_core_init s (Some CServer); finish_start con r) ∧
    (omap setting_listener sts = [] →
     fpx_main (Ext := Ext) (EFn := EFn) b con messages file0 walk_fuel fuel argv w =
       (w ← fpx_log_stderr con w' FPX_FAILED (chars_of "Failed to init modules"); Ok (Exited 1 w))).
Proof.
  intros Hres Hf Hargv Hv Hh Ht Hok Hlen Hfuel.
  destruct (main_configured (EFn := EFn) b con messages file0 walk_fuel fuel fresh held argv o sts w) as (lg & ls & w' & Hls & Hmain); [done..|].
  exists lg, ls, w'. split; [done|]. split; [exact Hmain|]. intros Hnone. rewrite Hnone in Hls.
  apply fmap_nil_inv in Hls as ->. rewrite Hmain. unfold fpx_core_init. cbn [fpx_assert sv_listeners]. by rewrite !bind_ok.
Qed.


(** The world of [Server], with a file system whose files all hold the settings. *)
#[local] Existing Instances demo_palloc demo_cleanup demo_env demo_strerror demo_net demo_proc demo_linker demo_pools.
Definition boot_posix (sts : list setting) : Posix demo := {|
  sys_errno w := 1; sys_open w p m a := (7, demo_sockets w ({[7]} ∪ dm_open w) (dm_bad w));
  sys_close w fd := demo_sockets w (dm_open w ∖ {[fd]}) (dm_bad w);
  sys_lseek w fd off wh := (if wh =? SEEK_END then Z.of_nat (length (settings_text sts)) else off, w);
  sys_read w fd n := (n, take (Z.to_nat n) (settings_text sts), w); sys_write w fd s := (Z.of_nat (length s), w);
  sys_stat w p := (None, w); sys_fstat w fd := (None, w); sys_opendir w p := (None, w);
  sys_readdir w h := (None, w); sys_closedir w h := w; sys_glob w p := (1, [], w)
|}.
Lemma boot_resources : resource_laws (M := demo).
Proof. split; intros; by repeat eexists. Qed.
Lemma boot_file fname sts :
  file_laws (H1 := boot_posix sts) fname (settings_text sts) (λ (_ : demo) fd, fd = 7) (λ _ fd, fd = 7).
Proof.
  split; [intros; by eexists 7, _|intros; by eexists|intros; by exists w|intros; by exists w| |done].
  intros w fd Hfd. exists w. split; [done|]. split; [done|]. exists w. cbn.
  by rewrite Nat2Z.id, take_ge.
Qed.
Abbreviation boot_main sts :=
  (fpx_main (H1 := boot_posix sts) (Ext := Empty_set) (EFn := Empty_set) demo_build demo_con [] (File 0 None 0) 0 20 (demo_argv ["fpx"])
     (Demo 4096 {[0; 1; 2]} 0 0 0 0 ∅)) (only parsing).
Definition boot_settings : list setting :=
  [SListen (chars_of "localhost") 8080; SDaemon true; SWorkdir (chars_of "/srv"); SListen6 (chars_of "::1") 81;
   SPriority 5; SDaemon false; SWorkdir (chars_of "/tmp")].
Definition boot_cntx : gmap Z cval := Eval vm_compute in foldl setting_cntx default_cntx boot_settings.

Lemma boot_settings_ok : Forall setting_ok boot_settings.
Proof.
  assert (∀ l, forallb (λ c, word_char c && (-128 <=? c) && (c <? 128)) (chars_of l) = true → chars_of l ≠ [] →
    Z.of_nat (length (chars_of l)) < 2 ^ 60 → value_word (chars_of l)) as Hw.
  { intros l Hl Hne Hlen. rewrite List.forallb_forall in Hl. split; [split; [exact Hne|]|split; [|exact Hlen]].
    - apply List.forallb_forall. intros c Hc. specialize (Hl c Hc). apply andb_prop in Hl as [Hl _].
      by apply andb_prop in Hl as [Hl _].
    - apply Forall_forall. intros c Hc. apply list_elem_of_In in Hc. specialize (Hl c Hc).
      apply andb_prop in Hl as [Hl H2]. apply andb_prop in Hl as [Hl H1]. split; [|lia].
      intros ->. done. }
  unfold boot_settings.
  repeat (apply Forall_cons; split); [..|by apply Forall_nil]; cbn [setting_ok];
    repeat match goal with |- _ ∧ _ => split | |- value_word _ => apply Hw | |- Forall _ _ => apply (bool_decide_unpack _) end;
    try first [exact I|lia|by vm_compute|vm_compute; discriminate].
Qed.

(** A configuration that ends in the cycle with two open listeners; one without
    listeners does not start. *)
Lemma main_boots_witness :
  boot_cntx !! OFF_DAEMON = Some (VBool false) ∧ boot_cntx !! OFF_WORKDIR = Some (VStr (cstr (chars_of "/tmp"))) ∧
  (∃ lg ls w', ls.*2 = [closed_listener AF_INET (chars_of "localhost") 8080; closed_listener AF_INET6 (chars_of "::1") 81] ∧
    boot_main boot_settings =
      (r ← fpx_core_init (H1 := boot_posix boot_settings) (Server (demo_argv ["fpx"]) boot_cntx (Some lg) ls w') (Some CServer);
       finish_start (H := boot_posix boot_settings) demo_con r)) ∧
  (∃ y, boot_main boot_settings = Ok (Cycling y)) ∧
  ∃ w, boot_main [SPriority 5] = Ok (Exited 1 w).
Proof.
  assert (∀ sts, fpx_parse_argv (H := boot_posix sts) demo_con (demo_argv ["fpx"]) initial_options (Demo 4096 {[0; 1; 2]} 0 0 0 0 ∅) =
    Ok (FPX_OK, initial_options, Demo 4096 {[0; 1; 2]} 0 0 0 0 ∅)) as Hargv by (intros sts; vm_compute; reflexivity).
  split; [reflexivity|]. split; [reflexivity|]. split; [|split].
  - destruct (main_boots (H1 := boot_posix boot_settings) (Ext := Empty_set) (EFn := Empty_set) demo_build demo_con [] (File 0 None 0) 0 20 _ _
      (demo_argv ["fpx"]) initial_options boot_settings (Demo 4096 {[0; 1; 2]} 0 0 0 0 ∅)
      boot_resources (boot_file _ _) (Hargv _) eq_refl eq_refl eq_refl) as (lg & ls & w' & Hls & Hmain & _).
    + exact boot_settings_ok.
    + by vm_compute.
    + cbn. lia.
    + exists lg, ls, w'. split; [exact Hls|exact Hmain].
  - eexists. vm_compute. reflexivity.
  - destruct (main_boots (H1 := boot_posix [SPriority 5]) (Ext := Empty_set) (EFn := Empty_set) demo_build demo_con [] (File 0 None 0) 0 20 _ _
      (demo_argv ["fpx"]) initial_options [SPriority 5] (Demo 4096 {[0; 1; 2]} 0 0 0 0 ∅)
      boot_resources (boot_file _ _) (Hargv _) eq_refl eq_refl eq_refl) as (lg & ls & w' & _ & _ & Hmain).
    + apply Forall_singleton. cbn. lia.
    + by vm_compute.
    + cbn. lia.
    + eexists. rewrite Hmain by reflexivity. vm_compute. reflexivity.
Defined.

Lemma boot_serving : serving_laws (M := demo).
Proof.
  split; intros; cbn; try done; try lia; try (by eexists _, _).
  - destruct (demo_fd_fresh w). lia.
  - by rewrite (proj2 (Z.ltb_ge _ _)).
Qed.
Lemma demo_frame {T} (f : demo → T) :
  (∀ next o b eu eg th fs next' eu' eg' th', f (Demo next o b eu eg th fs) = f (Demo next' o b eu' eg' th' fs)) →
  ∀ sts, start_frame (H1 := boot_posix sts) f.
Proof.
  intros Hf sts. split; try done.
  - intros [] n r w' [= _ <-]. apply Hf.
  - by intros w a h w' [= <-].
  - by intros w a h w' [= <-].
  - intros []. apply Hf.
  - intros []. apply Hf.
Qed.
Lemma boot_keeps sts : keeps_open (H1 := boot_posix sts) dm_open.
Proof. split; [by apply demo_frame|intros; cbn; set_solver|done]. Qed.
Lemma boot_pending sts : pending_laws (H1 := boot_posix sts) dm_open dm_files.
Proof.
  split; try done.
  - by apply demo_frame.
  - intros w d t p. split; [done|]. apply demo_fd_fresh.
Qed.

