(* ===== verification/Sync.v ===== *)
(** * Mutexes, semaphores and threads: [src/src/system/sync/mutex.c],
      [src/src/system/sync/semaphore.c], [src/src/system/thread.c]

    The variants of the three files: those of POSIX over the interface [Pthreads], with
    the attribute objects as values, the semaphores of Grand Central Dispatch, and
    those of Windows.  A mutex, a semaphore or a thread is the address of its
    structure.  The calls of the logger are left out. *)

From S2P Require Import Prelude CInt Errno.
Open Scope Z_scope.

Definition FPX_MUTEX_SHARED : Z := 1.
Definition FPX_MUTEX_PRIVATE : Z := 2.
Definition FPX_MUTEX_RECURSIVE : Z := 4.
Definition FPX_SEMAPHORE_PRIVATE : Z := 1.
Definition FPX_SEMAPHORE_SHARED : Z := 2.
Definition FPX_THREAD_SCOPE_SYSTEM : Z := 1.
Definition FPX_THREAD_SCOPE_PROCESS : Z := 2.
Definition FPX_THREAD_CREATE_DETACHED : Z := 4.
Definition FPX_THREAD_CREATE_JOINABLE : Z := 8.

(** Constants of [pthread.h]. *)
Definition PTHREAD_PROCESS_PRIVATE : Z := 0.
Definition PTHREAD_PROCESS_SHARED : Z := 1.
Definition PTHREAD_MUTEX_RECURSIVE : Z := 1.
Definition PTHREAD_SCOPE_SYSTEM : Z := 0.
Definition PTHREAD_SCOPE_PROCESS : Z := 1.
Definition PTHREAD_CREATE_JOINABLE : Z := 0.
Definition PTHREAD_CREATE_DETACHED : Z := 1.

(** ** POSIX *)

(** Every call answers [0] or an error; [A] are the attribute objects. *)
Class Pthreads (W A : Type) := {
  pt_errno : W → fpx_err_t;
  pt_mutexattr_init : W → Z * A * W;
  pt_mutexattr_setpshared : W → A → Z → Z * A * W;
  pt_mutexattr_settype : W → A → Z → Z * A * W;
  pt_mutexattr_destroy : W → A → W;
  pt_mutex_init : W → Z → A → Z * W;
  pt_mutex_lock : W → Z → Z * W;
  pt_mutex_trylock : W → Z → Z * W;
  pt_mutex_unlock : W → Z → Z * W;
  pt_mutex_destroy : W → Z → Z * W;
  pt_sem_init : W → Z → Z → Z → Z * W;
  pt_sem_wait : W → Z → Z * W;
  pt_sem_trywait : W → Z → Z * W;
  pt_sem_post : W → Z → Z * W;
  pt_sem_destroy : W → Z → Z * W;
  pt_attr_init : W → Z * A * W;
  pt_attr_setscope : W → A → Z → Z * A * W;
  pt_attr_setdetachstate : W → A → Z → Z * A * W;
  pt_attr_setstacksize : W → A → Z → Z * A * W;
  pt_attr_destroy : W → A → Z * W;
  pt_create : W → Z → A → Z → Z → Z * W;
  pt_join : W → Z → Z * W;
  pt_cancel : W → Z → Z * W;
  pt_gettid : W → Z
}.

Section PosixSync.
Context {W A : Type} `{Pthreads W A}.

(** A call whose failure is answered with [errno], or with [FPX_BUSY]. *)
Definition checked (r : Z * W) : fpx_err_t * W :=
  if negb (r.1 =? 0) then (pt_errno r.2, r.2) else (FPX_OK, r.2).
Definition busy_unless (r : Z * W) : fpx_err_t * W :=
  if negb (r.1 =? 0) then (FPX_BUSY, r.2) else (FPX_OK, r.2).

(** *** mutex.c *)
Definition fpx_mutex_init (w : W) (mutex params : Z) : fpx_err_t * W :=
  let '(r, attr, w) := pt_mutexattr_init w in
  if negb (r =? 0) then (pt_errno w, w) else
  let '(r, attr, w) :=
    if fpx_bit_is_set params FPX_MUTEX_SHARED then pt_mutexattr_setpshared w attr PTHREAD_PROCESS_SHARED
    else if fpx_bit_is_set params FPX_MUTEX_PRIVATE then pt_mutexattr_setpshared w attr PTHREAD_PROCESS_PRIVATE
    else (0, attr, w) in
  if negb (r =? 0) then (pt_errno w, pt_mutexattr_destroy w attr) else
  let '(r, attr, w) :=
    if fpx_bit_is_set params FPX_MUTEX_RECURSIVE then pt_mutexattr_settype w attr PTHREAD_MUTEX_RECURSIVE
    else (0, attr, w) in
  if negb (r =? 0) then (pt_errno w, pt_mutexattr_destroy w attr) else
  let '(r, w) := pt_mutex_init w mutex attr in
  if negb (r =? 0) then (pt_errno w, pt_mutexattr_destroy w attr) else
  (FPX_OK, pt_mutexattr_destroy w attr).
Definition fpx_mutex_lock (w : W) (mutex : Z) : fpx_err_t * W := checked (pt_mutex_lock w mutex).
Definition fpx_mutex_trylock (w : W) (mutex : Z) : fpx_err_t * W := busy_unless (pt_mutex_trylock w mutex).
Definition fpx_mutex_unlock (w : W) (mutex : Z) : fpx_err_t * W := checked (pt_mutex_unlock w mutex).
Definition fpx_mutex_fini (w : W) (mutex : Z) : W := (pt_mutex_destroy w mutex).2.

(** *** semaphore.c *)
Definition fpx_semaphore_init (w : W) (semaphore value maxval params : Z) : fpx_err_t * W :=
  let shared := if fpx_bit_is_set params FPX_SEMAPHORE_SHARED then 1 else 0 in
  if fpx_bit_is_set params FPX_SEMAPHORE_SHARED && negb (Z.land params FPX_SEMAPHORE_PRIVATE =? 0)
  then (FPX_FAILED, w) else checked (pt_sem_init w semaphore shared value).
Definition fpx_semaphore_wait (w : W) (semaphore : Z) : fpx_err_t * W := checked (pt_sem_wait w semaphore).
Definition fpx_semaphore_trywait (w : W) (semaphore : Z) : fpx_err_t * W := busy_unless (pt_sem_trywait w semaphore).
Definition fpx_semaphore_post (w : W) (semaphore : Z) : fpx_err_t * W := checked (pt_sem_post w semaphore).
Definition fpx_semaphore_fini (w : W) (semaphore : Z) : W := (pt_sem_destroy w semaphore).2.

(** *** thread.c *)

(** The attribute object is not destroyed when one of the calls fails. *)
Definition fpx_thread_init (w : W) (thread params stack_size prio start_routine arg : Z) : fpx_err_t * W :=
  let '(r, attr, w) := pt_attr_init w in
  if negb (r =? 0) then (pt_errno w, w) else
  let '(r, attr, w) :=
    if fpx_bit_is_set params FPX_THREAD_SCOPE_SYSTEM then pt_attr_setscope w attr PTHREAD_SCOPE_SYSTEM
    else if fpx_bit_is_set params FPX_THREAD_SCOPE_PROCESS then pt_attr_setscope w attr PTHREAD_SCOPE_PROCESS
    else (0, attr, w) in
  if negb (r =? 0) then (pt_errno w, w) else
  let '(r, attr, w) :=
    if fpx_bit_is_set params FPX_THREAD_CREATE_DETACHED then pt_attr_setdetachstate w attr PTHREAD_CREATE_DETACHED
    else if fpx_bit_is_set params FPX_THREAD_CREATE_JOINABLE
    then pt_attr_setdetachstate w attr PTHREAD_CREATE_JOINABLE
    else (0, attr, w) in
  if negb (r =? 0) then (pt_errno w, w) else
  let '(r, attr, w) :=
    if negb (stack_size =? 0) then pt_attr_setstacksize w attr stack_size else (0, attr, w) in
  if negb (r =? 0) then (pt_errno w, w) else
  let '(r, w) := pt_create w thread attr start_routine arg in
  if negb (r =? 0) then (pt_errno w, w) else
  let '(_, w) := pt_attr_destroy w attr in
  (FPX_OK, w).
Definition fpx_thread_join (w : W) (thread : Z) : fpx_err_t * W := checked (pt_join w thread).
Definition fpx_thread_cancel (w : W) (thread : Z) : fpx_err_t * W := checked (pt_cancel w thread).
Definition fpx_thread_fini (w : W) (thread : Z) : W := w.
Definition fpx_thread_current_tid (w : W) : Z := pt_gettid w.
End PosixSync.

(** ** Grand Central Dispatch *)
Module Gcd.
(** [gcd_create] answers a handle or [NULL]; [gcd_wait] is told whether to wait. *)
Class Dispatch (W : Type) := {
  gcd_errno : W → fpx_err_t;
  gcd_create : W → Z → option Z * W;
  gcd_wait : W → Z → bool → Z * W;
  gcd_signal : W → Z → W
}.
Section GcdSemaphores.
Context {W : Type} `{Dispatch W}.
(** The handle is stored on success. *)
Definition fpx_semaphore_init (w : W) (handle value maxval params : Z) : fpx_err_t * Z * W :=
  let '(s, w) := gcd_create w value in
  match s with None => (gcd_errno w, handle, w) | Some s => (FPX_OK, s, w) end.
Definition fpx_semaphore_wait (w : W) (handle : Z) : fpx_err_t * W :=
  let '(_, w) := gcd_wait w handle true in (FPX_OK, w).
Definition fpx_semaphore_trywait (w : W) (handle : Z) : fpx_err_t * W :=
  let '(r, w) := gcd_wait w handle false in
  if negb (r =? 0) then (FPX_BUSY, w) else (FPX_OK, w).
Definition fpx_semaphore_post (w : W) (handle : Z) : fpx_err_t * W := (FPX_OK, gcd_signal w handle).
Definition fpx_semaphore_fini (w : W) (handle : Z) : W := w.
End GcdSemaphores.
End Gcd.

(** ** Windows *)
Module Windows.
(** Calls that answer [0] for failure ([true] here for success), handles that are
    [None] for [NULL]; a wait answers [WAIT_OBJECT_0], which is [0], or something
    else. *)
Class WinCalls (W : Type) := {
  win_errno : W → fpx_err_t;
  win_init_section : W → Z → W;
  win_create_mutex : W → option Z * W;
  win_enter_section : W → Z → W;
  win_try_enter_section : W → Z → bool * W;
  win_leave_section : W → Z → W;
  win_delete_section : W → Z → W;
  win_wait : W → Z → bool → Z * W;
  win_release_mutex : W → Z → bool * W;
  win_close_handle : W → Z → bool * W;
  win_create_semaphore : W → Z → Z → Z → option Z * W;   (* inherit, value, maximum *)
  win_release_semaphore : W → Z → bool * W;
  win_create_thread : W → Z → Z → Z → option Z * W;
  win_set_priority : W → Z → Z → bool * W;
  win_terminate_thread : W → Z → bool * W;
  win_thread_id : W → Z
}.

Inductive fpx_mutex_type_t := fpx_mutex_mutex | fpx_mutex_critical_section.
(** [section] is the address of the critical section of the structure. *)
Record fpx_mutex_t := Mutex { mx_handle : option Z; mx_type : fpx_mutex_type_t; mx_section : Z }.

Section WindowsSync.
Context {W : Type} `{WinCalls W}.
Definition ok_or_errno (r : bool * W) : fpx_err_t * W :=
  if negb r.1 then (win_errno r.2, r.2) else (FPX_OK, r.2).
Definition wait_infinite (w : W) (handle : Z) : fpx_err_t * W :=
  let '(r, w) := win_wait w handle true in
  if negb (r =? 0) then (win_errno w, w) else (FPX_OK, w).
Definition wait_now (w : W) (handle : Z) : fpx_err_t * W :=
  let '(r, w) := win_wait w handle false in
  if negb (r =? 0) then (FPX_BUSY, w) else (FPX_OK, w).
(** A handle passed to a call; [NULL] is [0]. *)
Definition handle_of (h : option Z) : Z := match h with Some h => h | None => 0 end.

Definition fpx_mutex_init (w : W) (mutex : fpx_mutex_t) (params : Z) : fpx_err_t * fpx_mutex_t * W :=
  if fpx_bit_is_set params FPX_MUTEX_RECURSIVE then
    (FPX_OK, Mutex None fpx_mutex_critical_section (mx_section mutex), win_init_section w (mx_section mutex))
  else
    let '(handle, w) := win_create_mutex w in
    match handle with
    | None => (win_errno w, mutex, w)
    | Some handle => (FPX_OK, Mutex (Some handle) fpx_mutex_mutex (mx_section mutex), w)
    end.
Definition fpx_mutex_lock (w : W) (mutex : fpx_mutex_t) : fpx_err_t * W :=
  match mx_type mutex with
  | fpx_mutex_critical_section => (FPX_OK, win_enter_section w (mx_section mutex))
  | fpx_mutex_mutex => wait_infinite w (handle_of (mx_handle mutex))
  end.
Definition fpx_mutex_trylock (w : W) (mutex : fpx_mutex_t) : fpx_err_t * W :=
  match mx_type mutex with
  | fpx_mutex_critical_section =>
      let '(ok, w) := win_try_enter_section w (mx_section mutex) in
      if negb ok then (FPX_BUSY, w) else (FPX_OK, w)
  | fpx_mutex_mutex => wait_now w (handle_of (mx_handle mutex))
  end.
Definition fpx_mutex_unlock (w : W) (mutex : fpx_mutex_t) : fpx_err_t * W :=
  match mx_type mutex with
  | fpx_mutex_critical_section => (FPX_OK, win_leave_section w (mx_section mutex))
  | fpx_mutex_mutex => ok_or_errno (win_release_mutex w (handle_of (mx_handle mutex)))
  end.
Definition fpx_mutex_fini (w : W) (mutex : fpx_mutex_t) : W :=
  match mx_type mutex with
  | fpx_mutex_critical_section => win_delete_section w (mx_section mutex)
  | fpx_mutex_mutex => (win_close_handle w (handle_of (mx_handle mutex))).2
  end.

Definition fpx_semaphore_init (w : W) (handle value maxval params : Z) : fpx_err_t * Z * W :=
  let '(s, w) := win_create_semaphore w 1 value maxval in
  match s with None => (win_errno w, handle, w) | Some s => (FPX_OK, s, w) end.
Definition fpx_semaphore_wait (w : W) (handle : Z) : fpx_err_t * W := wait_infinite w handle.
Definition fpx_semaphore_trywait (w : W) (handle : Z) : fpx_err_t * W := wait_now w handle.
Definition fpx_semaphore_post (w : W) (handle : Z) : fpx_err_t * W := ok_or_errno (win_release_semaphore w handle).
Definition fpx_semaphore_fini (w : W) (handle : Z) : W := (win_close_handle w handle).2.

(** The handle is stored after the priority has been set. *)
Definition fpx_thread_init (w : W) (handle params stack_size prio start_routine arg : Z) : fpx_err_t * Z * W :=
  let '(t, w) := win_create_thread w stack_size start_routine arg in
  match t with
  | None => (win_errno w, handle, w)
  | Some t =>
      let '(ok, w) := win_set_priority w t prio in
      if negb ok then (win_errno w, handle, w) else (FPX_OK, t, w)
  end.
Definition fpx_thread_join (w : W) (handle : Z) : fpx_err_t * W := wait_infinite w handle.
Definition fpx_thread_cancel (w : W) (handle : Z) : fpx_err_t * W := ok_or_errno (win_terminate_thread w handle).
Definition fpx_thread_fini (w : W) (handle : Z) : W := (win_close_handle w handle).2.
Definition fpx_thread_current_tid (w : W) : Z := win_thread_id w.
End WindowsSync.
End Windows.

(** ** Properties *)

(** What the calls of [pthread.h] have done: the number of attribute objects that have been
    initialised and not destroyed, the mutexes that exist, each with its type and sharing,
    the threads that have been started, each with its scope, detach state and stack size
    and its function and argument, and the number of calls that have been refused. *)
Record pthread_view (W A : Type) := PthreadView {
  live : W → nat;
  made : W → gmap Z (Z * Z);
  threads : W → gmap Z (Z * Z * Z * (Z * Z));
  refused : W → nat;
  mutex_attrs : A → Z * Z;
  thread_attrs : A → Z * Z * Z;
  default_attrs : Z * Z * Z
}.
Arguments live {W A}.
Arguments made {W A}.
Arguments threads {W A}.
Arguments refused {W A}.
Arguments mutex_attrs {W A}.
Arguments thread_attrs {W A}.
Arguments default_attrs {W A}.

Section PthreadLaws.
Context {W A : Type} `{Pthreads W A} (V : pthread_view W A).

(** A call that creates nothing and leaves [errno] alone; one that counts as refused
    unless it answers [0]. *)
Definition quiet (w w' : W) : Prop :=
  pt_errno w' = pt_errno w ∧ made V w' = made V w ∧ threads V w' = threads V w.
Definition counted (r : Z) (w w' : W) : Prop :=
  refused V w' = if r =? 0 then refused V w else S (refused V w).
(** A call that sets an attribute, so that the object satisfies [P]. *)
Definition sets_attr (P : A → Prop) (w : W) (r : Z * A * W) : Prop :=
  let '(r, a, w') := r in
  quiet w w' ∧ counted r w w' ∧ live V w' = live V w ∧ (r = 0 → P a).

(** The calls as POSIX defines them: they answer the error and do not touch [errno]. *)
Record pthread_laws : Prop := {
  pl_mutexattr_init : ∀ w, let '(r, a, w') := pt_mutexattr_init w in
    quiet w w' ∧ counted r w w' ∧ live V w' = (if r =? 0 then S (live V w) else live V w) ∧
    (r = 0 → mutex_attrs V a = (0, PTHREAD_PROCESS_PRIVATE));
  pl_setpshared : ∀ w a v,
    sets_attr (λ a', mutex_attrs V a' = ((mutex_attrs V a).1, v)) w (pt_mutexattr_setpshared w a v);
  pl_settype : ∀ w a v,
    sets_attr (λ a', mutex_attrs V a' = (v, (mutex_attrs V a).2)) w (pt_mutexattr_settype w a v);
  pl_mutexattr_destroy : ∀ w a, let w' := pt_mutexattr_destroy w a in
    quiet w w' ∧ refused V w' = refused V w ∧ live V w' = pred (live V w);
  pl_mutex_init : ∀ w m a, let '(r, w') := pt_mutex_init w m a in
    pt_errno w' = pt_errno w ∧ threads V w' = threads V w ∧ live V w' = live V w ∧ counted r w w' ∧
    made V w' = if r =? 0 then <[m := mutex_attrs V a]> (made V w) else made V w;
  pl_attr_init : ∀ w, let '(r, a, w') := pt_attr_init w in
    quiet w w' ∧ counted r w w' ∧ live V w' = (if r =? 0 then S (live V w) else live V w) ∧
    (r = 0 → thread_attrs V a = default_attrs V);
  pl_setscope : ∀ w a v,
    sets_attr (λ a', thread_attrs V a' = (v, (thread_attrs V a).1.2, (thread_attrs V a).2)) w (pt_attr_setscope w a v);
  pl_setdetachstate : ∀ w a v,
    sets_attr (λ a', thread_attrs V a' = ((thread_attrs V a).1.1, v, (thread_attrs V a).2)) w (pt_attr_setdetachstate w a v);
  pl_setstacksize : ∀ w a v,
    sets_attr (λ a', thread_attrs V a' = ((thread_attrs V a).1, v)) w (pt_attr_setstacksize w a v);
  pl_attr_destroy : ∀ w a, let '(r, w') := pt_attr_destroy w a in
    quiet w w' ∧ refused V w' = refused V w ∧ live V w' = pred (live V w);
  pl_create : ∀ w t a f x, let '(r, w') := pt_create w t a f x in
    pt_errno w' = pt_errno w ∧ made V w' = made V w ∧ live V w' = live V w ∧ counted r w w' ∧
    threads V w' = if r =? 0 then <[t := (thread_attrs V a, (f, x))]> (threads V w) else threads V w
}.
Hypothesis laws : pthread_laws.

(** The attributes a mutex or a thread is asked for. *)
Definition wanted (params : Z) : Z * Z :=
  (if fpx_bit_is_set params FPX_MUTEX_RECURSIVE then PTHREAD_MUTEX_RECURSIVE else 0,
   if fpx_bit_is_set params FPX_MUTEX_SHARED then PTHREAD_PROCESS_SHARED else PTHREAD_PROCESS_PRIVATE).
Definition wanted_thread (params stack_size : Z) : Z * Z * Z :=
  (if fpx_bit_is_set params FPX_THREAD_SCOPE_SYSTEM then PTHREAD_SCOPE_SYSTEM
   else if fpx_bit_is_set params FPX_THREAD_SCOPE_PROCESS then PTHREAD_SCOPE_PROCESS else (default_attrs V).1.1,
   if fpx_bit_is_set params FPX_THREAD_CREATE_DETACHED then PTHREAD_CREATE_DETACHED
   else if fpx_bit_is_set params FPX_THREAD_CREATE_JOINABLE then PTHREAD_CREATE_JOINABLE else (default_attrs V).1.2,
   if stack_size =? 0 then (default_attrs V).2 else stack_size).

(** While the attribute object is being set: no call has been refused, or one has. *)
Definition going (w w1 : W) : Prop := quiet w w1 ∧ refused V w1 = refused V w ∧ live V w1 = S (live V w).
Definition stopped (w w1 : W) : Prop := quiet w w1 ∧ refused V w1 = S (refused V w) ∧ live V w1 = S (live V w).

Lemma quiet_trans w1 w2 w3 : quiet w1 w2 → quiet w2 w3 → quiet w1 w3.
Proof using. intros (E1 & E2 & E3) (F1 & F2 & F3). split_and!; congruence. Qed.

Lemma sets_step (P : A → Prop) w w1 r : going w w1 → sets_attr P w1 r →
  if r.1.1 =? 0 then going w r.2 ∧ P r.1.2 else stopped w r.2.
Proof using.
  destruct r as [[r a] w2]. cbn [fst snd]. intros (Hq & Hr & Hl) (Hq2 & Hc & Hl2 & HP). unfold counted in Hc.
  pose proof (quiet_trans _ _ _ Hq Hq2). destruct (Z.eqb_spec r 0) as [E|E].
  - split; [|by apply HP]. split; [done|]. split; congruence.
  - split; [done|]. split; congruence.
Qed.
(** The step that is left out. *)
Lemma skip_step (P : A → Prop) w a : P a → sets_attr P w (0, a, w).
Proof using. intros HP. done. Qed.

(** The attributes of a mutex, one after the other. *)
Lemma sharing_step w w1 a params : going w w1 → mutex_attrs V a = (0, PTHREAD_PROCESS_PRIVATE) →
  let r := if fpx_bit_is_set params FPX_MUTEX_SHARED then pt_mutexattr_setpshared w1 a PTHREAD_PROCESS_SHARED
           else if fpx_bit_is_set params FPX_MUTEX_PRIVATE then pt_mutexattr_setpshared w1 a PTHREAD_PROCESS_PRIVATE
           else (0, a, w1) in
  if r.1.1 =? 0 then going w r.2 ∧ mutex_attrs V r.1.2 = (0, (wanted params).2) else stopped w r.2.
Proof using laws.
  intros Hg Ha. apply (sets_step (λ a', mutex_attrs V a' = _) _ _ _ Hg). unfold wanted. cbn [snd].
  pose proof (λ v, pl_setpshared laws w1 a v) as Hs. rewrite Ha in Hs.
  destruct (fpx_bit_is_set params FPX_MUTEX_SHARED); [apply Hs|].
  destruct (fpx_bit_is_set params FPX_MUTEX_PRIVATE); [apply Hs|by apply skip_step].
Qed.
Lemma type_step w w1 a params : going w w1 → mutex_attrs V a = (0, (wanted params).2) →
  let r := if fpx_bit_is_set params FPX_MUTEX_RECURSIVE then pt_mutexattr_settype w1 a PTHREAD_MUTEX_RECURSIVE
           else (0, a, w1) in
  if r.1.1 =? 0 then going w r.2 ∧ mutex_attrs V r.1.2 = wanted params else stopped w r.2.
Proof using laws.
  intros Hg Ha. apply (sets_step (λ a', mutex_attrs V a' = _) _ _ _ Hg). unfold wanted in *. cbn [snd] in *.
  destruct (fpx_bit_is_set params FPX_MUTEX_RECURSIVE); [|by apply skip_step].
  pose proof (pl_settype laws w1 a PTHREAD_MUTEX_RECURSIVE) as Hs. by rewrite Ha in Hs.
Qed.

(** Those of a thread. *)
Lemma scope_step w w1 a params stack : going w w1 → thread_attrs V a = default_attrs V →
  let r := if fpx_bit_is_set params FPX_THREAD_SCOPE_SYSTEM then pt_attr_setscope w1 a PTHREAD_SCOPE_SYSTEM
           else if fpx_bit_is_set params FPX_THREAD_SCOPE_PROCESS then pt_attr_setscope w1 a PTHREAD_SCOPE_PROCESS
           else (0, a, w1) in
  if r.1.1 =? 0
  then going w r.2 ∧ thread_attrs V r.1.2 = ((wanted_thread params stack).1.1, (default_attrs V).1.2, (default_attrs V).2)
  else stopped w r.2.
Proof using laws.
  intros Hg Ha. apply (sets_step (λ a', thread_attrs V a' = _) _ _ _ Hg). unfold wanted_thread. cbn [fst].
  pose proof (λ v, pl_setscope laws w1 a v) as Hs. rewrite Ha in Hs.
  destruct (fpx_bit_is_set params FPX_THREAD_SCOPE_SYSTEM); [apply Hs|].
  destruct (fpx_bit_is_set params FPX_THREAD_SCOPE_PROCESS); [apply Hs|apply skip_step].
  rewrite Ha. by destruct (default_attrs V) as [[? ?] ?].
Qed.
Lemma detach_step w w1 a params stack : going w w1 →
  thread_attrs V a = ((wanted_thread params stack).1.1, (default_attrs V).1.2, (default_attrs V).2) →
  let r := if fpx_bit_is_set params FPX_THREAD_CREATE_DETACHED then pt_attr_setdetachstate w1 a PTHREAD_CREATE_DETACHED
           else if fpx_bit_is_set params FPX_THREAD_CREATE_JOINABLE then pt_attr_setdetachstate w1 a PTHREAD_CREATE_JOINABLE
           else (0, a, w1) in
  if r.1.1 =? 0 then going w r.2 ∧ thread_attrs V r.1.2 = ((wanted_thread params stack).1, (default_attrs V).2)
  else stopped w r.2.
Proof using laws.
  intros Hg Ha. apply (sets_step (λ a', thread_attrs V a' = _) _ _ _ Hg). unfold wanted_thread in *. cbn [fst] in *.
  pose proof (λ v, pl_setdetachstate laws w1 a v) as Hs. rewrite Ha in Hs.
  destruct (fpx_bit_is_set params FPX_THREAD_CREATE_DETACHED); [apply Hs|].
  destruct (fpx_bit_is_set params FPX_THREAD_CREATE_JOINABLE); [apply Hs|by apply skip_step].
Qed.
Lemma stack_step w w1 a params stack : going w w1 →
  thread_attrs V a = ((wanted_thread params stack).1, (default_attrs V).2) →
  let r := if negb (stack =? 0) then pt_attr_setstacksize w1 a stack else (0, a, w1) in
  if r.1.1 =? 0 then going w r.2 ∧ thread_attrs V r.1.2 = wanted_thread params stack else stopped w r.2.
Proof using laws.
  intros Hg Ha. apply (sets_step (λ a', thread_attrs V a' = _) _ _ _ Hg). unfold wanted_thread in *. cbn [fst] in *.
  pose proof (pl_setstacksize laws w1 a stack) as Hs. rewrite Ha in Hs.
  destruct (stack =? 0); cbn [negb]; [by apply skip_step|apply Hs].
Qed.

(** The attribute object of a mutex is destroyed after a call that was refused. *)
Lemma mutex_stopped w w1 a : stopped w w1 →
  let w' := pt_mutexattr_destroy w1 a in
  live V w' = live V w ∧ threads V w' = threads V w ∧
  refused V w' = S (refused V w) ∧ pt_errno w1 = pt_errno w ∧ made V w' = made V w.
Proof using laws.
  intros ((E1 & E2 & E3) & Hr & Hl). destruct (pl_mutexattr_destroy laws w1 a) as ((F1 & F2 & F3) & G & L).
  cbv zeta. rewrite L, Hl. split_and!; (done || congruence).
Qed.

Lemma mutex_init_outcome w m params :
  let '(err, w') := fpx_mutex_init w m params in
  live V w' = live V w ∧ threads V w' = threads V w ∧
  (refused V w' = refused V w ∧ err = FPX_OK ∧ made V w' = <[m := wanted params]> (made V w) ∨
   refused V w' = S (refused V w) ∧ err = pt_errno w ∧ made V w' = made V w).
Proof using laws.
  assert (∀ w1 a, stopped w w1 → let '(err, w') := (pt_errno w1, pt_mutexattr_destroy w1 a) in
    live V w' = live V w ∧ threads V w' = threads V w ∧
    (refused V w' = refused V w ∧ err = FPX_OK ∧ made V w' = <[m := wanted params]> (made V w) ∨
     refused V w' = S (refused V w) ∧ err = pt_errno w ∧ made V w' = made V w)) as Hfail
    by (intros w1 a Hs; destruct (mutex_stopped w w1 a Hs) as (? & ? & ?); split; [done|]; split; [done|by right]).
  unfold fpx_mutex_init. pose proof (pl_mutexattr_init laws w) as Hi.
  destruct (pt_mutexattr_init w) as [[r a] w1]. destruct Hi as (Hq1 & Hc1 & Hl1 & Ha1). unfold counted in Hc1.
  destruct (Z.eqb_spec r 0) as [E|E]; cbn [negb].
  2: { destruct Hq1 as (-> & -> & ->). split; [done|]. split; [done|]. by right. }
  pose proof (sharing_step w w1 a params (conj Hq1 (conj Hc1 Hl1)) (Ha1 E)) as H2.
  destruct (if fpx_bit_is_set params FPX_MUTEX_SHARED then _ else _) as [[r2 a2] w2]. cbn [fst snd] in H2.
  destruct (r2 =? 0); cbn [negb]; [|by apply Hfail]. destruct H2 as [G2 Ha2]. pose proof (type_step w w2 a2 params G2 Ha2) as H3.
  destruct (if fpx_bit_is_set params FPX_MUTEX_RECURSIVE then _ else _) as [[r3 a3] w3]. cbn [fst snd] in H3.
  destruct (r3 =? 0); cbn [negb]; [|by apply Hfail]. destruct H3 as (((Q1 & Q2 & Q3) & Hr3 & Hl3) & Ha3).
  pose proof (pl_mutex_init laws w3 m a3) as Hinit. destruct (pt_mutex_init w3 m a3) as [r4 w4].
  destruct Hinit as (He4 & Ht4 & Hl4 & Hc4 & Hm4). unfold counted in Hc4. destruct (r4 =? 0); cbn [negb].
  - destruct (pl_mutexattr_destroy laws w4 a3) as ((F1 & F2 & F3) & G & L). split; [rewrite L, Hl4, Hl3; done|].
    split; [congruence|]. left. split; [congruence|]. split; [done|]. by rewrite F2, Hm4, Ha3, Q2.
  - apply Hfail. split; [split_and!; congruence|]. split; congruence.
Qed.

Lemma thread_init_outcome w t params stack prio f x :
  let '(err, w') := fpx_thread_init w t params stack prio f x in
  made V w' = made V w ∧
  (refused V w' = refused V w ∧ err = FPX_OK ∧ live V w' = live V w ∧
     threads V w' = <[t := (wanted_thread params stack, (f, x))]> (threads V w) ∨
   refused V w' = S (refused V w) ∧ err = pt_errno w ∧ threads V w' = threads V w ∧
     live V w' = if (pt_attr_init w).1.1 =? 0 then S (live V w) else live V w).
Proof using laws.
  unfold fpx_thread_init. pose proof (pl_attr_init laws w) as Hi.
  destruct (pt_attr_init w) as [[r a] w1]. destruct Hi as (Hq1 & Hc1 & Hl1 & Ha1). unfold counted in Hc1. cbn [fst].
  destruct (Z.eqb_spec r 0) as [E|E]; cbn [negb].
  2: { destruct Hq1 as (-> & -> & ->). split; [done|]. by right. }
  assert (∀ w2, stopped w w2 → let '(err, w') := (pt_errno w2, w2) in made V w' = made V w ∧
    (refused V w' = refused V w ∧ err = FPX_OK ∧ live V w' = live V w ∧
       threads V w' = <[t := (wanted_thread params stack, (f, x))]> (threads V w) ∨
     refused V w' = S (refused V w) ∧ err = pt_errno w ∧ threads V w' = threads V w ∧ live V w' = S (live V w))) as Hfail
    by (intros w2 ((-> & -> & ->) & -> & ->); split; [done|by right]).
  pose proof (scope_step w w1 a params stack (conj Hq1 (conj Hc1 Hl1)) (Ha1 E)) as H2.
  destruct (if fpx_bit_is_set params FPX_THREAD_SCOPE_SYSTEM then _ else _) as [[r2 a2] w2]. cbn [fst snd] in H2.
  destruct (r2 =? 0); cbn [negb]; [|by apply Hfail]. destruct H2 as [G2 Ha2].
  pose proof (detach_step w w2 a2 params stack G2 Ha2) as H3.
  destruct (if fpx_bit_is_set params FPX_THREAD_CREATE_DETACHED then _ else _) as [[r3 a3] w3]. cbn [fst snd] in H3.
  destruct (r3 =? 0); cbn [negb]; [|by apply Hfail]. destruct H3 as [G3 Ha3].
  pose proof (stack_step w w3 a3 params stack G3 Ha3) as H4.
  destruct (if negb (stack =? 0) then _ else _) as [[r4 a4] w4]. cbn [fst snd] in H4.
  destruct (r4 =? 0); cbn [negb]; [|by apply Hfail]. destruct H4 as (((Q1 & Q2 & Q3) & Hr4 & Hl4) & Ha4).
  pose proof (pl_create laws w4 t a4 f x) as Hc. destruct (pt_create w4 t a4 f x) as [r5 w5].
  destruct Hc as (He5 & Hm5 & Hl5 & Hc5 & Ht5). unfold counted in Hc5. destruct (r5 =? 0); cbn [negb].
  - pose proof (pl_attr_destroy laws w5 a4) as Hd. destruct (pt_attr_destroy w5 a4) as [r6 w6].
    destruct Hd as ((F1 & F2 & F3) & G & L). split; [congruence|]. left. split; [congruence|]. split; [done|].
    split; [by rewrite L, Hl5, Hl4|]. by rewrite F3, Ht5, Ha4, Q3.
  - apply Hfail. split; [split_and!; congruence|]. split; congruence.
Qed.

(** C40: Creating mutexes and threads.  As long as the system refuses none of their calls,
    [fpx_mutex_init] answers [FPX_OK] and has created the one mutex it was given, with the
    type and the sharing that were asked for, and [fpx_thread_init] answers [FPX_OK] and
    has started the one thread it was given, with the function, the argument and the
    attributes that were asked for; neither leaves an attribute object.  When a call is
    refused nothing is created or started; [fpx_mutex_init] destroys its attribute object
    then, and [fpx_thread_init] loses it.  The error of both is [errno] as it was before,
    because the functions of [pthread.h] do not set it: with a clear [errno] every failure
    is reported as [FPX_OK]. *)
Theorem sync_init_outcomes w m params t stack prio f x :
  (let '(err, w') := fpx_mutex_init w m params in
   live V w' = live V w ∧ threads V w' = threads V w ∧
   if decide (refused V w' = refused V w)
   then err = FPX_OK ∧ made V w' = <[m := wanted params]> (made V w)
   else err = pt_errno w ∧ made V w' = made V w) ∧
  (let '(err, w') := fpx_thread_init w t params stack prio f x in
   made V w' = made V w ∧
   if decide (refused V w' = refused V w)
   then err = FPX_OK ∧ threads V w' = <[t := (wanted_thread params stack, (f, x))]> (threads V w) ∧ live V w' = live V w
   else err = pt_errno w ∧ threads V w' = threads V w ∧
        live V w' = if (pt_attr_init w).1.1 =? 0 then S (live V w) else live V w).
Proof using laws.
  split.
  - pose proof (mutex_init_outcome w m params) as Hm. destruct (fpx_mutex_init w m params) as [err w'].
    destruct Hm as (Hl & Ht & [(Hr & He & Hm)|(Hr & He & Hm)]); (split; [done|split; [done|]]); case_decide; by try lia.
  - pose proof (thread_init_outcome w t params stack prio f x) as Ht.
    destruct (fpx_thread_init w t params stack prio f x) as [err w'].
    destruct Ht as (Hm & [(Hr & He & Hl & Ht)|(Hr & He & Ht & Hl)]); (split; [done|]); case_decide; by try lia.
Qed.
End PthreadLaws.

(** A system with room for [room] mutexes and threads. *)
Record world := World {
  wd_errno : Z; wd_live : nat; wd_mutexes : gmap Z (Z * Z); wd_threads : gmap Z (Z * Z * Z * (Z * Z)); wd_refused : nat
}.
Definition with_live (w : world) (n : nat) : world := World (wd_errno w) n (wd_mutexes w) (wd_threads w) (wd_refused w).
Definition refuse (w : world) : world :=
  World (wd_errno w) (wd_live w) (wd_mutexes w) (wd_threads w) (S (wd_refused w)).
Definition has_room (room : nat) (w : world) : bool := bool_decide (size (wd_mutexes w) + size (wd_threads w) < room)%nat.
Definition world_pthreads (room : nat) : Pthreads world (Z * Z * Z) := {|
  pt_errno := wd_errno;
  pt_mutexattr_init w := (0, (0, 0, 0), with_live w (S (wd_live w)));
  pt_mutexattr_setpshared w a v := (0, (a.1.1, v, a.2), w);
  pt_mutexattr_settype w a v := (0, (v, a.1.2, a.2), w); pt_mutexattr_destroy w a := with_live w (pred (wd_live w));
  pt_mutex_init w m a :=
    if has_room room w then (0, World (wd_errno w) (wd_live w) (<[m := a.1]> (wd_mutexes w)) (wd_threads w) (wd_refused w))
    else (11, refuse w);
  pt_mutex_lock w m := (22, w); pt_mutex_trylock w m := (22, w);
  pt_mutex_unlock w m := (22, w); pt_mutex_destroy w m := (22, w); pt_sem_init w s p v := (0, w);
  pt_sem_wait w s := (0, w); pt_sem_trywait w s := (0, w); pt_sem_post w s := (0, w); pt_sem_destroy w s := (0, w);
  pt_attr_init w := (0, (0, 0, 8192), with_live w (S (wd_live w)));
  pt_attr_setscope w a v := (0, (v, a.1.2, a.2), w);
  pt_attr_setdetachstate w a v := (0, (a.1.1, v, a.2), w); pt_attr_setstacksize w a v := (0, (a.1, v), w);
  pt_attr_destroy w a := (0, with_live w (pred (wd_live w)));
  pt_create w t a f x :=
    if has_room room w then (0, World (wd_errno w) (wd_live w) (wd_mutexes w) (<[t := (a, (f, x))]> (wd_threads w)) (wd_refused w))
    else (11, refuse w);
  pt_join w t := (3, w); pt_cancel w t := (3, w); pt_gettid w := 1
|}.
Definition world_view : pthread_view world (Z * Z * Z) :=
  PthreadView _ _ wd_live wd_mutexes wd_threads wd_refused fst id (0, 0, 8192).
Lemma world_laws room : pthread_laws (H := world_pthreads room) world_view.
Proof.
  split; intros; cbn; try done; try (by destruct a as [[? ?] ?]).
  all: by destruct (has_room room w).
Qed.

(** With room: a recursive mutex and a joinable thread with a stack of its own.  Without:
    both failures are reported as success, and an attribute object is lost. *)
Lemma sync_init_outcomes_witness :
  let w := World 0 0 ∅ ∅ 0 in
  (∃ w', fpx_mutex_init (H := world_pthreads 1) w 64 (Z.lor FPX_MUTEX_PRIVATE FPX_MUTEX_RECURSIVE) = (FPX_OK, w') ∧
     wd_mutexes w' = {[64 := (PTHREAD_MUTEX_RECURSIVE, PTHREAD_PROCESS_PRIVATE)]}) ∧
  (∃ w', fpx_thread_init (H := world_pthreads 1) w 64 FPX_THREAD_CREATE_DETACHED 4096 0 1 2 = (FPX_OK, w') ∧
     wd_threads w' = {[64 := (0, PTHREAD_CREATE_DETACHED, 4096, (1, 2))]} ∧ wd_live w' = 0%nat) ∧
  (∃ w', fpx_mutex_init (H := world_pthreads 0) w 64 FPX_MUTEX_PRIVATE = (FPX_OK, w') ∧ wd_mutexes w' = ∅) ∧
  (∃ w', fpx_thread_init (H := world_pthreads 0) w 64 FPX_THREAD_CREATE_JOINABLE 0 0 1 2 = (FPX_OK, w') ∧
     wd_threads w' = ∅ ∧ wd_live w' = 1%nat).
Proof.
  intros w. pose proof (λ room, sync_init_outcomes (H := world_pthreads room) world_view (world_laws room) w 64) as Hthm.
  split; [|split; [|split]]; (eexists; split; [vm_compute; reflexivity|]).
  - destruct (Hthm 1%nat (Z.lor FPX_MUTEX_PRIVATE FPX_MUTEX_RECURSIVE) 64 0 0 1 2) as [(_ & _ & _ & Hm) _]. exact Hm.
  - destruct (Hthm 1%nat FPX_THREAD_CREATE_DETACHED 64 4096 0 1 2) as [_ (_ & _ & Ht & Hl)]. split; [exact Ht|exact Hl].
  - destruct (Hthm 0%nat FPX_MUTEX_PRIVATE 64 0 0 1 2) as [(_ & _ & _ & Hm) _]. exact Hm.
  - destruct (Hthm 0%nat FPX_THREAD_CREATE_JOINABLE 64 0 0 1 2) as [_ (_ & _ & Ht & Hl)]. split; [exact Ht|exact Hl].
Defined.
