(* ===== verification/Util.v ===== *)
(** * The small parts: [src/src/algo/array.c], [src/src/system/dso.c],
      [src/src/system/time.c], [src/src/system/cpuinfo.c], [src/src/system/signal.c] *)

From S2P Require Import Prelude CInt Errno Str.
Open Scope Z_scope.

(** ** Arrays

    [a_data] is the block the array points to, with its bytes; [None] is [NULL]. *)
Record fpx_array_t := Array {
  a_data : option (list Z);
  a_size : Z;
  a_total : Z;
  a_current : Z
}.
Definition SIZEOF_ARRAY : Z := 32.

(** [memcpy] of [n] bytes from the object [src] to offset [off] of a block. *)
Definition store_bytes (block src : list Z) (off n : Z) : res (list Z) :=
  _ ← require ((0 <=? n) && (n <=? Z.of_nat (length src)) && (0 <=? off) && (off + n <=? Z.of_nat (length block)));
  Ok (take (Z.to_nat off) block ++ take (Z.to_nat n) src ++ drop (Z.to_nat (off + n)) block).

Section Arrays.
Context {P : Type} `{PoolAlloc P}.
(** Neither of the two allocations is tested: the fields are written through the
    first, the second becomes the data.  [fpx_pcalloc] clears what it answers. *)
Definition fpx_array_init (pool : P) (size n : Z) : res (fpx_array_t * P) :=
  '(array, pool) ← palloc pool SIZEOF_ARRAY;
  '(data, pool) ← palloc pool (u64 (size * n));
  _ ← of_option array;
  Ok (Array ((λ _, replicate (Z.to_nat (u64 (size * n))) 0) <$> data) size n 0, pool).
End Arrays.

Definition fpx_array_push (array : fpx_array_t) (data : list Z) : res (fpx_err_t * fpx_array_t) :=
  if a_total array <=? a_current array then Ok (FPX_FAILED, array) else
  block ← of_option (a_data array);
  block ← store_bytes block data (u64 (a_current array * a_size array)) (a_size array);
  Ok (FPX_OK, Array (Some block) (u64 (a_size array + 1)) (a_total array) (a_current array)).
Definition fpx_array_clear (array : fpx_array_t) : fpx_array_t :=
  Array None (a_size array) (a_total array) 0.

(** ** [fpx_dlerror]

    [str] is what [dlerror] answers, with its terminator; the result is the buffer. *)
Definition fpx_dlerror (str : option chars) (buf : chars) (bufsize : Z) : res chars :=
  let str := match str with None => [0] | Some s => s end in
  len ← fpx_strlen str;
  if len <? bufsize then
    buf ← store_bytes buf str 0 len;
    store_bytes buf [0] len 1
  else
    buf ← store_bytes buf str 0 bufsize;
    store_bytes buf [0] (u64 (bufsize - 1)) 1.

(** ** Time, processors, signals *)

(** On Windows: hundreds of nanoseconds since 1601 in two words, to the seconds and
    microseconds since 1970; [long] has 32 bits there. *)
Definition fpx_gettimeofday (high low : Z) : Z * Z :=
  let intervals := Z.lor (u64 (Z.shiftl high 32)) low in
  let intervals := u64 (intervals - 116444736000000000) in
  (s32 (intervals / 10000000), s32 ((intervals mod 10000000) / 10)).

(** [ncpus] is the answer of [sysconf], an [int] after its conversion. *)
Definition fpx_get_number_cpu (ncpus : Z) : Z :=
  let ncpus := s32 ncpus in
  u32 (if ncpus <=? 0 then 1 else ncpus).

(** The two functions of signal.c in their POSIX variant, with [errno] after a
    call that fails.  [killed] is the answer of [pthread_kill]; [ms * 1000] is
    computed in the 64 bits of [fpx_msec_t], and the parameter of [usleep] has 32. *)
Definition fpx_send_wakeup_signal (killed : Z) (errno : fpx_err_t) : fpx_err_t :=
  if negb (killed =? 0) then errno else FPX_OK.
Definition fpx_wait_wakeup_signal (usleep : Z → Z) (ms : Z) (errno : fpx_err_t) : fpx_err_t :=
  if negb (usleep (u32 (u64 (ms * 1000))) =? 0) then errno else FPX_OK.

(** The same in their Windows variant.  [posted] and [timer] are the answers of
    [PostThreadMessageA] and [SetTimer]; each call of [GetMessage] gives its answer
    and the message that [msg] then holds.  [None]: the thread still waits when
    these calls are made. *)
Definition WM_TIMER : Z := 0x0113.
Definition fpx_send_wakeup_signal_win32 (posted : Z) (errno : fpx_err_t) : fpx_err_t :=
  if posted =? 0 then errno else FPX_OK.
Fixpoint wait_messages (calls : list (Z * Z)) : option fpx_err_t :=
  match calls with
  | [] => None
  | (got, message) :: calls =>
      if negb (got =? 0) && (message =? WM_TIMER) then Some FPX_OK else wait_messages calls
  end.
Definition fpx_wait_wakeup_signal_win32 (timer : Z) (errno : fpx_err_t)
    (calls : list (Z * Z)) : option fpx_err_t :=
  if timer =? 0 then Some errno else wait_messages calls.

(** ** Lemmas *)
Lemma store_bytes_ok block src off n :
  0 ≤ off → 0 ≤ n ≤ Z.of_nat (length src) → off + n ≤ Z.of_nat (length block) →
  store_bytes block src off n =
    Ok (take (Z.to_nat off) block ++ take (Z.to_nat n) src ++ drop (Z.to_nat (off + n)) block).
Proof. intros. unfold store_bytes. destruct (_ && _) eqn:E; [done|lia]. Qed.

(** At least one processor. *)
Lemma number_cpu_pos n : 1 ≤ fpx_get_number_cpu n < 2 ^ 31.
Proof.
  unfold fpx_get_number_cpu. pose proof (s32_range n). destruct (Z.leb_spec (s32 n) 0); [done|].
  rewrite u32_small; lia.
Qed.

(** The time of day is exact from 1970 to 2038. *)
Lemma gettimeofday_exact high low :
  0 ≤ low < 2 ^ 32 → 0 ≤ high < 2 ^ 32 →
  let us := (high * 2 ^ 32 + low - 116444736000000000) / 10 in
  0 ≤ us < 2 ^ 31 * 1000000 →
  let '(sec, usec) := fpx_gettimeofday high low in sec * 1000000 + usec = us ∧ 0 ≤ usec < 1000000.
Proof.
  intros Hl Hh us Hus. unfold fpx_gettimeofday.
  assert (Z.lor (u64 (Z.shiftl high 32)) low = high * 2 ^ 32 + low) as ->.
  { rewrite Z.shiftl_mul_pow2 by lia. rewrite u64_small by lia.
    rewrite <- Z.add_lor_land. replace (Z.land (high * 2 ^ 32) low) with 0; [lia|].
    symmetry. apply Z.bits_inj'. intros n Hn. rewrite Z.land_spec, Z.bits_0.
    destruct (Z_lt_le_dec n 32).
    - by rewrite Z.mul_pow2_bits_low by lia.
    - rewrite <- (Z.mod_small low (2 ^ 32)) by lia. by rewrite Z.mod_pow2_bits_high, andb_false_r by lia. }
  set (i := high * 2 ^ 32 + low - 116444736000000000) in *.
  assert (0 ≤ i < 2 ^ 64) as Hi by (unfold us in *; pose proof (Z.div_mod i 10); pose proof (Z.mod_pos_bound i 10); lia).
  rewrite (u64_small i) by lia.
  pose proof (Z.div_mod i 10 ltac:(lia)). pose proof (Z.mod_pos_bound i 10 ltac:(lia)).
  pose proof (Z.div_mod i 10000000 ltac:(lia)). pose proof (Z.mod_pos_bound i 10000000 ltac:(lia)) as Hm.
  pose proof (Z.div_mod (i mod 10000000) 10 ltac:(lia)). pose proof (Z.mod_pos_bound (i mod 10000000) 10 ltac:(lia)).
  rewrite !s32_small; unfold us in *; lia.
Qed.

(** The time that is slept is the time asked for up to 71 minutes; at 4294968
    milliseconds it starts again, with 704 microseconds. *)
Lemma wait_wakeup_exact usleep ms errno :
  0 ≤ ms ≤ 4294967 →
  fpx_wait_wakeup_signal usleep ms errno = if usleep (ms * 1000) =? 0 then FPX_OK else errno.
Proof.
  intros Hms. unfold fpx_wait_wakeup_signal. rewrite u64_small, u32_small by lia. by destruct (usleep _ =? 0).
Qed.
Lemma wait_wakeup_wraps usleep errno :
  fpx_wait_wakeup_signal usleep 4294968 errno = if usleep 704 =? 0 then FPX_OK else errno.
Proof.
  unfold fpx_wait_wakeup_signal. change (u32 (u64 (4294968 * 1000))) with 704. by destruct (usleep _ =? 0).
Qed.

(** A thread waits on Windows until a timer message arrives, and passes over every
    other answer of [GetMessage], the 0 of a thread that is asked to end and the -1
    of an error included. *)
Lemma wait_wakeup_win32_spec timer errno calls :
  timer ≠ 0 →
  fpx_wait_wakeup_signal_win32 timer errno calls = Some FPX_OK ↔
  ∃ got, (got, WM_TIMER) ∈ calls ∧ got ≠ 0.
Proof.
  intros Ht. unfold fpx_wait_wakeup_signal_win32. rewrite (proj2 (Z.eqb_neq _ _) Ht).
  induction calls as [|[got message] calls IH]; simpl.
  { set_solver. }
  destruct (Z.eqb_spec got 0), (Z.eqb_spec message WM_TIMER); simpl; rewrite ?IH; set_solver.
Qed.

(** ** Properties *)

(** Arrays.  The first element that is pushed is stored at the front and counted
    in the wrong field: the number of elements stays 0 and the element size grows by
    one, so that the array never fills, and the next push of an element of the
    declared size reads behind it.  After [fpx_array_clear] a push writes through a
    null pointer, and the block of an array whose size does not fit 64 bits is too
    small. *)
Theorem array_push {P} `{PoolAlloc P} (pool pool1 pool2 : P) size n a1 a2 e1 e2 :
  palloc pool SIZEOF_ARRAY = Ok (Some a1, pool1) → palloc pool1 (u64 (size * n)) = Ok (Some a2, pool2) →
  0 < size < 2 ^ 64 - 1 → 0 < n →
  Z.of_nat (length e1) = size → Z.of_nat (length e2) = size →
  ∃ array, fpx_array_init pool size n = Ok (array, pool2) ∧
    (size * n < 2 ^ 64 →
     ∃ array1, fpx_array_push array e1 = Ok (FPX_OK, array1) ∧
       a_data array1 = Some (e1 ++ replicate (Z.to_nat (size * (n - 1))) 0) ∧
       a_current array1 = 0 ∧ a_size array1 = size + 1 ∧
       fpx_array_push array1 e2 = UB) ∧
    fpx_array_push (fpx_array_clear array) e1 = UB ∧
    (u64 (size * n) < size → fpx_array_push array e1 = UB).
Proof.
  intros Hp1 Hp2 Hs Hn He1 He2. unfold fpx_array_init. rewrite Hp1, bind_ok, Hp2, bind_ok. cbn [of_option fmap option_fmap option_map].
  rewrite bind_ok. eexists. split; [done|]. split; [|split].
  - intros Hfit. rewrite (u64_small (size * n)) by lia. unfold fpx_array_push at 1. cbn [a_total a_current a_data a_size of_option].
    rewrite (proj2 (Z.leb_gt n 0)) by lia. rewrite bind_ok. change (u64 (0 * size)) with 0.
    rewrite store_bytes_ok by (rewrite ?length_replicate; nia). rewrite bind_ok. eexists. split; [done|].
    cbn [a_data a_current a_size]. split.
    { f_equal. change (Z.to_nat 0) with O. rewrite take_0, app_nil_l, drop_replicate.
      rewrite take_ge by lia. do 2 f_equal. rewrite Z.mul_sub_distr_l. lia. }
    split; [done|]. rewrite u64_small by lia. split; [done|].
    unfold fpx_array_push. cbn [a_total a_current a_data a_size of_option]. rewrite (proj2 (Z.leb_gt n 0)) by lia.
    rewrite bind_ok. unfold store_bytes. destruct (_ && _) eqn:E; [lia|done].
  - unfold fpx_array_push, fpx_array_clear. cbn [a_total a_current a_data]. by rewrite (proj2 (Z.leb_gt n 0)) by lia.
  - intros Hsmall. unfold fpx_array_push. cbn [a_total a_current a_data a_size of_option].
    rewrite (proj2 (Z.leb_gt n 0)) by lia. rewrite bind_ok. unfold store_bytes. rewrite length_replicate.
    pose proof (u64_range (size * n)). change (u64 (0 * size)) with 0. revert Hsmall H0. generalize (u64 (size * n)) as x.
    intros x Hsmall Hx. destruct (_ && _) eqn:E; [apply andb_true_iff in E as [_ E]; apply Z.leb_le in E; rewrite Z2Nat.id in E by lia; lia|done].
Qed.

Lemma array_push_witness :
  let init := fpx_array_init (P := Z) (H := λ p n, Ok (Some p, p + n)) 4096 4 2 in
  ∃ array array1, init = Ok (array, 4096 + 32 + 8) ∧ fpx_array_push array [1; 2; 3; 4] = Ok (FPX_OK, array1) ∧
    a_data array1 = Some [1; 2; 3; 4; 0; 0; 0; 0] ∧ fpx_array_push array1 [5; 6; 7; 8] = UB.
Proof.
  destruct (array_push (P := Z) (H := λ p n, Ok (Some p, p + n)) 4096 (4096 + 32) (4096 + 32 + 8) 4 2 4096 (4096 + 32)
    [1; 2; 3; 4] [5; 6; 7; 8]) as (array & Hi & Hpush & _); [reflexivity|reflexivity|lia|lia|reflexivity|reflexivity|].
  destruct Hpush as (array1 & H1 & H2 & _ & _ & H3); [lia|]. exists array, array1.
  split; [exact Hi|]. split; [exact H1|]. split; [exact H2|exact H3].
Defined.
